(** * Forward flash-attention kernels: a shallow embedding

    The development follows [csrc/flash_attn/src/flash_fwd_kernel.h]:
    the dense kernel [compute_attn_1rowblock], the split-K kernel
    [compute_attn_1rowblock_splitkv] and the reduction
    [combine_attn_seqk_parallel].

    Integers of the kernel ([int], [index_t]) are modelled as [Z]; every
    quantity is assumed to stay in range of its C++ type (signed overflow
    is undefined behaviour, there is no wrap-around to model).  The C++
    operator [/] on [int] truncates toward zero and is [Z.quot] here.

    Floating point values are modelled by [fp]: exact real arithmetic on
    finite values together with the IEEE special values the kernels rely
    on (the two infinities and NaN).  Rounding is not modelled. *)

From Stdlib Require Import ZArith Lia List Bool Reals Lra.
Import ListNotations.

Local Open Scope Z_scope.

(** ** Integer helpers *)

(** C++ [a / b] on [int]. *)
Definition cdiv (a b : Z) : Z := Z.quot a b.

(** [cute::ceil_div] of the CuTe library on two integers:
    [(a + b - 1) / b], evaluated with the C++ division. *)
Definition ceil_div (a b : Z) : Z := cdiv (a + b - 1) b.

(** Mathematical floor and ceiling of a quotient, used to state the
    specification's formulas. *)
Definition floor_quot (a b : Z) : Z := a / b.
Definition ceil_quot (a b : Z) : Z := - ((- a) / b).

(** ** Kernel traits, parameters and per-batch block information *)

(** The compile-time tile constants of [Kernel_traits]. *)
Record Kernel_traits := {
  kBlockM : Z;
  kBlockN : Z;
  kHeadDim : Z;
  kNWarps : Z
}.

(** Global memory seen through a typed pointer: element offset to value.
    Every element is a finite number (a tensor that holds an infinity or
    a NaN is outside the development), and every offset has a value: the
    extent of a tensor is not part of the memory, so that a load before
    or beyond a tensor returns what the memory holds there. *)
Definition gmem := Z -> R.

(** The fields of the kernel parameter structure that the three kernels
    read.  A null pointer is [None]. *)
Record Params := {
  p_b : Z;
  p_h : Z;
  p_h_h_k_ratio : Z;
  p_seqlen_q : Z;
  p_seqlen_k : Z;
  p_seqlen_knew : Z;
  p_d : Z;
  p_d_rounded : Z;
  q_ptr : gmem;
  k_ptr : gmem;
  v_ptr : gmem;
  knew_ptr : gmem;
  vnew_ptr : gmem;
  q_batch_stride : Z; q_row_stride : Z; q_head_stride : Z;
  k_batch_stride : Z; k_row_stride : Z; k_head_stride : Z;
  v_batch_stride : Z; v_row_stride : Z; v_head_stride : Z;
  knew_batch_stride : Z; knew_row_stride : Z; knew_head_stride : Z;
  vnew_batch_stride : Z; vnew_row_stride : Z; vnew_head_stride : Z;
  o_batch_stride : Z; o_row_stride : Z; o_head_stride : Z;
  rotary_cos_ptr : gmem;
  rotary_sin_ptr : gmem;
  window_size_left : Z;
  window_size_right : Z;
  scale_softmax : R;
  scale_softmax_log2 : R;
  rp_dropout : R;
  alibi_slopes_ptr : option (Z -> R);
  alibi_slopes_batch_stride : Z;
  rotary_dim : Z;
  is_rotary_interleaved : bool;
  num_splits : Z;
  block_table : option (Z -> Z);
  block_table_batch_stride : Z;
  page_block_size : Z;
  cache_batch_idx : option (Z -> Z);
  philox_seed : Z;
  philox_offset : Z
}.

(** [BlockInfo] lives in [block_info.h], which is not part of the
    sources; the kernels only use the five members below, which are taken
    as given. *)
Record BlockInfo := {
  actual_seqlen_q : Z;
  actual_seqlen_k : Z;
  seqlen_k_cache : Z;
  q_offset : Z -> Z -> Z -> Z;
  k_offset : Z -> Z -> Z -> Z
}.

(** ** The K/V tile range of the dense kernel (lines 75-83) *)

Definition n_block_min (Is_local : bool) (kt : Kernel_traits)
    (params : Params) (binfo : BlockInfo) (m_block : Z) : Z :=
  if negb Is_local then 0
  else Z.max 0 (cdiv (m_block * kBlockM kt + actual_seqlen_k binfo
                      - actual_seqlen_q binfo - window_size_left params)
                     (kBlockN kt)).

Definition n_block_max (Is_causal Is_local : bool) (kt : Kernel_traits)
    (params : Params) (binfo : BlockInfo) (m_block : Z) : Z :=
  let n_block_max := ceil_div (actual_seqlen_k binfo) (kBlockN kt) in
  if Is_causal || Is_local then
    Z.min n_block_max
          (ceil_div ((m_block + 1) * kBlockM kt + actual_seqlen_k binfo
                     - actual_seqlen_q binfo + window_size_right params)
                    (kBlockN kt))
  else n_block_max.

(** The range as the specification writes it (section 4.1), with the
    mathematical floor and ceiling. *)
Definition spec_n_min (Is_local : bool) (Br Bc q_tile sq sk wl : Z) : Z :=
  if Is_local then Z.max 0 (floor_quot (q_tile * Br + sk - sq - wl) Bc)
  else 0.

Definition spec_n_max (Is_causal Is_local : bool)
    (Br Bc q_tile sq sk wr : Z) : Z :=
  let n_max := ceil_quot sk Bc in
  if Is_causal || Is_local then
    Z.min n_max (ceil_quot ((q_tile + 1) * Br + sk - sq + wr) Bc)
  else n_max.

(** ** Grouped-query attention: the K/V head of a query head *)

(** The head term of every K/V offset: [bidh / params.h_h_k_ratio]. *)
Definition kv_head (params : Params) (bidh : Z) : Z :=
  cdiv bidh (p_h_h_k_ratio params).

(** [row_offset_k] and [row_offset_v] of the dense kernel (lines 150-155),
    for the tile [n_block_max - 1] the kernel starts from. *)
Definition dense_row_offset_k (kt : Kernel_traits) (params : Params)
    (binfo : BlockInfo) (bidb bidh n_block_max : Z) : Z :=
  k_offset binfo (k_batch_stride params) (k_row_stride params) bidb
  + (n_block_max - 1) * kBlockN kt * k_row_stride params
  + cdiv bidh (p_h_h_k_ratio params) * k_head_stride params.

Definition dense_row_offset_v (kt : Kernel_traits) (params : Params)
    (binfo : BlockInfo) (bidb bidh n_block_max : Z) : Z :=
  k_offset binfo (v_batch_stride params) (v_row_stride params) bidb
  + (n_block_max - 1) * kBlockN kt * v_row_stride params
  + cdiv bidh (p_h_h_k_ratio params) * v_head_stride params.

(** ** Floating point values *)

(** Exact reals with the IEEE special values.  [Fin x] is a finite
    value; comparisons with a NaN are false. *)
Inductive fp : Type :=
| NInf
| Fin (x : R)
| PInf
| NaN.

Local Open Scope R_scope.

Definition fneg (a : fp) : fp :=
  match a with
  | NInf => PInf
  | Fin x => Fin (- x)
  | PInf => NInf
  | NaN => NaN
  end.

Definition fadd (a b : fp) : fp :=
  match a, b with
  | NaN, _ | _, NaN => NaN
  | PInf, NInf | NInf, PInf => NaN
  | PInf, _ | _, PInf => PInf
  | NInf, _ | _, NInf => NInf
  | Fin x, Fin y => Fin (x + y)
  end.

Definition fsub (a b : fp) : fp := fadd a (fneg b).

(** The product of an infinity of sign [pos] with the finite [y]. *)
Definition inf_times (pos : bool) (y : R) : fp :=
  if Rlt_dec 0 y then (if pos then PInf else NInf)
  else if Rlt_dec y 0 then (if pos then NInf else PInf)
  else NaN.

Definition fmul (a b : fp) : fp :=
  match a, b with
  | NaN, _ | _, NaN => NaN
  | Fin x, Fin y => Fin (x * y)
  | PInf, Fin y | Fin y, PInf => inf_times true y
  | NInf, Fin y | Fin y, NInf => inf_times false y
  | PInf, PInf | NInf, NInf => PInf
  | PInf, NInf | NInf, PInf => NaN
  end.

(** [1.f / a]. *)
Definition finv (a : fp) : fp :=
  match a with
  | NaN => NaN
  | PInf | NInf => Fin 0
  | Fin x => if Req_dec_T x 0 then PInf else Fin (/ x)
  end.

(** [exp2f], [expf] and [logf]. *)
Definition fexp2 (a : fp) : fp :=
  match a with
  | NaN => NaN
  | NInf => Fin 0
  | PInf => PInf
  | Fin x => Fin (exp (x * ln 2))
  end.

Definition fexp (a : fp) : fp :=
  match a with
  | NaN => NaN
  | NInf => Fin 0
  | PInf => PInf
  | Fin x => Fin (exp x)
  end.

Definition flog (a : fp) : fp :=
  match a with
  | NaN | NInf => NaN
  | PInf => PInf
  | Fin x => if Req_dec_T x 0 then NInf
             else if Rlt_dec x 0 then NaN else Fin (ln x)
  end.

(** [max(x, y)] on [float]: a NaN operand is ignored. *)
Definition fmax (a b : fp) : fp :=
  match a, b with
  | NaN, y => y
  | x, NaN => x
  | PInf, _ | _, PInf => PInf
  | NInf, y => y
  | x, NInf => x
  | Fin x, Fin y => Fin (Rmax x y)
  end.

(** [x == -INFINITY], [x == 0.f] and [x != x]. *)
Definition is_ninf (a : fp) : bool :=
  match a with NInf => true | _ => false end.

Definition is_zero (a : fp) : bool :=
  match a with
  | Fin x => if Req_dec_T x 0 then true else false
  | _ => false
  end.

Definition is_nan (a : fp) : bool :=
  match a with NaN => true | _ => false end.

(** Sum and maximum of a register fragment, as the unrolled loops
    compute them. *)
Definition fsum (l : list fp) : fp := fold_left fadd l (Fin 0).

Definition fmax_list (init : fp) (l : list fp) : fp := fold_left fmax l init.

Local Close Scope R_scope.

(** The indices [0, 1, ..., n-1] of an unrolled loop. *)
Definition upto (n : Z) : list Z := map Z.of_nat (seq 0 (Z.to_nat n)).

(** ** Collaborators of the kernels *)

(** Modelled from the spec: [flash::copy<Is_even_MN, Is_even_K,
    Clear_OOB_MN, Clear_OOB_K = true>] is in [utils.h], which is not part
    of the sources.  "Out-of-range reads are guarded by element
    predicates": a row at or beyond [max_MN] is not read, it is zeroed
    when [Clear_OOB_MN] and otherwise the destination keeps its previous
    content [stale]; a column at or beyond [d] is zeroed.  The result is
    the destination element for row [row] and column [c] of the tile that
    starts at element offset [ptr]. *)
Definition copy_elt (Is_even_MN Is_even_K Clear_OOB_MN : bool)
    (src : gmem) (ptr row_stride : Z) (max_MN d : Z) (stale : fp)
    (row c : Z) : fp :=
  if Is_even_MN || (row <? max_MN) then
    if Is_even_K || (c <? d) then Fin (src (ptr + row * row_stride + c))
    else Fin 0%R
  else if Clear_OOB_MN then Fin 0%R else stale.

(** The tile products of [flash::gemm] and [flash::gemm_rs] for one
    accumulator element: starting from [acc], every product of a pair is
    added in turn. *)
Definition fma_fold (acc : fp) (l : list (fp * fp)) : fp :=
  fold_left (fun a p => fadd a (fmul (fst p) (snd p))) l acc.

(** The state of [flash::Mask], as the kernels construct it (line 318). *)
Record Mask := {
  max_seqlen_k : Z;
  max_seqlen_q : Z;
  mask_window_size_left : Z;
  mask_window_size_right : Z;
  alibi_slope : R
}.

(** Modelled from the spec: [Mask::apply_mask<Causal_mask, Is_even_MN>]
    is in [mask.h], which is not part of the sources.  Section 4.5, for
    the logit at absolute coordinates [(row_idx, col_idx)]: ALiBi adds
    [slope * (col - row_key_aligned)] with
    [row_key_aligned = row + Sk - Sq]; the causal rule masks
    [col > row + (Sk - Sq)]; the local rule masks
    [col < row + (Sk - Sq) - window_left] and, on the right, the columns
    beyond the causal bound moved by [window_right] (the bound the tile
    range of section 4.1 clamps with); the key-length rule masks
    [col >= actual_seqlen_k].  [Is_causal], [Is_local] and [Has_alibi] are
    the template arguments of the structure, [Causal_mask] and
    [Is_even_MN] those of the call. *)
Definition apply_mask (Is_causal Is_local Has_alibi : bool) (mask : Mask)
    (Causal_mask Is_even_MN : bool) (row_idx col_idx : Z) (s : fp) : fp :=
  let aligned := row_idx + max_seqlen_k mask - max_seqlen_q mask in
  if Causal_mask && (aligned <? col_idx) then NInf
  else if Is_local
          && ((col_idx <? aligned - mask_window_size_left mask)
              || (aligned + mask_window_size_right mask <? col_idx))
       then NInf
  else if negb Is_even_MN && (max_seqlen_k mask <=? col_idx) then NInf
  else if Has_alibi
       then fadd s (Fin (alibi_slope mask * IZR (col_idx - aligned))%R)
  else s.

(** The state of [flash::Softmax]: the running maximum and the running
    denominator of one row. *)
Record Softmax := {
  row_max : fp;
  row_sum : fp
}.

(** Modelled from the spec: [softmax.h] is not part of the sources.
    Section 4.4: the probability of a logit is
    [2^(S * log2_scale - m_new * log2_scale)]; [check_inf] guards a row
    whose maximum is still minus infinity by taking 0 in place of the
    maximum. *)
Definition guarded_max (Check_inf : bool) (m : fp) : fp :=
  if Check_inf && is_ninf m then Fin 0%R else m.

Definition scale_apply_exp2 (Check_inf : bool) (m : fp) (scale : R)
    (s : fp) : fp :=
  fexp2 (fsub (fmul s (Fin scale))
              (fmul (guarded_max Check_inf m) (Fin scale))).

(** Modelled from the spec: [Softmax::softmax_rescale_o<Is_first,
    Check_inf>] (sections 4.1 step 7 and 4.4).  The first call takes the
    maximum and the sum of its tile; a later call takes
    [new_m = max(old_m, row_max(S))], scales the running sum and the
    output accumulator by [2^((old_m - new_m) * log2_scale)] and adds the
    tile's probabilities.  The result is the new state, the tile of
    probabilities and the rescaled accumulator element. *)
Definition softmax_rescale_o (Is_first Check_inf : bool) (sm : Softmax)
    (acc_s : list fp) (acc_o : fp) (softmax_scale_log2 : R)
    : Softmax * list fp * fp :=
  if Is_first then
    let m := fmax_list NInf acc_s in
    let P := map (scale_apply_exp2 Check_inf m softmax_scale_log2) acc_s in
    ({| row_max := m; row_sum := fsum P |}, P, acc_o)
  else
    let m := fmax_list (row_max sm) acc_s in
    let scores_scale :=
      fexp2 (fmul (fsub (row_max sm) (guarded_max Check_inf m))
                  (Fin softmax_scale_log2)) in
    let P := map (scale_apply_exp2 Check_inf m softmax_scale_log2) acc_s in
    ({| row_max := m;
        row_sum := fadd (fmul (row_sum sm) scores_scale) (fsum P) |},
     P, fmul acc_o scores_scale).

(** Modelled from the spec: [Softmax::normalize_softmax_lse<Is_dropout,
    Split>] (section 4.4, finalize): the accumulator is divided by the
    denominator (and multiplied by [rp_dropout] when dropout is active)
    and the row's LSE is [m * scale + log(l)]; a row whose denominator is
    zero, all keys masked, keeps its accumulator and receives the
    sentinel, plus infinity on the dense path and minus infinity on the
    split-partial path (section 3).  The result is the LSE and the
    normalised accumulator element. *)
Definition normalize_softmax_lse (Is_dropout Split : bool) (sm : Softmax)
    (acc_o : fp) (softmax_scale rp_dropout : R) : fp * fp :=
  let sum := row_sum sm in
  let inv_sum := if is_zero sum then Fin 1%R else finv sum in
  let lse := if is_zero sum then (if Split then NInf else PInf)
             else fadd (fmul (row_max sm) (Fin softmax_scale)) (flog sum) in
  let scale := if Is_dropout then fmul inv_sum (Fin rp_dropout)
               else inv_sum in
  (lse, fmul acc_o scale).

(** Modelled from the spec: [Dropout::apply_dropout] is in [dropout.h],
    which is not part of the sources.  Section 4.6: a position is kept or
    dropped as a function of the seed, the offset, the batch, the head
    and the coordinates in the attention matrix; [keep] is that function
    for the seed, offset, batch and head of the block.  A dropped
    probability is zeroed (the compensation by [1/(1-p)] is the
    [rp_dropout] factor of finalize). *)
Definition apply_dropout (keep : Z -> Z -> bool) (row_idx col_idx : Z)
    (p : fp) : fp :=
  if keep row_idx col_idx then p else Fin 0%R.

(** ** The two loops over the K/V tiles *)

(** The per-batch view [params.block_table + bidb * block_table_batch_stride]
    (line 691). *)
Definition block_table_of (params : Params) (bidb : Z) : option (Z -> Z) :=
  match block_table params with
  | None => None
  | Some bt => Some (fun i => bt (bidb * block_table_batch_stride params + i))
  end.

(** Moving a K or V tile pointer from tile [n_cur] to tile [n_next]
    (lines 976-986 and 1013-1021; lines 346 and 378 of the dense kernel
    are the branch without a block table). *)
Definition advance_tile (kt : Kernel_traits) (params : Params)
    (bt : option (Z -> Z)) (batch_stride row_stride : Z)
    (n_cur n_next : Z) (ptr : Z) : Z :=
  match bt with
  | None => ptr + - (kBlockN kt * row_stride)
  | Some block_table =>
      let block_table_idx_cur := cdiv (n_cur * kBlockN kt) (page_block_size params) in
      let block_table_offset_cur :=
        n_cur * kBlockN kt - block_table_idx_cur * page_block_size params in
      let block_table_idx_next := cdiv (n_next * kBlockN kt) (page_block_size params) in
      let block_table_offset_next :=
        n_next * kBlockN kt - block_table_idx_next * page_block_size params in
      ptr + (block_table block_table_idx_next - block_table block_table_idx_cur)
            * batch_stride
          + (block_table_offset_next - block_table_offset_cur) * row_stride
  end.

(** [n_masking_steps] (lines 329-331 and 965-967). *)
Definition n_masking_steps (Is_causal Is_local Is_even_MN : bool)
    (kt : Kernel_traits) : Z :=
  if negb Is_causal && negb Is_local then 1
  else if Is_even_MN && Is_causal then ceil_div (kBlockM kt) (kBlockN kt)
  else ceil_div (kBlockM kt) (kBlockN kt) + 1.

(** What one thread carries across iterations, for the row [r] of the
    query tile and the column [c] of the head dimension: the tile index,
    the two tile pointers, the softmax state of the row and the output
    accumulator element. *)
Record attn_state := {
  n_block : Z;
  tKgK : Z;
  tVgV : Z;
  softmax : Softmax;
  acc_o : fp
}.

Section AttnLoops.

  (** Template arguments. *)
Variables Is_dropout Is_causal Is_local Has_alibi Is_even_MN Is_even_K : bool.
Variable kt : Kernel_traits.
Variable params : Params.
Variable binfo : BlockInfo.
  (** The block table of the batch, the K and V memory the loops read,
      the mask, the Q row in shared memory, the previous content of
      shared memory and the dropout pattern. *)
Variable bt : option (Z -> Z).
Variables k_mem v_mem : gmem.
Variable mask : Mask.
Variable sQ : Z -> fp.
Variable smem_ : Z -> Z -> fp.
Variable keep : Z -> Z -> bool.
Variables m_block r c : Z.
Variable n_block_min : Z.

  (** The pieces of one iteration (lines 335-442 and 969-1047 with
    masking, lines 446-500 and 1050-1103 without).  [first] is
    [masking_step == 0]. *)

(** Advance gV: the pointer of the V tile that the iteration copies to
    shared memory. *)
Definition iter_tVgV (first : bool) (st : attn_state) : Z :=
  if first then tVgV st
  else advance_tile kt params bt (v_batch_stride params)
                    (v_row_stride params) (n_block st + 1) (n_block st)
                    (tVgV st).

(** The V tile in shared memory; the first copy clears the rows beyond
    the keys. *)
Definition iter_sV (first : bool) (st : attn_state) (j : Z) : fp :=
  if first then
    copy_elt Is_even_MN Is_even_K true v_mem (iter_tVgV first st)
             (v_row_stride params)
             (actual_seqlen_k binfo - n_block st * kBlockN kt) (p_d params)
             (smem_ j c) j c
  else
    copy_elt true Is_even_K false v_mem (iter_tVgV first st)
             (v_row_stride params) 0 (p_d params) (smem_ j c) j c.

(** The K tile in shared memory: copied by the prologue for the first
    iteration, by the previous iteration otherwise. *)
Definition iter_sK (first : bool) (st : attn_state) (j cc : Z) : fp :=
  if first then
    copy_elt Is_even_MN Is_even_K false k_mem (tKgK st) (k_row_stride params)
             (actual_seqlen_k binfo - n_block st * kBlockN kt) (p_d params)
             (smem_ j cc) j cc
  else
    copy_elt true Is_even_K false k_mem (tKgK st) (k_row_stride params)
             0 (p_d params) (smem_ j cc) j cc.

(** [acc_s]: the row of [Q K^T] for the tile, then the mask.  The call
    of an iteration without masking passes [Causal_mask = false] and
    leaves out the key-length rule. *)
Definition iter_acc_s (masking first : bool) (st : attn_state) : list fp :=
  map (fun j =>
         apply_mask Is_causal Is_local Has_alibi mask
           (masking && Is_causal) (if masking then Is_even_MN else true)
           (m_block * kBlockM kt + r) (n_block st * kBlockN kt + j)
           (fma_fold (Fin 0%R)
              (map (fun cc => (sQ cc, iter_sK first st j cc))
                   (upto (kHeadDim kt)))))
      (upto (kBlockN kt)).

(** Advance gK: the pointer of the K tile of the next iteration. *)
Definition iter_tKgK (st : attn_state) : Z :=
  if n_block_min <? n_block st then
    advance_tile kt params bt (k_batch_stride params) (k_row_stride params)
                 (n_block st) (n_block st - 1) (tKgK st)
  else tKgK st.

(** One iteration: the softmax update of the row and [acc_o += P V]. *)
Definition attn_iter (masking first Check_inf : bool) (st : attn_state)
    : attn_state :=
  let '(sm, P, acc_o1) :=
    softmax_rescale_o first Check_inf (softmax st)
                      (iter_acc_s masking first st) (acc_o st)
                      (scale_softmax_log2 params) in
  let rP :=
    if Is_dropout then
      map (fun jp => apply_dropout keep (m_block * kBlockM kt + r)
                       (n_block st * kBlockN kt + fst jp) (snd jp))
          (combine (upto (kBlockN kt)) P)
    else P in
  {| n_block := n_block st;
     tKgK := iter_tKgK st;
     tVgV := iter_tVgV first st;
     softmax := sm;
     acc_o := fma_fold acc_o1
                (combine rP (map (iter_sV first st) (upto (kBlockN kt)))) |}.

Definition dec_n_block (st : attn_state) : attn_state :=
    {| n_block := n_block st - 1; tKgK := tKgK st; tVgV := tVgV st;
       softmax := softmax st; acc_o := acc_o st |}.

  (** The loop [for (masking_step = 0; masking_step < n_masking_steps;
      ++masking_step, --n_block)] with its [break]; [steps] is the number
      of iterations that are left. *)
Fixpoint masking_loop (Check_inf : bool) (steps : nat) (first : bool)
      (st : attn_state) : attn_state :=
    match steps with
    | O => st
    | S steps' =>
        let st1 := attn_iter true first Check_inf st in
        if (1 <? n_masking_steps Is_causal Is_local Is_even_MN kt)
           && (n_block st1 <=? n_block_min)
        then dec_n_block st1
        else masking_loop Check_inf steps' false (dec_n_block st1)
    end.

  (** The loop [for (; n_block >= n_block_min; --n_block)]; it runs
      [n_block - n_block_min + 1] times, [steps] is that number. *)
Fixpoint interior_loop (Check_inf : bool) (steps : nat)
      (st : attn_state) : attn_state :=
    match steps with
    | O => st
    | S steps' =>
        interior_loop Check_inf steps'
          (dec_n_block (attn_iter false false Check_inf st))
    end.

  (** Both loops, from the state the prologue leaves. *)
Definition attn_loops (Check_inf_masking Check_inf_interior : bool)
      (st : attn_state) : attn_state :=
    let st1 :=
      masking_loop Check_inf_masking
        (Z.to_nat (n_masking_steps Is_causal Is_local Is_even_MN kt))
        true st in
    interior_loop Check_inf_interior
      (Z.to_nat (n_block st1 - n_block_min + 1)) st1.

End AttnLoops.

(** ** The dense kernel *)

(** A store to global memory: to [rng_state], or to the element at an
    offset of [o_ptr], [softmax_lse_ptr], [oaccum_ptr],
    [softmax_lseaccum_ptr], [k_ptr] or [v_ptr]. *)
Inductive store : Type :=
| StoreRngState (seed offset : Z)
| StoreO (off : Z) (v : fp)
| StoreLSE (off : Z) (v : fp)
| StoreOaccum (off : Z) (v : fp)
| StoreLSEaccum (off : Z) (v : fp)
| StoreK (off : Z) (v : R)
| StoreV (off : Z) (v : R).

(** The store of one element by [flash::copy<Is_even_MN, Is_even_K,
    false, false>] from registers to global memory: it is suppressed for a
    row at or beyond [max_MN] and for a column at or beyond [d]. *)
Definition store_elt (Is_even_MN Is_even_K : bool) (mk : Z -> fp -> store)
    (row_offset row_stride max_MN d r c : Z) (v : fp) : list store :=
  if (Is_even_MN || (r <? max_MN)) && (Is_even_K || (c <? d))
  then [mk (row_offset + r * row_stride + c) v]
  else [].

(** The store of the LSE of row [r] (lines 134, 556, 660 and 1162). *)
Definition store_lse (mk : Z -> fp -> store) (row_offset max_MN r : Z)
    (v : fp) : list store :=
  if r <? max_MN then [mk (row_offset + r) v] else [].

(** [alibi_slope] of the dense kernel (line 317). *)
Definition dense_alibi_slope (Has_alibi : bool) (params : Params)
    (bidb bidh : Z) : R :=
  match alibi_slopes_ptr params with
  | Some slopes =>
      if Has_alibi
      then Rdiv (slopes (bidb * alibi_slopes_batch_stride params + bidh))
                (scale_softmax params)
      else 0%R
  | None => 0%R
  end.

(** The softmax state before the first call of [softmax_rescale_o]: the
    constructor of [Softmax] leaves both members unset. *)
Definition softmax_unset : Softmax := {| row_max := NaN; row_sum := NaN |}.

(** [compute_attn_1rowblock] (lines 34-574), for the thread [tidx] of
    the block [blockIdx]: the stores it issues to [rng_state], to the
    element of O in row [r] and column [c] of the query tile, and to the
    LSE of that row, in program order.  This is the instantiation with
    [Return_softmax] off: the copies of the tile of probabilities to
    [p_ptr] that the source makes in both loops under [Return_softmax]
    (lines 401-412 and 483-491) are not part of it. *)
Definition compute_attn_1rowblock
    (Is_dropout Is_causal Is_local Has_alibi Is_even_MN Is_even_K : bool)
    (kt : Kernel_traits) (params : Params) (binfo : BlockInfo)
    (keep : Z -> Z -> bool) (smem_ : Z -> Z -> fp)
    (blockIdx : Z * Z * Z) (tidx : Z)
    (bidb bidh m_block : Z) (r c : Z) : list store :=
  let '(blockIdx_x, blockIdx_y, blockIdx_z) := blockIdx in
  (* Save seed and offset for backward, before any early exiting. *)
  let rng :=
    if Is_dropout && (blockIdx_x =? 0) && (blockIdx_y =? 0)
       && (blockIdx_z =? 0) && (tidx =? 0)
    then [StoreRngState (philox_seed params) (philox_offset params)]
    else [] in
  if actual_seqlen_q binfo <=? m_block * kBlockM kt then rng
  else
    let n_block_min := n_block_min Is_local kt params binfo m_block in
    let n_block_max := n_block_max Is_causal Is_local kt params binfo m_block in
    let row_offset_o :=
      q_offset binfo (o_batch_stride params) (o_row_stride params) bidb
      + m_block * kBlockM kt * o_row_stride params
      + bidh * o_head_stride params in
    let row_offset_lse :=
      (bidb * p_h params + bidh) * p_seqlen_q params + m_block * kBlockM kt in
    let max_MN := actual_seqlen_q binfo - m_block * kBlockM kt in
    if (Is_causal || Is_local || negb Is_even_MN)
       && (n_block_max <=? n_block_min)
    then
      (* We exit early and write 0 to gO and gLSE. *)
      rng
      ++ store_elt Is_even_MN Is_even_K StoreO row_offset_o
                   (o_row_stride params) max_MN (p_d params) r c (Fin 0%R)
      ++ store_lse StoreLSE row_offset_lse max_MN r PInf
    else
      let row_offset_q :=
        q_offset binfo (q_batch_stride params) (q_row_stride params) bidb
        + m_block * kBlockM kt * q_row_stride params
        + bidh * q_head_stride params in
      let row_offset_k := dense_row_offset_k kt params binfo bidb bidh n_block_max in
      let row_offset_v := dense_row_offset_v kt params binfo bidb bidh n_block_max in
      let sQ cc :=
        copy_elt Is_even_MN Is_even_K false (q_ptr params) row_offset_q
                 (q_row_stride params) max_MN (p_d params) (smem_ r cc) r cc in
      let mask :=
        {| max_seqlen_k := actual_seqlen_k binfo;
           max_seqlen_q := actual_seqlen_q binfo;
           mask_window_size_left := window_size_left params;
           mask_window_size_right := window_size_right params;
           alibi_slope := dense_alibi_slope Has_alibi params bidb bidh |} in
      let st0 :=
        {| n_block := n_block_max - 1; tKgK := row_offset_k;
           tVgV := row_offset_v; softmax := softmax_unset;
           acc_o := Fin 0%R |} in
      let st :=
        attn_loops Is_dropout Is_causal Is_local Has_alibi Is_even_MN
                   Is_even_K kt params binfo None (k_ptr params)
                   (v_ptr params) mask sQ smem_ keep m_block r c n_block_min
                   (Is_causal || Is_local) Is_local st0 in
      let '(lse, o) :=
        normalize_softmax_lse Is_dropout false (softmax st) (acc_o st)
                              (scale_softmax params) (rp_dropout params) in
      rng
      ++ store_lse StoreLSE row_offset_lse max_MN r lse
      ++ store_elt Is_even_MN Is_even_K StoreO row_offset_o
                   (o_row_stride params) max_MN (p_d params) r c o.

(** [compute_attn] (lines 1186-1206): the block indices select the query
    tile, the batch and the head. *)
Definition compute_attn
    (Is_dropout Is_causal Is_local Has_alibi Is_even_MN Is_even_K : bool)
    (kt : Kernel_traits) (params : Params) (binfo : Z -> BlockInfo)
    (keep : Z -> Z -> bool) (smem_ : Z -> Z -> fp)
    (blockIdx : Z * Z * Z) (tidx : Z) (r c : Z) : list store :=
  let '(m_block, bidb, bidh) := blockIdx in
  compute_attn_1rowblock Is_dropout Is_causal Is_local Has_alibi Is_even_MN
    Is_even_K kt params (binfo bidb) keep smem_ blockIdx tidx
    bidb bidh m_block r c.

(** ** The split-K kernel *)

(** The K/V tile range of one split (lines 611-621). *)
Definition n_blocks_per_split (kt : Kernel_traits) (params : Params)
    (num_n_splits : Z) : Z :=
  cdiv (cdiv (p_seqlen_k params + kBlockN kt - 1) (kBlockN kt)
        + num_n_splits - 1) num_n_splits.

Definition split_n_block_min (Is_local : bool) (kt : Kernel_traits)
    (params : Params) (binfo : BlockInfo)
    (m_block n_split_idx num_n_splits : Z) : Z :=
  if negb Is_local
  then n_split_idx * n_blocks_per_split kt params num_n_splits
  else Z.max (n_split_idx * n_blocks_per_split kt params num_n_splits)
             (cdiv (m_block * kBlockM kt + actual_seqlen_k binfo
                    - actual_seqlen_q binfo - window_size_left params)
                   (kBlockN kt)).

Definition split_n_block_max (Is_causal Is_local : bool)
    (kt : Kernel_traits) (params : Params) (binfo : BlockInfo)
    (m_block n_split_idx num_n_splits : Z) : Z :=
  let n_block_max :=
    Z.min (ceil_div (actual_seqlen_k binfo) (kBlockN kt))
          ((n_split_idx + 1) * n_blocks_per_split kt params num_n_splits) in
  if Is_causal || Is_local then
    Z.min n_block_max
          (ceil_div ((m_block + 1) * kBlockM kt + actual_seqlen_k binfo
                     - actual_seqlen_q binfo + window_size_right params)
                    (kBlockN kt))
  else n_block_max.

(** [bidb_cache] (line 672). *)
Definition bidb_cache (params : Params) (bidb : Z) : Z :=
  match cache_batch_idx params with
  | None => bidb
  | Some idx => idx bidb
  end.

(** [row_offset_k] and [row_offset_v] of the split kernel (lines
    693-710), for the tile [n_block_max - 1]. *)
Definition split_row_offset (kt : Kernel_traits) (params : Params)
    (binfo : BlockInfo) (batch_stride row_stride head_stride : Z)
    (bidb bidh n_block_max : Z) : Z :=
  match block_table_of params bidb with
  | None =>
      k_offset binfo batch_stride row_stride (bidb_cache params bidb)
      + (n_block_max - 1) * kBlockN kt * row_stride
      + cdiv bidh (p_h_h_k_ratio params) * head_stride
  | Some block_table =>
      let block_table_idx :=
        cdiv ((n_block_max - 1) * kBlockN kt) (page_block_size params) in
      let block_table_offset :=
        (n_block_max - 1) * kBlockN kt
        - block_table_idx * page_block_size params in
      block_table block_table_idx * batch_stride
      + block_table_offset * row_stride
      + cdiv bidh (p_h_h_k_ratio params) * head_stride
  end.

Definition split_row_offset_k kt params binfo bidb bidh n_block_max : Z :=
  split_row_offset kt params binfo (k_batch_stride params)
    (k_row_stride params) (k_head_stride params) bidb bidh n_block_max.

Definition split_row_offset_v kt params binfo bidb bidh n_block_max : Z :=
  split_row_offset kt params binfo (v_batch_stride params)
    (v_row_stride params) (v_head_stride params) bidb bidh n_block_max.

(** [row_offset_knew] and [row_offset_vnew] (lines 823-826), less
    [seqlen_k_cache] rows so that the new rows line up with the cache
    (lines 830-838). *)
Definition row_offset_new (kt : Kernel_traits) (params : Params)
    (binfo : BlockInfo) (batch_stride row_stride head_stride : Z)
    (bidb bidh n_block_max : Z) : Z :=
  k_offset binfo batch_stride row_stride bidb
  + ((n_block_max - 1) * kBlockN kt) * row_stride
  + cdiv bidh (p_h_h_k_ratio params) * head_stride
  - seqlen_k_cache binfo * row_stride.

(** Modelled from the spec: [copy_rotary_interleaved] and
    [copy_rotary_contiguous] are in [rotary.h], which is not part of the
    sources.  The spec names the two layouts; the element [cc] of a row
    [x] below [rotary_dim] is rotated with its partner, the neighbour of
    an even/odd pair (interleaved) or the element half of [rotary_dim]
    away (contiguous), by the angle whose cosine and sine are [cos] and
    [sin] at the pair's index; an element at or beyond [rotary_dim] is
    copied. *)
Definition rotary_elt (interleaved : bool) (x cos sin : Z -> R)
    (rotary_dim cc : Z) : R :=
  if rotary_dim <=? cc then x cc
  else if interleaved then
    let i := cdiv cc 2 in
    if Z.even cc then (x cc * cos i - x (cc + 1)%Z * sin i)%R
    else (x (cc - 1)%Z * sin i + x cc * cos i)%R
  else
    let half := cdiv rotary_dim 2 in
    if cc <? half then (x cc * cos cc - x (cc + half)%Z * sin cc)%R
    else (x cc * cos (cc - half)%Z
          + x (cc - half)%Z * sin (cc - half)%Z)%R.

(** What the append loop carries: the tile index, the destination
    pointers into the cache, the source pointers into the new rows and
    the pointer into the cos/sin tables. *)
Record append_state := {
  a_n_block : Z;
  a_tKgK : Z;
  a_tVgV : Z;
  a_tKgKnew : Z;
  a_tVgVnew : Z;
  a_tRgCos : Z
}.

Section AppendKV.

Variable Is_even_K : bool.
Variable kt : Kernel_traits.
Variable params : Params.
Variable binfo : BlockInfo.
Variable bt : option (Z -> Z).
Variable n_block_copy_min : Z.

  (** The K value written for row [j] and column [cc] of the tile: a
      plain copy when [rotary_dim == 0], the rotated row otherwise
      (lines 850-873). *)
Definition append_k_value (st : append_state) (j cc : Z) : R :=
    let src x := knew_ptr params (a_tKgKnew st + j * knew_row_stride params + x) in
    if rotary_dim params =? 0 then src cc
    else
      let cos i := rotary_cos_ptr params
                     (a_tRgCos st + j * cdiv (rotary_dim params) 2 + i) in
      let sin i := rotary_sin_ptr params
                     (a_tRgCos st + j * cdiv (rotary_dim params) 2 + i) in
      rotary_elt (is_rotary_interleaved params) src cos sin
                 (rotary_dim params) cc.

  (** Modelled from the spec: [copy_w_min_idx] is in [utils.h] and the
      rotary copies in [rotary.h], which are not part of the sources.
      The rows of the tile from [min_MN] up to, not including, [max_MN]
      are copied, the columns below [d].  The stores of one iteration of
      the loop of lines 845-894, first V then K for each element. *)
Definition append_iter_stores (st : append_state) : list store :=
    let n := a_n_block st in
    let max_MN := actual_seqlen_k binfo - n * kBlockN kt in
    let min_MN := seqlen_k_cache binfo - n * kBlockN kt in
    flat_map (fun j =>
      if (min_MN <=? j) && (j <? max_MN) then
        flat_map (fun cc =>
          if Is_even_K || (cc <? p_d params) then
            [StoreV (a_tVgV st + j * v_row_stride params + cc)
                    (vnew_ptr params
                       (a_tVgVnew st + j * vnew_row_stride params + cc));
             StoreK (a_tKgK st + j * k_row_stride params + cc)
                    (append_k_value st j cc)]
          else [])
          (upto (kHeadDim kt))
      else [])
      (upto (kBlockN kt)).

  (** The pointer updates at the end of an iteration (lines 849-893). *)
Definition append_next (st : append_state) : append_state :=
    let n := a_n_block st in
    let paged_step := match bt with
                      | None => true
                      | Some _ => n_block_copy_min <? n
                      end in
    {| a_n_block := n - 1;
       a_tKgK := if paged_step
                 then advance_tile kt params bt (k_batch_stride params)
                        (k_row_stride params) n (n - 1) (a_tKgK st)
                 else a_tKgK st;
       a_tVgV := if paged_step
                 then advance_tile kt params bt (v_batch_stride params)
                        (v_row_stride params) n (n - 1) (a_tVgV st)
                 else a_tVgV st;
       a_tKgKnew := a_tKgKnew st + - (kBlockN kt * knew_row_stride params);
       a_tVgVnew := a_tVgVnew st + - (kBlockN kt * vnew_row_stride params);
       a_tRgCos := if rotary_dim params =? 0 then a_tRgCos st
                   else a_tRgCos st
                        + - cdiv (kBlockN kt * rotary_dim params) 2 |}.

  (** The loop [for (n_block = n_block_max - 1; n_block >=
      n_block_copy_min; n_block--)]; [steps] is the number of iterations
      that are left. *)
Fixpoint append_loop (steps : nat) (st : append_state) : list store :=
    match steps with
    | O => []
    | S steps' => append_iter_stores st ++ append_loop steps' (append_next st)
    end.

End AppendKV.

(** The K and V memory after a list of stores, the later store of an
    address winning. *)
Definition apply_store (m : gmem * gmem) (s : store) : gmem * gmem :=
  match s with
  | StoreK a x => (fun a' => if a' =? a then x else fst m a', snd m)
  | StoreV a x => (fst m, fun a' => if a' =? a then x else snd m a')
  | _ => m
  end.

Definition apply_stores (l : list store) (m : gmem * gmem) : gmem * gmem :=
  fold_left apply_store l m.

(** The stores of the append phase of a block (lines 798-899). *)
Definition append_kv (Is_even_K : bool) (kt : Kernel_traits)
    (params : Params) (binfo : BlockInfo)
    (bidb bidh n_block_min n_block_max : Z) : list store :=
  let n_block_copy_min :=
    Z.max n_block_min (cdiv (seqlen_k_cache binfo) (kBlockN kt)) in
  let st0 :=
    {| a_n_block := n_block_max - 1;
       a_tKgK := split_row_offset_k kt params binfo bidb bidh n_block_max;
       a_tVgV := split_row_offset_v kt params binfo bidb bidh n_block_max;
       a_tKgKnew :=
         row_offset_new kt params binfo (knew_batch_stride params)
           (knew_row_stride params) (knew_head_stride params)
           bidb bidh n_block_max;
       a_tVgVnew :=
         row_offset_new kt params binfo (vnew_batch_stride params)
           (vnew_row_stride params) (vnew_head_stride params)
           bidb bidh n_block_max;
       a_tRgCos :=
         ((n_block_max - 1) * kBlockN kt) * cdiv (rotary_dim params) 2 |} in
  append_loop Is_even_K kt params binfo (block_table_of params bidb)
    n_block_copy_min (Z.to_nat (n_block_max - n_block_copy_min)) st0.

(** The position in the cos/sin tables that row [r] of the query tile
    reads (lines 907-915): the rows advance with the queries when the
    mask is causal or local, and every row reads the one position
    [seqlen_k_cache] otherwise. *)
Definition q_rotary_row_offset (Is_causal Is_local : bool)
    (kt : Kernel_traits) (params : Params) (binfo : BlockInfo)
    (m_block r : Z) : Z :=
  (seqlen_k_cache binfo
   + (if Is_causal || Is_local then m_block * kBlockM kt else 0))
  * cdiv (rotary_dim params) 2
  + r * (if Is_causal || Is_local then cdiv (rotary_dim params) 2 else 0).

(** The Q row in shared memory after the prologue of the split kernel
    (lines 901-937): a plain copy, or the copy with rotary embedding. *)
Definition split_load_q (Is_causal Is_local Is_even_MN Is_even_K Append_KV : bool)
    (kt : Kernel_traits) (params : Params) (binfo : BlockInfo)
    (smem_ : Z -> Z -> fp) (bidb bidh m_block r : Z) (cc : Z) : fp :=
  let row_offset_q :=
    q_offset binfo (q_batch_stride params) (q_row_stride params) bidb
    + m_block * kBlockM kt * q_row_stride params
    + bidh * q_head_stride params in
  let max_MN := actual_seqlen_q binfo - m_block * kBlockM kt in
  if negb Append_KV || (rotary_dim params =? 0) then
    copy_elt Is_even_MN Is_even_K false (q_ptr params) row_offset_q
             (q_row_stride params) max_MN (p_d params) (smem_ r cc) r cc
  else
    let cossin := q_rotary_row_offset Is_causal Is_local kt params binfo m_block r in
    if (0 <=? r) && (r <? max_MN) then
      if Is_even_K || (cc <? p_d params) then
        Fin (rotary_elt (is_rotary_interleaved params)
               (fun x => q_ptr params (row_offset_q + r * q_row_stride params + x))
               (fun i => rotary_cos_ptr params (cossin + i))
               (fun i => rotary_sin_ptr params (cossin + i))
               (rotary_dim params) cc)
      else Fin 0%R
    else smem_ r cc.

(** [alibi_slope] of the split kernel (line 954).  The kernel reads the
    slopes whenever [Has_alibi] and does not test the pointer, unlike the
    dense kernel (line 317): with a null pointer the read has no defined
    result, for which the slope 0 stands here.  The statements that
    compare the split kernel with the dense kernel ask for slopes that
    are there. *)
Definition split_alibi_slope (Has_alibi : bool) (params : Params)
    (bidb bidh : Z) : R :=
  if Has_alibi then
    match alibi_slopes_ptr params with
    | Some slopes =>
        Rdiv (slopes (bidb * alibi_slopes_batch_stride params + bidh))
             (scale_softmax params)
    | None => 0%R
    end
  else 0%R.

(** [compute_attn_1rowblock_splitkv] (lines 579-1181): the stores of the
    append phase of the block, followed by the stores to the element of
    O or Oaccum in row [r] and column [c] of the query tile and to the
    LSE of that row. *)
Definition compute_attn_1rowblock_splitkv
    (Is_causal Is_local Has_alibi Is_even_MN Is_even_K Split Append_KV : bool)
    (kt : Kernel_traits) (params : Params) (binfo : BlockInfo)
    (smem_ : Z -> Z -> fp)
    (bidb bidh m_block n_split_idx num_n_splits : Z) (r c : Z)
    : list store :=
  if actual_seqlen_q binfo <=? m_block * kBlockM kt then []
  else
    let n_block_min :=
      split_n_block_min Is_local kt params binfo m_block n_split_idx
                        num_n_splits in
    let n_block_max :=
      split_n_block_max Is_causal Is_local kt params binfo m_block
                        n_split_idx num_n_splits in
    let row_offset_o :=
      q_offset binfo (o_batch_stride params) (o_row_stride params) bidb
      + m_block * kBlockM kt * o_row_stride params
      + bidh * o_head_stride params in
    let row_offset_oaccum :=
      (((n_split_idx * p_b params + bidb) * p_h params + bidh)
       * p_seqlen_q params + m_block * kBlockM kt) * p_d_rounded params in
    let row_offset_lseaccum :=
      ((n_split_idx * p_b params + bidb) * p_h params + bidh)
      * p_seqlen_q params + m_block * kBlockM kt in
    let max_MN := actual_seqlen_q binfo - m_block * kBlockM kt in
    let store_o v :=
      if Split
      then store_elt Is_even_MN Is_even_K StoreOaccum row_offset_oaccum
                     (kHeadDim kt) max_MN (p_d params) r c v
      else store_elt Is_even_MN Is_even_K StoreO row_offset_o
                     (o_row_stride params) max_MN (p_d params) r c v in
    let store_l v :=
      store_lse (if Split then StoreLSEaccum else StoreLSE)
                row_offset_lseaccum max_MN r v in
    if n_block_max <=? n_block_min then
      (* We exit early and write 0 to gOaccum and -inf to gLSEaccum. *)
      store_o (Fin 0%R) ++ store_l (if Split then NInf else PInf)
    else
      let appended :=
        if Append_KV
        then append_kv Is_even_K kt params binfo bidb bidh n_block_min
                       n_block_max
        else [] in
      let '(k_mem, v_mem) :=
        apply_stores appended (k_ptr params, v_ptr params) in
      let sQ :=
        split_load_q Is_causal Is_local Is_even_MN Is_even_K Append_KV kt
                     params binfo smem_ bidb bidh m_block r in
      let mask :=
        {| max_seqlen_k := actual_seqlen_k binfo;
           max_seqlen_q := actual_seqlen_q binfo;
           mask_window_size_left := window_size_left params;
           mask_window_size_right := window_size_right params;
           alibi_slope := split_alibi_slope Has_alibi params bidb bidh |} in
      let st0 :=
        {| n_block := n_block_max - 1;
           tKgK := split_row_offset_k kt params binfo bidb bidh n_block_max;
           tVgV := split_row_offset_v kt params binfo bidb bidh n_block_max;
           softmax := softmax_unset;
           acc_o := Fin 0%R |} in
      let st :=
        attn_loops false Is_causal Is_local Has_alibi Is_even_MN Is_even_K
                   kt params binfo (block_table_of params bidb) k_mem v_mem
                   mask sQ smem_ (fun _ _ => true) m_block r c n_block_min
                   (Is_causal || Is_local || negb Is_even_MN) Is_local st0 in
      let '(lse, o) :=
        normalize_softmax_lse false Split (softmax st) (acc_o st)
                              (scale_softmax params) 1%R in
      appended ++ store_l lse ++ store_o o.

(** [compute_attn_splitkv] (lines 1211-1236), for a grid of [gridDim_y]
    blocks along the split axis. *)
Definition compute_attn_splitkv
    (Is_causal Is_local Has_alibi Is_even_MN Is_even_K Split Append_KV : bool)
    (kt : Kernel_traits) (params : Params) (binfo : Z -> BlockInfo)
    (smem_ : Z -> Z -> fp) (blockIdx : Z * Z * Z) (gridDim_y : Z)
    (r c : Z) : list store :=
  let '(blockIdx_x, blockIdx_y, blockIdx_z) := blockIdx in
  let m_block := blockIdx_x in
  let bidb := if Split then cdiv blockIdx_z (p_h params) else blockIdx_y in
  let bidh := if Split then blockIdx_z - bidb * p_h params else blockIdx_z in
  let n_split_idx := if Split then blockIdx_y else 0 in
  let num_n_splits := if Split then gridDim_y else 1 in
  compute_attn_1rowblock_splitkv Is_causal Is_local Has_alibi Is_even_MN
    Is_even_K Split Append_KV kt params (binfo bidb) smem_
    bidb bidh m_block n_split_idx num_n_splits r c.

(** ** The reduction kernel *)

(** Modelled from the spec: [Allreduce<N>::run] is in [utils.h], which is
    not part of the sources.  Section 4.3: a tree reduction over the [N]
    lanes of a group, after which every lane holds the operator applied
    to the values of all lanes. *)
Definition Allreduce (op : fp -> fp -> fp) (lanes : list fp) : fp :=
  match lanes with
  | [] => NaN
  | x :: rest => fold_left op rest x
  end.

(** What the loop over the splits carries for one element (lines
    1351-1369): the pointer into Oaccum, the accumulated output and the
    register the partial output is loaded to. *)
Record combine_state := {
  tOgOaccum : Z;
  tOrO : fp;
  tOrOaccum : fp
}.

Section Combine.

  (** Template arguments: the rows per block ([kBlockM] of the source,
      not the tile constant of the attention kernels), the logarithm of
      the largest number of splits and the head dimension predicate. *)
Variable kt : Kernel_traits.
Variable combine_kBlockM : Z.
Variable Log_max_splits : Z.
Variable Is_even_K : bool.
Variable params : Params.
  (** The partial results in global memory. *)
Variables softmax_lseaccum_ptr oaccum_ptr : Z -> fp.

Definition kMaxSplits : Z := 2 ^ Log_max_splits.
  (** The source asserts [kNThreads == 128]. *)
Definition kNThreads : Z := 128.
Definition kNLsePerThread : Z :=
    cdiv (kMaxSplits * combine_kBlockM + kNThreads - 1) kNThreads.
Definition kRowsPerLoadLSE : Z := cdiv kNThreads combine_kBlockM.
Definition kRowsPerLoadTranspose : Z := Z.min kRowsPerLoadLSE kMaxSplits.

Definition combine_total_rows : Z :=
    p_b params * p_h params * p_seqlen_q params.

  (** [sLSE[row][col]] after the first loop (lines 1272-1278): the
      partial LSE of split [row] for the output row [col] of block
      [bidx], minus infinity for a row that is no split or a column
      beyond the last output row. *)
Definition sLSE_loaded (bidx row col : Z) : fp :=
    if (row <? num_splits params)
       && (col <? combine_total_rows - bidx * combine_kBlockM)
    then softmax_lseaccum_ptr
           (bidx * combine_kBlockM + row * combine_total_rows + col)
    else NInf.

  (** [lse_accum(l)] of the thread that is lane [lane] of the group of
      output row [col] (lines 1291-1296). *)
Definition lse_accum (bidx col lane l : Z) : fp :=
    let row := l * kRowsPerLoadTranspose + lane in
    if (row <? kMaxSplits) && (col <? combine_kBlockM)
    then sLSE_loaded bidx row col
    else NInf.

  (** [lse_max] (lines 1299-1304). *)
Definition lse_max (bidx col : Z) : fp :=
    let thread_max lane :=
      fold_left fmax
        (map (fun l => lse_accum bidx col lane (l + 1))
             (upto (kNLsePerThread - 1)))
        (lse_accum bidx col lane 0) in
    let m := Allreduce fmax (map thread_max (upto kRowsPerLoadTranspose)) in
    if is_ninf m then Fin 0%R else m.

  (** [lse_sum] (lines 1305-1309). *)
Definition lse_sum (bidx col : Z) : fp :=
    let thread_sum lane :=
      fold_left fadd
        (map (fun l => fexp (fsub (lse_accum bidx col lane (l + 1))
                                  (lse_max bidx col)))
             (upto (kNLsePerThread - 1)))
        (fexp (fsub (lse_accum bidx col lane 0) (lse_max bidx col))) in
    Allreduce fadd (map thread_sum (upto kRowsPerLoadTranspose)).

  (** [lse_logsum] (line 1312). *)
Definition lse_logsum (bidx col : Z) : fp :=
    let s := lse_sum bidx col in
    if is_zero s || is_nan s then PInf
    else fadd (flog s) (lse_max bidx col).

  (** [sLSE[split][col]] after the scales are stored (lines 1317-1321):
      the thread that holds the split in its [lse_accum] overwrites the
      entry when the split exists. *)
Definition sLSE_scale (bidx col split : Z) : fp :=
    let l := cdiv split kRowsPerLoadTranspose in
    let lane := split - l * kRowsPerLoadTranspose in
    if (l <? kNLsePerThread) && (split <? num_splits params)
       && (col <? combine_kBlockM)
    then fexp (fsub (lse_accum bidx col lane l) (lse_logsum bidx col))
    else sLSE_loaded bidx split col.

  (** One iteration of the loop over the splits, for the element in row
      [col] and column [c]. *)
Definition combine_iter (bidx col c : Z) (st : combine_state) (split : Z)
      : combine_state :=
    (* flash::copy<Is_even_MN = false, Is_even_K>: a row beyond the last
       output row is not loaded, a column beyond d is zeroed. *)
    let loaded :=
      if col <? combine_total_rows - bidx * combine_kBlockM then
        if Is_even_K || (c <? p_d params)
        then oaccum_ptr (tOgOaccum st + col * kHeadDim kt + c)
        else Fin 0%R
      else tOrOaccum st in
    {| tOgOaccum :=
         tOgOaccum st + combine_total_rows * p_d_rounded params;
       tOrO := fadd (tOrO st) (fmul (sLSE_scale bidx col split) loaded);
       tOrOaccum := loaded |}.

  (** The element of O that the global row [idx] and the column [c] are
      written to (lines 1376-1388). *)
Definition combine_o_offset (idx c : Z) : Z :=
    let batch_idx := cdiv idx (p_h params * p_seqlen_q params) in
    let head_idx :=
      cdiv (idx - batch_idx * (p_h params * p_seqlen_q params))
           (p_seqlen_q params) in
    let row :=
      idx - batch_idx * (p_h params * p_seqlen_q params)
      - head_idx * p_seqlen_q params in
    batch_idx * o_batch_stride params + head_idx * o_head_stride params
    + row * o_row_stride params + c.

  (** [combine_attn_seqk_parallel] (lines 1240-1398), for the output row
      [col] of block [bidx] and the column [c] of the head dimension:
      the store of the row's LSE followed by the store of the element of
      O.  [reg] is the content of the register [tOrOaccum] before the
      first load. *)
Definition combine_attn_seqk_parallel (bidx col c : Z) (reg : fp)
      : list store :=
    let lse_store :=
      if col <? combine_kBlockM
      then [StoreLSE (bidx * combine_kBlockM + col) (lse_logsum bidx col)]
      else [] in
    let st0 :=
      {| tOgOaccum := bidx * combine_kBlockM * p_d_rounded params;
         tOrO := Fin 0%R;
         tOrOaccum := reg |} in
    let st := fold_left (combine_iter bidx col c) (upto (num_splits params)) st0 in
    let idx := bidx * combine_kBlockM + col in
    let o_store :=
      if idx <? combine_total_rows then
        if Is_even_K || (c <? p_d params)
        then [StoreO (combine_o_offset idx c) (tOrO st)]
        else []
      else [] in
    lse_store ++ o_store.

End Combine.

(** ** The reference the kernels are compared with *)

(** A partial LSE: minus infinity, or a finite value. *)
Definition fin_or_ninf (o : option R) : fp :=
  match o with
  | Some x => Fin x
  | None => NInf
  end.

(** [exp(lse - ref)] for a partial LSE, zero for minus infinity. *)
Definition lse_weight (lse : option R) (ref : R) : R :=
  match lse with
  | Some x => exp (x - ref)
  | None => 0%R
  end.

(** [m] is the largest of the partial LSEs of the [n] splits. *)
Definition is_max_lse (n : Z) (lse : Z -> option R) (m : R) : Prop :=
  (exists s, 0 <= s < n /\ lse s = Some m)
  /\ (forall s x, 0 <= s < n -> lse s = Some x -> (x <= m)%R).

(** The sum of [f] over the [n] integers from [lo]. *)
Fixpoint zsum (lo : Z) (n : nat) (f : Z -> R) : R :=
  match n with
  | O => 0%R
  | S n' => (f lo + zsum (lo + 1) n' f)%R
  end.

Section Reference.

  (** The mask mode, the sequence lengths, the window, the softmax scale
      and the ALiBi slope of the head; the absolute index [row] of the
      query row, its head-dimension vector [Q], the keys and the values
      by absolute key index. *)
Variables Is_causal Is_local Has_alibi : bool.
Variables sq sk wl wr : Z.
Variables scale slope : R.
Variable d : Z.
Variable row : Z.
Variable Q : Z -> R.
Variables K V : Z -> Z -> R.

  (** The mask of section 4.5: a key is masked when it lies beyond the
      keys, beyond the causal bound, or outside the local window. *)
Definition ref_masked (col : Z) : bool :=
    (sk <=? col)
    || (Is_causal && (row + sk - sq <? col))
    || (Is_local && ((col <? row + sk - sq - wl)
                     || (row + sk - sq + wr <? col))).

  (** [scale * (Q K^T) + alibi] for an unmasked key. *)
Definition ref_logit (col : Z) : R :=
    (scale * zsum 0 (Z.to_nat d) (fun cc => Q cc * K col cc)
     + (if Has_alibi then slope * IZR (col - (row + sk - sq)) else 0))%R.

  (** The unnormalised softmax weight: a masked key, whose logit is minus
      infinity, weighs nothing. *)
Definition ref_weight (col : Z) : R :=
    if ref_masked col then 0%R else exp (ref_logit col).

Definition ref_denominator : R := zsum 0 (Z.to_nat sk) ref_weight.

  (** [softmax(Q K^T * scale + mask + alibi) V] at column [c], and the
      log-sum-exp of the row. *)
Definition ref_output (c : Z) : R :=
    (zsum 0 (Z.to_nat sk) (fun col => ref_weight col * V col c)
     / ref_denominator)%R.

Definition ref_lse : R := ln ref_denominator.

  (** The row has a key that is not masked. *)
Definition has_unmasked_key : Prop :=
    exists col, 0 <= col < sk /\ ref_masked col = false.

  (** The keys from [lo] up to, not including, [hi] are all masked. *)
Definition interval_masked (lo hi : Z) : bool :=
    forallb (fun i => ref_masked (lo + i)) (upto (hi - lo)).

  (** Attention over the keys from [lo] up to, not including, [hi] alone:
      the log-sum-exp of their logits and the output normalised by their
      weights; the sentinel of the path, plus infinity (dense) or minus
      infinity (split), and a zero output when they are all masked. *)
Definition ref_partial (Split : bool) (lo hi c : Z) : fp * fp :=
    if interval_masked lo hi
    then (if Split then NInf else PInf, Fin 0%R)
    else
      let W := zsum lo (Z.to_nat (hi - lo)) ref_weight in
      (Fin (ln W),
       Fin (zsum lo (Z.to_nat (hi - lo)) (fun col => ref_weight col * V col c)
            / W)%R).

End Reference.

(** The instantiations the kernels are launched with.  The host code is
    not part of the sources; these are the guarantees of a launch that
    the proofs use: tile sizes that are positive; a head dimension that
    fits the tile of the kernel traits, and fills it under [Is_even_K]; a
    key length that is not negative; a right window of zero with a causal
    mask; under [Is_even_MN] sequence lengths that are multiples of the
    tile sizes and, with a causal mask, tile sizes of which one divides
    the other; a softmax scale that is positive, with
    [scale_softmax_log2 = scale_softmax * log2(e)]. *)
Record supported (Is_causal Is_even_MN Is_even_K : bool)
    (kt : Kernel_traits) (params : Params) (binfo : BlockInfo) : Prop := {
  sup_Bc : 0 < kBlockN kt;
  sup_Br : 0 < kBlockM kt;
  sup_d : 0 <= p_d params <= kHeadDim kt;
  sup_even_K : Is_even_K = true -> p_d params = kHeadDim kt;
  sup_sk : 0 <= actual_seqlen_k binfo;
  sup_causal : Is_causal = true -> window_size_right params = 0;
  sup_even_MN :
    Is_even_MN = true ->
    (kBlockN kt | actual_seqlen_k binfo)
    /\ (kBlockM kt | actual_seqlen_q binfo);
  sup_tiles :
    Is_even_MN = true -> Is_causal = true ->
    (kBlockN kt | kBlockM kt) \/ (kBlockM kt | kBlockN kt);
  sup_log2 :
    scale_softmax_log2 params = (scale_softmax params / ln 2)%R;
  sup_scale : (0 < scale_softmax params)%R
}.

(** The logical tensors behind the pointers of the dense kernel: the row
    [r] of the query tile, and the key and value rows of the K/V head of
    [bidh], by absolute key index. *)
Definition dense_Q (kt : Kernel_traits) (params : Params)
    (binfo : BlockInfo) (bidb bidh m_block r : Z) (cc : Z) : R :=
  q_ptr params
    (q_offset binfo (q_batch_stride params) (q_row_stride params) bidb
     + (m_block * kBlockM kt + r) * q_row_stride params
     + bidh * q_head_stride params + cc).

Definition dense_K (params : Params) (binfo : BlockInfo)
    (bidb bidh : Z) (col cc : Z) : R :=
  k_ptr params
    (k_offset binfo (k_batch_stride params) (k_row_stride params) bidb
     + col * k_row_stride params
     + kv_head params bidh * k_head_stride params + cc).

Definition dense_V (params : Params) (binfo : BlockInfo)
    (bidb bidh : Z) (col c : Z) : R :=
  v_ptr params
    (k_offset binfo (v_batch_stride params) (v_row_stride params) bidb
     + col * v_row_stride params
     + kv_head params bidh * v_head_stride params + c).

(** Where the dense kernel keeps the output element and the LSE of the
    row [r] of the query tile [m_block]. *)
Definition dense_O_index (kt : Kernel_traits) (params : Params)
    (binfo : BlockInfo) (bidb bidh m_block r c : Z) : Z :=
  q_offset binfo (o_batch_stride params) (o_row_stride params) bidb
  + m_block * kBlockM kt * o_row_stride params
  + bidh * o_head_stride params
  + r * o_row_stride params + c.

Definition dense_LSE_index (kt : Kernel_traits) (params : Params)
    (bidb bidh m_block r : Z) : Z :=
  (bidb * p_h params + bidh) * p_seqlen_q params + m_block * kBlockM kt + r.

(** Where the split kernel keeps the partial output element and the
    partial LSE of the row [r] of the query tile [m_block], for the split
    [n_split_idx]. *)
Definition split_Oaccum_index (kt : Kernel_traits) (params : Params)
    (bidb bidh m_block n_split_idx r c : Z) : Z :=
  (((n_split_idx * p_b params + bidb) * p_h params + bidh)
   * p_seqlen_q params + m_block * kBlockM kt) * p_d_rounded params
  + r * kHeadDim kt + c.

Definition split_LSEaccum_index (kt : Kernel_traits) (params : Params)
    (bidb bidh m_block n_split_idx r : Z) : Z :=
  ((n_split_idx * p_b params + bidb) * p_h params + bidh)
  * p_seqlen_q params + m_block * kBlockM kt + r.

(** The two stores of the results of a row by the split kernel, to
    Oaccum and LSEaccum under [Split], to O and LSE otherwise. *)
Definition split_result_stores (Split : bool) (kt : Kernel_traits)
    (params : Params) (binfo : BlockInfo)
    (bidb bidh m_block n_split_idx r c : Z) (lse o : fp) : list store :=
  if Split then
    [StoreLSEaccum (split_LSEaccum_index kt params bidb bidh m_block
                      n_split_idx r) lse;
     StoreOaccum (split_Oaccum_index kt params bidb bidh m_block
                    n_split_idx r c) o]
  else
    [StoreLSE (split_LSEaccum_index kt params bidb bidh m_block
                 n_split_idx r) lse;
     StoreO (dense_O_index kt params binfo bidb bidh m_block r c) o].

(** The K and V memory that the loops of a block of the split kernel
    read: the cache after the append phase of the block. *)
Definition split_memory (Is_even_K Append_KV : bool) (kt : Kernel_traits)
    (params : Params) (binfo : BlockInfo)
    (bidb bidh n_block_min n_block_max : Z) : gmem * gmem :=
  apply_stores
    (if Append_KV
     then append_kv Is_even_K kt params binfo bidb bidh n_block_min
                    n_block_max
     else [])
    (k_ptr params, v_ptr params).

(** The finite value of a register. *)
Definition fp_value (a : fp) : R :=
  match a with
  | Fin x => x
  | _ => 0%R
  end.

(** The query row that a block of the split kernel holds in shared
    memory after its prologue. *)
Definition split_Q (Is_causal Is_local Is_even_MN Is_even_K Append_KV : bool)
    (kt : Kernel_traits) (params : Params) (binfo : BlockInfo)
    (smem_ : Z -> Z -> fp) (bidb bidh m_block r : Z) (cc : Z) : R :=
  fp_value (split_load_q Is_causal Is_local Is_even_MN Is_even_K Append_KV
              kt params binfo smem_ bidb bidh m_block r cc).

(** The key or value row [col] as the loop over the tiles reads it: the
    row [col mod kBlockN] of the tile [col / kBlockN], whose pointer is
    [ptr (col / kBlockN)]. *)
Definition tile_view (kt : Kernel_traits) (mem : gmem) (ptr : Z -> Z)
    (row_stride : Z) (col cc : Z) : R :=
  mem (ptr (col / kBlockN kt) + (col mod kBlockN kt) * row_stride + cc).

(** The parameters with another layout of the K/V cache: the block
    table, its batch stride and the page size, the K and V memory and
    their strides.  Everything else is kept. *)
Definition kv_layout (params : Params) (bt : option (Z -> Z))
    (bt_stride page : Z) (k v : gmem)
    (kbs krs khs vbs vrs vhs : Z) : Params :=
  {| p_b := p_b params; p_h := p_h params;
     p_h_h_k_ratio := p_h_h_k_ratio params;
     p_seqlen_q := p_seqlen_q params; p_seqlen_k := p_seqlen_k params;
     p_seqlen_knew := p_seqlen_knew params;
     p_d := p_d params; p_d_rounded := p_d_rounded params;
     q_ptr := q_ptr params; k_ptr := k; v_ptr := v;
     knew_ptr := knew_ptr params; vnew_ptr := vnew_ptr params;
     q_batch_stride := q_batch_stride params;
     q_row_stride := q_row_stride params;
     q_head_stride := q_head_stride params;
     k_batch_stride := kbs; k_row_stride := krs; k_head_stride := khs;
     v_batch_stride := vbs; v_row_stride := vrs; v_head_stride := vhs;
     knew_batch_stride := knew_batch_stride params;
     knew_row_stride := knew_row_stride params;
     knew_head_stride := knew_head_stride params;
     vnew_batch_stride := vnew_batch_stride params;
     vnew_row_stride := vnew_row_stride params;
     vnew_head_stride := vnew_head_stride params;
     o_batch_stride := o_batch_stride params;
     o_row_stride := o_row_stride params;
     o_head_stride := o_head_stride params;
     rotary_cos_ptr := rotary_cos_ptr params;
     rotary_sin_ptr := rotary_sin_ptr params;
     window_size_left := window_size_left params;
     window_size_right := window_size_right params;
     scale_softmax := scale_softmax params;
     scale_softmax_log2 := scale_softmax_log2 params;
     rp_dropout := rp_dropout params;
     alibi_slopes_ptr := alibi_slopes_ptr params;
     alibi_slopes_batch_stride := alibi_slopes_batch_stride params;
     rotary_dim := rotary_dim params;
     is_rotary_interleaved := is_rotary_interleaved params;
     num_splits := num_splits params;
     block_table := bt; block_table_batch_stride := bt_stride;
     page_block_size := page;
     cache_batch_idx := cache_batch_idx params;
     philox_seed := philox_seed params;
     philox_offset := philox_offset params |}.

(** The same parameters with an unpaged K/V cache. *)
Definition unpaged_layout (params : Params) (k v : gmem)
    (kbs krs khs vbs vrs vhs : Z) : Params :=
  kv_layout params None (block_table_batch_stride params)
            (page_block_size params) k v kbs krs khs vbs vrs vhs.

(** The element offset of the key row [col] of a paged cache (section
    4.2, paged KV addressing): the page [col / page_size] of the block
    table of the batch, the row [col mod page_size] of the page, the K/V
    head of [bidh]. *)
Definition paged_row (params : Params) (bt : Z -> Z)
    (batch_stride row_stride head_stride : Z) (bidh col : Z) : Z :=
  bt (col / page_block_size params) * batch_stride
  + (col mod page_block_size params) * row_stride
  + kv_head params bidh * head_stride.

Definition paged_K (params : Params) (bt : Z -> Z) (bidh : Z)
    (col cc : Z) : R :=
  k_ptr params
    (paged_row params bt (k_batch_stride params) (k_row_stride params)
               (k_head_stride params) bidh col + cc).

Definition paged_V (params : Params) (bt : Z -> Z) (bidh : Z)
    (col c : Z) : R :=
  v_ptr params
    (paged_row params bt (v_batch_stride params) (v_row_stride params)
               (v_head_stride params) bidh col + c).

(** The keys and values of an unpaged cache, by absolute key index, for
    the batch entry [bidb_cache] of the split kernel. *)
Definition cache_K (params : Params) (binfo : BlockInfo)
    (bidb bidh : Z) (col cc : Z) : R :=
  k_ptr params
    (k_offset binfo (k_batch_stride params) (k_row_stride params)
              (bidb_cache params bidb)
     + col * k_row_stride params
     + kv_head params bidh * k_head_stride params + cc).

Definition cache_V (params : Params) (binfo : BlockInfo)
    (bidb bidh : Z) (col c : Z) : R :=
  v_ptr params
    (k_offset binfo (v_batch_stride params) (v_row_stride params)
              (bidb_cache params bidb)
     + col * v_row_stride params
     + kv_head params bidh * v_head_stride params + c).

(** The element offset of the key row [p] of the cache of the split
    kernel, paged or contiguous. *)
Definition cache_row (params : Params) (binfo : BlockInfo)
    (batch_stride row_stride head_stride : Z) (bidb bidh p : Z) : Z :=
  match block_table_of params bidb with
  | None =>
      k_offset binfo batch_stride row_stride (bidb_cache params bidb)
      + p * row_stride + kv_head params bidh * head_stride
  | Some bt => paged_row params bt batch_stride row_stride head_stride bidh p
  end.

(** The rows of Knew and Vnew of the batch and of the K/V head of [bidh],
    by their index among the new rows. *)
Definition Knew (params : Params) (binfo : BlockInfo) (bidb bidh : Z)
    (j cc : Z) : R :=
  knew_ptr params
    (k_offset binfo (knew_batch_stride params) (knew_row_stride params) bidb
     + j * knew_row_stride params
     + kv_head params bidh * knew_head_stride params + cc).

Definition Vnew (params : Params) (binfo : BlockInfo) (bidb bidh : Z)
    (j cc : Z) : R :=
  vnew_ptr params
    (k_offset binfo (vnew_batch_stride params) (vnew_row_stride params) bidb
     + j * vnew_row_stride params
     + kv_head params bidh * vnew_head_stride params + cc).

(** Rotary embedding of the row [x] at the position [pos]: the row [pos]
    of the cos and sin tables, whose rows hold [rotary_dim / 2]
    elements. *)
Definition rotary_at (params : Params) (x : Z -> R) (pos cc : Z) : R :=
  rotary_elt (is_rotary_interleaved params) x
    (fun i => rotary_cos_ptr params (pos * cdiv (rotary_dim params) 2 + i))
    (fun i => rotary_sin_ptr params (pos * cdiv (rotary_dim params) 2 + i))
    (rotary_dim params) cc.

(** What the cache receives from the new key row [j]: the row itself,
    rotated at its position [seqlen_k_cache + j] when [rotary_dim] is
    not zero. *)
Definition appended_K (params : Params) (binfo : BlockInfo)
    (bidb bidh : Z) (j cc : Z) : R :=
  if rotary_dim params =? 0
  then Knew params binfo bidb bidh j cc
  else rotary_at params (Knew params binfo bidb bidh j)
                 (seqlen_k_cache binfo + j) cc.

(** The state of the append loop at the tile [n], in closed form. *)
Definition append_state_at (kt : Kernel_traits) (params : Params)
    (binfo : BlockInfo) (bidb bidh n : Z) : append_state :=
  {| a_n_block := n;
     a_tKgK := split_row_offset_k kt params binfo bidb bidh (n + 1);
     a_tVgV := split_row_offset_v kt params binfo bidb bidh (n + 1);
     a_tKgKnew :=
       row_offset_new kt params binfo (knew_batch_stride params)
         (knew_row_stride params) (knew_head_stride params) bidb bidh
         (n + 1);
     a_tVgVnew :=
       row_offset_new kt params binfo (vnew_batch_stride params)
         (vnew_row_stride params) (vnew_head_stride params) bidb bidh
         (n + 1);
     a_tRgCos := (n * kBlockN kt) * cdiv (rotary_dim params) 2 |}.

(** A store to the K or V cache. *)
Definition is_kv_store (s : store) : Prop :=
  match s with
  | StoreK _ _ | StoreV _ _ => True
  | _ => False
  end.

(** The stores of a list that do not go to the K/V cache, in their
    order: those to O, LSE, Oaccum, LSEaccum and [rng_state]. *)
Definition result_stores_of (l : list store) : list store :=
  filter (fun s => match s with
                   | StoreK _ _ | StoreV _ _ => false
                   | _ => true
                   end) l.

(** The rows of the K and of the V cache of the batch do not overlap:
    two elements of the first [actual_seqlen_k] rows and [kHeadDim]
    columns that lie at one offset are the same element. *)
Definition rows_apart (kt : Kernel_traits) (params : Params)
    (binfo : BlockInfo) (bidb bidh : Z) : Prop :=
  forall p p' cc cc',
    0 <= p < actual_seqlen_k binfo -> 0 <= p' < actual_seqlen_k binfo ->
    0 <= cc < kHeadDim kt -> 0 <= cc' < kHeadDim kt ->
    (cache_row params binfo (k_batch_stride params) (k_row_stride params)
       (k_head_stride params) bidb bidh p + cc
     = cache_row params binfo (k_batch_stride params) (k_row_stride params)
         (k_head_stride params) bidb bidh p' + cc'
     -> p = p' /\ cc = cc')
    /\ (cache_row params binfo (v_batch_stride params) (v_row_stride params)
          (v_head_stride params) bidb bidh p + cc
        = cache_row params binfo (v_batch_stride params)
            (v_row_stride params) (v_head_stride params) bidb bidh p' + cc'
        -> p = p' /\ cc = cc').

(** The slope of the head, zero without ALiBi. *)
Definition head_slope (Has_alibi : bool) (params : Params)
    (bidb bidh : Z) : R :=
  match alibi_slopes_ptr params with
  | Some slopes =>
      if Has_alibi
      then slopes (bidb * alibi_slopes_batch_stride params + bidh)
      else 0%R
  | None => 0%R
  end.

(** ** Auxiliary notions of the proofs *)

(** The sum over a list, and the lists [upto n]. *)
Definition lsum (f : Z -> R) (l : list Z) : R :=
  fold_right (fun x acc => (f x + acc)%R) 0%R l.

(** A value that is minus infinity or finite. *)
Definition finite_or_ninf (a : fp) : Prop :=
  a = NInf \/ exists x, a = Fin x.

(** [m] bounds the finite values of [l] and is one of them, or [l] has
    none and [m] is minus infinity. *)
Definition max_of (l : list fp) (m : fp) : Prop :=
  (m = NInf /\ forall a, In a l -> a = NInf)
  \/ (exists x, m = Fin x /\ In (Fin x) l
                /\ forall y, In (Fin y) l -> (y <= x)%R).

(** The view of one query row that the loop invariant is stated in. *)
Section RowView.

Variables Is_causal Is_local Has_alibi : bool.
Variables sq sk wl wr : Z.
(** The softmax scale and the slope as the mask adds it to an unscaled
    logit. *)
Variables scale aslope : R.
Variable d : Z.
Variable row : Z.
Variable Q : Z -> R.
Variables K V : Z -> Z -> R.

(** The unscaled logit of a key, with the ALiBi bias. *)
Definition row_logit (col : Z) : R :=
  (zsum 0 (Z.to_nat d) (fun cc => Q cc * K col cc)
   + (if Has_alibi then aslope * IZR (col - (row + sk - sq)) else 0))%R.

(** The logit after the mask. *)
Definition row_score (col : Z) : fp :=
  if ref_masked Is_causal Is_local sq sk wl wr row col then NInf
  else Fin (row_logit col).

(** The probability of a key relative to the reference point [mref]. *)
Definition row_weight (mref : R) (col : Z) : R :=
  match row_score col with
  | Fin x => exp ((x - mref) * scale)
  | _ => 0%R
  end.

(** The reference point that a running maximum stands for. *)
Definition ref_point (M : fp) : R :=
  match M with
  | Fin m => m
  | _ => 0%R
  end.

(** The factor a later call rescales the running sum and the output
    accumulator by. *)
Definition rescale_factor (M M' : fp) : R :=
  match M with
  | Fin m => exp ((m - ref_point M') * scale)
  | _ => 0%R
  end.

(** The softmax state and the accumulator after the keys from [lo] up
    to, not including, [hi]. *)
Definition row_inv (c lo hi : Z) (sm : Softmax) (acc : fp) : Prop :=
  exists M,
    row_max sm = M
    /\ finite_or_ninf M
    /\ (M = NInf ->
        forall col, lo <= col < hi -> row_score col = NInf)
    /\ row_sum sm
       = Fin (zsum lo (Z.to_nat (hi - lo)) (row_weight (ref_point M)))
    /\ acc
       = Fin (zsum lo (Z.to_nat (hi - lo))
                (fun col => row_weight (ref_point M) col * V col c)%R).

End RowView.

(** The state of the pointers when the iteration of a tile begins, for
    tile pointers [kptr] and [vptr] in closed form. *)
Definition pointers_at (kptr vptr : Z -> Z) (first : bool)
    (st : attn_state) : Prop :=
  tKgK st = kptr (n_block st)
  /\ tVgV st = (if first then vptr (n_block st) else vptr (n_block st + 1)).

(** ** Concrete inputs for the examples *)

(** Parameters with one batch and unit strides along the head dimension;
    what is not an argument is zero or null. *)
Definition example_params (h ratio sq sk d : Z) (wl wr : Z) (scale : R)
    (q k v : gmem) (row_stride : Z) (splits : Z) : Params :=
  {| p_b := 1; p_h := h; p_h_h_k_ratio := ratio;
     p_seqlen_q := sq; p_seqlen_k := sk; p_seqlen_knew := 0;
     p_d := d; p_d_rounded := d;
     q_ptr := q; k_ptr := k; v_ptr := v;
     knew_ptr := fun _ => 0%R; vnew_ptr := fun _ => 0%R;
     q_batch_stride := 0; q_row_stride := row_stride; q_head_stride := 0;
     k_batch_stride := 0; k_row_stride := row_stride; k_head_stride := 0;
     v_batch_stride := 0; v_row_stride := row_stride; v_head_stride := 0;
     knew_batch_stride := 0; knew_row_stride := row_stride;
     knew_head_stride := 0;
     vnew_batch_stride := 0; vnew_row_stride := row_stride;
     vnew_head_stride := 0;
     o_batch_stride := 0; o_row_stride := row_stride; o_head_stride := 0;
     rotary_cos_ptr := fun _ => 1%R; rotary_sin_ptr := fun _ => 0%R;
     window_size_left := wl; window_size_right := wr;
     scale_softmax := scale; scale_softmax_log2 := (scale / ln 2)%R;
     rp_dropout := 1%R;
     alibi_slopes_ptr := None; alibi_slopes_batch_stride := 0;
     rotary_dim := 0; is_rotary_interleaved := false;
     num_splits := splits;
     block_table := None; block_table_batch_stride := 0;
     page_block_size := 0;
     cache_batch_idx := None;
     philox_seed := 0; philox_offset := 0 |}.

(** Block information of a single batch element stored at offset 0. *)
Definition example_binfo (sq sk cache : Z) : BlockInfo :=
  {| actual_seqlen_q := sq; actual_seqlen_k := sk; seqlen_k_cache := cache;
     q_offset := fun _ _ _ => 0; k_offset := fun _ _ _ => 0 |}.

Definition example_traits (Br Bc D : Z) : Kernel_traits :=
  {| kBlockM := Br; kBlockN := Bc; kHeadDim := D; kNWarps := 4 |}.

(** A causal block whose query tile lies far above the diagonal: one key,
    two hundred queries, tiles of 64 by 64.  The clamp's dividend is
    [64 + 1 - 200 = -135]; the kernel's [ceil_div] truncates
    [(-135 + 63) / 64] to [-1], the ceiling of [-135 / 64] is [-2]. *)
Definition far_above_params : Params :=
  example_params 1 1 200 1 64 0 0 1 (fun _ => 0%R) (fun _ => 0%R)
                 (fun _ => 0%R) 64 1.


(** Two splits of a single output row: the first carries the partial LSE
    0 and the partial output 1, the second saw no key. *)
Definition two_split_params : Params :=
  example_params 1 1 1 1 1 0 0 1 (fun _ => 0%R) (fun _ => 0%R)
                 (fun _ => 0%R) 1 2.

(** One query, one key, a head dimension of one: tiles of 64 by 64. *)
Definition one_key_traits : Kernel_traits := example_traits 64 64 64.

Definition one_key_binfo : BlockInfo := example_binfo 1 1 0.

(** A sequence without keys under [Is_even_MN]: one query, tiles of one
    by one, a head dimension of one. *)
Definition unit_traits : Kernel_traits := example_traits 1 1 1.



(** Two queries and one key under a causal mask: the first query sees no
    key. *)
Definition masked_row_params : Params :=
  example_params 1 1 2 1 1 0 0 1 (fun _ => 0%R) (fun _ => 0%R)
                 (fun _ => 0%R) 1 1.

Definition masked_row_binfo : BlockInfo := example_binfo 2 1 0.

(** A paged cache whose pages hold one row, read in tiles of two rows:
    one query and two keys, the block table swaps the two pages, the
    value 1 is in the physical row 0 and every other element is 0.  The
    unpaged cache with the same contents has the value 1 in its row 1. *)
Definition straddle_traits : Kernel_traits := example_traits 1 2 1.

Definition straddle_paged : Params :=
  kv_layout
    (example_params 1 1 1 2 1 0 0 1 (fun _ => 0%R) (fun _ => 0%R)
                    (fun _ => 0%R) 1 1)
    (Some (fun i => if i =? 0 then 1 else 0)) 0 1
    (fun _ => 0%R) (fun a => if a =? 0 then 1%R else 0%R)
    1 1 0 1 1 0.

Definition straddle_unpaged : Params :=
  unpaged_layout straddle_paged
    (fun _ => 0%R) (fun a => if a =? 1 then 1%R else 0%R)
    0 1 0 0 1 0.

Definition straddle_binfo : BlockInfo := example_binfo 1 2 0.

Definition swapped_pages (i : Z) : Z := if i =? 0 then 1 else 0.

(** A paged cache of two pages of one row, read in tiles of one row:
    the block table swaps the pages, so that the key row 0, which the
    cache holds already (key 2, value 5), lies in the physical row 1,
    and the key row 1, which the block appends (key 1, value 7), goes to
    the physical row 0.  One query of value 1, a head dimension of one. *)
Definition paged_cache_params : Params :=
  {| p_b := 1; p_h := 1; p_h_h_k_ratio := 1;
     p_seqlen_q := 1; p_seqlen_k := 2; p_seqlen_knew := 1;
     p_d := 1; p_d_rounded := 1;
     q_ptr := fun _ => 1%R;
     k_ptr := fun a => if a =? 1 then 2%R else 0%R;
     v_ptr := fun a => if a =? 1 then 5%R else 0%R;
     knew_ptr := fun _ => 1%R; vnew_ptr := fun _ => 7%R;
     q_batch_stride := 0; q_row_stride := 1; q_head_stride := 0;
     k_batch_stride := 1; k_row_stride := 1; k_head_stride := 0;
     v_batch_stride := 1; v_row_stride := 1; v_head_stride := 0;
     knew_batch_stride := 0; knew_row_stride := 1; knew_head_stride := 0;
     vnew_batch_stride := 0; vnew_row_stride := 1; vnew_head_stride := 0;
     o_batch_stride := 0; o_row_stride := 1; o_head_stride := 0;
     rotary_cos_ptr := fun _ => 1%R; rotary_sin_ptr := fun _ => 0%R;
     window_size_left := 0; window_size_right := 0;
     scale_softmax := 1%R; scale_softmax_log2 := (1 / ln 2)%R;
     rp_dropout := 1%R;
     alibi_slopes_ptr := None; alibi_slopes_batch_stride := 0;
     rotary_dim := 0; is_rotary_interleaved := false;
     num_splits := 1;
     block_table := Some swapped_pages; block_table_batch_stride := 0;
     page_block_size := 1;
     cache_batch_idx := None;
     philox_seed := 0; philox_offset := 0 |}.

(** One query, two keys of which the cache holds the first. *)
Definition paged_cache_binfo : BlockInfo := example_binfo 1 2 1.

(** The unpaged cache with the same contents: the key row 0 in its
    row 0. *)
Definition unpaged_cache_params : Params :=
  unpaged_layout paged_cache_params
    (fun a => if a =? 0 then 2%R else 0%R)
    (fun a => if a =? 0 then 5%R else 0%R)
    0 1 0 0 1 0.

(** The buffers LSEaccum and Oaccum after a list of stores, the later
    store of an address winning. *)
Definition stored_lseaccum (l : list store) (a : Z) : fp :=
  fold_left (fun acc s =>
               match s with
               | StoreLSEaccum a' v => if a' =? a then v else acc
               | _ => acc
               end) l NaN.

Definition stored_oaccum (l : list store) (a : Z) : fp :=
  fold_left (fun acc s =>
               match s with
               | StoreOaccum a' v => if a' =? a then v else acc
               | _ => acc
               end) l NaN.

(** One query and two keys in tiles of one row, read by two splits of
    one tile each: the query is 1, the keys are 0 and 1, the values 1
    and 3. *)
Definition two_key_params : Params :=
  example_params 1 1 1 2 1 0 0 1 (fun _ => 1%R)
                 (fun a => if a =? 1 then 1%R else 0%R)
                 (fun a => if a =? 0 then 1%R else 3%R) 1 2.

Definition two_key_binfo : BlockInfo := example_binfo 1 2 0.

Definition two_key_block (s : Z) : list store :=
  compute_attn_1rowblock_splitkv false false false false false true false
    unit_traits two_key_params two_key_binfo (fun _ _ => Fin 0%R)
    0 0 0 s 2 0 0.

Definition two_key_stores : list store :=
  two_key_block 0 ++ two_key_block 1.

(** Three sequences of two, one and one queries whose rows are packed
    one after the other ([cu_seqlens_q] is 0, 2, 3, 4), with one key
    each: the rows of the third sequence start at the row 3 of Q and of
    O, whatever the batch strides.  The parameters carry the longest
    query length, 2, and the batch stride that a padded O would have. *)
Definition packed_params : Params :=
  {| p_b := 3; p_h := 1; p_h_h_k_ratio := 1;
     p_seqlen_q := 2; p_seqlen_k := 1; p_seqlen_knew := 0;
     p_d := 1; p_d_rounded := 1;
     q_ptr := fun _ => 0%R; k_ptr := fun _ => 0%R; v_ptr := fun _ => 1%R;
     knew_ptr := fun _ => 0%R; vnew_ptr := fun _ => 0%R;
     q_batch_stride := 2; q_row_stride := 1; q_head_stride := 0;
     k_batch_stride := 1; k_row_stride := 1; k_head_stride := 0;
     v_batch_stride := 1; v_row_stride := 1; v_head_stride := 0;
     knew_batch_stride := 0; knew_row_stride := 1; knew_head_stride := 0;
     vnew_batch_stride := 0; vnew_row_stride := 1; vnew_head_stride := 0;
     o_batch_stride := 2; o_row_stride := 1; o_head_stride := 0;
     rotary_cos_ptr := fun _ => 1%R; rotary_sin_ptr := fun _ => 0%R;
     window_size_left := 0; window_size_right := 0;
     scale_softmax := 1%R; scale_softmax_log2 := (1 / ln 2)%R;
     rp_dropout := 1%R;
     alibi_slopes_ptr := None; alibi_slopes_batch_stride := 0;
     rotary_dim := 0; is_rotary_interleaved := false;
     num_splits := 2;
     block_table := None; block_table_batch_stride := 0;
     page_block_size := 0;
     cache_batch_idx := None;
     philox_seed := 0; philox_offset := 0 |}.

(** The block information of the third sequence. *)
Definition packed_binfo : BlockInfo :=
  {| actual_seqlen_q := 1; actual_seqlen_k := 1; seqlen_k_cache := 1;
     q_offset := fun _ row_stride _ => 3 * row_stride;
     k_offset := fun batch_stride _ bidb => bidb * batch_stride |}.

(** The blocks of the two splits for the query of the third sequence. *)
Definition packed_block (s : Z) : list store :=
  compute_attn_1rowblock_splitkv false false false false false true false
    unit_traits packed_params packed_binfo (fun _ _ => Fin 0%R)
    2 0 0 s 2 0 0.

Definition packed_stores : list store := packed_block 0 ++ packed_block 1.

(** An empty cache that receives two new rows, for one query: tiles of
    one row, a head dimension of two that is rotated as a whole, cos = 1
    and sin = 0, rows of ones in Knew and Vnew. *)
Definition append_traits : Kernel_traits := example_traits 1 1 2.

Definition append_params (wl wr : Z) : Params :=
  {| p_b := 1; p_h := 1; p_h_h_k_ratio := 1;
     p_seqlen_q := 1; p_seqlen_k := 2; p_seqlen_knew := 2;
     p_d := 2; p_d_rounded := 2;
     q_ptr := fun _ => 0%R; k_ptr := fun _ => 0%R; v_ptr := fun _ => 0%R;
     knew_ptr := fun _ => 1%R; vnew_ptr := fun _ => 1%R;
     q_batch_stride := 0; q_row_stride := 2; q_head_stride := 0;
     k_batch_stride := 0; k_row_stride := 2; k_head_stride := 0;
     v_batch_stride := 0; v_row_stride := 2; v_head_stride := 0;
     knew_batch_stride := 0; knew_row_stride := 2; knew_head_stride := 0;
     vnew_batch_stride := 0; vnew_row_stride := 2; vnew_head_stride := 0;
     o_batch_stride := 0; o_row_stride := 2; o_head_stride := 0;
     rotary_cos_ptr := fun _ => 1%R; rotary_sin_ptr := fun _ => 0%R;
     window_size_left := wl; window_size_right := wr;
     scale_softmax := 1%R; scale_softmax_log2 := (1 / ln 2)%R;
     rp_dropout := 1%R;
     alibi_slopes_ptr := None; alibi_slopes_batch_stride := 0;
     rotary_dim := 2; is_rotary_interleaved := false;
     num_splits := 1;
     block_table := None; block_table_batch_stride := 0;
     page_block_size := 0;
     cache_batch_idx := None;
     philox_seed := 0; philox_offset := 0 |}.

Definition append_binfo : BlockInfo := example_binfo 1 2 0.

Definition two_split_lseaccum (a : Z) : fp := if a =? 0 then Fin 0%R else NInf.

Definition two_split_oaccum (a : Z) : fp := if a =? 0 then Fin 1%R else Fin 0%R.

(** ** Further notions for the properties of the kernels *)

(** One query and two hundred keys in tiles of 64: four K/V tiles. *)
Definition four_tile_params : Params :=
  example_params 1 1 1 200 64 0 0 1 (fun _ => 0%R) (fun _ => 0%R)
                 (fun _ => 0%R) 64 3.

Definition four_tile_binfo : BlockInfo := example_binfo 1 200 0.

(** Two hundred queries and keys under a causal mask, in tiles of 64. *)
Definition square_params : Params :=
  example_params 1 1 200 200 64 0 0 1 (fun _ => 0%R) (fun _ => 0%R)
                 (fun _ => 0%R) 64 1.

Definition square_binfo : BlockInfo := example_binfo 200 200 0.

(** The parameters with another V tensor: its memory and its strides.
    Everything else is kept. *)
Definition with_values (params : Params) (v : gmem) (vbs vrs vhs : Z)
    : Params :=
  kv_layout params (block_table params) (block_table_batch_stride params)
    (page_block_size params) (k_ptr params) v (k_batch_stride params)
    (k_row_stride params) (k_head_stride params) vbs vrs vhs.

(** Two loop states that agree on the tile index, on the K pointer and on
    the softmax state of the row. *)
Definition same_row (st st' : attn_state) : Prop :=
  n_block st = n_block st' /\ tKgK st = tKgK st'
  /\ softmax st = softmax st'.

(** The LSE that the dense kernel holds for the row [r] of a query tile
    when it reaches its stores: the sentinel on the early exit, the LSE
    of the softmax state after the two loops otherwise. *)
Definition dense_row_lse
    (Is_dropout Is_causal Is_local Has_alibi Is_even_MN Is_even_K : bool)
    (kt : Kernel_traits) (params : Params) (binfo : BlockInfo)
    (keep : Z -> Z -> bool) (smem_ : Z -> Z -> fp)
    (bidb bidh m_block : Z) (r c : Z) : fp :=
  let n_block_min := n_block_min Is_local kt params binfo m_block in
  let n_block_max := n_block_max Is_causal Is_local kt params binfo m_block in
  let max_MN := actual_seqlen_q binfo - m_block * kBlockM kt in
  if (Is_causal || Is_local || negb Is_even_MN)
     && (n_block_max <=? n_block_min)
  then PInf
  else
    let row_offset_q :=
      q_offset binfo (q_batch_stride params) (q_row_stride params) bidb
      + m_block * kBlockM kt * q_row_stride params
      + bidh * q_head_stride params in
    let sQ cc :=
      copy_elt Is_even_MN Is_even_K false (q_ptr params) row_offset_q
               (q_row_stride params) max_MN (p_d params) (smem_ r cc) r cc in
    let mask :=
      {| max_seqlen_k := actual_seqlen_k binfo;
         max_seqlen_q := actual_seqlen_q binfo;
         mask_window_size_left := window_size_left params;
         mask_window_size_right := window_size_right params;
         alibi_slope := dense_alibi_slope Has_alibi params bidb bidh |} in
    let st0 :=
      {| n_block := n_block_max - 1;
         tKgK := dense_row_offset_k kt params binfo bidb bidh n_block_max;
         tVgV := dense_row_offset_v kt params binfo bidb bidh n_block_max;
         softmax := softmax_unset;
         acc_o := Fin 0%R |} in
    let st :=
      attn_loops Is_dropout Is_causal Is_local Has_alibi Is_even_MN
                 Is_even_K kt params binfo None (k_ptr params)
                 (v_ptr params) mask sQ smem_ keep m_block r c n_block_min
                 (Is_causal || Is_local) Is_local st0 in
    fst (normalize_softmax_lse Is_dropout false (softmax st) (acc_o st)
           (scale_softmax params) (rp_dropout params)).

(** ** The thread layout of the reduction kernel *)

(** The entry [(row, col)] of [sLSE] that the thread [tidx] fills in the
    iteration [l] of the first loop (lines 1272-1278). *)
Definition load_lse_entry (combine_kBlockM : Z) (l tidx : Z) : Z * Z :=
  (l * kRowsPerLoadLSE combine_kBlockM + cdiv tidx combine_kBlockM,
   Z.rem tidx combine_kBlockM).

(** The entry [(row, col)] of [sLSE] that the thread [tidx] takes into
    [lse_accum(l)] (lines 1291-1296). *)
Definition transpose_entry (combine_kBlockM Log_max_splits : Z)
    (l tidx : Z) : Z * Z :=
  (l * kRowsPerLoadTranspose combine_kBlockM Log_max_splits
   + Z.rem tidx (kRowsPerLoadTranspose combine_kBlockM Log_max_splits),
   cdiv tidx (kRowsPerLoadTranspose combine_kBlockM Log_max_splits)).

(** The thread stores the LSE of its row (line 1314). *)
Definition writes_lse (combine_kBlockM Log_max_splits : Z) (tidx : Z)
    : bool :=
  (Z.rem tidx (kRowsPerLoadTranspose combine_kBlockM Log_max_splits) =? 0)
  && (cdiv tidx (kRowsPerLoadTranspose combine_kBlockM Log_max_splits)
      <? combine_kBlockM).

(** ** The cache once the new rows are appended *)

(** The key row [col] of the unpaged cache of the batch after the append
    phase: the row of the cache below [seqlen_k_cache], and from there on
    the new key row [col - seqlen_k_cache], rotated at its position when
    the rotary embedding is on. *)
Definition appended_cache_K (params : Params) (binfo : BlockInfo)
    (bidb bidh : Z) (col cc : Z) : R :=
  if col <? seqlen_k_cache binfo
  then cache_K params binfo bidb bidh col cc
  else appended_K params binfo bidb bidh (col - seqlen_k_cache binfo) cc.

Definition appended_cache_V (params : Params) (binfo : BlockInfo)
    (bidb bidh : Z) (col cc : Z) : R :=
  if col <? seqlen_k_cache binfo
  then cache_V params binfo bidb bidh col cc
  else Vnew params binfo bidb bidh (col - seqlen_k_cache binfo) cc.

(** The parameters with other K and V memories, the strides and
    everything else being kept. *)
Definition with_kv (params : Params) (k v : gmem) : Params :=
  kv_layout params (block_table params) (block_table_batch_stride params)
    (page_block_size params) k v (k_batch_stride params)
    (k_row_stride params) (k_head_stride params) (v_batch_stride params)
    (v_row_stride params) (v_head_stride params).

(** Two queries and two keys of one column under a causal mask, in tiles
    of one row: the first query sees the first key alone. *)
Definition causal_pair_params : Params :=
  example_params 1 1 2 2 1 0 0 1 (fun _ => 0%R) (fun _ => 0%R)
                 (fun _ => 0%R) 1 1.

Definition causal_pair_binfo : BlockInfo := example_binfo 2 2 0.

(** A memory that differs from zero at the second row alone. *)
Definition second_row_only (a : Z) : R := if a =? 1 then 5%R else 0%R.
(** * Properties *)

(** ** Integer division *)

Lemma cdiv_nonneg (a b : Z) : 0 <= a -> 0 < b -> cdiv a b = a / b.
Proof. intros; unfold cdiv; apply Z.quot_div_nonneg; lia. Qed.

Lemma cdiv_neg (a b : Z) : a <= 0 -> 0 < b -> cdiv a b = - ((- a) / b).
Proof.
  intros Ha Hb. unfold cdiv.
  replace a with (- (- a)) at 1 by lia.
  rewrite Z.quot_opp_l by lia.
  rewrite Z.quot_div_nonneg by lia. reflexivity.
Qed.

Lemma ceil_quot_spec (a b : Z) :
  0 < b -> b * (ceil_quot a b - 1) < a <= b * ceil_quot a b.
Proof.
  intros Hb. unfold ceil_quot.
  pose proof (Z.mul_div_le (- a) b Hb).
  pose proof (Z.mul_succ_div_gt (- a) b Hb). lia.
Qed.

Lemma ceil_quot_unique (a b q : Z) :
  0 < b -> b * (q - 1) < a <= b * q -> ceil_quot a b = q.
Proof.
  intros Hb Hq. pose proof (ceil_quot_spec a b Hb). nia.
Qed.

Lemma ceil_div_exact (a b : Z) :
  0 < b -> - b < a -> ceil_div a b = ceil_quot a b.
Proof.
  intros Hb Ha. unfold ceil_div. rewrite cdiv_nonneg by lia.
  symmetry. apply ceil_quot_unique; [lia|].
  pose proof (Z.mul_div_le (a + b - 1) b Hb).
  pose proof (Z.mul_succ_div_gt (a + b - 1) b Hb). lia.
Qed.

Lemma ceil_div_trunc (a b : Z) :
  0 < b -> a <= - b -> ceil_div a b = ceil_quot (a - 1) b + 1.
Proof.
  intros Hb Ha. unfold ceil_div. rewrite cdiv_neg by lia.
  unfold ceil_quot.
  replace (- (a + b - 1)) with (- (a - 1) + (-1) * b) by lia.
  rewrite Z.div_add by lia. lia.
Qed.

(** Whatever the sign of the dividend, [ceil_div a b] tiles cover [a]
    rows, and none of them is needed when [a] is not positive. *)
Lemma ceil_div_covers (a b : Z) : 0 < b -> a <= ceil_div a b * b.
Proof.
  intros Hb. destruct (Z_lt_le_dec (- b) a) as [H|H].
  - rewrite ceil_div_exact by lia. pose proof (ceil_quot_spec a b Hb). lia.
  - rewrite ceil_div_trunc by lia.
    pose proof (ceil_quot_spec (a - 1) b Hb). lia.
Qed.

Lemma ceil_div_tight (a b : Z) :
  0 < b -> - b < a -> (ceil_div a b - 1) * b < a.
Proof.
  intros Hb Ha. rewrite ceil_div_exact by lia.
  pose proof (ceil_quot_spec a b Hb). lia.
Qed.

Lemma ceil_div_nonpos (a b : Z) : 0 < b -> a <= 0 -> ceil_div a b <= 0.
Proof.
  intros Hb Ha. destruct (Z_lt_le_dec (- b) a) as [H|H].
  - rewrite ceil_div_exact by lia. pose proof (ceil_quot_spec a b Hb). nia.
  - rewrite ceil_div_trunc by lia.
    pose proof (ceil_quot_spec (a - 1) b Hb). nia.
Qed.

Lemma ceil_div_nonneg (a b : Z) : 0 < b -> 0 <= a -> 0 <= ceil_div a b.
Proof.
  intros Hb Ha. unfold ceil_div. rewrite cdiv_nonneg by lia.
  apply Z.div_pos; lia.
Qed.

Lemma cdiv_floor_le (a b : Z) : 0 < b -> 0 <= a -> cdiv a b * b <= a.
Proof.
  intros Hb Ha. rewrite cdiv_nonneg by lia.
  pose proof (Z.mul_div_le a b Hb). lia.
Qed.

Lemma cdiv_floor_gt (a b : Z) : 0 < b -> a < (cdiv a b + 1) * b.
Proof.
  intros Hb. destruct (Z_lt_le_dec a 0) as [H|H].
  - rewrite cdiv_neg by lia.
    assert (0 <= - a / b) by (apply Z.div_pos; lia).
    pose proof (Z.mul_div_le (- a) b Hb). nia.
  - rewrite cdiv_nonneg by lia.
    pose proof (Z.mul_succ_div_gt a b Hb). lia.
Qed.

(** ** The K/V tile range of the dense kernel *)

(** C6, as stated, fails: for a clamp dividend at or below [-Bc] the
    kernel's [n_block_max] is not the minimum with the ceiling of the
    quotient. *)
Lemma dense_tile_range_counterexample :
  n_block_max true false (example_traits 64 64 64) far_above_params
              (example_binfo 200 1 0) 0 = -1
  /\ spec_n_max true false 64 64 0 200 1 0 = -2
  /\ n_block_max true false (example_traits 64 64 64) far_above_params
                 (example_binfo 200 1 0) 0
     <> spec_n_max true false 64 64 0 200 1 0.
Proof. repeat split; try reflexivity. intro H; discriminate H. Qed.

(** C6, amended: for every query tile, the kernel's [n_block_min] is 0
    without a local window and [max(0, floor((m_block * Br + Sk - Sq -
    window_left) / Bc))] with one, also for a negative dividend.  Its
    [n_block_max] is [ceil(Sk / Bc)] when the mask is neither causal nor
    local, whatever the other lengths; when it is causal or local, it is
    the minimum of [ceil(Sk / Bc)] and [ceil(a / Bc)], [a = (m_block + 1)
    * Br + Sk - Sq + window_right], whenever [a > -Bc], and for
    [a <= -Bc] it is [ceil((a - 1) / Bc) + 1], which is neither positive
    nor above [n_block_min], so that the range is empty all the same. *)
Theorem dense_tile_range
    (Is_causal Is_local : bool) (kt : Kernel_traits) (params : Params)
    (binfo : BlockInfo) (m_block : Z)
    (HBc : 0 < kBlockN kt) (Hsk : 0 <= actual_seqlen_k binfo) :
  let a := (m_block + 1) * kBlockM kt + actual_seqlen_k binfo
           - actual_seqlen_q binfo + window_size_right params in
  n_block_min Is_local kt params binfo m_block
  = spec_n_min Is_local (kBlockM kt) (kBlockN kt) m_block
      (actual_seqlen_q binfo) (actual_seqlen_k binfo)
      (window_size_left params)
  /\ (Is_causal || Is_local = false \/ - kBlockN kt < a ->
      n_block_max Is_causal Is_local kt params binfo m_block
      = spec_n_max Is_causal Is_local (kBlockM kt) (kBlockN kt) m_block
          (actual_seqlen_q binfo) (actual_seqlen_k binfo)
          (window_size_right params))
  /\ (Is_causal || Is_local = true -> a <= - kBlockN kt ->
      n_block_max Is_causal Is_local kt params binfo m_block
      = ceil_quot (a - 1) (kBlockN kt) + 1
      /\ n_block_max Is_causal Is_local kt params binfo m_block <= 0
      /\ n_block_max Is_causal Is_local kt params binfo m_block
         <= n_block_min Is_local kt params binfo m_block).
Proof.
  intros a.
  assert (Hmin : 0 <= n_block_min Is_local kt params binfo m_block)
    by (unfold n_block_min; destruct (negb Is_local); lia).
  split; [|split].
  - unfold n_block_min, spec_n_min, floor_quot.
    destruct Is_local; simpl; [|reflexivity].
    set (x := m_block * kBlockM kt + actual_seqlen_k binfo
              - actual_seqlen_q binfo - window_size_left params).
    destruct (Z_lt_le_dec x 0) as [Hx|Hx].
    + rewrite cdiv_neg by lia.
      assert (0 <= - x / kBlockN kt) by (apply Z.div_pos; lia).
      assert (x / kBlockN kt < 0) by (apply Z.div_lt_upper_bound; lia).
      lia.
    + rewrite cdiv_nonneg by lia. reflexivity.
  - intros Hmode. unfold n_block_max, spec_n_max.
    rewrite (ceil_div_exact (actual_seqlen_k binfo)) by lia.
    destruct (Is_causal || Is_local); [|reflexivity].
    destruct Hmode as [Hmode|Ha]; [discriminate Hmode|].
    fold a. rewrite (ceil_div_exact a) by lia. reflexivity.
  - intros Hmode Ha.
    assert (E : n_block_max Is_causal Is_local kt params binfo m_block
                = ceil_quot (a - 1) (kBlockN kt) + 1).
    { unfold n_block_max. rewrite Hmode. fold a.
      rewrite (ceil_div_trunc a) by lia.
      pose proof (ceil_div_nonneg (actual_seqlen_k binfo) (kBlockN kt)
                    HBc Hsk).
      pose proof (ceil_quot_spec (a - 1) (kBlockN kt) HBc).
      assert (ceil_quot (a - 1) (kBlockN kt) + 1 <= 0) by nia.
      lia. }
    assert (Hle : n_block_max Is_causal Is_local kt params binfo m_block
                  <= 0).
    { unfold n_block_max. rewrite Hmode. fold a.
      pose proof (ceil_div_nonpos a (kBlockN kt) HBc ltac:(lia)). lia. }
    split; [exact E|]. split; [exact Hle|lia].
Qed.

(** The amended statement at a causal tile on the diagonal (128 queries
    and keys, tiles of 64 by 64, the second query tile), and without a
    mask at a tile far above the diagonal, where the clamp does not
    apply: 1024 queries, 128 keys, tiles of 128 by 64. *)
Lemma dense_tile_range_witness :
  n_block_min false (example_traits 64 64 64) far_above_params
              (example_binfo 128 128 0) 1 = 0
  /\ n_block_max true false (example_traits 64 64 64) far_above_params
                 (example_binfo 128 128 0) 1 = 2
  /\ n_block_max false false (example_traits 128 64 64) far_above_params
                 (example_binfo 1024 128 0) 0 = 2.
Proof.
  pose proof (dense_tile_range true false (example_traits 64 64 64)
                far_above_params (example_binfo 128 128 0) 1
                ltac:(simpl; lia) ltac:(simpl; lia)) as [Hmin [Hmax _]].
  pose proof (dense_tile_range false false (example_traits 128 64 64)
                far_above_params (example_binfo 1024 128 0) 0
                ltac:(simpl; lia) ltac:(simpl; lia)) as [_ [Hmax' _]].
  split; [|split].
  - rewrite Hmin. reflexivity.
  - rewrite Hmax by (right; simpl; lia). reflexivity.
  - rewrite Hmax' by (left; reflexivity). reflexivity.
Defined.

(** ** Grouped-query attention *)

(** C10: with [h_h_k_ratio = Hq / Hk] and [Hk] dividing [Hq], a query
    head [bidh] below [Hq] reads the K/V head [floor(bidh / ratio)], a
    head below [Hk], so that the query heads fall onto the K/V heads in
    contiguous groups of [ratio]; and every K, V, Knew and Vnew offset of
    the dense and of the split kernel, paged or not, depends on the query
    head only through that K/V head times the head stride. *)
Theorem gqa_kv_head_mapping
    (kt : Kernel_traits) (params : Params) (binfo : BlockInfo)
    (Hq Hk bidb bidh n_block_max : Z)
    (HHk : 0 < Hk) (Hdiv : (Hk | Hq))
    (Hratio : p_h_h_k_ratio params = Hq / Hk)
    (Hh : 0 <= bidh < Hq) :
  let ratio := Hq / Hk in
  kv_head params bidh = bidh / ratio
  /\ 0 <= kv_head params bidh < Hk
  /\ (forall g, kv_head params bidh = g
                <-> g * ratio <= bidh < (g + 1) * ratio)
  /\ dense_row_offset_k kt params binfo bidb bidh n_block_max
     = dense_row_offset_k kt params binfo bidb 0 n_block_max
       + (bidh / ratio) * k_head_stride params
  /\ dense_row_offset_v kt params binfo bidb bidh n_block_max
     = dense_row_offset_v kt params binfo bidb 0 n_block_max
       + (bidh / ratio) * v_head_stride params
  /\ split_row_offset_k kt params binfo bidb bidh n_block_max
     = split_row_offset_k kt params binfo bidb 0 n_block_max
       + (bidh / ratio) * k_head_stride params
  /\ split_row_offset_v kt params binfo bidb bidh n_block_max
     = split_row_offset_v kt params binfo bidb 0 n_block_max
       + (bidh / ratio) * v_head_stride params
  /\ row_offset_new kt params binfo (knew_batch_stride params)
       (knew_row_stride params) (knew_head_stride params)
       bidb bidh n_block_max
     = row_offset_new kt params binfo (knew_batch_stride params)
         (knew_row_stride params) (knew_head_stride params)
         bidb 0 n_block_max
       + (bidh / ratio) * knew_head_stride params
  /\ row_offset_new kt params binfo (vnew_batch_stride params)
       (vnew_row_stride params) (vnew_head_stride params)
       bidb bidh n_block_max
     = row_offset_new kt params binfo (vnew_batch_stride params)
         (vnew_row_stride params) (vnew_head_stride params)
         bidb 0 n_block_max
       + (bidh / ratio) * vnew_head_stride params.
Proof.
  intros ratio.
  destruct Hdiv as [q Hq_eq].
  assert (Hr : ratio = q) by (unfold ratio; subst Hq; apply Z.div_mul; lia).
  assert (Hq_pos : 0 < q) by nia.
  assert (Hkv : kv_head params bidh = bidh / ratio).
  { unfold kv_head. rewrite Hratio. fold ratio.
    apply cdiv_nonneg; lia. }
  assert (Hz : cdiv 0 (p_h_h_k_ratio params) = 0).
  { rewrite Hratio. fold ratio. rewrite cdiv_nonneg by lia.
    apply Z.div_0_l; lia. }
  assert (Hc : cdiv bidh (p_h_h_k_ratio params) = bidh / ratio)
    by exact Hkv.
  pose proof (Z.mul_div_le bidh ratio ltac:(lia)) as Hlo.
  pose proof (Z.mul_succ_div_gt bidh ratio ltac:(lia)) as Hhi.
  assert (Hnn : 0 <= bidh / ratio) by (apply Z.div_pos; lia).
  split; [exact Hkv|]. split.
  { rewrite Hkv. split; [exact Hnn|].
    apply Z.div_lt_upper_bound; [lia|]. rewrite Hr. nia. }
  split.
  { intros g. rewrite Hkv. split.
    - intros <-. lia.
    - intros [Hg1 Hg2]. symmetry. apply (Z.div_unique bidh ratio g (bidh - ratio * g)); lia. }
  unfold dense_row_offset_k, dense_row_offset_v, split_row_offset_k,
    split_row_offset_v, split_row_offset, row_offset_new.
  rewrite Hz, Hc.
  destruct (block_table_of params bidb); repeat split; ring.
Qed.

(** Eight query heads on two K/V heads: head 5 reads K/V head 1. *)
Lemma gqa_kv_head_mapping_witness :
  kv_head (example_params 8 4 1 1 1 0 0 1 (fun _ => 0%R) (fun _ => 0%R)
             (fun _ => 0%R) 1 1) 5 = 1.
Proof.
  pose proof (gqa_kv_head_mapping (example_traits 1 1 1)
    (example_params 8 4 1 1 1 0 0 1 (fun _ => 0%R) (fun _ => 0%R)
       (fun _ => 0%R) 1 1)
    (example_binfo 1 1 0) 8 2 0 5 1
    ltac:(lia) ltac:(exists 4; reflexivity) ltac:(reflexivity)
    ltac:(lia)) as [H _].
  rewrite H. reflexivity.
Defined.

(** ** The random-number state of the dense kernel *)

(** C9: with dropout active, thread 0 of block (0,0,0) stores the seed
    and the offset to [rng_state] first on every path of the dense
    kernel: when the query tile lies beyond [actual_seqlen_q] nothing
    else is stored before the kernel returns, and when the K/V range is
    empty the zero tile and the infinite LSE follow it. *)
Theorem rng_state_saved_before_exit
    (Is_causal Is_local Has_alibi Is_even_MN Is_even_K : bool)
    (kt : Kernel_traits) (params : Params) (binfo : BlockInfo)
    (keep : Z -> Z -> bool) (smem_ : Z -> Z -> fp)
    (bidb bidh m_block r c : Z) :
  let run :=
    compute_attn_1rowblock true Is_causal Is_local Has_alibi Is_even_MN
      Is_even_K kt params binfo keep smem_ (0, 0, 0) 0 bidb bidh m_block
      r c in
  let saved := StoreRngState (philox_seed params) (philox_offset params) in
  (exists rest, run = saved :: rest)
  /\ (actual_seqlen_q binfo <= m_block * kBlockM kt -> run = [saved])
  /\ (m_block * kBlockM kt < actual_seqlen_q binfo ->
      Is_causal || Is_local || negb Is_even_MN = true ->
      n_block_max Is_causal Is_local kt params binfo m_block
      <= n_block_min Is_local kt params binfo m_block ->
      run = saved
            :: store_elt Is_even_MN Is_even_K StoreO
                 (q_offset binfo (o_batch_stride params)
                    (o_row_stride params) bidb
                  + m_block * kBlockM kt * o_row_stride params
                  + bidh * o_head_stride params)
                 (o_row_stride params)
                 (actual_seqlen_q binfo - m_block * kBlockM kt)
                 (p_d params) r c (Fin 0%R)
            ++ store_lse StoreLSE
                 ((bidb * p_h params + bidh) * p_seqlen_q params
                  + m_block * kBlockM kt)
                 (actual_seqlen_q binfo - m_block * kBlockM kt) r PInf).
Proof.
  intros run saved. unfold run, compute_attn_1rowblock.
  cbn [andb Z.eqb app]. fold saved.
  split; [|split].
  - destruct (actual_seqlen_q binfo <=? m_block * kBlockM kt);
      [eexists; reflexivity|].
    destruct ((Is_causal || Is_local || negb Is_even_MN)
              && (n_block_max Is_causal Is_local kt params binfo m_block
                  <=? n_block_min Is_local kt params binfo m_block));
      [eexists; reflexivity|].
    match goal with
    | |- context [let '(lse, o) := ?n in _] => destruct n as [lse out]
    end.
    eexists; reflexivity.
  - intros H. apply Z.leb_le in H. rewrite H. reflexivity.
  - intros H1 H2 H3.
    assert (E1 : (actual_seqlen_q binfo <=? m_block * kBlockM kt) = false)
      by (apply Z.leb_gt; lia).
    apply Z.leb_le in H3. rewrite E1, H2, H3. reflexivity.
Qed.

(** A block whose query tile lies beyond the two queries of the batch
    element: the state is stored and nothing else. *)
Lemma rng_state_saved_before_exit_witness :
  compute_attn_1rowblock true true false false false true
    (example_traits 64 64 64) far_above_params (example_binfo 0 1 0)
    (fun _ _ => true) (fun _ _ => NaN) (0, 0, 0) 0 0 0 0 0 0
  = [StoreRngState 0 0].
Proof.
  pose proof (rng_state_saved_before_exit true false false false true
    (example_traits 64 64 64) far_above_params (example_binfo 0 1 0)
    (fun _ _ => true) (fun _ _ => NaN) 0 0 0 0 0) as [_ [H _]].
  apply H. simpl. lia.
Defined.

(** ** Sums over integer intervals *)

Section ZSum.

Local Open Scope R_scope.

Lemma zsum_ext (lo : Z) (n : nat) (f g : Z -> R) :
    (forall i, (lo <= i < lo + Z.of_nat n)%Z -> f i = g i) ->
    zsum lo n f = zsum lo n g.
Proof.
    revert lo. induction n as [|n IH]; intros lo H; simpl; [reflexivity|].
    rewrite H by lia. rewrite (IH (lo + 1)%Z); [reflexivity|].
    intros i Hi. apply H. lia.
Qed.

Lemma zsum_app (lo : Z) (n m : nat) (f : Z -> R) :
    zsum lo (n + m) f = zsum lo n f + zsum (lo + Z.of_nat n) m f.
Proof.
    revert lo. induction n as [|n IH]; intros lo.
    - simpl. replace (lo + 0)%Z with lo by lia. lra.
    - cbn [Nat.add zsum]. rewrite IH.
      replace (lo + 1 + Z.of_nat n)%Z with (lo + Z.of_nat (S n))%Z by lia.
      lra.
Qed.

Lemma zsum_zero (lo : Z) (n : nat) (f : Z -> R) :
    (forall i, (lo <= i < lo + Z.of_nat n)%Z -> f i = 0) ->
    zsum lo n f = 0.
Proof.
    revert lo. induction n as [|n IH]; intros lo H; simpl; [reflexivity|].
    rewrite H by lia. rewrite IH; [lra|]. intros i Hi. apply H. lia.
Qed.

Lemma zsum_plus (lo : Z) (n : nat) (f g : Z -> R) :
    zsum lo n (fun i => f i + g i) = zsum lo n f + zsum lo n g.
Proof.
    revert lo. induction n as [|n IH]; intros lo; simpl; [lra|].
    rewrite IH. lra.
Qed.

Lemma zsum_scale (lo : Z) (n : nat) (k : R) (f : Z -> R) :
    zsum lo n (fun i => k * f i) = k * zsum lo n f.
Proof.
    revert lo. induction n as [|n IH]; intros lo; simpl; [lra|].
    rewrite IH. lra.
Qed.

Lemma zsum_shift (lo : Z) (n : nat) (f : Z -> R) :
    zsum lo n f = zsum 0 n (fun i => f (lo + i)%Z).
Proof.
    revert lo f. induction n as [|n IH]; intros lo f; simpl; [reflexivity|].
    replace (lo + 0)%Z with lo by lia. f_equal.
    rewrite (IH (lo + 1)%Z f), (IH (0 + 1)%Z).
    apply zsum_ext. intros i _. f_equal. lia.
Qed.

Lemma zsum_nonneg (lo : Z) (n : nat) (f : Z -> R) :
    (forall i, (lo <= i < lo + Z.of_nat n)%Z -> 0 <= f i) ->
    0 <= zsum lo n f.
Proof.
    revert lo. induction n as [|n IH]; intros lo H; simpl; [lra|].
    pose proof (H lo ltac:(lia)).
    assert (0 <= zsum (lo + 1) n f) by (apply IH; intros i Hi; apply H; lia).
    lra.
Qed.

Lemma zsum_pos (lo : Z) (n : nat) (f : Z -> R) (j : Z) :
    (forall i, (lo <= i < lo + Z.of_nat n)%Z -> 0 <= f i) ->
    (lo <= j < lo + Z.of_nat n)%Z -> 0 < f j ->
    0 < zsum lo n f.
Proof.
    revert lo. induction n as [|n IH]; intros lo H Hj Hpos; [lia|].
    simpl. pose proof (H lo ltac:(lia)).
    destruct (Z.eq_dec j lo) as [->|Hne].
    - assert (0 <= zsum (lo + 1) n f)
        by (apply zsum_nonneg; intros i Hi; apply H; lia).
      lra.
    - assert (0 < zsum (lo + 1) n f).
      { apply IH; [intros i Hi; apply H; lia|lia|exact Hpos]. }
      lra.
Qed.

  (** Two intervals on which [f] vanishes outside their intersection
      give the same sum. *)
Lemma zsum_restrict (lo : Z) (n : nat) (lo' : Z) (n' : nat) (f : Z -> R) :
    (lo <= lo')%Z -> (lo' + Z.of_nat n' <= lo + Z.of_nat n)%Z ->
    (forall i, (lo <= i < lo')%Z -> f i = 0) ->
    (forall i, (lo' + Z.of_nat n' <= i < lo + Z.of_nat n)%Z -> f i = 0) ->
    zsum lo n f = zsum lo' n' f.
Proof.
    intros H1 H2 Hl Hr.
    replace n with (Z.to_nat (lo' - lo) + (n' + Z.to_nat (lo + Z.of_nat n - (lo' + Z.of_nat n'))))%nat
      by lia.
    rewrite !zsum_app.
    rewrite (zsum_zero lo) by (intros i Hi; apply Hl; lia).
    rewrite (zsum_zero (lo + Z.of_nat (Z.to_nat (lo' - lo)) + Z.of_nat n'))
      by (intros i Hi; apply Hr; lia).
    replace (lo + Z.of_nat (Z.to_nat (lo' - lo)))%Z with lo' by lia.
    lra.
Qed.

  (** A sum over [rows * width] integers, by rows. *)
Lemma zsum_by_rows (width rows : nat) (f : Z -> R) :
    zsum 0 (rows * width) f
    = zsum 0 width
        (fun lane => zsum 0 rows
           (fun l => f (l * Z.of_nat width + lane)%Z)).
Proof.
    induction rows as [|rows IH].
    - simpl. symmetry. apply zsum_zero. reflexivity.
    - replace (S rows * width)%nat with (rows * width + width)%nat by lia.
      rewrite zsum_app, IH.
      rewrite (zsum_shift (0 + Z.of_nat (rows * width))).
      rewrite <- zsum_plus. apply zsum_ext. intros lane Hl.
      replace (S rows) with (rows + 1)%nat by lia.
      rewrite zsum_app. simpl.
      f_equal. rewrite Rplus_0_r. f_equal. lia.
Qed.

End ZSum.

(** A sum over an interval, cut at [mid]. *)
Lemma zsum_split (lo mid hi : Z) (f : Z -> R) :
  lo <= mid <= hi ->
  zsum lo (Z.to_nat (hi - lo)) f
  = (zsum lo (Z.to_nat (mid - lo)) f + zsum mid (Z.to_nat (hi - mid)) f)%R.
Proof.
  intros H.
  replace (Z.to_nat (hi - lo))
    with (Z.to_nat (mid - lo) + Z.to_nat (hi - mid))%nat by lia.
  rewrite zsum_app. do 2 f_equal. lia.
Qed.

(** A sum of terms that are not negative vanishes only when each term
    does. *)
Lemma zsum_zero_inv (lo : Z) (n : nat) (f : Z -> R) (j : Z) :
  (forall i, lo <= i < lo + Z.of_nat n -> (0 <= f i)%R) ->
  zsum lo n f = 0%R -> lo <= j < lo + Z.of_nat n -> f j = 0%R.
Proof.
  intros Hpos Hz Hj.
  destruct (Req_dec_T (f j) 0) as [E|E]; [exact E|exfalso].
  pose proof (Hpos j Hj).
  pose proof (zsum_pos lo n f j Hpos Hj ltac:(lra)). lra.
Qed.

(** Two intervals outside whose intersection [f] vanishes give the same
    sum. *)
Lemma zsum_common (lo : Z) (n : nat) (lo' : Z) (n' : nat) (f : Z -> R) :
  (forall i, lo <= i < lo + Z.of_nat n ->
             ~ (lo' <= i < lo' + Z.of_nat n') -> f i = 0%R) ->
  (forall i, lo' <= i < lo' + Z.of_nat n' ->
             ~ (lo <= i < lo + Z.of_nat n) -> f i = 0%R) ->
  zsum lo n f = zsum lo' n' f.
Proof.
  intros H1 H2.
  set (a := Z.max lo lo').
  set (b := Z.min (lo + Z.of_nat n) (lo' + Z.of_nat n')).
  destruct (Z_lt_le_dec a b) as [Hab|Hab].
  - rewrite (zsum_restrict lo n a (Z.to_nat (b - a)) f);
      [rewrite (zsum_restrict lo' n' a (Z.to_nat (b - a)) f);
       [reflexivity| | | |]| | | |]; unfold a, b in *;
      try lia; intros i Hi; first [apply H1; lia|apply H2; lia].
  - rewrite (zsum_zero lo n f), (zsum_zero lo' n' f);
      [reflexivity| |]; unfold a, b in *;
      intros i Hi; first [apply H1; lia|apply H2; lia].
Qed.

Lemma lsum_map_seq (f : Z -> R) (a n : nat) :
  lsum f (map Z.of_nat (seq a n)) = zsum (Z.of_nat a) n f.
Proof.
  revert a. induction n as [|n IH]; intros a; simpl; [reflexivity|].
  rewrite IH. do 2 f_equal. lia.
Qed.

Lemma lsum_upto (f : Z -> R) (n : Z) :
  lsum f (upto n) = zsum 0 (Z.to_nat n) f.
Proof. unfold upto. apply (lsum_map_seq f 0). Qed.

Lemma in_upto (n i : Z) : In i (upto n) <-> 0 <= i < n.
Proof.
  unfold upto. rewrite in_map_iff. split.
  - intros [k [<- Hk]]. apply in_seq in Hk. lia.
  - intros Hi. exists (Z.to_nat i). split; [lia|]. apply in_seq. lia.
Qed.

Lemma lsum_ext (f g : Z -> R) (l : list Z) :
  (forall x, In x l -> f x = g x) -> lsum f l = lsum g l.
Proof.
  induction l as [|x l IH]; intros H; simpl; [reflexivity|].
  rewrite H by (left; reflexivity). rewrite IH; [reflexivity|].
  intros y Hy. apply H. right. exact Hy.
Qed.

Lemma upto_length (n : Z) : length (upto n) = Z.to_nat n.
Proof. unfold upto. rewrite length_map, length_seq. reflexivity. Qed.

Lemma upto_succ (n : Z) : 0 <= n -> upto (n + 1) = upto n ++ [n].
Proof.
  intros Hn. unfold upto.
  replace (Z.to_nat (n + 1)) with (Z.to_nat n + 1)%nat by lia.
  rewrite seq_app, map_app. simpl. do 2 f_equal. lia.
Qed.

Lemma upto_nonpos (n : Z) : n <= 0 -> upto n = [].
Proof. intros Hn. unfold upto. replace (Z.to_nat n) with 0%nat by lia. reflexivity. Qed.

(** ** Facts on floating point values *)

Lemma fold_fadd_fin (f : Z -> R) (l : list Z) (a : R) :
  fold_left fadd (map (fun x => Fin (f x)) l) (Fin a)
  = Fin (a + lsum f l)%R.
Proof.
  revert a. induction l as [|x l IH]; intros a; simpl.
  - f_equal. lra.
  - rewrite IH. f_equal. lra.
Qed.

Lemma fsum_fin (f : Z -> R) (l : list Z) :
  fsum (map (fun x => Fin (f x)) l) = Fin (lsum f l).
Proof. unfold fsum. rewrite fold_fadd_fin. f_equal. lra. Qed.

Lemma fma_fold_fin (p v : Z -> R) (l : list Z) (a : R) :
  fma_fold (Fin a) (map (fun x => (Fin (p x), Fin (v x))) l)
  = Fin (a + lsum (fun x => p x * v x) l)%R.
Proof.
  unfold fma_fold. revert a. induction l as [|x l IH]; intros a; simpl.
  - f_equal. lra.
  - rewrite IH. f_equal. lra.
Qed.

Lemma fmax_max_of (a b : fp) :
  finite_or_ninf a -> finite_or_ninf b -> max_of [a; b] (fmax a b).
Proof.
  intros [->|[x ->]] [->|[y ->]]; simpl.
  - left. split; [reflexivity|]. intros a [<-|[<-|[]]]; reflexivity.
  - right. exists y. repeat split; [simpl; tauto|].
    intros z [H|[H|[]]]; inversion H; subst; lra.
  - right. exists x. repeat split; [simpl; tauto|].
    intros z [H|[H|[]]]; inversion H; subst; lra.
  - right. exists (Rmax x y). repeat split.
    + unfold Rmax. destruct (Rle_dec x y); simpl; tauto.
    + intros z [H|[H|[]]]; inversion H; subst;
        [apply Rmax_l|apply Rmax_r].
Qed.

Lemma max_of_finite_or_ninf (l : list fp) (m : fp) :
  max_of l m -> finite_or_ninf m.
Proof.
  intros [[-> _]|[x [-> _]]]; [left; reflexivity|right; eexists; reflexivity].
Qed.

(** The maximum of a list is the maximum of the maxima of two parts. *)
Lemma max_of_merge (l1 l2 : list fp) (m1 m2 : fp) :
  max_of l1 m1 -> max_of l2 m2 -> max_of (l1 ++ l2) (fmax m1 m2).
Proof.
  intros H1 H2.
  destruct H1 as [[-> A1]|[x [-> [I1 B1]]]];
    destruct H2 as [[-> A2]|[y [-> [I2 B2]]]]; simpl.
  - left. split; [reflexivity|]. intros a Ha.
    apply in_app_or in Ha as [Ha|Ha]; auto.
  - right. exists y. repeat split.
    + apply in_or_app. right. exact I2.
    + intros z Hz. apply in_app_or in Hz as [Hz|Hz].
      * apply A1 in Hz. discriminate.
      * apply B2. exact Hz.
  - right. exists x. repeat split.
    + apply in_or_app. left. exact I1.
    + intros z Hz. apply in_app_or in Hz as [Hz|Hz].
      * apply B1. exact Hz.
      * apply A2 in Hz. discriminate.
  - right. exists (Rmax x y). repeat split.
    + apply in_or_app. unfold Rmax. destruct (Rle_dec x y); [right|left]; assumption.
    + intros z Hz. apply in_app_or in Hz as [Hz|Hz].
      * apply B1 in Hz. pose proof (Rmax_l x y). lra.
      * apply B2 in Hz. pose proof (Rmax_r x y). lra.
Qed.

Lemma max_of_single (a : fp) : finite_or_ninf a -> max_of [a] a.
Proof.
  intros [->|[x ->]].
  - left. split; [reflexivity|]. intros a [<-|[]]. reflexivity.
  - right. exists x. repeat split; [left; reflexivity|].
    intros y [H|[]]. inversion H. lra.
Qed.

Lemma max_of_perm (l l' : list fp) (m : fp) :
  (forall a, In a l <-> In a l') -> max_of l m -> max_of l' m.
Proof.
  intros Hp [[-> A]|[x [-> [I B]]]].
  - left. split; [reflexivity|]. intros a Ha. apply A, Hp, Ha.
  - right. exists x. repeat split; [apply Hp, I|].
    intros y Hy. apply B, Hp, Hy.
Qed.

Lemma fold_fmax_max_of (l : list fp) (a : fp) :
  finite_or_ninf a -> (forall b, In b l -> finite_or_ninf b) ->
  max_of (a :: l) (fold_left fmax l a).
Proof.
  revert a. induction l as [|b l IH]; intros a Ha Hl; simpl.
  - apply max_of_single, Ha.
  - assert (Hab : max_of [a; b] (fmax a b)).
    { apply fmax_max_of; [exact Ha|apply Hl; left; reflexivity]. }
    pose proof (IH (fmax a b) (max_of_finite_or_ninf _ _ Hab)
                  (fun c Hc => Hl c (or_intror Hc))) as Hrec.
    (* the maximum of (fmax a b :: l) is the maximum of (a :: b :: l) *)
    destruct Hrec as [[E A]|[x [E [I B]]]].
    + left. split; [exact E|].
      assert (Hm : fmax a b = NInf) by (apply A; left; reflexivity).
      destruct Hab as [[_ A']|[x [E' _]]]; [|congruence].
      intros c [<-|[<-|Hc]].
      * apply A'. left. reflexivity.
      * apply A'. right. left. reflexivity.
      * apply A. right. exact Hc.
    + right. exists x. split; [exact E|].
      destruct Hab as [[E' A']|[y [E' [I' B']]]].
      * rewrite E' in *. split.
        -- destruct I as [I|I]; [discriminate|]. right. right. exact I.
        -- intros z [Hz|[Hz|Hz]].
           ++ rewrite (A' a (or_introl eq_refl)) in Hz. discriminate.
           ++ rewrite (A' b (or_intror (or_introl eq_refl))) in Hz. discriminate.
           ++ apply B. right. exact Hz.
      * rewrite E' in *. split.
        -- destruct I as [I|I].
           ++ inversion I; subst.
              destruct I' as [I'|[I'|[]]]; [left|right; left]; exact I'.
           ++ right. right. exact I.
        -- assert (Hyx : (y <= x)%R) by (apply B; left; reflexivity).
           intros z [Hz|[Hz|Hz]].
           ++ assert ((z <= y)%R) by (apply B'; left; exact Hz). lra.
           ++ assert ((z <= y)%R) by (apply B'; right; left; exact Hz). lra.
           ++ apply B. right. exact Hz.
Qed.

(** ** The reduction kernel *)

Lemma upto_cons (n : Z) :
  0 < n -> upto n = 0 :: map (fun l => l + 1) (upto (n - 1)).
Proof.
  intros Hn. unfold upto.
  replace (Z.to_nat n) with (S (Z.to_nat (n - 1))) by lia.
  cbn [seq map]. f_equal.
  rewrite <- seq_shift, !map_map. apply map_ext. intros a. lia.
Qed.

Lemma fold_first_rest (f : Z -> R) (n : Z) :
  0 < n ->
  fold_left fadd (map (fun l => Fin (f (l + 1))) (upto (n - 1))) (Fin (f 0))
  = Fin (zsum 0 (Z.to_nat n) f).
Proof.
  intros Hn.
  rewrite (fold_fadd_fin (fun l => f (l + 1))). f_equal.
  rewrite lsum_upto.
  replace (Z.to_nat n) with (S (Z.to_nat (n - 1))) by lia.
  cbn [zsum]. f_equal.
  rewrite (zsum_shift (0 + 1)). apply zsum_ext. intros i _. f_equal. lia.
Qed.

Lemma allreduce_fadd_fin (f : Z -> R) (n : Z) :
  0 < n ->
  Allreduce fadd (map (fun lane => Fin (f lane)) (upto n))
  = Fin (zsum 0 (Z.to_nat n) f).
Proof.
  intros Hn. rewrite upto_cons by exact Hn. cbn [map Allreduce].
  rewrite map_map. apply fold_first_rest. exact Hn.
Qed.

Lemma fold_fmax_merge (t : Z -> fp) (L : Z -> list fp) (l : list Z)
    (A : list fp) (a : fp) :
  max_of A a -> (forall i, In i l -> max_of (L i) (t i)) ->
  max_of (A ++ flat_map L l) (fold_left fmax (map t l) a).
Proof.
  revert A a. induction l as [|i l IH]; intros A a HA HL; simpl.
  - rewrite app_nil_r. exact HA.
  - rewrite app_assoc. apply IH.
    + apply max_of_merge; [exact HA|apply HL; left; reflexivity].
    + intros j Hj. apply HL. right. exact Hj.
Qed.

Lemma allreduce_fmax_max_of (t : Z -> fp) (L : Z -> list fp) (n : Z) :
  0 < n -> (forall i, 0 <= i < n -> max_of (L i) (t i)) ->
  max_of (flat_map L (upto n)) (Allreduce fmax (map t (upto n))).
Proof.
  intros Hn HL.
  assert (E : upto n = 0 :: map (fun l => l + 1) (upto (n - 1)))
    by (apply upto_cons; exact Hn).
  assert (Hin : forall i, In i (map (fun l => l + 1) (upto (n - 1)))
                          -> 0 <= i < n).
  { intros i Hi. apply in_map_iff in Hi as [k [<- Hk]].
    apply in_upto in Hk. lia. }
  rewrite E. cbn [map Allreduce flat_map].
  apply fold_fmax_merge.
  - apply HL. lia.
  - intros i Hi. apply HL, Hin, Hi.
Qed.

Lemma fexp_fsub_weight (o : option R) (ref : R) :
  fexp (fsub (fin_or_ninf o) (Fin ref)) = Fin (lse_weight o ref).
Proof. destruct o; reflexivity. Qed.

Section CombineFacts.

Variable kt : Kernel_traits.
Variable combine_kBlockM : Z.
Variable Log_max_splits : Z.
Variable Is_even_K : bool.
Variable params : Params.
Variables softmax_lseaccum_ptr oaccum_ptr : Z -> fp.
Variables bidx col c : Z.
Variable reg : fp.
(** The partial results of the splits for the output row and element. *)
Variable lse_split : Z -> option R.
Variable o_split : Z -> R.

Let total := combine_total_rows params.
Let kR := kRowsPerLoadTranspose combine_kBlockM Log_max_splits.
Let kN := kNLsePerThread combine_kBlockM Log_max_splits.
Let kMax := kMaxSplits Log_max_splits.

Hypothesis HkBlockM :
  combine_kBlockM = 4 \/ combine_kBlockM = 8 \/ combine_kBlockM = 16
  \/ combine_kBlockM = 32.
Hypothesis HLog : 0 <= Log_max_splits <= 7.
Hypothesis Hsplits : 0 <= num_splits params <= kMax.
Hypothesis Hcol : 0 <= col < combine_kBlockM.
Hypothesis Hidx : bidx * combine_kBlockM + col < total.
Hypothesis Hc : Is_even_K = true \/ c < p_d params.
Hypothesis Hlse : forall s, 0 <= s < num_splits params ->
  softmax_lseaccum_ptr (bidx * combine_kBlockM + s * total + col)
  = fin_or_ninf (lse_split s).
Hypothesis Ho : forall s, 0 <= s < num_splits params ->
  oaccum_ptr (bidx * combine_kBlockM * p_d_rounded params
              + s * (total * p_d_rounded params)
              + col * kHeadDim kt + c)
  = Fin (o_split s).

(** The partial LSE of a row of [sLSE], none for a row that is no split. *)
Let lse_row (row : Z) : option R :=
  if (0 <=? row) && (row <? num_splits params) then lse_split row else None.

Lemma combine_layout : 0 < kR /\ 0 < kN /\ kN * kR = kMax.
Proof.
  unfold kR, kN, kMax, kRowsPerLoadTranspose, kNLsePerThread,
    kRowsPerLoadLSE, kMaxSplits, kNThreads, cdiv.
  assert (HL : Log_max_splits = 0 \/ Log_max_splits = 1
               \/ Log_max_splits = 2 \/ Log_max_splits = 3
               \/ Log_max_splits = 4 \/ Log_max_splits = 5
               \/ Log_max_splits = 6 \/ Log_max_splits = 7) by lia.
  destruct HkBlockM as [-> | [-> | [-> | ->]]];
    destruct HL as [-> | [-> | [-> | [-> | [-> | [-> | [-> | ->]]]]]]];
    vm_compute; repeat split; reflexivity.
Qed.

Lemma lse_accum_row (lane l : Z) :
  0 <= lane < kR -> 0 <= l < kN ->
  lse_accum combine_kBlockM Log_max_splits params softmax_lseaccum_ptr
            bidx col lane l
  = fin_or_ninf (lse_row (l * kR + lane)).
Proof.
  intros Hlane Hl. unfold lse_accum, sLSE_loaded, lse_row. fold kR kMax total.
  assert (Hrow : 0 <= l * kR + lane) by nia.
  replace (col <? combine_kBlockM) with true by (symmetry; apply Z.ltb_lt; lia).
  replace (col <? total - bidx * combine_kBlockM) with true
    by (symmetry; apply Z.ltb_lt; lia).
  replace (0 <=? l * kR + lane) with true by (symmetry; apply Z.leb_le; lia).
  rewrite !andb_true_r, andb_true_l.
  destruct (l * kR + lane <? num_splits params) eqn:E.
  - apply Z.ltb_lt in E.
    replace (l * kR + lane <? kMax) with true by (symmetry; apply Z.ltb_lt; lia).
    rewrite <- Hlse by lia. reflexivity.
  - destruct (l * kR + lane <? kMax); reflexivity.
Qed.

(** The value that lane [lane] holds at index [l]. *)
Let held (lane l : Z) : fp := fin_or_ninf (lse_row (l * kR + lane)).

Let weight (ref : R) (row : Z) : R := lse_weight (lse_row row) ref.

Lemma held_finite_or_ninf (lane l : Z) : finite_or_ninf (held lane l).
Proof.
  unfold held. destruct (lse_row (l * kR + lane));
    [right; eexists; reflexivity|left; reflexivity].
Qed.

Lemma thread_max_ok (lane : Z) :
  0 <= lane < kR ->
  max_of (map (held lane) (upto kN))
    (fold_left fmax
       (map (fun l => lse_accum combine_kBlockM Log_max_splits params
                        softmax_lseaccum_ptr bidx col lane (l + 1))
            (upto (kN - 1)))
       (lse_accum combine_kBlockM Log_max_splits params
          softmax_lseaccum_ptr bidx col lane 0)).
Proof.
  intros Hlane. destruct combine_layout as [HkR [HkN Hprod]].
  rewrite (map_ext_in
             (fun l => lse_accum combine_kBlockM Log_max_splits params
                         softmax_lseaccum_ptr bidx col lane (l + 1))
             (fun l => held lane (l + 1))).
  2:{ intros l Hl. apply in_upto in Hl. apply lse_accum_row; lia. }
  rewrite lse_accum_row by lia. fold (held lane 0).
  rewrite (upto_cons kN HkN). cbn [map]. rewrite map_map.
  apply fold_fmax_max_of.
  - apply held_finite_or_ninf.
  - intros b Hb. apply in_map_iff in Hb as [l [<- _]].
    apply held_finite_or_ninf.
Qed.

Lemma thread_sum_ok (x : R) (i : Z) :
  0 <= i < kR ->
  fold_left fadd
    (map (fun l => fexp (fsub (lse_accum combine_kBlockM Log_max_splits
                                 params softmax_lseaccum_ptr bidx col i
                                 (l + 1)) (Fin x)))
         (upto (kN - 1)))
    (fexp (fsub (lse_accum combine_kBlockM Log_max_splits params
                   softmax_lseaccum_ptr bidx col i 0) (Fin x)))
  = Fin (zsum 0 (Z.to_nat kN) (fun l => weight x (l * kR + i))).
Proof.
  intros Hi. destruct combine_layout as [HkR [HkN Hprod]].
  rewrite (map_ext_in _ (fun l => Fin (weight x ((l + 1) * kR + i)))).
  2:{ intros l Hl. apply in_upto in Hl.
      rewrite lse_accum_row by lia. apply fexp_fsub_weight. }
  rewrite lse_accum_row by lia. rewrite fexp_fsub_weight.
  fold (weight x (0 * kR + i)).
  apply (fold_first_rest (fun l => weight x (l * kR + i))). exact HkN.
Qed.

(** The values held by all lanes are the rows of [sLSE]. *)
Lemma held_values (a : fp) :
  In a (flat_map (fun lane => map (held lane) (upto kN)) (upto kR))
  <-> exists row, 0 <= row < kMax /\ a = fin_or_ninf (lse_row row).
Proof.
  destruct combine_layout as [HkR [HkN Hprod]].
  rewrite in_flat_map. split.
  - intros [lane [Hlane Ha]]. apply in_upto in Hlane.
    apply in_map_iff in Ha as [l [<- Hl]]. apply in_upto in Hl.
    exists (l * kR + lane). split; [nia|reflexivity].
  - intros [row [Hrow ->]].
    exists (row mod kR). split.
    + apply in_upto. apply Z.mod_pos_bound. lia.
    + apply in_map_iff. exists (row / kR). split.
      * unfold held. do 2 f_equal.
        pose proof (Z.div_mod row kR ltac:(lia)). lia.
      * apply in_upto. split; [apply Z.div_pos; lia|].
        apply Z.div_lt_upper_bound; nia.
Qed.

Lemma lse_max_cases :
  ((forall s, 0 <= s < num_splits params -> lse_split s = None)
   /\ lse_max combine_kBlockM Log_max_splits params softmax_lseaccum_ptr
              bidx col = Fin 0%R)
  \/ (exists M, is_max_lse (num_splits params) lse_split M
                /\ lse_max combine_kBlockM Log_max_splits params
                           softmax_lseaccum_ptr bidx col = Fin M).
Proof.
  destruct combine_layout as [HkR [HkN Hprod]].
  unfold lse_max. fold kR kN.
  match goal with
  | |- context [Allreduce fmax (map ?t (upto kR))] =>
      pose proof (allreduce_fmax_max_of t
                    (fun lane => map (held lane) (upto kN)) kR HkR
                    (fun i Hi => thread_max_ok i Hi)) as Hmax;
      set (raw := Allreduce fmax (map t (upto kR))) in *
  end.
  assert (Hrow : forall s, 0 <= s < num_splits params ->
                 lse_row s = lse_split s).
  { intros s Hs. unfold lse_row.
    replace (0 <=? s) with true by (symmetry; apply Z.leb_le; lia).
    replace (s <? num_splits params) with true
      by (symmetry; apply Z.ltb_lt; lia).
    reflexivity. }
  destruct Hmax as [[E A]|[x [E [I B]]]]; rewrite E; cbn [is_ninf].
  - left. split; [|reflexivity].
    intros s Hs.
    assert (H : fin_or_ninf (lse_row s) = NInf).
    { apply A, held_values. exists s. split; [lia|reflexivity]. }
    rewrite Hrow in H by lia. destruct (lse_split s); [discriminate|reflexivity].
  - right. exists x. split; [|reflexivity]. split.
    + apply held_values in I as [row [Hr Hx]].
      unfold lse_row in Hx.
      destruct ((0 <=? row) && (row <? num_splits params)) eqn:Eb;
        [|discriminate].
      apply andb_prop in Eb as [E1 E2].
      apply Z.leb_le in E1. apply Z.ltb_lt in E2.
      exists row. split; [lia|].
      destruct (lse_split row); inversion Hx. reflexivity.
    + intros s y Hs Hy. apply B, held_values.
      exists s. split; [lia|]. rewrite Hrow by lia. rewrite Hy. reflexivity.
Qed.

Lemma lse_sum_value (ref : R) :
  lse_max combine_kBlockM Log_max_splits params softmax_lseaccum_ptr
          bidx col = Fin ref ->
  lse_sum combine_kBlockM Log_max_splits params softmax_lseaccum_ptr
          bidx col
  = Fin (zsum 0 (Z.to_nat (num_splits params))
           (fun s => lse_weight (lse_split s) ref)).
Proof.
  intros Hmax. destruct combine_layout as [HkR [HkN Hprod]].
  unfold lse_sum. rewrite Hmax. fold kR kN.
  rewrite (map_ext_in _
             (fun lane => Fin (zsum 0 (Z.to_nat kN)
                                 (fun l => weight ref (l * kR + lane))))).
  2:{ intros lane Hlane. apply in_upto in Hlane.
      apply thread_sum_ok. exact Hlane. }
  rewrite allreduce_fadd_fin by exact HkR. f_equal.
  pose proof (zsum_by_rows (Z.to_nat kR) (Z.to_nat kN) (weight ref)) as Hrows.
  rewrite Z2Nat.id in Hrows by lia.
  rewrite <- Hrows.
  replace (Z.to_nat kN * Z.to_nat kR)%nat with (Z.to_nat kMax) by nia.
  rewrite (zsum_restrict 0 (Z.to_nat kMax) 0 (Z.to_nat (num_splits params))).
  - apply zsum_ext. intros s Hs. unfold weight, lse_row.
    replace (0 <=? s) with true by (symmetry; apply Z.leb_le; lia).
    replace (s <? num_splits params) with true
      by (symmetry; apply Z.ltb_lt; lia).
    reflexivity.
  - lia.
  - lia.
  - intros i Hi. lia.
  - intros i Hi. unfold weight, lse_row.
    replace (i <? num_splits params) with false
      by (symmetry; apply Z.ltb_ge; lia).
    rewrite andb_false_r. reflexivity.
Qed.

Lemma is_max_lse_unique (n : Z) (lse : Z -> option R) (m1 m2 : R) :
  is_max_lse n lse m1 -> is_max_lse n lse m2 -> m1 = m2.
Proof.
  intros [[s1 [H1 E1]] B1] [[s2 [H2 E2]] B2].
  pose proof (B1 s2 m2 H2 E2). pose proof (B2 s1 m1 H1 E1).
  apply Rle_antisym; assumption.
Qed.

Lemma lse_weight_nonneg (o : option R) (ref : R) : (0 <= lse_weight o ref)%R.
Proof.
  destruct o; simpl; [left; apply exp_pos|apply Rle_refl].
Qed.

Lemma lse_weight_sum_pos (M ref : R) :
  is_max_lse (num_splits params) lse_split M ->
  (0 < zsum 0 (Z.to_nat (num_splits params))
         (fun s => lse_weight (lse_split s) ref))%R.
Proof.
  intros [[s [Hs Es]] _].
  apply (zsum_pos _ _ _ s).
  - intros i _. apply lse_weight_nonneg.
  - lia.
  - rewrite Es. simpl. apply exp_pos.
Qed.

Lemma is_zero_fin_false (x : R) : x <> 0%R -> is_zero (Fin x) = false.
Proof. intros H. simpl. destruct (Req_dec_T x 0); [contradiction|reflexivity]. Qed.

Lemma is_zero_fin_zero : is_zero (Fin 0%R) = true.
Proof. simpl. destruct (Req_dec_T 0 0); [reflexivity|contradiction]. Qed.

Lemma flog_pos (x : R) : (0 < x)%R -> flog (Fin x) = Fin (ln x).
Proof.
  intros H. simpl. destruct (Req_dec_T x 0); [lra|].
  destruct (Rlt_dec x 0); [lra|reflexivity].
Qed.

(** The scale of a split, from the final LSE. *)
Lemma sLSE_scale_row (s : Z) :
  0 <= s < num_splits params ->
  sLSE_scale combine_kBlockM Log_max_splits params softmax_lseaccum_ptr
             bidx col s
  = fexp (fsub (fin_or_ninf (lse_split s))
               (lse_logsum combine_kBlockM Log_max_splits params
                           softmax_lseaccum_ptr bidx col)).
Proof.
  intros Hs. destruct combine_layout as [HkR [HkN Hprod]].
  unfold sLSE_scale. fold kR kN.
  rewrite cdiv_nonneg by lia.
  pose proof (Z.div_mod s kR ltac:(lia)) as Hdm.
  pose proof (Z.mod_pos_bound s kR HkR) as Hmod.
  assert (Hl : 0 <= s / kR < kN).
  { split; [apply Z.div_pos; lia|]. apply Z.div_lt_upper_bound; nia. }
  replace (s / kR <? kN) with true by (symmetry; apply Z.ltb_lt; lia).
  replace (s <? num_splits params) with true
    by (symmetry; apply Z.ltb_lt; lia).
  replace (col <? combine_kBlockM) with true
    by (symmetry; apply Z.ltb_lt; lia).
  cbn [andb]. rewrite lse_accum_row by lia.
  replace (s / kR * kR + (s - s / kR * kR)) with s by lia.
  unfold lse_row.
  replace (0 <=? s) with true by (symmetry; apply Z.leb_le; lia).
  replace (s <? num_splits params) with true
    by (symmetry; apply Z.ltb_lt; lia).
  reflexivity.
Qed.

(** The loop over the splits accumulates the scaled partial outputs. *)
Lemma combine_fold (sc : Z -> R) (n : nat) :
  (forall s, 0 <= s < num_splits params ->
     sLSE_scale combine_kBlockM Log_max_splits params softmax_lseaccum_ptr
                bidx col s = Fin (sc s)) ->
  Z.of_nat n <= num_splits params ->
  exists reg',
    fold_left
      (combine_iter kt combine_kBlockM Log_max_splits Is_even_K params
                    softmax_lseaccum_ptr oaccum_ptr bidx col c)
      (upto (Z.of_nat n))
      {| tOgOaccum := bidx * combine_kBlockM * p_d_rounded params;
         tOrO := Fin 0%R; tOrOaccum := reg |}
    = {| tOgOaccum := bidx * combine_kBlockM * p_d_rounded params
                      + Z.of_nat n * (total * p_d_rounded params);
         tOrO := Fin (zsum 0 n (fun s => sc s * o_split s)%R);
         tOrOaccum := reg' |}.
Proof.
  intros Hsc. induction n as [|n IH]; intros Hn.
  - exists reg. simpl. f_equal. lia.
  - destruct (IH ltac:(lia)) as [reg' E].
    replace (Z.of_nat (S n)) with (Z.of_nat n + 1) by lia.
    rewrite upto_succ by lia. rewrite fold_left_app, E. cbn [fold_left].
    unfold combine_iter at 1. cbn [tOgOaccum tOrO tOrOaccum].
    fold total.
    replace (col <? total - bidx * combine_kBlockM) with true
      by (symmetry; apply Z.ltb_lt; lia).
    replace (Is_even_K || (c <? p_d params)) with true.
    2:{ symmetry. destruct Hc as [->|Hc']; [reflexivity|].
        apply orb_true_iff. right. apply Z.ltb_lt. exact Hc'. }
    rewrite Ho by lia. rewrite Hsc by lia.
    eexists. f_equal.
    + lia.
    + cbn [fmul fadd]. f_equal.
      replace (S n) with (n + 1)%nat by lia.
      rewrite zsum_app. simpl. replace (0 + Z.of_nat n) with (Z.of_nat n) by lia.
      lra.
Qed.

(** The two stores of the kernel, given the final LSE and the scales of
    the splits. *)
Lemma combine_shape (lse : fp) (sc : Z -> R) :
  lse_logsum combine_kBlockM Log_max_splits params softmax_lseaccum_ptr
             bidx col = lse ->
  (forall s, 0 <= s < num_splits params ->
     fexp (fsub (fin_or_ninf (lse_split s)) lse) = Fin (sc s)) ->
  combine_attn_seqk_parallel kt combine_kBlockM Log_max_splits Is_even_K
    params softmax_lseaccum_ptr oaccum_ptr bidx col c reg
  = [StoreLSE (bidx * combine_kBlockM + col) lse;
     StoreO (combine_o_offset params (bidx * combine_kBlockM + col) c)
       (Fin (zsum 0 (Z.to_nat (num_splits params))
               (fun s => sc s * o_split s)%R))].
Proof.
  intros Hl Hsc. unfold combine_attn_seqk_parallel.
  replace (col <? combine_kBlockM) with true
    by (symmetry; apply Z.ltb_lt; lia).
  fold total.
  replace (bidx * combine_kBlockM + col <? total) with true
    by (symmetry; apply Z.ltb_lt; lia).
  replace (Is_even_K || (c <? p_d params)) with true.
  2:{ symmetry. destruct Hc as [->|Hc']; [reflexivity|].
      apply orb_true_iff. right. apply Z.ltb_lt. exact Hc'. }
  destruct (combine_fold sc (Z.to_nat (num_splits params))) as [reg' E].
  { intros s Hs. rewrite sLSE_scale_row by lia. rewrite Hl.
    apply Hsc. exact Hs. }
  { lia. }
  rewrite Z2Nat.id in E by lia. rewrite E. cbn [tOrO app].
  rewrite Hl. reflexivity.
Qed.

(** The final LSE: plus infinity when no split saw a key, the
    log-sum-exp of the partial LSEs around their maximum otherwise. *)
Lemma lse_logsum_none :
  (forall s, 0 <= s < num_splits params -> lse_split s = None) ->
  lse_logsum combine_kBlockM Log_max_splits params softmax_lseaccum_ptr
             bidx col = PInf.
Proof.
  intros Hnone.
  destruct lse_max_cases as [[_ Hmax]|[M [[[s [Hs Es]] _] _]]].
  - unfold lse_logsum. rewrite (lse_sum_value 0%R Hmax).
    rewrite zsum_zero
      by (intros s Hs; rewrite Hnone by lia; reflexivity).
    rewrite is_zero_fin_zero. reflexivity.
  - rewrite Hnone in Es by lia. discriminate.
Qed.

Lemma lse_logsum_max (M : R) :
  is_max_lse (num_splits params) lse_split M ->
  lse_logsum combine_kBlockM Log_max_splits params softmax_lseaccum_ptr
             bidx col
  = Fin (M + ln (zsum 0 (Z.to_nat (num_splits params))
                   (fun s => lse_weight (lse_split s) M)))%R.
Proof.
  intros HM.
  destruct lse_max_cases as [[Hnone _]|[M' [HM' Hmax]]].
  - destruct HM as [[s [Hs Es]] _]. rewrite Hnone in Es by lia.
    discriminate.
  - assert (M' = M) by (eapply is_max_lse_unique; eassumption). subst M'.
    pose proof (lse_weight_sum_pos M M HM) as Hpos.
    unfold lse_logsum. rewrite (lse_sum_value M Hmax).
    rewrite is_zero_fin_false by lra. cbn [is_nan orb].
    rewrite flog_pos by exact Hpos. rewrite Hmax. cbn [fadd].
    f_equal. lra.
Qed.

(** C5: for an output row of the reduction kernel whose partial LSEs
    are finite or minus infinity and whose partial outputs are finite:
    when every partial LSE is minus infinity the row's LSE is stored as
    plus infinity and its output as 0, no NaN; otherwise, with [M] the
    largest partial LSE, the LSE is [M + log(sum_s exp(LSE_s - M))] and
    the output is [sum_s exp(LSE_s - LSE) * O_s]. *)
Theorem combine_lse_and_output :
  let idx := bidx * combine_kBlockM + col in
  let stores :=
    combine_attn_seqk_parallel kt combine_kBlockM Log_max_splits Is_even_K
      params softmax_lseaccum_ptr oaccum_ptr bidx col c reg in
  ((forall s, 0 <= s < num_splits params -> lse_split s = None) ->
   stores = [StoreLSE idx PInf;
             StoreO (combine_o_offset params idx c) (Fin 0%R)])
  /\ (forall M, is_max_lse (num_splits params) lse_split M ->
      let lse_final :=
        (M + ln (zsum 0 (Z.to_nat (num_splits params))
                   (fun s => lse_weight (lse_split s) M)))%R in
      stores
      = [StoreLSE idx (Fin lse_final);
         StoreO (combine_o_offset params idx c)
           (Fin (zsum 0 (Z.to_nat (num_splits params))
                   (fun s => lse_weight (lse_split s) lse_final
                             * o_split s)%R))]).
Proof.
  intros idx stores.
  unfold stores, idx.
  split.
  - intros Hnone.
    rewrite (combine_shape PInf (fun _ => 0%R)).
    + rewrite zsum_zero by (intros s _; lra). reflexivity.
    + apply lse_logsum_none. exact Hnone.
    + intros s Hs. rewrite Hnone by lia. reflexivity.
  - intros M HM.
    match goal with
    | |- _ = [StoreLSE _ (Fin ?l); _] =>
        rewrite (combine_shape (Fin l) (fun s => lse_weight (lse_split s) l))
    end.
    + reflexivity.
    + apply lse_logsum_max. exact HM.
    + intros s _. apply fexp_fsub_weight.
Qed.

(** The reduction in terms of sums: when the partial LSE of a split is
    the logarithm of a weight sum [W s], minus infinity for a sum of
    zero, and its partial output is [WV s / W s], the final LSE is the
    logarithm of the total weight and the final output the total of the
    [WV s] over the total weight. *)
Lemma combine_of_sums (W WV : Z -> R) :
  (forall s, 0 <= s < num_splits params -> (0 <= W s)%R) ->
  (forall s, 0 <= s < num_splits params -> W s = 0%R -> WV s = 0%R) ->
  (forall s, 0 <= s < num_splits params ->
     lse_split s = if Req_dec_T (W s) 0 then None else Some (ln (W s))) ->
  (forall s, 0 <= s < num_splits params -> o_split s = (WV s / W s)%R) ->
  let Wt := zsum 0 (Z.to_nat (num_splits params)) W in
  let WVt := zsum 0 (Z.to_nat (num_splits params)) WV in
  combine_attn_seqk_parallel kt combine_kBlockM Log_max_splits Is_even_K
    params softmax_lseaccum_ptr oaccum_ptr bidx col c reg
  = [StoreLSE (bidx * combine_kBlockM + col)
       (if Req_dec_T Wt 0 then PInf else Fin (ln Wt));
     StoreO (combine_o_offset params (bidx * combine_kBlockM + col) c)
       (Fin (WVt / Wt)%R)].
Proof.
  intros HW HWV HlW HoW Wt WVt.
  assert (Hrange : forall s, 0 <= s < 0 + Z.of_nat (Z.to_nat (num_splits params))
                             -> 0 <= s < num_splits params) by (intros; lia).
  assert (Hnonneg : forall i,
            0 <= i < 0 + Z.of_nat (Z.to_nat (num_splits params)) ->
            (0 <= W i)%R) by (intros i Hi; apply HW, Hrange, Hi).
  destruct (Req_dec_T Wt 0) as [E0|Hne].
  - assert (Hall : forall s, 0 <= s < num_splits params -> W s = 0%R).
    { intros s Hs. apply (zsum_zero_inv 0 _ W s Hnonneg E0). lia. }
    assert (Hnone : forall s, 0 <= s < num_splits params ->
                              lse_split s = None).
    { intros s Hs. rewrite (HlW s Hs).
      destruct (Req_dec_T (W s) 0) as [_|Hc0]; [reflexivity|].
      exfalso. apply Hc0, Hall, Hs. }
    rewrite (combine_shape PInf (fun _ => 0%R)).
    + rewrite zsum_zero by (intros s _; lra).
      assert (EV : WVt = 0%R).
      { apply zsum_zero. intros s Hs. apply HWV; [lia|apply Hall; lia]. }
      rewrite EV. replace (0 / Wt)%R with 0%R by (unfold Rdiv; ring).
      reflexivity.
    + apply lse_logsum_none. exact Hnone.
    + intros s Hs. rewrite Hnone by lia. reflexivity.
  - assert (HWt : (0 < Wt)%R).
    { pose proof (zsum_nonneg 0 _ W Hnonneg). fold Wt in H. lra. }
    destruct lse_max_cases as [[Hnone _]|[M [HM _]]].
    { exfalso. apply Hne. apply zsum_zero. intros s Hs.
      specialize (Hnone s ltac:(lia)). rewrite (HlW s ltac:(lia)) in Hnone.
      destruct (Req_dec_T (W s) 0) as [E|_]; [exact E|discriminate]. }
    assert (Hw : forall ref s, 0 <= s < num_splits params ->
              lse_weight (lse_split s) ref = (exp (- ref) * W s)%R).
    { intros ref s Hs. rewrite (HlW s Hs).
      destruct (Req_dec_T (W s) 0) as [E|E]; cbn [lse_weight].
      - rewrite E. ring.
      - pose proof (HW s Hs).
        replace (ln (W s) - ref)%R with (- ref + ln (W s))%R by ring.
        rewrite exp_plus, exp_ln by lra. reflexivity. }
    assert (Hsum : forall ref,
              zsum 0 (Z.to_nat (num_splits params))
                (fun s => lse_weight (lse_split s) ref)
              = (exp (- ref) * Wt)%R).
    { intros ref. unfold Wt. rewrite <- zsum_scale. apply zsum_ext.
      intros s Hs. apply Hw. lia. }
    assert (Hfinal : (M + ln (zsum 0 (Z.to_nat (num_splits params))
                               (fun s => lse_weight (lse_split s) M))
                      = ln Wt)%R).
    { rewrite Hsum. pose proof (exp_pos (- M)).
      rewrite ln_mult by lra. rewrite ln_exp. ring. }
    rewrite (combine_shape (Fin (ln Wt))
               (fun s => lse_weight (lse_split s) (ln Wt))).
    + assert (EO : zsum 0 (Z.to_nat (num_splits params))
                     (fun s => lse_weight (lse_split s) (ln Wt) * o_split s)%R
                   = (WVt / Wt)%R).
      { unfold WVt.
        replace (zsum 0 (Z.to_nat (num_splits params)) WV / Wt)%R
          with (/ Wt * zsum 0 (Z.to_nat (num_splits params)) WV)%R
          by (unfold Rdiv; ring).
        rewrite <- zsum_scale. apply zsum_ext. intros s Hs.
        assert (Hs' : 0 <= s < num_splits params) by lia.
        rewrite (Hw (ln Wt) s Hs'), (HoW s Hs').
        rewrite exp_Ropp, exp_ln by lra.
        destruct (Req_dec_T (W s) 0) as [E|E].
        - rewrite (HWV s Hs' E), E. unfold Rdiv. ring.
        - field. split; lra. }
      rewrite EO. reflexivity.
    + rewrite (lse_logsum_max M HM). f_equal. exact Hfinal.
    + intros s _. apply fexp_fsub_weight.
Qed.

End CombineFacts.

(** The reduction of two splits, the second of which saw no key: the
    LSE and the output of the first split are the final ones. *)
Lemma combine_lse_and_output_witness :
  combine_attn_seqk_parallel (example_traits 1 1 1) 4 1 true
    two_split_params two_split_lseaccum two_split_oaccum 0 0 0 NaN
  = [StoreLSE 0 (Fin 0%R); StoreO 0 (Fin 1%R)].
Proof.
  pose proof (combine_lse_and_output (example_traits 1 1 1) 4 1 true
    two_split_params two_split_lseaccum two_split_oaccum 0 0 0 NaN
    (fun s => if s =? 0 then Some 0%R else None)
    (fun s => if s =? 0 then 1%R else 0%R)
    ltac:(left; reflexivity) ltac:(lia)
    ltac:(vm_compute; split; discriminate)
    ltac:(lia) ltac:(vm_compute; reflexivity) ltac:(left; reflexivity))
    as H.
  assert (Hl : forall s, 0 <= s < num_splits two_split_params ->
               two_split_lseaccum
                 (0 * 4 + s * combine_total_rows two_split_params + 0)
               = fin_or_ninf (if s =? 0 then Some 0%R else None)).
  { intros s Hs. unfold two_split_lseaccum.
    match goal with
    | |- (if ?a =? 0 then _ else _) = _ =>
        replace a with s by (unfold combine_total_rows; simpl; lia)
    end.
    destruct (s =? 0); reflexivity. }
  assert (Ho : forall s, 0 <= s < num_splits two_split_params ->
               two_split_oaccum
                 (0 * 4 * p_d_rounded two_split_params
                  + s * (combine_total_rows two_split_params
                         * p_d_rounded two_split_params)
                  + 0 * kHeadDim (example_traits 1 1 1) + 0)
               = Fin (if s =? 0 then 1%R else 0%R)).
  { intros s Hs. unfold two_split_oaccum.
    match goal with
    | |- (if ?a =? 0 then _ else _) = _ =>
        replace a with s by (unfold combine_total_rows; simpl; lia)
    end.
    destruct (s =? 0); reflexivity. }
  destruct (H Hl Ho) as [_ Hmain].
  rewrite (Hmain 0%R).
  - simpl. unfold combine_o_offset. simpl.
    replace (0 + ln (exp (0 - 0) + (0 + 0)))%R with 0%R.
    + replace (exp (0 - 0) * 1 + (0 * 0 + 0))%R with 1%R; [reflexivity|].
      replace (0 - 0)%R with 0%R by lra. rewrite exp_0. lra.
    + replace (0 - 0)%R with 0%R by lra. rewrite exp_0.
      replace (1 + (0 + 0))%R with 1%R by lra. rewrite ln_1. lra.
  - split.
    + exists 0. split; [simpl; lia|reflexivity].
    + intros s x Hs Hx. destruct (s =? 0); [|discriminate].
      inversion Hx. lra.
Defined.

(** ** The ranges of the splits *)

Lemma zsum_tiles_eq (a b a' b' Bc : Z) (f : Z -> R) :
  0 < Bc -> (a = a' /\ b = b') \/ (b <= a /\ b' <= a') ->
  zsum (a * Bc) (Z.to_nat (b * Bc - a * Bc)) f
  = zsum (a' * Bc) (Z.to_nat (b' * Bc - a' * Bc)) f.
Proof.
  intros HBc [[-> ->]|[H1 H2]]; [reflexivity|].
  replace (Z.to_nat (b * Bc - a * Bc)) with 0%nat by nia.
  replace (Z.to_nat (b' * Bc - a' * Bc)) with 0%nat by nia.
  reflexivity.
Qed.

(** The sums over the tiles of the splits add up to the sum over the
    tiles of the whole range, when the splits reach its end. *)
Lemma split_sums_telescope (Bc per n_min n_max : Z) (S : nat)
    (f : Z -> R) :
  0 < Bc -> 0 <= per -> 0 <= n_min -> n_max <= Z.of_nat S * per ->
  zsum 0 S
    (fun s =>
       zsum (Z.max (s * per) n_min * Bc)
            (Z.to_nat (Z.min n_max ((s + 1) * per) * Bc
                       - Z.max (s * per) n_min * Bc)) f)
  = zsum (n_min * Bc) (Z.to_nat (n_max * Bc - n_min * Bc)) f.
Proof.
  intros HBc Hper Hmin Hend.
  destruct (Z_le_gt_dec n_max n_min) as [Hemp|Hne].
  - rewrite zsum_zero.
    + replace (Z.to_nat (n_max * Bc - n_min * Bc)) with 0%nat by nia.
      reflexivity.
    + intros s Hs.
      replace (Z.to_nat (Z.min n_max ((s + 1) * per) * Bc
                         - Z.max (s * per) n_min * Bc)) with 0%nat by nia.
      reflexivity.
  - set (b := fun s => Z.max n_min (Z.min n_max (s * per))).
    assert (Hmono : forall s, 0 <= s -> b s <= b (s + 1)).
    { intros s Hs. unfold b. assert (s * per <= (s + 1) * per) by nia. lia. }
    assert (Hterm : forall s, 0 <= s ->
              zsum (Z.max (s * per) n_min * Bc)
                   (Z.to_nat (Z.min n_max ((s + 1) * per) * Bc
                              - Z.max (s * per) n_min * Bc)) f
              = zsum (b s * Bc) (Z.to_nat (b (s + 1) * Bc - b s * Bc)) f).
    { intros s Hs. apply zsum_tiles_eq; [exact HBc|]. unfold b.
      assert (s * per <= (s + 1) * per) by nia. lia. }
    assert (Htel : forall k : nat,
              zsum 0 k
                (fun s => zsum (b s * Bc)
                            (Z.to_nat (b (s + 1) * Bc - b s * Bc)) f)
              = zsum (b 0 * Bc) (Z.to_nat (b (Z.of_nat k) * Bc - b 0 * Bc))
                  f).
    { induction k as [|k IH].
      - cbn [zsum Z.of_nat].
        replace (Z.to_nat (b 0 * Bc - b 0 * Bc)) with 0%nat by lia.
        reflexivity.
      - replace (Datatypes.S k) with (k + 1)%nat by lia.
        rewrite zsum_app, IH. cbn [zsum].
        assert (Hk : b 0 <= b (Z.of_nat k)).
        { clear IH. induction k as [|k IHk]; [cbn; lia|].
          specialize (Hmono (Z.of_nat k) ltac:(lia)).
          replace (Z.of_nat (Datatypes.S k)) with (Z.of_nat k + 1) by lia.
          lia. }
        specialize (Hmono (Z.of_nat k) ltac:(lia)).
        replace (Z.of_nat (k + 1)) with (Z.of_nat k + 1) by lia.
        rewrite (zsum_split (b 0 * Bc) (b (Z.of_nat k) * Bc)
                   (b (Z.of_nat k + 1) * Bc)) by nia.
        replace (0 + Z.of_nat k) with (Z.of_nat k) by lia. lra. }
    rewrite (zsum_ext 0 S _
               (fun s => zsum (b s * Bc)
                           (Z.to_nat (b (s + 1) * Bc - b s * Bc)) f))
      by (intros s Hs; apply Hterm; lia).
    rewrite Htel.
    replace (b 0) with n_min by (unfold b; lia).
    replace (b (Z.of_nat S)) with n_max by (unfold b; lia).
    reflexivity.
Qed.

(** ** The online softmax of one row *)

Lemma ln_2_pos : (0 < ln 2)%R.
Proof. rewrite <- ln_1. apply ln_increasing; lra. Qed.

Lemma fmul_ninf_pos (s : R) : (0 < s)%R -> fmul NInf (Fin s) = NInf.
Proof.
  intros H. simpl. unfold inf_times.
  destruct (Rlt_dec 0 s); [reflexivity|contradiction].
Qed.

Lemma combine_map {A B C : Type} (f : A -> B) (g : A -> C) (l : list A) :
  combine (map f l) (map g l) = map (fun x => (f x, g x)) l.
Proof. induction l as [|x l IH]; simpl; [reflexivity|rewrite IH; reflexivity]. Qed.

Section RowFacts.

Variables Is_causal Is_local Has_alibi : bool.
Variables sq sk wl wr : Z.
Variables scale aslope : R.
Variable d : Z.
Variable row : Z.
Variable Q : Z -> R.
Variable K : Z -> Z -> R.
(** [scale_softmax_log2]. *)
Variable sl : R.

Hypothesis Hsl : sl = (scale / ln 2)%R.
Hypothesis Hscale : (0 < scale)%R.

Let score := row_score Is_causal Is_local Has_alibi sq sk wl wr aslope d row Q K.
Let weight := row_weight Is_causal Is_local Has_alibi sq sk wl wr scale aslope d row Q K.

Lemma sl_pos : (0 < sl)%R.
Proof.
  rewrite Hsl. apply Rdiv_lt_0_compat; [exact Hscale|apply ln_2_pos].
Qed.

Lemma sl_ln2 : (sl * ln 2 = scale)%R.
Proof. rewrite Hsl. field. pose proof ln_2_pos. lra. Qed.

Lemma score_finite_or_ninf (col : Z) : finite_or_ninf (score col).
Proof.
  unfold score, row_score.
  destruct (ref_masked _ _ _ _ _ _ _ _);
    [left; reflexivity|right; eexists; reflexivity].
Qed.

Lemma weight_ninf (mref : R) (col : Z) :
  score col = NInf -> weight mref col = 0%R.
Proof.
  intros H. unfold weight, row_weight. fold score. rewrite H. reflexivity.
Qed.

Lemma weight_nonneg (mref : R) (col : Z) : (0 <= weight mref col)%R.
Proof.
  unfold weight, row_weight. fold score.
  destruct (score col); try apply Rle_refl. left. apply exp_pos.
Qed.

Lemma weight_pos (mref : R) (col : Z) (x : R) :
  score col = Fin x -> (0 < weight mref col)%R.
Proof.
  intros H. unfold weight, row_weight. fold score. rewrite H. apply exp_pos.
Qed.

(** Changing the reference point rescales every weight. *)
Lemma weight_rebase (m m' : R) (col : Z) :
  (weight m col * exp ((m - m') * scale) = weight m' col)%R.
Proof.
  unfold weight, row_weight. fold score.
  destruct (score col); try lra.
  rewrite <- exp_plus. f_equal. lra.
Qed.

Lemma apply_exp2_weight (Check_inf : bool) (M : fp) (col : Z) :
  finite_or_ninf M -> (M = NInf -> Check_inf = true) ->
  (forall x, score col = Fin x -> exists m, M = Fin m) ->
  scale_apply_exp2 Check_inf M sl (score col)
  = Fin (weight (ref_point M) col).
Proof.
  intros HM Hci Hfin. unfold scale_apply_exp2, weight, row_weight.
  fold score.
  assert (Hg : exists g, guarded_max Check_inf M = Fin g
                         /\ (forall m, M = Fin m -> g = m)).
  { destruct HM as [->|[m ->]].
    - rewrite (Hci eq_refl). exists 0%R. split; [reflexivity|].
      intros m Hm. discriminate.
    - exists m. split.
      + unfold guarded_max. cbn [is_ninf]. rewrite andb_false_r. reflexivity.
      + intros m' Hm. inversion Hm. reflexivity. }
  destruct Hg as [g [Eg Hgm]]. rewrite Eg.
  destruct (score col) as [|x| |] eqn:Es.
  - rewrite fmul_ninf_pos by apply sl_pos. reflexivity.
  - destruct (Hfin x eq_refl) as [m Em]. rewrite (Hgm m Em). rewrite Em.
    cbn [fmul fsub fneg fadd fexp2 ref_point]. f_equal. f_equal.
    rewrite <- sl_ln2. ring.
  - destruct (score_finite_or_ninf col) as [E|[y E]]; rewrite Es in E;
      discriminate.
  - destruct (score_finite_or_ninf col) as [E|[y E]]; rewrite Es in E;
      discriminate.
Qed.

(** The running maximum after a tile: finite as soon as a logit is. *)
Lemma fmax_list_scores (M : fp) (g : Z -> Z) (l : list Z) :
  finite_or_ninf M ->
  let M' := fmax_list M (map (fun j => score (g j)) l) in
  finite_or_ninf M'
  /\ (M' = NInf -> M = NInf /\ forall j, In j l -> score (g j) = NInf)
  /\ (forall m, M = Fin m -> exists m', M' = Fin m').
Proof.
  intros HM M'.
  assert (Hmax : max_of (M :: map (fun j => score (g j)) l) M').
  { apply fold_fmax_max_of; [exact HM|].
    intros b Hb. apply in_map_iff in Hb as [j [<- _]].
    apply score_finite_or_ninf. }
  split; [eapply max_of_finite_or_ninf; exact Hmax|].
  destruct Hmax as [[E A]|[x [E [I B]]]].
  - split.
    + intros _. split; [apply A; left; reflexivity|].
      intros j Hj. apply A. right. apply in_map_iff. exists j. tauto.
    + intros m Hm. rewrite (A M (or_introl eq_refl)) in Hm. discriminate.
  - split.
    + intros E'. rewrite E in E'. discriminate.
    + intros m _. exists x. exact E.
Qed.

(** The first call of [softmax_rescale_o] on a tile of masked logits. *)
Lemma rescale_first (Check_inf : bool) (sm : Softmax) (acc : fp)
    (g : Z -> Z) (l : list Z) :
  let M' := fmax_list NInf (map (fun j => score (g j)) l) in
  (M' = NInf -> Check_inf = true) ->
  softmax_rescale_o true Check_inf sm (map (fun j => score (g j)) l) acc sl
  = ({| row_max := M';
        row_sum := Fin (lsum (fun j => weight (ref_point M') (g j)) l) |},
     map (fun j => Fin (weight (ref_point M') (g j))) l,
     acc).
Proof.
  intros M' Hci.
  destruct (fmax_list_scores NInf g l (or_introl eq_refl)) as [HM' [Hn _]].
  fold M' in HM', Hn.
  unfold softmax_rescale_o. fold M'.
  assert (HP : map (scale_apply_exp2 Check_inf M' sl)
                   (map (fun j => score (g j)) l)
               = map (fun j => Fin (weight (ref_point M') (g j))) l).
  { rewrite map_map. apply map_ext_in. intros j Hj.
    apply apply_exp2_weight; [exact HM'|exact Hci|].
    intros x Hx. destruct HM' as [E|[m E]]; [|exists m; exact E].
    destruct (Hn E) as [_ Hall]. rewrite (Hall j Hj) in Hx. discriminate. }
  rewrite HP. rewrite (fsum_fin (fun j => weight (ref_point M') (g j))).
  reflexivity.
Qed.

(** A later call of [softmax_rescale_o]. *)
Lemma rescale_later (Check_inf : bool) (M : fp) (S A : R)
    (g : Z -> Z) (l : list Z) :
  finite_or_ninf M ->
  let M' := fmax_list M (map (fun j => score (g j)) l) in
  (M' = NInf -> Check_inf = true) ->
  softmax_rescale_o false Check_inf {| row_max := M; row_sum := Fin S |}
    (map (fun j => score (g j)) l) (Fin A) sl
  = ({| row_max := M';
        row_sum := Fin (S * rescale_factor scale M M'
                        + lsum (fun j => weight (ref_point M') (g j)) l) |},
     map (fun j => Fin (weight (ref_point M') (g j))) l,
     Fin (A * rescale_factor scale M M')).
Proof.
  intros HM M' Hci.
  destruct (fmax_list_scores M g l HM) as [HM' [Hn Hf]].
  fold M' in HM', Hn, Hf.
  unfold softmax_rescale_o. cbn [row_max row_sum]. fold M'.
  assert (HP : map (scale_apply_exp2 Check_inf M' sl)
                   (map (fun j => score (g j)) l)
               = map (fun j => Fin (weight (ref_point M') (g j))) l).
  { rewrite map_map. apply map_ext_in. intros j Hj.
    apply apply_exp2_weight; [exact HM'|exact Hci|].
    intros x Hx. destruct HM' as [E|[m E]]; [|exists m; exact E].
    destruct (Hn E) as [_ Hall]. rewrite (Hall j Hj) in Hx. discriminate. }
  rewrite HP. rewrite (fsum_fin (fun j => weight (ref_point M') (g j))).
  assert (Hscale' :
            fexp2 (fmul (fsub M (guarded_max Check_inf M')) (Fin sl))
            = Fin (rescale_factor scale M M')).
  { assert (Hg : exists gm, guarded_max Check_inf M' = Fin gm
                            /\ gm = ref_point M').
    { destruct HM' as [E|[m E]]; rewrite E.
      - rewrite (Hci E). exists 0%R. split; reflexivity.
      - exists m. split; [|reflexivity].
        unfold guarded_max. cbn [is_ninf]. rewrite andb_false_r.
        reflexivity. }
    destruct Hg as [gm [Eg Egm]]. rewrite Eg.
    destruct HM as [->|[m ->]].
    - cbn [fsub fneg fadd]. rewrite fmul_ninf_pos by apply sl_pos.
      reflexivity.
    - cbn [fsub fneg fadd fmul fexp2 rescale_factor]. f_equal. f_equal.
      rewrite <- sl_ln2, Egm. ring. }
  rewrite Hscale'. reflexivity.
Qed.

(** The sums of an interval relative to a new reference point. *)
Lemma rebase_sum (M M' : fp) (lo : Z) (n : nat) (f : Z -> R) :
  finite_or_ninf M ->
  (forall m, M = Fin m -> exists m', M' = Fin m') ->
  (M = NInf -> forall col, lo <= col < lo + Z.of_nat n -> score col = NInf) ->
  (zsum lo n (fun col => weight (ref_point M) col * f col)
   * rescale_factor scale M M'
   = zsum lo n (fun col => weight (ref_point M') col * f col))%R.
Proof.
  intros HM Hf Hmask. destruct HM as [->|[m ->]].
  - cbn [rescale_factor]. rewrite Rmult_0_r. symmetry.
    apply zsum_zero. intros col Hc.
    rewrite weight_ninf by (apply Hmask; [reflexivity|exact Hc]). lra.
  - destruct (Hf m eq_refl) as [m' ->]. cbn [rescale_factor ref_point].
    rewrite Rmult_comm, <- zsum_scale. apply zsum_ext. intros col _.
    rewrite <- (weight_rebase m m' col). ring.
Qed.

Lemma rebase_sum1 (M M' : fp) (lo : Z) (n : nat) :
  finite_or_ninf M ->
  (forall m, M = Fin m -> exists m', M' = Fin m') ->
  (M = NInf -> forall col, lo <= col < lo + Z.of_nat n -> score col = NInf) ->
  (zsum lo n (weight (ref_point M)) * rescale_factor scale M M'
   = zsum lo n (weight (ref_point M')))%R.
Proof.
  intros HM Hf Hmask.
  pose proof (rebase_sum M M' lo n (fun _ => 1%R) HM Hf Hmask) as H.
  rewrite (zsum_ext lo n (weight (ref_point M))
             (fun col => weight (ref_point M) col * 1)%R)
    by (intros; lra).
  rewrite H. apply zsum_ext. intros; lra.
Qed.

End RowFacts.

(** ** One iteration over a K/V tile *)

Section LoopFacts.

Variables Is_causal Is_local Has_alibi Is_even_MN Is_even_K : bool.
Variable kt : Kernel_traits.
Variable params : Params.
Variable binfo : BlockInfo.
Variable bt : option (Z -> Z).
Variables k_mem v_mem : gmem.
Variable mask : Mask.
Variable sQ : Z -> fp.
Variable smem_ : Z -> Z -> fp.
Variable keep : Z -> Z -> bool.
Variables m_block r c : Z.
Variables n_block_min n_block_max : Z.
(** The logical query row, keys and values, the closed form of the tile
    pointers and the slope the mask adds. *)
Variable Q : Z -> R.
Variables Klog Vlog : Z -> Z -> R.
Variables kptr vptr : Z -> Z.
Variable aslope : R.

Let Br := kBlockM kt.
Let Bc := kBlockN kt.
Let sq := actual_seqlen_q binfo.
Let sk := actual_seqlen_k binfo.
Let wl := window_size_left params.
Let wr := window_size_right params.
Let dd := p_d params.
Let row := m_block * Br + r.
Let scale := scale_softmax params.
Let sl := scale_softmax_log2 params.
Let nms := n_masking_steps Is_causal Is_local Is_even_MN kt.

Let score := row_score Is_causal Is_local Has_alibi sq sk wl wr aslope dd row Q Klog.
Let weight := row_weight Is_causal Is_local Has_alibi sq sk wl wr scale aslope dd row Q Klog.
Let inv := row_inv Is_causal Is_local Has_alibi sq sk wl wr scale aslope dd row Q Klog Vlog c.

Hypothesis HBc : 0 < Bc.
Hypothesis HBr : 0 < Br.
Hypothesis Hd : 0 <= dd <= kHeadDim kt.
Hypothesis HevenK : Is_even_K = true -> dd = kHeadDim kt.
Hypothesis Hc : 0 <= c < dd.
Hypothesis HevenMN : Is_even_MN = true -> n_block_max * Bc <= sk.
Hypothesis Hmask_k : max_seqlen_k mask = sk.
Hypothesis Hmask_q : max_seqlen_q mask = sq.
Hypothesis Hmask_l : mask_window_size_left mask = wl.
Hypothesis Hmask_r : mask_window_size_right mask = wr.
Hypothesis Hmask_s : alibi_slope mask = aslope.
Hypothesis Hsl : sl = (scale / ln 2)%R.
Hypothesis Hscale : (0 < scale)%R.
Hypothesis HsQ : forall cc, 0 <= cc < kHeadDim kt ->
  sQ cc = Fin (if cc <? dd then Q cc else 0%R).
Hypothesis HK : forall n j cc,
  n_block_min <= n < n_block_max -> 0 <= j < Bc -> n * Bc + j < sk ->
  0 <= cc < dd ->
  k_mem (kptr n + j * k_row_stride params + cc) = Klog (n * Bc + j) cc.
Hypothesis HV : forall n j,
  n_block_min <= n < n_block_max -> 0 <= j < Bc -> n * Bc + j < sk ->
  v_mem (vptr n + j * v_row_stride params + c) = Vlog (n * Bc + j) c.
Hypothesis HadvK : forall n,
  advance_tile kt params bt (k_batch_stride params) (k_row_stride params)
               n (n - 1) (kptr n) = kptr (n - 1).
Hypothesis HadvV : forall n,
  advance_tile kt params bt (v_batch_stride params) (v_row_stride params)
               (n + 1) n (vptr (n + 1)) = vptr n.
(** The last tile starts below the end of the keys. *)
Hypothesis Htop : (n_block_max - 1) * Bc < sk.
(** The tiles below the masking steps are interior for the row. *)
Hypothesis Hinterior : forall n j,
  n_block_min <= n < n_block_max - nms -> 0 <= j < Bc ->
  n * Bc + j < sk /\ (Is_causal = true -> n * Bc + j <= row + sk - sq).

(** A column of the head dimension beyond [d] contributes nothing to a
    dot product. *)
Lemma dot_product_padded (f : Z -> R) :
  zsum 0 (Z.to_nat (kHeadDim kt)) (fun cc => if cc <? dd then f cc else 0%R)
  = zsum 0 (Z.to_nat dd) f.
Proof.
  rewrite (zsum_restrict 0 (Z.to_nat (kHeadDim kt)) 0 (Z.to_nat dd)).
  - apply zsum_ext. intros i Hi.
    replace (i <? dd) with true by (symmetry; apply Z.ltb_lt; lia).
    reflexivity.
  - lia.
  - lia.
  - intros i Hi. lia.
  - intros i Hi.
    replace (i <? dd) with false by (symmetry; apply Z.ltb_ge; lia).
    reflexivity.
Qed.

(** The product [Q K^T] of a loaded key. *)
Lemma gemm_loaded (kv : Z -> fp) (col : Z) :
  (forall cc, 0 <= cc < kHeadDim kt ->
     kv cc = Fin (if cc <? dd then Klog col cc else 0%R)) ->
  fma_fold (Fin 0%R) (map (fun cc => (sQ cc, kv cc)) (upto (kHeadDim kt)))
  = Fin (zsum 0 (Z.to_nat dd) (fun cc => Q cc * Klog col cc)%R).
Proof.
  intros Hkv.
  rewrite (map_ext_in _
             (fun cc => (Fin (if cc <? dd then Q cc else 0%R),
                         Fin (if cc <? dd then Klog col cc else 0%R)))).
  2:{ intros cc Hcc. apply in_upto in Hcc.
      rewrite HsQ, Hkv by lia. reflexivity. }
  rewrite (fma_fold_fin (fun cc => if cc <? dd then Q cc else 0%R)
                        (fun cc => if cc <? dd then Klog col cc else 0%R)).
  f_equal. rewrite Rplus_0_l, lsum_upto.
  rewrite <- (dot_product_padded (fun cc => Q cc * Klog col cc)%R).
  apply zsum_ext. intros i _. destruct (i <? dd); lra.
Qed.

(** The mask on a key that lies beyond the keys. *)
Lemma apply_mask_beyond (Causal_mask : bool) (col : Z) (s : fp) :
  sk <= col ->
  apply_mask Is_causal Is_local Has_alibi mask Causal_mask false row col s
  = NInf.
Proof.
  intros Hcol. unfold apply_mask. rewrite Hmask_k.
  destruct (Causal_mask && _); [reflexivity|].
  destruct (Is_local && _); [reflexivity|].
  replace (sk <=? col) with true by (symmetry; apply Z.leb_le; lia).
  reflexivity.
Qed.

Lemma score_beyond (col : Z) : sk <= col -> score col = NInf.
Proof.
  intros Hcol. unfold score, row_score, ref_masked.
  replace (sk <=? col) with true by (symmetry; apply Z.leb_le; lia).
  reflexivity.
Qed.

(** The mask on the product of a loaded key: the calls of the masking
    iterations apply every rule, the call of an interior iteration is
    right when the causal rule does not bite. *)
Lemma apply_mask_loaded (masking even : bool) (col : Z) :
  col < sk ->
  (masking = false -> Is_causal = true -> col <= row + sk - sq) ->
  apply_mask Is_causal Is_local Has_alibi mask (masking && Is_causal) even
    row col (Fin (zsum 0 (Z.to_nat dd) (fun cc => Q cc * Klog col cc)%R))
  = score col.
Proof.
  intros Hcol Hint. unfold apply_mask, score, row_score, ref_masked.
  rewrite Hmask_k, Hmask_q, Hmask_l, Hmask_r, Hmask_s.
  fold sq sk wl wr row.
  replace (sk <=? col) with false by (symmetry; apply Z.leb_gt; lia).
  rewrite andb_false_r. cbn [orb].
  assert (Hcausal : masking && Is_causal && (row + sk - sq <? col)
                    = Is_causal && (row + sk - sq <? col)).
  { destruct masking; [reflexivity|]. destruct Is_causal; [|reflexivity].
    cbn [andb]. symmetry. apply Z.ltb_ge. apply Hint; reflexivity. }
  rewrite Hcausal.
  destruct (Is_causal && (row + sk - sq <? col)); [reflexivity|].
  cbn [orb].
  destruct (Is_local && _); [reflexivity|].
  unfold row_logit. destruct Has_alibi; cbn [fadd].
  - reflexivity.
  - f_equal. lra.
Qed.

Let iter := attn_iter false Is_causal Is_local Has_alibi Is_even_MN
  Is_even_K kt params binfo bt k_mem v_mem mask sQ smem_ keep m_block r c
  n_block_min.
Let tVgV_of := iter_tVgV kt params bt.
Let sV_of := iter_sV Is_even_MN Is_even_K kt params binfo bt v_mem smem_ c.
Let sK_of := iter_sK Is_even_MN Is_even_K kt params binfo k_mem smem_.
Let acc_s_of := iter_acc_s Is_causal Is_local Has_alibi Is_even_MN
  Is_even_K kt params binfo k_mem mask sQ smem_ m_block r.
Let tKgK_of := iter_tKgK kt params bt n_block_min.

Let pointers := pointers_at kptr vptr.

(** The K tile in shared memory, for a key that exists. *)
Lemma sK_loaded (first : bool) (st : attn_state) (j cc : Z) :
  pointers first st ->
  n_block_min <= n_block st < n_block_max -> 0 <= j < Bc ->
  n_block st * Bc + j < sk -> 0 <= cc < kHeadDim kt ->
  sK_of first st j cc
  = Fin (if cc <? dd then Klog (n_block st * Bc + j) cc else 0%R).
Proof.
  intros [Hp _] Hn Hj Hcol Hcc. unfold sK_of, iter_sK. rewrite Hp.
  fold sk Bc dd.
  assert (Hrow : Is_even_MN || (j <? sk - n_block st * Bc) = true).
  { apply orb_true_iff. right. apply Z.ltb_lt. lia. }
  assert (Hcore : (if Is_even_K || (cc <? dd)
                   then Fin (k_mem (kptr (n_block st)
                                    + j * k_row_stride params + cc))
                   else Fin 0%R)
                  = Fin (if cc <? dd then Klog (n_block st * Bc + j) cc
                         else 0%R)).
  { destruct (cc <? dd) eqn:E.
    - apply Z.ltb_lt in E. rewrite orb_true_r. rewrite HK by lia. reflexivity.
    - apply Z.ltb_ge in E. destruct Is_even_K; [|reflexivity].
      specialize (HevenK eq_refl). lia. }
  destruct first; unfold copy_elt.
  - rewrite Hrow. exact Hcore.
  - cbn [orb]. exact Hcore.
Qed.

(** The masked logits of a tile, as an iteration computes them. *)
Lemma tile_scores (masking first : bool) (st : attn_state) :
  pointers first st ->
  n_block_min <= n_block st < n_block_max ->
  (first = true -> masking = true) ->
  (masking = false -> n_block st < n_block_max - nms) ->
  acc_s_of masking first st
  = map (fun j => score (n_block st * Bc + j)) (upto Bc).
Proof.
  intros Hp Hn Hfirst Hmasking. unfold acc_s_of, iter_acc_s.
  fold Br Bc row. fold sK_of.
  apply map_ext_in. intros j Hj. apply in_upto in Hj.
  destruct (Z_lt_le_dec (n_block st * Bc + j) sk) as [Hcol|Hcol].
  - rewrite (gemm_loaded _ (n_block st * Bc + j)).
    + apply apply_mask_loaded; [exact Hcol|].
      intros Hm Hcausal.
      apply (Hinterior (n_block st) j);
        [split; [lia|apply Hmasking, Hm]|lia|exact Hcausal].
    + intros cc Hcc. apply sK_loaded; assumption.
  - assert (Hm : masking = true).
    { destruct masking; [reflexivity|].
      pose proof (Hinterior (n_block st) j
                    ltac:(split; [lia|apply Hmasking; reflexivity]) Hj).
      lia. }
    assert (He : Is_even_MN = false).
    { destruct Is_even_MN; [|reflexivity]. specialize (HevenMN eq_refl). nia. }
    rewrite Hm, He. rewrite apply_mask_beyond by exact Hcol.
    symmetry. apply score_beyond. exact Hcol.
Qed.

Lemma tVgV_advanced (first : bool) (st : attn_state) :
  pointers first st -> tVgV_of first st = vptr (n_block st).
Proof.
  intros [_ Hp]. unfold tVgV_of, iter_tVgV. rewrite Hp.
  destruct first; [reflexivity|apply HadvV].
Qed.

Lemma tKgK_advanced (first : bool) (st : attn_state) :
  pointers first st ->
  tKgK_of st = (if n_block_min <? n_block st then kptr (n_block st - 1)
                else kptr (n_block st)).
Proof.
  intros [Hp _]. unfold tKgK_of, iter_tKgK. rewrite Hp.
  destruct (n_block_min <? n_block st); [apply HadvK|reflexivity].
Qed.

(** The V tile in shared memory: the value of a key that exists, zero
    for a row beyond the keys. *)
Lemma sV_tile (first : bool) (st : attn_state) :
  pointers first st ->
  n_block_min <= n_block st < n_block_max ->
  (first = false -> n_block st + 1 < n_block_max) ->
  map (sV_of first st) (upto Bc)
  = map (fun j => Fin (if n_block st * Bc + j <? sk
                       then Vlog (n_block st * Bc + j) c else 0%R))
        (upto Bc).
Proof.
  intros Hp Hn Hlater. apply map_ext_in. intros j Hj. apply in_upto in Hj.
  unfold sV_of, iter_sV. fold tVgV_of. rewrite (tVgV_advanced first st Hp).
  fold sk Bc dd.
  assert (Hcd : Is_even_K || (c <? dd) = true).
  { apply orb_true_iff. right. apply Z.ltb_lt. lia. }
  destruct (n_block st * Bc + j <? sk) eqn:Ec.
  - apply Z.ltb_lt in Ec.
    destruct first; unfold copy_elt; rewrite Hcd.
    + replace (Is_even_MN || (j <? sk - n_block st * Bc)) with true.
      * rewrite HV by lia. reflexivity.
      * symmetry. apply orb_true_iff. right. apply Z.ltb_lt. lia.
    + cbn [orb]. rewrite HV by lia. reflexivity.
  - apply Z.ltb_ge in Ec.
    destruct first; unfold copy_elt; rewrite Hcd.
    + replace (Is_even_MN || (j <? sk - n_block st * Bc)) with false;
        [reflexivity|].
      symmetry. apply orb_false_iff. split.
      * destruct Is_even_MN; [|reflexivity]. specialize (HevenMN eq_refl). nia.
      * apply Z.ltb_ge. lia.
    + specialize (Hlater eq_refl). nia.
Qed.

Lemma lsum_tile (n : Z) (f : Z -> R) :
  lsum (fun j => f (n * Bc + j)) (upto Bc)
  = zsum (n * Bc) (Z.to_nat ((n + 1) * Bc - n * Bc)) f.
Proof.
  rewrite lsum_upto. replace ((n + 1) * Bc - n * Bc) with Bc by lia.
  symmetry. apply zsum_shift.
Qed.

(** The product [P V] of a tile. *)
Lemma gemm_rs_tile (first : bool) (st : attn_state) (mref A : R) :
  pointers first st ->
  n_block_min <= n_block st < n_block_max ->
  (first = false -> n_block st + 1 < n_block_max) ->
  fma_fold (Fin A)
    (combine
       (map (fun j => Fin (weight mref (n_block st * Bc + j))) (upto Bc))
       (map (sV_of first st) (upto Bc)))
  = Fin (A + zsum (n_block st * Bc)
               (Z.to_nat ((n_block st + 1) * Bc - n_block st * Bc))
               (fun col => weight mref col * Vlog col c))%R.
Proof.
  intros Hp Hn Hlater. rewrite (sV_tile first st Hp Hn Hlater).
  rewrite combine_map.
  rewrite (fma_fold_fin (fun j => weight mref (n_block st * Bc + j))
             (fun j => if n_block st * Bc + j <? sk
                       then Vlog (n_block st * Bc + j) c else 0%R)).
  f_equal. f_equal.
  rewrite <- (lsum_tile (n_block st)
                (fun col => weight mref col * Vlog col c)%R).
  apply lsum_ext. intros j Hj.
  destruct (n_block st * Bc + j <? sk) eqn:Ec; [reflexivity|].
  apply Z.ltb_ge in Ec.
  unfold weight. rewrite (weight_ninf _ _ _ _ _ _ _ _ _ _ _ _ _ mref).
  - lra.
  - apply score_beyond. exact Ec.
Qed.

(** The softmax lemmas on the logits of a tile. *)
Lemma tile_max_facts (M : fp) (n : Z) :
  finite_or_ninf M ->
  let M' := fmax_list M (map (fun j => score (n * Bc + j)) (upto Bc)) in
  finite_or_ninf M'
  /\ (M' = NInf ->
      M = NInf
      /\ forall col, n * Bc <= col < (n + 1) * Bc -> score col = NInf)
  /\ (forall m, M = Fin m -> exists m', M' = Fin m').
Proof.
  intros HM M'.
  destruct (fmax_list_scores Is_causal Is_local Has_alibi sq sk wl wr scale
              aslope dd row Q Klog M (fun j => n * Bc + j) (upto Bc) HM)
    as [H1 [H2 H3]].
  split; [exact H1|]. split; [|exact H3].
  intros E. destruct (H2 E) as [E1 Hall]. split; [exact E1|].
  intros col Hcol.
  replace col with (n * Bc + (col - n * Bc)) by lia.
  apply Hall. apply in_upto. lia.
Qed.

Lemma tile_rescale_first (Check_inf : bool) (sm : Softmax) (acc : fp)
    (n : Z) :
  let M' := fmax_list NInf (map (fun j => score (n * Bc + j)) (upto Bc)) in
  (M' = NInf -> Check_inf = true) ->
  softmax_rescale_o true Check_inf sm
    (map (fun j => score (n * Bc + j)) (upto Bc)) acc sl
  = ({| row_max := M';
        row_sum := Fin (zsum (n * Bc) (Z.to_nat ((n + 1) * Bc - n * Bc))
                          (weight (ref_point M'))) |},
     map (fun j => Fin (weight (ref_point M') (n * Bc + j))) (upto Bc),
     acc).
Proof.
  intros M' Hci. rewrite <- lsum_tile.
  exact (rescale_first Is_causal Is_local Has_alibi sq sk wl wr scale
           aslope dd row Q Klog sl Hsl Hscale Check_inf sm acc
           (fun j => n * Bc + j) (upto Bc) Hci).
Qed.

Lemma tile_rescale_later (Check_inf : bool) (M : fp) (S A : R) (n : Z) :
  finite_or_ninf M ->
  let M' := fmax_list M (map (fun j => score (n * Bc + j)) (upto Bc)) in
  (M' = NInf -> Check_inf = true) ->
  softmax_rescale_o false Check_inf {| row_max := M; row_sum := Fin S |}
    (map (fun j => score (n * Bc + j)) (upto Bc)) (Fin A) sl
  = ({| row_max := M';
        row_sum := Fin (S * rescale_factor scale M M'
                        + zsum (n * Bc) (Z.to_nat ((n + 1) * Bc - n * Bc))
                            (weight (ref_point M'))) |},
     map (fun j => Fin (weight (ref_point M') (n * Bc + j))) (upto Bc),
     Fin (A * rescale_factor scale M M')).
Proof.
  intros HM M' Hci. rewrite <- lsum_tile.
  exact (rescale_later Is_causal Is_local Has_alibi sq sk wl wr scale
           aslope dd row Q Klog sl Hsl Hscale Check_inf M S A
           (fun j => n * Bc + j) (upto Bc) HM Hci).
Qed.

(** One iteration extends the interval of the invariant by its tile. *)
Lemma attn_iter_step (masking first Check_inf : bool) (st : attn_state)
    (hi : Z) :
  pointers first st ->
  n_block_min <= n_block st < n_block_max ->
  (first = true -> masking = true) ->
  (masking = false -> n_block st < n_block_max - nms) ->
  (first = true -> hi = (n_block st + 1) * Bc /\ acc_o st = Fin 0%R) ->
  (first = false ->
   n_block st + 1 < n_block_max /\ (n_block st + 1) * Bc <= hi
   /\ inv ((n_block st + 1) * Bc) hi (softmax st) (acc_o st)) ->
  (Check_inf = true
   \/ exists j, 0 <= j < Bc /\ score (n_block st * Bc + j) <> NInf) ->
  let st' := iter masking first Check_inf st in
  n_block st' = n_block st
  /\ tKgK st' = (if n_block_min <? n_block st then kptr (n_block st - 1)
                 else kptr (n_block st))
  /\ tVgV st' = vptr (n_block st)
  /\ inv (n_block st * Bc) hi (softmax st') (acc_o st').
Proof.
  intros Hp Hn Hfm Hmi Hfirst Hlater Hci st'. subst st'.
  unfold iter, attn_iter.
  fold acc_s_of sV_of tKgK_of tVgV_of. fold sl Bc.
  rewrite (tile_scores masking first st Hp Hn Hfm Hmi).
  assert (Hcinf : forall M : fp,
            finite_or_ninf M ->
            fmax_list M (map (fun j => score (n_block st * Bc + j)) (upto Bc))
            = NInf -> Check_inf = true).
  { intros M HM E. destruct Hci as [Hci|[j [Hj Hne]]]; [exact Hci|].
    destruct (tile_max_facts M (n_block st) HM) as [_ [Hall _]].
    destruct (Hall E) as [_ Hall']. exfalso. apply Hne, Hall'. lia. }
  destruct first.
  - destruct (Hfirst eq_refl) as [Hhi Hacc].
    destruct (tile_max_facts NInf (n_block st) (or_introl eq_refl))
      as [HM' [Hmask _]].
    rewrite (tile_rescale_first Check_inf (softmax st) (acc_o st) (n_block st)
               (Hcinf NInf (or_introl eq_refl))).
    cbv beta iota zeta. rewrite Hacc.
    rewrite (gemm_rs_tile true st _ 0 Hp Hn ltac:(discriminate)).
    cbn [n_block tKgK tVgV softmax acc_o].
    split; [reflexivity|]. split; [apply (tKgK_advanced true), Hp|].
    split; [apply (tVgV_advanced true), Hp|].
    exists (fmax_list NInf
              (map (fun j => score (n_block st * Bc + j)) (upto Bc))).
    split; [reflexivity|]. split; [exact HM'|].
    rewrite Hhi. split; [|split].
    + intros E col Hcol. apply (proj2 (Hmask E)). exact Hcol.
    + reflexivity.
    + f_equal. apply Rplus_0_l.
  - destruct (Hlater eq_refl) as [Hn1 [Hhi [M [EM [HMf [HMmask [ES EA]]]]]]].
    destruct (softmax st) as [rm rs] eqn:Esm. cbn [row_max row_sum] in EM, ES.
    subst rm rs.
    destruct (tile_max_facts M (n_block st) HMf) as [HM' [Hmask Hfin]].
    rewrite EA.
    rewrite (tile_rescale_later Check_inf M _ _ (n_block st) HMf
               (Hcinf M HMf)).
    cbv beta iota zeta.
    rewrite (gemm_rs_tile false st _ _ Hp Hn ltac:(intros _; exact Hn1)).
    cbn [n_block tKgK tVgV softmax acc_o].
    split; [reflexivity|]. split; [apply (tKgK_advanced false), Hp|].
    split; [apply (tVgV_advanced false), Hp|].
    exists (fmax_list M
              (map (fun j => score (n_block st * Bc + j)) (upto Bc))).
    split; [reflexivity|]. split; [exact HM'|].
    assert (Hold : M = NInf ->
              forall col,
                (n_block st + 1) * Bc <= col
                < (n_block st + 1) * Bc
                  + Z.of_nat (Z.to_nat (hi - (n_block st + 1) * Bc)) ->
                score col = NInf).
    { intros E col Hcol. apply HMmask; [exact E|lia]. }
    split; [|split].
    + intros E col Hcol. destruct (Hmask E) as [EM Htile].
      destruct (Z_lt_le_dec col ((n_block st + 1) * Bc)).
      * apply Htile. lia.
      * apply HMmask; [exact EM|lia].
    + cbn [row_sum]. f_equal.
      rewrite (zsum_split (n_block st * Bc) ((n_block st + 1) * Bc) hi)
        by lia.
      rewrite (rebase_sum1 Is_causal Is_local Has_alibi sq sk wl wr scale
                 aslope dd row Q Klog M _ _ _ HMf Hfin Hold).
      apply Rplus_comm.
    + f_equal.
      rewrite (zsum_split (n_block st * Bc) ((n_block st + 1) * Bc) hi)
        by lia.
      rewrite (rebase_sum Is_causal Is_local Has_alibi sq sk wl wr scale
                 aslope dd row Q Klog M _ _ _ (fun col => Vlog col c)
                 HMf Hfin Hold).
      apply Rplus_comm.
Qed.

(** ** The two loops *)

Lemma nms_pos : 1 <= nms.
Proof.
  unfold nms, n_masking_steps.
  assert (1 <= ceil_div Br Bc).
  { unfold ceil_div. rewrite cdiv_nonneg by lia.
    apply Z.div_le_lower_bound; lia. }
  fold Br Bc.
  destruct (negb Is_causal && negb Is_local); [lia|].
  destruct (Is_even_MN && Is_causal); lia.
Qed.

Lemma nms_one_without_mask :
  Is_causal = false -> Is_local = false -> nms = 1.
Proof. intros H1 H2. unfold nms, n_masking_steps. rewrite H1, H2. reflexivity. Qed.

(** A key that no rule masks has a finite logit. *)
Lemma score_unmasked (col : Z) :
  col < sk -> (Is_causal = true -> col <= row + sk - sq) ->
  Is_local = false -> score col <> NInf.
Proof.
  intros Hcol Hcausal Hlocal. unfold score, row_score, ref_masked.
  rewrite Hlocal.
  replace (sk <=? col) with false by (symmetry; apply Z.leb_gt; lia).
  replace (Is_causal && (row + sk - sq <? col)) with false.
  - cbn [orb andb]. discriminate.
  - symmetry. destruct Is_causal; [|reflexivity].
    cbn [andb]. apply Z.ltb_ge. apply Hcausal. reflexivity.
Qed.

Let mloop := masking_loop false Is_causal Is_local Has_alibi Is_even_MN
  Is_even_K kt params binfo bt k_mem v_mem mask sQ smem_ keep m_block r c
  n_block_min.
Let iloop := interior_loop false Is_causal Is_local Has_alibi Is_even_MN
  Is_even_K kt params binfo bt k_mem v_mem mask sQ smem_ keep m_block r c
  n_block_min.

Lemma masking_loop_facts (Check_inf : bool) :
  (Check_inf = true \/ (Is_causal = false /\ Is_local = false)) ->
  forall (steps : nat) (first : bool) (st : attn_state),
    (1 <= steps)%nat -> (1 < nms \/ steps = 1%nat) ->
    pointers first st ->
    n_block_min <= n_block st < n_block_max ->
    (first = true ->
     acc_o st = Fin 0%R /\ n_block st = n_block_max - 1) ->
    (first = false ->
     1 < nms /\ n_block st + 1 < n_block_max
     /\ inv ((n_block st + 1) * Bc) (n_block_max * Bc)
            (softmax st) (acc_o st)) ->
    let st' := mloop Check_inf steps first st in
    (n_block st' = n_block_min - 1
     \/ n_block st' = n_block st - Z.of_nat steps)
    /\ n_block_min - 1 <= n_block st'
    /\ tVgV st' = vptr (n_block st' + 1)
    /\ (n_block_min <= n_block st' -> tKgK st' = kptr (n_block st'))
    /\ inv ((n_block st' + 1) * Bc) (n_block_max * Bc)
           (softmax st') (acc_o st').
Proof.
  intros Hci steps. induction steps as [|k IH];
    intros first st Hsteps Hbreak Hp Hn Hfirst Hlater; [lia|].
  cbn zeta. unfold mloop. cbn [masking_loop]. fold iter. fold nms.
  fold mloop.
  assert (Hstep := attn_iter_step true first Check_inf st (n_block_max * Bc)
                     Hp Hn (fun _ => eq_refl) ltac:(discriminate)).
  cbn zeta in Hstep.
  destruct Hstep as [En [EK [EV Hinv]]].
  - intros E. destruct (Hfirst E) as [Ha Etop]. split; [|exact Ha].
    rewrite Etop. f_equal. lia.
  - intros E. destruct (Hlater E) as [_ [H1 H2]].
    split; [exact H1|]. split; [nia|exact H2].
  - destruct Hci as [Hci|[Hc1 Hc2]]; [left; exact Hci|right].
    pose proof (nms_one_without_mask Hc1 Hc2) as Hone.
    assert (Ef : first = true).
    { destruct first; [reflexivity|].
      destruct (Hlater eq_refl) as [H _]. lia. }
    destruct (Hfirst Ef) as [_ Etop].
    exists 0. split; [lia|]. apply score_unmasked.
    + rewrite Etop. lia.
    + intros E. rewrite Hc1 in E. discriminate.
    + exact Hc2.
  - set (st1 := iter true first Check_inf st) in *.
    rewrite En.
    destruct ((1 <? nms) && (n_block st <=? n_block_min)) eqn:Eb.
    + apply andb_prop in Eb as [_ Eb]. apply Z.leb_le in Eb.
      cbn [dec_n_block n_block tKgK tVgV softmax acc_o]. rewrite En, EV.
      replace (n_block st - 1 + 1) with (n_block st) by lia.
      split; [left; lia|]. split; [lia|]. split; [reflexivity|].
      split; [intros; lia|exact Hinv].
    + assert (Hcont : nms <= 1 \/ n_block_min < n_block st).
      { apply andb_false_iff in Eb as [Eb|Eb].
        - left. apply Z.ltb_ge in Eb. exact Eb.
        - right. apply Z.leb_gt in Eb. exact Eb. }
      destruct k as [|k].
      * cbn [mloop masking_loop].
        unfold mloop. cbn [masking_loop].
        cbn [dec_n_block n_block tKgK tVgV softmax acc_o]. rewrite En, EV, EK.
        replace (n_block st - 1 + 1) with (n_block st) by lia.
        split; [right; lia|]. split; [lia|]. split; [reflexivity|].
        split; [|exact Hinv].
        intros Hge.
        replace (n_block_min <? n_block st) with true
          by (symmetry; apply Z.ltb_lt; lia).
        reflexivity.
      * assert (Hnms : 1 < nms) by (destruct Hbreak; lia).
        assert (Hgt : n_block_min < n_block st) by (destruct Hcont; lia).
        pose proof (IH false (dec_n_block st1) ltac:(lia) (or_introl Hnms))
          as IH'.
        cbn zeta in IH'.
        cbn [dec_n_block n_block tKgK tVgV softmax acc_o] in IH'.
        destruct IH' as [Hn' [Hlow [HV' [HK' Hinv']]]].
        -- unfold pointers, pointers_at.
           cbn [dec_n_block n_block tKgK tVgV]. rewrite En, EV, EK.
           replace (n_block_min <? n_block st) with true
             by (symmetry; apply Z.ltb_lt; lia).
           split; [reflexivity|]. f_equal. lia.
        -- rewrite En. lia.
        -- discriminate.
        -- intros _. rewrite En.
           replace (n_block st - 1 + 1) with (n_block st) by lia.
           split; [exact Hnms|]. split; [lia|exact Hinv].
        -- split; [|split; [exact Hlow|split; [exact HV'|split;
                     [exact HK'|exact Hinv']]]].
           destruct Hn' as [Hn'|Hn']; [left; exact Hn'|right].
           rewrite Hn', En. lia.
Qed.

(** The interior loop: every remaining tile, down to [n_block_min]. *)
Lemma interior_loop_facts (Check_inf : bool) :
  (Check_inf = true \/ Is_local = false) ->
  forall (steps : nat) (st : attn_state),
    n_block st = n_block_min - 1 + Z.of_nat steps ->
    ((1 <= steps)%nat ->
     pointers false st /\ n_block st < n_block_max - nms) ->
    inv ((n_block st + 1) * Bc) (n_block_max * Bc) (softmax st) (acc_o st) ->
    let st' := iloop Check_inf steps st in
    inv (n_block_min * Bc) (n_block_max * Bc) (softmax st') (acc_o st').
Proof.
  intros Hci steps. induction steps as [|k IH]; intros st En Hpre Hinv.
  - cbn zeta. unfold iloop. cbn [interior_loop].
    replace n_block_min with (n_block st + 1) by lia. exact Hinv.
  - destruct (Hpre ltac:(lia)) as [Hp Hlt].
    pose proof nms_pos as Hnms.
    cbn zeta. unfold iloop. cbn [interior_loop]. fold iter. fold iloop.
    assert (Hstep := attn_iter_step false false Check_inf st
                       (n_block_max * Bc) Hp ltac:(lia)
                       ltac:(discriminate) (fun _ => Hlt)
                       ltac:(discriminate)).
    cbn zeta in Hstep.
    destruct Hstep as [En1 [EK [EV Hinv1]]].
    + intros _. split; [lia|]. split; [nia|exact Hinv].
    + destruct Hci as [Hci|Hlocal]; [left; exact Hci|right].
      exists 0. split; [lia|].
      destruct (Hinterior (n_block st) 0 ltac:(lia) ltac:(lia)) as [H1 H2].
      apply score_unmasked; [exact H1|exact H2|exact Hlocal].
    + set (st1 := iter false false Check_inf st) in *.
      apply (IH (dec_n_block st1)).
      * cbn [dec_n_block n_block]. lia.
      * intros Hk. split.
        -- unfold pointers, pointers_at.
           cbn [dec_n_block n_block tKgK tVgV]. rewrite En1, EV, EK.
           replace (n_block_min <? n_block st) with true
             by (symmetry; apply Z.ltb_lt; lia).
           split; [reflexivity|]. f_equal. lia.
        -- cbn [dec_n_block n_block]. lia.
      * cbn [dec_n_block n_block softmax acc_o]. rewrite En1.
        replace (n_block st - 1 + 1) with (n_block st) by lia. exact Hinv1.
Qed.

(** Both loops, from the state the prologue leaves: the softmax state and
    the accumulator cover the keys of every tile of the range. *)
Lemma attn_loops_facts (CI_masking CI_interior : bool) (st : attn_state) :
  (CI_masking = true \/ (Is_causal = false /\ Is_local = false)) ->
  (CI_interior = true \/ Is_local = false) ->
  n_block_min < n_block_max ->
  n_block st = n_block_max - 1 ->
  tKgK st = kptr (n_block_max - 1) -> tVgV st = vptr (n_block_max - 1) ->
  acc_o st = Fin 0%R ->
  let st' :=
    attn_loops false Is_causal Is_local Has_alibi Is_even_MN Is_even_K kt
      params binfo bt k_mem v_mem mask sQ smem_ keep m_block r c n_block_min
      CI_masking CI_interior st in
  inv (n_block_min * Bc) (n_block_max * Bc) (softmax st') (acc_o st').
Proof.
  intros Hm Hi Hne En EK EV Hacc. cbn zeta. unfold attn_loops.
  fold nms. fold mloop. fold iloop.
  pose proof nms_pos as Hnms.
  destruct (masking_loop_facts CI_masking Hm (Z.to_nat nms) true st)
    as [Hn' [Hlow [HV' [HK' Hinv']]]].
  - lia.
  - destruct (Z.eq_dec nms 1) as [E|E]; [right; rewrite E; reflexivity|left; lia].
  - split; [rewrite En; exact EK|rewrite En; exact EV].
  - lia.
  - intros _. split; [exact Hacc|exact En].
  - discriminate.
  - set (st1 := mloop CI_masking (Z.to_nat nms) true st) in *.
    apply interior_loop_facts.
    + exact Hi.
    + lia.
    + intros Hk. split.
      * split; [apply HK'; lia|exact HV'].
      * destruct Hn' as [Hn'|Hn']; lia.
    + exact Hinv'.
Qed.

End LoopFacts.

(** ** Finalize: the online state against the reference *)

Section FinalizeFacts.

Variables Is_causal Is_local Has_alibi : bool.
Variables sq sk wl wr : Z.
Variables scale slope aslope : R.
Variable d : Z.
Variable row : Z.
Variable Q : Z -> R.
Variables K V : Z -> Z -> R.
Variable c : Z.

Hypothesis Hscale : (0 < scale)%R.
(** The mask adds the slope to the unscaled logit: the kernels divide it
    by the softmax scale. *)
Hypothesis Haslope : Has_alibi = true -> (aslope * scale = slope)%R.

Let masked := ref_masked Is_causal Is_local sq sk wl wr row.
Let refw := ref_weight Is_causal Is_local Has_alibi sq sk wl wr scale slope d row Q K.
Let weight := row_weight Is_causal Is_local Has_alibi sq sk wl wr scale aslope d row Q K.
Let score := row_score Is_causal Is_local Has_alibi sq sk wl wr aslope d row Q K.
Let inv := row_inv Is_causal Is_local Has_alibi sq sk wl wr scale aslope d row Q K V c.

Lemma ref_weight_rebase (m : R) (col : Z) :
  (refw col = weight m col * exp (m * scale))%R.
Proof.
  unfold refw, ref_weight, weight, row_weight, row_score. fold masked.
  destruct (masked col); [lra|].
  rewrite <- exp_plus. f_equal.
  unfold ref_logit, row_logit. destruct Has_alibi.
  - rewrite <- (Haslope eq_refl). ring.
  - ring.
Qed.

Lemma refw_nonneg (col : Z) : (0 <= refw col)%R.
Proof.
  unfold refw, ref_weight. destruct (ref_masked _ _ _ _ _ _ _ _);
    [apply Rle_refl|left; apply exp_pos].
Qed.

Lemma refw_masked (col : Z) : masked col = true -> refw col = 0%R.
Proof. intros H. unfold refw, ref_weight. fold masked. rewrite H. reflexivity. Qed.

Lemma refw_unmasked (col : Z) : masked col = false -> (0 < refw col)%R.
Proof.
  intros H. unfold refw, ref_weight. fold masked. rewrite H. apply exp_pos.
Qed.

Lemma score_masked (col : Z) : masked col = true <-> score col = NInf.
Proof.
  unfold score, row_score. fold masked.
  destruct (masked col); split; intros H; try reflexivity; discriminate.
Qed.

(** A row whose keys between [lo] and [hi] are all masked: the sentinel
    and a zero output. *)
Lemma normalize_all_masked (Split : bool) (lo hi : Z) (sm : Softmax)
    (acc : fp) (rp : R) :
  inv lo hi sm acc ->
  (forall col, lo <= col < hi -> masked col = true) ->
  normalize_softmax_lse false Split sm acc scale rp
  = (if Split then NInf else PInf, Fin 0%R).
Proof.
  intros [M [EM [HM [_ [ES EA]]]]] Hall.
  unfold normalize_softmax_lse. rewrite ES, EA.
  assert (Z1 : zsum lo (Z.to_nat (hi - lo)) (weight (ref_point M)) = 0%R).
  { apply zsum_zero. intros col Hcol. unfold weight.
    apply weight_ninf. apply score_masked. apply Hall. lia. }
  assert (Z2 : zsum lo (Z.to_nat (hi - lo))
                 (fun col => weight (ref_point M) col * V col c)%R = 0%R).
  { apply zsum_zero. intros col Hcol. unfold weight.
    rewrite weight_ninf; [lra|]. apply score_masked. apply Hall. lia. }
  fold weight. rewrite Z1, Z2. rewrite is_zero_fin_zero.
  cbn [fmul]. f_equal. f_equal. lra.
Qed.

(** A row with a key between [lo] and [hi] that is not masked: the
    log-sum-exp and the normalised output of these keys. *)
Lemma normalize_interval (Split : bool) (lo hi : Z) (sm : Softmax)
    (acc : fp) (rp : R) :
  inv lo hi sm acc ->
  (exists col, lo <= col < hi /\ masked col = false) ->
  (0 < zsum lo (Z.to_nat (hi - lo)) refw)%R
  /\ normalize_softmax_lse false Split sm acc scale rp
     = (Fin (ln (zsum lo (Z.to_nat (hi - lo)) refw)),
        Fin (zsum lo (Z.to_nat (hi - lo)) (fun col => refw col * V col c)
             / zsum lo (Z.to_nat (hi - lo)) refw)%R).
Proof.
  intros [M [EM [HM [Hninf [ES EA]]]]] [col0 [Hcol0 Hun]].
  assert (HW : (0 < zsum lo (Z.to_nat (hi - lo)) refw)%R).
  { apply (zsum_pos _ _ _ col0).
    - intros i _. apply refw_nonneg.
    - lia.
    - apply refw_unmasked. exact Hun. }
  split; [exact HW|].
  destruct HM as [E|[m E]].
  { exfalso. specialize (Hninf E col0 Hcol0).
    apply score_masked in Hninf. congruence. }
  rewrite E in ES, EA. cbn [ref_point] in ES, EA. fold weight in ES, EA.
  assert (HS : zsum lo (Z.to_nat (hi - lo)) refw
               = (exp (m * scale)
                  * zsum lo (Z.to_nat (hi - lo)) (weight m))%R).
  { rewrite <- zsum_scale. apply zsum_ext. intros i _.
    rewrite (ref_weight_rebase m). ring. }
  assert (HA : zsum lo (Z.to_nat (hi - lo)) (fun col => refw col * V col c)%R
               = (exp (m * scale)
                  * zsum lo (Z.to_nat (hi - lo))
                      (fun col => weight m col * V col c))%R).
  { rewrite <- zsum_scale. apply zsum_ext. intros i _.
    rewrite (ref_weight_rebase m). ring. }
  pose proof (exp_pos (m * scale)) as He.
  set (S := zsum lo (Z.to_nat (hi - lo)) (weight m)) in *.
  set (A := zsum lo (Z.to_nat (hi - lo))
              (fun col => weight m col * V col c)%R) in *.
  assert (HSpos : (0 < S)%R).
  { rewrite HS in HW.
    destruct (Rle_or_lt S 0) as [Hle|Hlt]; [|exact Hlt].
    exfalso. assert (exp (m * scale) * S <= 0)%R by nra. lra. }
  unfold normalize_softmax_lse. rewrite ES, EA, EM, E.
  rewrite is_zero_fin_false by lra.
  rewrite flog_pos by exact HSpos.
  cbn [fmul fadd finv]. destruct (Req_dec_T S 0) as [E0|_]; [lra|].
  cbn [fmul]. rewrite HS, HA. f_equal.
  - f_equal. rewrite ln_mult by lra. rewrite ln_exp. reflexivity.
  - f_equal. field. split; lra.
Qed.

Lemma interval_masked_true (lo hi : Z) :
  interval_masked Is_causal Is_local sq sk wl wr row lo hi = true ->
  forall col, lo <= col < hi -> masked col = true.
Proof.
  unfold interval_masked. intros H col Hcol.
  rewrite forallb_forall in H.
  specialize (H (col - lo) ltac:(apply in_upto; lia)).
  replace (lo + (col - lo)) with col in H by lia. exact H.
Qed.

Lemma interval_masked_false (lo hi : Z) :
  interval_masked Is_causal Is_local sq sk wl wr row lo hi = false ->
  exists col, lo <= col < hi /\ masked col = false.
Proof.
  unfold interval_masked. intros H.
  assert (Hex : existsb (fun i => negb (masked (lo + i))) (upto (hi - lo))
                = true).
  { clear -H. induction (upto (hi - lo)) as [|x l IH]; cbn in *;
      [discriminate|].
    fold masked in H.
    destruct (masked (lo + x)); cbn in *; [apply IH; exact H|reflexivity]. }
  apply existsb_exists in Hex as [i [Hi Hm]]. apply in_upto in Hi.
  exists (lo + i). split; [lia|].
  destruct (masked (lo + i)); [discriminate|reflexivity].
Qed.

(** Finalize on the state the loops leave is attention over the keys of
    the interval. *)
Lemma normalize_is_partial (Split : bool) (lo hi : Z) (sm : Softmax)
    (acc : fp) (rp : R) :
  inv lo hi sm acc ->
  normalize_softmax_lse false Split sm acc scale rp
  = ref_partial Is_causal Is_local Has_alibi sq sk wl wr scale slope d row
      Q K V Split lo hi c.
Proof.
  intros Hinv. unfold ref_partial.
  destruct (interval_masked Is_causal Is_local sq sk wl wr row lo hi) eqn:E.
  - apply normalize_all_masked with (lo := lo) (hi := hi); [exact Hinv|].
    apply interval_masked_true. exact E.
  - apply interval_masked_false in E.
    destruct (normalize_interval Split lo hi sm acc rp Hinv E) as [_ En].
    exact En.
Qed.

(** Attention over an interval of keys in terms of its two sums. *)
Lemma ref_partial_sums (Split : bool) (lo hi : Z) :
  let W := zsum lo (Z.to_nat (hi - lo)) refw in
  let WV := zsum lo (Z.to_nat (hi - lo)) (fun col => refw col * V col c)%R in
  (0 <= W)%R /\ (W = 0%R -> WV = 0%R)
  /\ ref_partial Is_causal Is_local Has_alibi sq sk wl wr scale slope d row
       Q K V Split lo hi c
     = (if Req_dec_T W 0 then (if Split then NInf else PInf)
        else Fin (ln W),
        Fin (WV / W)%R).
Proof.
  intros W WV.
  assert (HW : (0 <= W)%R)
    by (apply zsum_nonneg; intros i _; apply refw_nonneg).
  assert (HWV : W = 0%R -> WV = 0%R).
  { intros E. apply zsum_zero. intros i Hi.
    rewrite (zsum_zero_inv lo _ refw i) by
      (try exact E; try exact Hi; intros j _; apply refw_nonneg).
    ring. }
  split; [exact HW|]. split; [exact HWV|].
  unfold ref_partial. fold refw. fold W. fold WV.
  destruct (interval_masked Is_causal Is_local sq sk wl wr row lo hi) eqn:E.
  - assert (E0 : W = 0%R).
    { apply zsum_zero. intros i Hi. apply refw_masked.
      apply (interval_masked_true lo hi E). lia. }
    destruct (Req_dec_T W 0) as [_|Hne]; [|contradiction].
    rewrite (HWV E0). f_equal. f_equal. unfold Rdiv. ring.
  - destruct (interval_masked_false lo hi E) as [col [Hcol Hun]].
    assert (Hpos : (0 < W)%R).
    { apply (zsum_pos _ _ _ col);
        [intros i _; apply refw_nonneg|lia|apply refw_unmasked, Hun]. }
    destruct (Req_dec_T W 0) as [E0|_]; [lra|]. reflexivity.
Qed.

End FinalizeFacts.

(** ** The tile range of a query row *)

Section TileRange.

Variables Is_causal Is_local Is_even_MN : bool.
Variable kt : Kernel_traits.
Variable params : Params.
Variable binfo : BlockInfo.
Variables m_block r : Z.

Let Br := kBlockM kt.
Let Bc := kBlockN kt.
Let sq := actual_seqlen_q binfo.
Let sk := actual_seqlen_k binfo.
Let wl := window_size_left params.
Let wr := window_size_right params.
Let row := m_block * Br + r.
Let n_min := n_block_min Is_local kt params binfo m_block.
Let n_max := n_block_max Is_causal Is_local kt params binfo m_block.
Let nms := n_masking_steps Is_causal Is_local Is_even_MN kt.
Let masked := ref_masked Is_causal Is_local sq sk wl wr row.

Hypothesis HBc : 0 < Bc.
Hypothesis HBr : 0 < Br.
Hypothesis Hr : 0 <= r < Br.
Hypothesis Hsk : 0 <= sk.
(** What the launcher guarantees: a causal mask comes with a right window
    of zero, and [Is_even_MN] with sequence lengths that are multiples of
    the tile sizes, one of which divides the other. *)
Hypothesis Hwr : Is_causal = true -> wr = 0.
Hypothesis HevenMN : Is_even_MN = true -> (Bc | sk) /\ (Br | sq).
Hypothesis Htiles :
  Is_even_MN = true -> Is_causal = true -> (Bc | Br) \/ (Br | Bc).

Lemma n_min_nonneg : 0 <= n_min.
Proof.
  unfold n_min, n_block_min. destruct (negb Is_local); lia.
Qed.

Lemma n_max_le_keys : n_max <= ceil_div sk Bc.
Proof.
  unfold n_max, n_block_max. fold sk Bc.
  destruct (Is_causal || Is_local); lia.
Qed.

Lemma n_max_le_bound :
  Is_causal || Is_local = true ->
  n_max <= ceil_div ((m_block + 1) * Br + sk - sq + wr) Bc.
Proof.
  intros H. unfold n_max, n_block_max. fold sk sq wr Bc Br.
  rewrite H. lia.
Qed.

(** A key below the range is left of the local window. *)
Lemma below_range_masked (col : Z) :
  0 <= col < n_min * Bc -> masked col = true.
Proof.
  intros Hcol. unfold n_min, n_block_min in Hcol. fold Br Bc sk sq wl in Hcol.
  destruct Is_local eqn:El; cbn [negb] in Hcol; [|lia].
  set (x := m_block * Br + sk - sq - wl) in *.
  assert (Hx : 0 <= x).
  { destruct (Z_lt_le_dec x 0) as [Hneg|Hpos]; [|exact Hpos].
    pose proof (cdiv_neg x Bc ltac:(lia) HBc) as E.
    assert (0 <= - x / Bc) by (apply Z.div_pos; lia).
    lia. }
  pose proof (cdiv_floor_le x Bc HBc Hx) as Hle.
  assert (Hlt : col < x) by lia.
  unfold masked, ref_masked.
  replace (col <? row + sk - sq - wl) with true
    by (symmetry; apply Z.ltb_lt; unfold row, x in *; lia).
  cbn [andb orb]. rewrite !orb_true_r. reflexivity.
Qed.

(** A key at or above the range is beyond the keys, beyond the causal
    bound or right of the local window. *)
Lemma above_range_masked (col : Z) :
  n_max * Bc <= col -> masked col = true.
Proof.
  intros Hcol. unfold masked, ref_masked.
  destruct (Z_lt_le_dec col sk) as [Hin|Hout].
  2:{ replace (sk <=? col) with true by (symmetry; apply Z.leb_le; lia).
      reflexivity. }
  assert (Hkeys : col < ceil_div sk Bc * Bc).
  { pose proof (ceil_div_covers sk Bc HBc). lia. }
  unfold n_max, n_block_max in Hcol. fold sk sq wr Bc Br in Hcol.
  destruct (Is_causal || Is_local) eqn:Ecl; [|nia].
  set (a := (m_block + 1) * Br + sk - sq + wr) in *.
  assert (Ha : a <= col).
  { pose proof (ceil_div_covers a Bc HBc).
    destruct (Z.min_spec (ceil_div sk Bc) (ceil_div a Bc)) as [[_ E]|[_ E]];
      rewrite E in Hcol; nia. }
  destruct Is_causal eqn:Ec.
  - specialize (Hwr eq_refl).
    replace (row + sk - sq <? col) with true
      by (symmetry; apply Z.ltb_lt; unfold row, a in *; nia).
    cbn [andb orb]. rewrite orb_true_r. reflexivity.
  - cbn [orb] in Ecl. rewrite Ecl.
    replace (row + sk - sq + wr <? col) with true
      by (symmetry; apply Z.ltb_lt; unfold row, a in *; nia).
    cbn [andb orb]. rewrite !orb_true_r. reflexivity.
Qed.

(** The keys that are not masked lie in the tiles of the range. *)
Lemma unmasked_in_range (col : Z) :
  0 <= col -> masked col = false -> n_min * Bc <= col < n_max * Bc.
Proof.
  intros H0 Hun.
  destruct (Z_lt_le_dec col (n_min * Bc)) as [H1|H1].
  { rewrite below_range_masked in Hun by lia. discriminate. }
  destruct (Z_lt_le_dec col (n_max * Bc)) as [H2|H2]; [lia|].
  rewrite above_range_masked in Hun by lia. discriminate.
Qed.

(** The last tile of a range that is not empty starts below the end of
    the keys. *)
Lemma top_tile_has_keys : n_min < n_max -> (n_max - 1) * Bc < sk.
Proof.
  intros Hne. pose proof n_min_nonneg as Hmin.
  pose proof n_max_le_keys as Hkeys.
  destruct (Z_le_gt_dec sk 0) as [H0|H0].
  - pose proof (ceil_div_nonpos sk Bc HBc H0). lia.
  - pose proof (ceil_div_tight sk Bc HBc ltac:(lia)). nia.
Qed.

Lemma even_range_within_keys :
  Is_even_MN = true -> n_max * Bc <= sk.
Proof.
  intros He. destruct (HevenMN He) as [[s Hs] _].
  pose proof n_max_le_keys as Hle.
  assert (E : ceil_div sk Bc = s).
  { unfold ceil_div. rewrite cdiv_nonneg by lia. rewrite Hs.
    replace (s * Bc + Bc - 1) with ((Bc - 1) + s * Bc) by lia.
    rewrite Z.div_add by lia. rewrite Z.div_small by lia. lia. }
  rewrite E in Hle. rewrite Hs. nia.
Qed.

Lemma nms_ge_tiles : Br <= ceil_div Br Bc * Bc.
Proof. apply ceil_div_covers. exact HBc. Qed.

(** The tiles below the masking steps lie below the end of the keys and
    below the causal bound of every row of the query tile. *)
Lemma interior_tiles (n j : Z) :
  n_min <= n < n_max - nms -> 0 <= j < Bc ->
  n * Bc + j < sk /\ (Is_causal = true -> n * Bc + j <= row + sk - sq).
Proof.
  intros Hn Hj. pose proof n_min_nonneg as Hmin.
  pose proof n_max_le_keys as Hkeys. pose proof nms_ge_tiles as Hcd.
  assert (Hnms : 1 <= nms).
  { unfold nms, n_masking_steps. fold Br Bc.
    assert (1 <= ceil_div Br Bc) by nia.
    destruct (negb Is_causal && negb Is_local); [lia|].
    destruct (Is_even_MN && Is_causal); lia. }
  split.
  - destruct (Z_le_gt_dec sk 0) as [H0|H0].
    + pose proof (ceil_div_nonpos sk Bc HBc H0). lia.
    + pose proof (ceil_div_tight sk Bc HBc ltac:(lia)). nia.
  - intros Ec. specialize (Hwr Ec).
    pose proof (n_max_le_bound ltac:(rewrite Ec; reflexivity)) as Hb.
    set (a := (m_block + 1) * Br + sk - sq + wr) in *.
    assert (Ha : 0 < a).
    { destruct (Z_le_gt_dec a 0) as [H0|H0]; [|lia].
      pose proof (ceil_div_nonpos a Bc HBc H0). lia. }
    pose proof (ceil_div_tight a Bc HBc ltac:(lia)) as Ht.
    assert (Hlt : (n + nms) * Bc < a) by nia.
    unfold nms, n_masking_steps in Hlt. fold Br Bc in Hlt.
    rewrite Ec in Hlt. cbn [negb andb] in Hlt.
    destruct (Bool.bool_dec Is_even_MN true) as [Ee|Ee];
      [|apply not_true_is_false in Ee]; rewrite Ee in Hlt;
      cbn [andb] in Hlt.
    + destruct (HevenMN Ee) as [[s Hs] [t Ht']].
      destruct (Htiles Ee Ec) as [[k Hk]|[k Hk]].
      * assert (Ea : a = ((m_block + 1) * k + s - t * k) * Bc)
          by (unfold a; rewrite Hs, Ht', Hwr, Hk; ring).
        assert (Hk' : k <= ceil_div Br Bc) by nia.
        assert (n + k < (m_block + 1) * k + s - t * k) by nia.
        assert ((n + 1) * Bc + Br <= a) by (rewrite Ea, Hk; nia).
        unfold row, a in *. lia.
      * assert (Ea : a = ((m_block + 1) + s * k - t) * Br)
          by (unfold a; rewrite Hs, Ht', Hwr, Hk; ring).
        assert (Hcd1 : 1 <= ceil_div Br Bc) by nia.
        assert (Hlt' : (n + 1) * Bc < a) by nia.
        assert ((n + 1) * k < (m_block + 1) + s * k - t).
        { rewrite Ea, Hk in Hlt'. nia. }
        assert ((n + 1) * Bc + Br <= a) by (rewrite Ea, Hk; nia).
        unfold row, a in *. lia.
    + assert ((n + 1) * Bc + Br < a) by nia.
      unfold row, a in *. lia.
Qed.

End TileRange.

(** ** The dense kernel on one query row *)

Section DenseFacts.

Variables Is_causal Is_local Has_alibi Is_even_MN Is_even_K : bool.
Variable kt : Kernel_traits.
Variable params : Params.
Variable binfo : BlockInfo.
Variable keep : Z -> Z -> bool.
Variable smem_ : Z -> Z -> fp.
Variable blockIdx : Z * Z * Z.
Variables tidx bidb bidh m_block r c : Z.

Let Br := kBlockM kt.
Let Bc := kBlockN kt.
Let sq := actual_seqlen_q binfo.
Let sk := actual_seqlen_k binfo.
Let wl := window_size_left params.
Let wr := window_size_right params.
Let dd := p_d params.
Let row := m_block * Br + r.
Let scale := scale_softmax params.
Let n_min := n_block_min Is_local kt params binfo m_block.
Let n_max := n_block_max Is_causal Is_local kt params binfo m_block.
Let Q := dense_Q kt params binfo bidb bidh m_block r.
Let K := dense_K params binfo bidb bidh.
Let V := dense_V params binfo bidb bidh.
Let slope := head_slope Has_alibi params bidb bidh.
Let aslope := dense_alibi_slope Has_alibi params bidb bidh.
Let masked := ref_masked Is_causal Is_local sq sk wl wr row.
Let inv := row_inv Is_causal Is_local Has_alibi sq sk wl wr scale aslope dd row Q K V c.

Hypothesis HBc : 0 < Bc.
Hypothesis HBr : 0 < Br.
Hypothesis Hd : 0 <= dd <= kHeadDim kt.
Hypothesis HevenK : Is_even_K = true -> dd = kHeadDim kt.
Hypothesis Hc : 0 <= c < dd.
Hypothesis Hr : 0 <= r < Br.
Hypothesis Hrow : row < sq.
Hypothesis Hsk : 0 <= sk.
Hypothesis Hwr : Is_causal = true -> wr = 0.
Hypothesis HevenMN : Is_even_MN = true -> (Bc | sk) /\ (Br | sq).
Hypothesis Htiles :
  Is_even_MN = true -> Is_causal = true -> (Bc | Br) \/ (Br | Bc).
Hypothesis Hsl : scale_softmax_log2 params = (scale / ln 2)%R.
Hypothesis Hscale : (0 < scale)%R.

Lemma dense_slope : Has_alibi = true -> (aslope * scale = slope)%R.
Proof.
  intros _. unfold aslope, slope, dense_alibi_slope, head_slope.
  fold scale. destruct (alibi_slopes_ptr params); [|lra].
  destruct Has_alibi; [|lra]. field. lra.
Qed.

(** The query row in shared memory. *)
Lemma dense_sQ (cc : Z) :
  0 <= cc < kHeadDim kt ->
  copy_elt Is_even_MN Is_even_K false (q_ptr params)
    (q_offset binfo (q_batch_stride params) (q_row_stride params) bidb
     + m_block * kBlockM kt * q_row_stride params
     + bidh * q_head_stride params)
    (q_row_stride params) (actual_seqlen_q binfo - m_block * kBlockM kt)
    (p_d params) (smem_ r cc) r cc
  = Fin (if cc <? dd then Q cc else 0%R).
Proof.
  intros Hcc. unfold copy_elt. fold sq Br dd.
  replace (Is_even_MN || (r <? sq - m_block * Br)) with true
    by (symmetry; apply orb_true_iff; right; apply Z.ltb_lt;
        unfold row in Hrow; lia).
  destruct (cc <? dd) eqn:E.
  - rewrite orb_true_r. f_equal. unfold Q, dense_Q. f_equal. fold Br. ring.
  - apply Z.ltb_ge in E. destruct Is_even_K; [|reflexivity].
    specialize (HevenK eq_refl). lia.
Qed.

(** With a tile range that is not empty the kernel runs its loops; the
    state they leave covers the keys of the range, and the two stores of
    the row carry the results of finalize. *)
Lemma dense_loops_run :
  n_min < n_max ->
  exists sm acc,
    inv (n_min * Bc) (n_max * Bc) sm acc
    /\ compute_attn_1rowblock false Is_causal Is_local Has_alibi Is_even_MN
         Is_even_K kt params binfo keep smem_ blockIdx tidx bidb bidh
         m_block r c
       = [StoreLSE (dense_LSE_index kt params bidb bidh m_block r)
            (fst (normalize_softmax_lse false false sm acc scale
                    (rp_dropout params)));
          StoreO (dense_O_index kt params binfo bidb bidh m_block r c)
            (snd (normalize_softmax_lse false false sm acc scale
                    (rp_dropout params)))].
Proof.
  intros Hne. unfold compute_attn_1rowblock.
  destruct blockIdx as [[bx by_] bz]. cbn [andb].
  fold sq Br n_min n_max.
  replace (sq <=? m_block * Br) with false
    by (symmetry; apply Z.leb_gt; unfold row in Hrow; lia).
  replace (n_max <=? n_min) with false by (symmetry; apply Z.leb_gt; lia).
  rewrite andb_false_r.
  match goal with
  | |- context [normalize_softmax_lse _ _ (softmax ?s) _ _ _] =>
      set (st := s)
  end.
  exists (softmax st), (acc_o st). split.
  - unfold st, inv, Bc, sq, sk, wl, wr, scale, dd, row, Br.
    apply (attn_loops_facts Is_causal Is_local Has_alibi Is_even_MN
             Is_even_K kt params binfo None (k_ptr params) (v_ptr params)
             _ _ smem_ keep m_block r c n_min n_max Q K V
             (fun n => dense_row_offset_k kt params binfo bidb bidh (n + 1))
             (fun n => dense_row_offset_v kt params binfo bidb bidh (n + 1))
             aslope).
    + exact HBc.
    + exact HBr.
    + exact Hd.
    + exact HevenK.
    + exact Hc.
    + apply (even_range_within_keys Is_causal Is_local Is_even_MN kt params
               binfo m_block r HBc Hsk HevenMN).
    + reflexivity.
    + reflexivity.
    + reflexivity.
    + reflexivity.
    + reflexivity.
    + exact Hsl.
    + exact Hscale.
    + intros cc Hcc. apply dense_sQ. exact Hcc.
    + intros n j cc _ _ _ _. unfold K, dense_K, dense_row_offset_k, kv_head.
      f_equal. ring.
    + intros n j _ _ _. unfold V, dense_V, dense_row_offset_v, kv_head.
      f_equal. ring.
    + intros n. unfold advance_tile, dense_row_offset_k. ring.
    + intros n. unfold advance_tile, dense_row_offset_v. ring.
    + apply (top_tile_has_keys Is_causal Is_local Is_even_MN kt params
               binfo m_block r HBc Hne).
    + apply (interior_tiles Is_causal Is_local Is_even_MN kt params binfo
               m_block r HBc HBr Hr Hwr HevenMN Htiles).
    + destruct Is_causal; [left; reflexivity|].
      destruct Is_local; [left; reflexivity|right; split; reflexivity].
    + destruct Is_local; [left; reflexivity|right; reflexivity].
    + exact Hne.
    + reflexivity.
    + cbn [tKgK]. f_equal. lia.
    + cbn [tVgV]. f_equal. lia.
    + reflexivity.
  - destruct (normalize_softmax_lse false false (softmax st) (acc_o st)
                (scale_softmax params) (rp_dropout params)) as [lse o] eqn:En.
    fold scale. unfold scale in *. rewrite En. cbn [fst snd app].
    unfold store_lse, store_elt. fold sq Br dd.
    assert (Hrv : (r <? sq - m_block * Br) = true)
      by (apply Z.ltb_lt; unfold row in Hrow; lia).
    rewrite Hrv, orb_true_r.
    replace (Is_even_K || (c <? dd)) with true
      by (symmetry; apply orb_true_iff; right; apply Z.ltb_lt; lia).
    cbn [andb app]. unfold dense_LSE_index, dense_O_index. fold Br.
    reflexivity.
Qed.

(** The sums of the reference run over the keys of the sequence, those
    of the kernel over the keys of the tile range: the keys in one and
    not in the other are masked. *)
Lemma dense_range_sum (f : Z -> R) :
  (forall col, masked col = true -> f col = 0%R) ->
  zsum (n_min * Bc) (Z.to_nat (n_max * Bc - n_min * Bc)) f
  = zsum 0 (Z.to_nat sk) f.
Proof.
  intros Hf.
  pose proof (n_min_nonneg Is_causal Is_local Is_even_MN kt params binfo
                m_block r) as Hmin.
  apply zsum_common.
  - intros i Hi Hout. apply Hf. fold n_min in Hmin.
    assert (sk <= i) by nia.
    unfold masked, ref_masked.
    replace (sk <=? i) with true by (symmetry; apply Z.leb_le; lia).
    reflexivity.
  - intros i Hi Hout. apply Hf.
    destruct (masked i) eqn:E; [reflexivity|exfalso].
    apply Hout.
    pose proof (unmasked_in_range Is_causal Is_local Is_even_MN kt params
                  binfo m_block r HBc Hr Hwr Htiles i ltac:(lia) E) as Hin.
    fold n_min n_max Bc in Hin. lia.
Qed.

(** The two stores of a row that has a key which is not masked. *)
Lemma dense_row_stores :
  has_unmasked_key Is_causal Is_local sq sk wl wr row ->
  compute_attn_1rowblock false Is_causal Is_local Has_alibi Is_even_MN
    Is_even_K kt params binfo keep smem_ blockIdx tidx bidb bidh m_block r c
  = [StoreLSE (dense_LSE_index kt params bidb bidh m_block r)
       (Fin (ref_lse Is_causal Is_local Has_alibi sq sk wl wr scale slope
               dd row Q K));
     StoreO (dense_O_index kt params binfo bidb bidh m_block r c)
       (Fin (ref_output Is_causal Is_local Has_alibi sq sk wl wr scale slope
               dd row Q K V c))].
Proof.
  intros [col0 [Hcol0 Hun]].
  pose proof (unmasked_in_range Is_causal Is_local Is_even_MN kt params
                binfo m_block r HBc Hr Hwr Htiles col0 ltac:(lia) Hun)
    as Hin.
  fold n_min n_max Bc in Hin.
  assert (Hne : n_min < n_max) by nia.
  destruct (dense_loops_run Hne) as [sm [acc [Hinv Heq]]].
  destruct (normalize_interval Is_causal Is_local Has_alibi sq sk wl wr
              scale slope aslope dd row Q K V c dense_slope
              false (n_min * Bc) (n_max * Bc) sm acc (rp_dropout params)
              Hinv (ex_intro _ col0 (conj Hin Hun))) as [_ En].
  rewrite Heq, En. cbn [fst snd].
  unfold ref_lse, ref_output, ref_denominator.
  rewrite !dense_range_sum.
  - reflexivity.
  - intros col Hm. unfold ref_weight. fold masked. rewrite Hm.
    first [reflexivity|lra].
  - intros col Hm. unfold ref_weight. fold masked. rewrite Hm.
    first [reflexivity|lra].
Qed.

(** The two stores of a row whose keys are all masked.  Without a mask
    and under [Is_even_MN] the kernel has no early exit: the row then
    needs a sequence that has keys. *)
Lemma dense_masked_row_stores :
  (forall col, 0 <= col < sk -> masked col = true) ->
  Is_causal || Is_local || negb Is_even_MN = true \/ 0 < sk ->
  let stores :=
    compute_attn_1rowblock false Is_causal Is_local Has_alibi Is_even_MN
      Is_even_K kt params binfo keep smem_ blockIdx tidx bidb bidh
      m_block r c in
  stores = [StoreO (dense_O_index kt params binfo bidb bidh m_block r c)
              (Fin 0%R);
            StoreLSE (dense_LSE_index kt params bidb bidh m_block r) PInf]
  \/ stores = [StoreLSE (dense_LSE_index kt params bidb bidh m_block r) PInf;
               StoreO (dense_O_index kt params binfo bidb bidh m_block r c)
                 (Fin 0%R)].
Proof.
  intros Hall Hguard stores.
  pose proof (n_min_nonneg Is_causal Is_local Is_even_MN kt params binfo
                m_block r) as Hmin.
  fold n_min in Hmin.
  assert (Hrv : (r <? sq - m_block * Br) = true)
    by (apply Z.ltb_lt; unfold row in Hrow; lia).
  assert (Hcv : Is_even_K || (c <? dd) = true)
    by (apply orb_true_iff; right; apply Z.ltb_lt; lia).
  destruct ((Is_causal || Is_local || negb Is_even_MN)
            && (n_max <=? n_min)) eqn:Eexit.
  - left. unfold stores, compute_attn_1rowblock.
    destruct blockIdx as [[bx by_] bz]. cbn [andb].
    fold sq Br n_min n_max.
    replace (sq <=? m_block * Br) with false
      by (symmetry; apply Z.leb_gt; unfold row in Hrow; lia).
    rewrite Eexit. unfold store_lse, store_elt. fold sq Br dd.
    rewrite Hrv, Hcv, orb_true_r. cbn [andb app].
    unfold dense_LSE_index, dense_O_index. fold Br. reflexivity.
  - right.
    assert (Hne : n_min < n_max).
    { apply andb_false_iff in Eexit as [Ef|Ef].
      - destruct Hguard as [Hg|Hpos]; [congruence|].
        apply orb_false_iff in Ef as [Ef _].
        apply orb_false_iff in Ef as [Ec El].
        unfold n_min, n_max, n_block_min, n_block_max.
        rewrite Ec, El. cbn [negb orb]. fold sk Bc.
        pose proof (ceil_div_tight sk Bc HBc ltac:(lia)).
        pose proof (ceil_div_covers sk Bc HBc). nia.
      - apply Z.leb_gt in Ef. exact Ef. }
    destruct (dense_loops_run Hne) as [sm [acc [Hinv Heq]]].
    unfold stores. rewrite Heq.
    rewrite (normalize_all_masked Is_causal Is_local Has_alibi sq sk wl wr
               scale aslope dd row Q K V c false (n_min * Bc) (n_max * Bc)
               sm acc (rp_dropout params) Hinv).
    + reflexivity.
    + intros col Hcol. destruct (Z_lt_le_dec col sk) as [Hin|Hout].
      * apply Hall. nia.
      * unfold ref_masked.
        replace (sk <=? col) with true by (symmetry; apply Z.leb_le; lia).
        reflexivity.
Qed.

(** The stores of the dense kernel for any row: attention over the keys
    of its tile range, on the early exit or after the loops. *)
Lemma dense_stores_partial :
  Is_causal || Is_local || negb Is_even_MN = true \/ 0 < sk ->
  let R := ref_partial Is_causal Is_local Has_alibi sq sk wl wr scale slope
             dd row Q K V false (n_min * Bc) (n_max * Bc) c in
  let stores :=
    compute_attn_1rowblock false Is_causal Is_local Has_alibi Is_even_MN
      Is_even_K kt params binfo keep smem_ blockIdx tidx bidb bidh
      m_block r c in
  stores = [StoreO (dense_O_index kt params binfo bidb bidh m_block r c)
              (snd R);
            StoreLSE (dense_LSE_index kt params bidb bidh m_block r) (fst R)]
  \/ stores = [StoreLSE (dense_LSE_index kt params bidb bidh m_block r)
                 (fst R);
               StoreO (dense_O_index kt params binfo bidb bidh m_block r c)
                 (snd R)].
Proof.
  intros Hguard R stores.
  assert (Hrv : (r <? sq - m_block * Br) = true)
    by (apply Z.ltb_lt; unfold row in Hrow; lia).
  assert (Hcv : Is_even_K || (c <? dd) = true)
    by (apply orb_true_iff; right; apply Z.ltb_lt; lia).
  destruct ((Is_causal || Is_local || negb Is_even_MN)
            && (n_max <=? n_min)) eqn:Eexit.
  - left.
    assert (ER : R = (PInf, Fin 0%R)).
    { apply andb_prop in Eexit as [_ Ele]. apply Z.leb_le in Ele.
      unfold R, ref_partial, interval_masked.
      rewrite upto_nonpos by nia. reflexivity. }
    rewrite ER. cbn [fst snd].
    unfold stores, compute_attn_1rowblock.
    destruct blockIdx as [[bx by_] bz]. cbn [andb].
    fold sq Br n_min n_max.
    replace (sq <=? m_block * Br) with false
      by (symmetry; apply Z.leb_gt; unfold row in Hrow; lia).
    rewrite Eexit. unfold store_lse, store_elt. fold sq Br dd.
    rewrite Hrv, Hcv, orb_true_r. cbn [andb app].
    unfold dense_LSE_index, dense_O_index. fold Br. reflexivity.
  - right.
    assert (Hne : n_min < n_max).
    { apply andb_false_iff in Eexit as [Ef|Ef].
      - destruct Hguard as [Hg|Hpos]; [congruence|].
        apply orb_false_iff in Ef as [Ef _].
        apply orb_false_iff in Ef as [Ec El].
        unfold n_min, n_max, n_block_min, n_block_max.
        rewrite Ec, El. cbn [negb orb]. fold sk Bc.
        pose proof (ceil_div_tight sk Bc HBc ltac:(lia)).
        pose proof (ceil_div_covers sk Bc HBc). nia.
      - apply Z.leb_gt in Ef. exact Ef. }
    destruct (dense_loops_run Hne) as [sm [acc [Hinv Heq]]].
    unfold stores. rewrite Heq.
    rewrite (normalize_is_partial Is_causal Is_local Has_alibi sq sk wl wr
               scale slope aslope dd row Q K V c dense_slope false
               (n_min * Bc) (n_max * Bc) sm acc (rp_dropout params) Hinv).
    reflexivity.
Qed.

End DenseFacts.

(** The pointer updates of the split kernel between adjacent tiles. *)
Lemma split_tile_advance (kt : Kernel_traits) (params : Params)
    (binfo : BlockInfo)
    (bidb bidh batch_stride row_stride head_stride n_cur n_next : Z) :
  n_next = n_cur - 1 ->
  advance_tile kt params (block_table_of params bidb) batch_stride
    row_stride n_cur n_next
    (split_row_offset kt params binfo batch_stride row_stride head_stride
       bidb bidh (n_cur + 1))
  = split_row_offset kt params binfo batch_stride row_stride head_stride
      bidb bidh (n_next + 1).
Proof.
  intros ->. unfold advance_tile, split_row_offset.
  destruct (block_table_of params bidb) as [bt|].
  - cbv zeta. replace (n_cur + 1 - 1) with n_cur by lia.
    replace (n_cur - 1 + 1 - 1) with (n_cur - 1) by lia. ring.
  - ring.
Qed.

(** The range of a split is the range of the dense kernel cut to the
    tiles of the split. *)
Lemma split_range_max_min (Is_causal Is_local : bool) (kt : Kernel_traits)
    (params : Params) (binfo : BlockInfo)
    (m_block n_split_idx num_n_splits : Z) :
  0 <= n_split_idx * n_blocks_per_split kt params num_n_splits ->
  split_n_block_min Is_local kt params binfo m_block n_split_idx
    num_n_splits
  = Z.max (n_split_idx * n_blocks_per_split kt params num_n_splits)
          (n_block_min Is_local kt params binfo m_block)
  /\ split_n_block_max Is_causal Is_local kt params binfo m_block
       n_split_idx num_n_splits
     = Z.min (n_block_max Is_causal Is_local kt params binfo m_block)
             ((n_split_idx + 1) * n_blocks_per_split kt params num_n_splits).
Proof.
  intros H. unfold split_n_block_min, split_n_block_max, n_block_min,
    n_block_max. cbv zeta.
  split.
  - destruct (negb Is_local); lia.
  - destruct (Is_causal || Is_local); lia.
Qed.

(** ** The split kernel on one query row *)

Section SplitFacts.

Variables Is_causal Is_local Has_alibi Is_even_MN Is_even_K : bool.
Variables Split Append_KV : bool.
Variable kt : Kernel_traits.
Variable params : Params.
Variable binfo : BlockInfo.
Variable smem_ : Z -> Z -> fp.
Variables bidb bidh m_block n_split_idx num_n_splits r c : Z.
(** The query row and the keys and values that the block reads. *)
Variable Q : Z -> R.
Variables Klog Vlog : Z -> Z -> R.

Let Br := kBlockM kt.
Let Bc := kBlockN kt.
Let sq := actual_seqlen_q binfo.
Let sk := actual_seqlen_k binfo.
Let wl := window_size_left params.
Let wr := window_size_right params.
Let dd := p_d params.
Let row := m_block * Br + r.
Let scale := scale_softmax params.
Let per_split := n_blocks_per_split kt params num_n_splits.
Let n_min :=
  split_n_block_min Is_local kt params binfo m_block n_split_idx num_n_splits.
Let n_max :=
  split_n_block_max Is_causal Is_local kt params binfo m_block n_split_idx
    num_n_splits.
Let mem := split_memory Is_even_K Append_KV kt params binfo bidb bidh
             n_min n_max.
Let aslope := split_alibi_slope Has_alibi params bidb bidh.
Let slope := head_slope Has_alibi params bidb bidh.
Let masked := ref_masked Is_causal Is_local sq sk wl wr row.
Let inv := row_inv Is_causal Is_local Has_alibi sq sk wl wr scale aslope dd
             row Q Klog Vlog c.

Hypothesis Hsup : supported Is_causal Is_even_MN Is_even_K kt params binfo.
Hypothesis Hc : 0 <= c < dd.
Hypothesis Hr : 0 <= r < Br.
Hypothesis Hrow : row < sq.
Hypothesis Hidx : 0 <= n_split_idx.
Hypothesis Hper : 0 <= per_split.
Hypothesis HsQ : forall cc, 0 <= cc < kHeadDim kt ->
  split_load_q Is_causal Is_local Is_even_MN Is_even_K Append_KV kt params
    binfo smem_ bidb bidh m_block r cc
  = Fin (if cc <? dd then Q cc else 0%R).
Hypothesis HK : forall n j cc,
  n_min <= n < n_max -> 0 <= j < Bc -> n * Bc + j < sk -> 0 <= cc < dd ->
  fst mem (split_row_offset_k kt params binfo bidb bidh (n + 1)
           + j * k_row_stride params + cc)
  = Klog (n * Bc + j) cc.
Hypothesis HV : forall n j,
  n_min <= n < n_max -> 0 <= j < Bc -> n * Bc + j < sk ->
  snd mem (split_row_offset_v kt params binfo bidb bidh (n + 1)
           + j * v_row_stride params + c)
  = Vlog (n * Bc + j) c.

Lemma split_slope : Has_alibi = true -> (aslope * scale = slope)%R.
Proof.
  intros _. unfold aslope, slope, split_alibi_slope, head_slope.
  fold scale. pose proof (sup_scale _ _ _ _ _ _ Hsup) as Hs. fold scale in Hs.
  destruct Has_alibi; [|destruct (alibi_slopes_ptr params); lra].
  destruct (alibi_slopes_ptr params); [|lra]. field. lra.
Qed.

(** The range of a split lies within the range of the dense kernel. *)
Lemma split_range_within :
  n_block_min Is_local kt params binfo m_block <= n_min
  /\ n_max <= n_block_max Is_causal Is_local kt params binfo m_block.
Proof.
  unfold n_min, n_max, split_n_block_min, split_n_block_max, n_block_min,
    n_block_max.
  fold per_split. cbv zeta.
  assert (0 <= n_split_idx * per_split) by nia.
  split.
  - destruct (negb Is_local); lia.
  - destruct (Is_causal || Is_local); lia.
Qed.

(** With a tile range that is not empty the block runs its loops; the
    state they leave covers the keys of the range of the split. *)
Lemma split_loops_run :
  n_min < n_max ->
  exists sm acc,
    inv (n_min * Bc) (n_max * Bc) sm acc
    /\ compute_attn_1rowblock_splitkv Is_causal Is_local Has_alibi
         Is_even_MN Is_even_K Split Append_KV kt params binfo smem_
         bidb bidh m_block n_split_idx num_n_splits r c
       = (if Append_KV
          then append_kv Is_even_K kt params binfo bidb bidh n_min n_max
          else [])
         ++ split_result_stores Split kt params binfo bidb bidh m_block
              n_split_idx r c
              (fst (normalize_softmax_lse false Split sm acc scale 1%R))
              (snd (normalize_softmax_lse false Split sm acc scale 1%R)).
Proof.
  intros Hne. destruct Hsup as [H1 H2 H3 H4 H5 H6 H7 H8 H9 H10].
  destruct split_range_within as [Hlo Hhi].
  pose proof (n_min_nonneg Is_causal Is_local Is_even_MN kt params binfo
                m_block r) as Hmin.
  unfold compute_attn_1rowblock_splitkv.
  fold sq Br n_min n_max.
  replace (sq <=? m_block * Br) with false
    by (symmetry; apply Z.leb_gt; unfold row in Hrow; lia).
  replace (n_max <=? n_min) with false by (symmetry; apply Z.leb_gt; lia).
  change (apply_stores
            (if Append_KV
             then append_kv Is_even_K kt params binfo bidb bidh n_min n_max
             else [])
            (k_ptr params, v_ptr params)) with mem.
  destruct mem as [k_mem v_mem] eqn:Emem.
  match goal with
  | |- context [normalize_softmax_lse _ _ (softmax ?s) _ _ _] =>
      set (st := s)
  end.
  exists (softmax st), (acc_o st). split.
  - unfold st, inv, Bc, sq, sk, wl, wr, scale, dd, row, Br.
    apply (attn_loops_facts Is_causal Is_local Has_alibi Is_even_MN
             Is_even_K kt params binfo (block_table_of params bidb)
             k_mem v_mem _ _ smem_ (fun _ _ => true) m_block r c n_min n_max
             Q Klog Vlog
             (fun n => split_row_offset_k kt params binfo bidb bidh (n + 1))
             (fun n => split_row_offset_v kt params binfo bidb bidh (n + 1))
             aslope).
    + exact H1.
    + exact H2.
    + exact H3.
    + exact H4.
    + exact Hc.
    + intros He.
      pose proof (even_range_within_keys Is_causal Is_local Is_even_MN kt
                    params binfo m_block r H1 H5 H7 He) as Hk.
      fold Bc sk in Hk |- *. fold Bc in H1. nia.
    + reflexivity.
    + reflexivity.
    + reflexivity.
    + reflexivity.
    + reflexivity.
    + exact H9.
    + exact H10.
    + exact HsQ.
    + intros n j cc Hn Hj Hcol Hcc.
      pose proof (HK n j cc Hn Hj Hcol Hcc) as E. cbn [fst] in E. exact E.
    + intros n j Hn Hj Hcol.
      pose proof (HV n j Hn Hj Hcol) as E. cbn [snd] in E. exact E.
    + intros n. unfold split_row_offset_k.
      apply split_tile_advance. reflexivity.
    + intros n. unfold split_row_offset_v.
      apply split_tile_advance. lia.
    + fold Bc sk. fold Bc in H1.
      assert (Hk : n_max <= ceil_div sk Bc).
      { pose proof (n_max_le_keys Is_causal Is_local Is_even_MN kt params
                      binfo m_block r) as Hk. fold sk Bc in Hk. lia. }
      destruct (Z_le_gt_dec sk 0) as [H0|H0].
      * pose proof (ceil_div_nonpos sk Bc H1 H0). lia.
      * pose proof (ceil_div_tight sk Bc H1 ltac:(lia)). nia.
    + intros n j Hn Hj.
      apply (interior_tiles Is_causal Is_local Is_even_MN kt params binfo
               m_block r H1 H2 Hr H6 H7 H8); [|exact Hj].
      lia.
    + destruct Is_causal; [left; reflexivity|].
      destruct Is_local; [left; reflexivity|].
      destruct Is_even_MN; [right; split; reflexivity|left; reflexivity].
    + destruct Is_local; [left; reflexivity|right; reflexivity].
    + exact Hne.
    + reflexivity.
    + cbn [tKgK]. f_equal. lia.
    + cbn [tVgV]. f_equal. lia.
    + reflexivity.
  - destruct (normalize_softmax_lse false Split (softmax st) (acc_o st)
                (scale_softmax params) 1) as [lse o] eqn:En.
    fold scale. unfold scale in *. rewrite En. cbn [fst snd].
    f_equal.
    unfold store_lse, store_elt, split_result_stores. fold sq Br dd.
    assert (Hrv : (r <? sq - m_block * Br) = true)
      by (apply Z.ltb_lt; unfold row in Hrow; lia).
    rewrite Hrv, orb_true_r.
    replace (Is_even_K || (c <? dd)) with true
      by (symmetry; apply orb_true_iff; right; apply Z.ltb_lt; lia).
    cbn [andb app].
    unfold split_LSEaccum_index, split_Oaccum_index, dense_O_index. fold Br.
    destruct Split; reflexivity.
Qed.

(** The stores of a block: zero and the sentinel on the early exit, the
    append phase and attention over the keys of its tiles otherwise. *)
Lemma split_block_stores :
  compute_attn_1rowblock_splitkv Is_causal Is_local Has_alibi Is_even_MN
    Is_even_K Split Append_KV kt params binfo smem_ bidb bidh m_block
    n_split_idx num_n_splits r c
  = if n_max <=? n_min then
      rev (split_result_stores Split kt params binfo bidb bidh m_block
             n_split_idx r c (if Split then NInf else PInf) (Fin 0%R))
    else
      let R := ref_partial Is_causal Is_local Has_alibi sq sk wl wr scale
                 slope dd row Q Klog Vlog Split (n_min * Bc) (n_max * Bc) c in
      (if Append_KV
       then append_kv Is_even_K kt params binfo bidb bidh n_min n_max
       else [])
      ++ split_result_stores Split kt params binfo bidb bidh m_block
           n_split_idx r c (fst R) (snd R).
Proof.
  destruct (n_max <=? n_min) eqn:Eexit.
  - unfold compute_attn_1rowblock_splitkv.
    fold sq Br n_min n_max.
    replace (sq <=? m_block * Br) with false
      by (symmetry; apply Z.leb_gt; unfold row in Hrow; lia).
    rewrite Eexit. unfold store_lse, store_elt, split_result_stores.
    fold sq Br dd.
    assert (Hrv : (r <? sq - m_block * Br) = true)
      by (apply Z.ltb_lt; unfold row in Hrow; lia).
    rewrite Hrv, orb_true_r.
    replace (Is_even_K || (c <? dd)) with true
      by (symmetry; apply orb_true_iff; right; apply Z.ltb_lt; lia).
    cbn [andb app].
    unfold split_LSEaccum_index, split_Oaccum_index, dense_O_index. fold Br.
    destruct Split; reflexivity.
  - apply Z.leb_gt in Eexit.
    destruct (split_loops_run Eexit) as [sm [acc [Hinv Heq]]].
    rewrite Heq. cbv zeta.
    rewrite (normalize_is_partial Is_causal Is_local Has_alibi sq sk wl wr
               scale slope aslope dd row Q Klog Vlog c split_slope Split
               (n_min * Bc) (n_max * Bc) sm acc 1%R Hinv).
    reflexivity.
Qed.

(** The stores of a block for a row whose keys in the range of the split
    are all masked: zero and the sentinel, on the early exit or after the
    loops. *)
Lemma split_masked_row_stores :
  (forall col, n_min * Bc <= col < n_max * Bc -> col < sk ->
               masked col = true) ->
  let sentinel := if Split then NInf else PInf in
  let stores :=
    compute_attn_1rowblock_splitkv Is_causal Is_local Has_alibi Is_even_MN
      Is_even_K Split Append_KV kt params binfo smem_ bidb bidh m_block
      n_split_idx num_n_splits r c in
  stores = rev (split_result_stores Split kt params binfo bidb bidh m_block
                  n_split_idx r c sentinel (Fin 0%R))
  \/ stores = (if Append_KV
               then append_kv Is_even_K kt params binfo bidb bidh n_min n_max
               else [])
              ++ split_result_stores Split kt params binfo bidb bidh
                   m_block n_split_idx r c sentinel (Fin 0%R).
Proof.
  intros Hall sentinel stores.
  destruct (n_max <=? n_min) eqn:Eexit.
  - left. unfold stores, compute_attn_1rowblock_splitkv.
    fold sq Br n_min n_max.
    replace (sq <=? m_block * Br) with false
      by (symmetry; apply Z.leb_gt; unfold row in Hrow; lia).
    rewrite Eexit. unfold store_lse, store_elt, split_result_stores.
    fold sq Br dd.
    assert (Hrv : (r <? sq - m_block * Br) = true)
      by (apply Z.ltb_lt; unfold row in Hrow; lia).
    rewrite Hrv, orb_true_r.
    replace (Is_even_K || (c <? dd)) with true
      by (symmetry; apply orb_true_iff; right; apply Z.ltb_lt; lia).
    cbn [andb app].
    unfold split_LSEaccum_index, split_Oaccum_index, dense_O_index. fold Br.
    unfold sentinel. destruct Split; reflexivity.
  - right. apply Z.leb_gt in Eexit.
    destruct (split_loops_run Eexit) as [sm [acc [Hinv Heq]]].
    unfold stores. rewrite Heq.
    rewrite (normalize_all_masked Is_causal Is_local Has_alibi sq sk wl wr
               scale aslope dd row Q Klog Vlog c Split (n_min * Bc)
               (n_max * Bc) sm acc 1%R Hinv).
    + reflexivity.
    + intros col Hcol. destruct (Z_lt_le_dec col sk) as [Hin|Hout].
      * apply Hall; assumption.
      * unfold ref_masked.
        replace (sk <=? col) with true by (symmetry; apply Z.leb_le; lia).
        reflexivity.
Qed.

End SplitFacts.

(** The views of the memory that fit every block of the split kernel. *)
Lemma split_load_q_view
    (Is_causal Is_local Is_even_MN Is_even_K Append_KV : bool)
    (kt : Kernel_traits) (params : Params) (binfo : BlockInfo)
    (smem_ : Z -> Z -> fp) (bidb bidh m_block r cc : Z) :
  (Is_even_K = true -> p_d params = kHeadDim kt) ->
  0 <= r -> m_block * kBlockM kt + r < actual_seqlen_q binfo ->
  0 <= cc < kHeadDim kt ->
  split_load_q Is_causal Is_local Is_even_MN Is_even_K Append_KV kt params
    binfo smem_ bidb bidh m_block r cc
  = Fin (if cc <? p_d params
         then split_Q Is_causal Is_local Is_even_MN Is_even_K Append_KV kt
                params binfo smem_ bidb bidh m_block r cc
         else 0%R).
Proof.
  intros HevenK Hr Hrow Hcc. unfold split_Q, split_load_q.
  assert (Hrv : (r <? actual_seqlen_q binfo - m_block * kBlockM kt) = true)
    by (apply Z.ltb_lt; lia).
  assert (Hcol : Is_even_K || (cc <? p_d params) = (cc <? p_d params)).
  { destruct (cc <? p_d params) eqn:E; [apply orb_true_r|].
    apply Z.ltb_ge in E. destruct Is_even_K; [|reflexivity].
    specialize (HevenK eq_refl). lia. }
  destruct (negb Append_KV || (rotary_dim params =? 0)).
  - unfold copy_elt. rewrite Hrv, orb_true_r, Hcol.
    destruct (cc <? p_d params); reflexivity.
  - replace (0 <=? r) with true by (symmetry; apply Z.leb_le; lia).
    rewrite Hrv, Hcol. cbn [andb].
    destruct (cc <? p_d params); reflexivity.
Qed.

Lemma tile_view_row (kt : Kernel_traits) (mem : gmem) (ptr : Z -> Z)
    (row_stride n j cc : Z) :
  0 < kBlockN kt -> 0 <= j < kBlockN kt ->
  mem (ptr n + j * row_stride + cc)
  = tile_view kt mem ptr row_stride (n * kBlockN kt + j) cc.
Proof.
  intros HBc Hj. unfold tile_view.
  assert (E1 : (n * kBlockN kt + j) / kBlockN kt = n).
  { rewrite Z.div_add_l by lia. rewrite Z.div_small by lia. lia. }
  assert (E2 : (n * kBlockN kt + j) mod kBlockN kt = j).
  { rewrite Z.add_comm, Z.mod_add by lia. apply Z.mod_small. lia. }
  rewrite E1, E2. reflexivity.
Qed.

Lemma per_split_nonneg (kt : Kernel_traits) (params : Params)
    (num_n_splits : Z) :
  0 < kBlockN kt -> 0 <= p_seqlen_k params -> 1 <= num_n_splits ->
  0 <= n_blocks_per_split kt params num_n_splits.
Proof.
  intros HBc Hsk Hn. unfold n_blocks_per_split.
  assert (0 <= cdiv (p_seqlen_k params + kBlockN kt - 1) (kBlockN kt)).
  { rewrite cdiv_nonneg by lia. apply Z.div_pos; lia. }
  rewrite cdiv_nonneg by lia. apply Z.div_pos; lia.
Qed.

(** The stores of a block in terms of what it reads: attention over the
    keys of its tiles, the key rows and value rows being those of the
    tiles in memory after the append phase. *)
Lemma split_block_stores_view
    (Is_causal Is_local Has_alibi Is_even_MN Is_even_K Split Append_KV : bool)
    (kt : Kernel_traits) (params : Params) (binfo : BlockInfo)
    (smem_ : Z -> Z -> fp)
    (bidb bidh m_block n_split_idx num_n_splits r c : Z) :
  supported Is_causal Is_even_MN Is_even_K kt params binfo ->
  0 <= r < kBlockM kt -> 0 <= c < p_d params ->
  m_block * kBlockM kt + r < actual_seqlen_q binfo ->
  0 <= n_split_idx -> 0 <= p_seqlen_k params -> 1 <= num_n_splits ->
  let n_min := split_n_block_min Is_local kt params binfo m_block
                 n_split_idx num_n_splits in
  let n_max := split_n_block_max Is_causal Is_local kt params binfo m_block
                 n_split_idx num_n_splits in
  let mem := split_memory Is_even_K Append_KV kt params binfo bidb bidh
               n_min n_max in
  compute_attn_1rowblock_splitkv Is_causal Is_local Has_alibi Is_even_MN
    Is_even_K Split Append_KV kt params binfo smem_ bidb bidh m_block
    n_split_idx num_n_splits r c
  = if n_max <=? n_min then
      rev (split_result_stores Split kt params binfo bidb bidh m_block
             n_split_idx r c (if Split then NInf else PInf) (Fin 0%R))
    else
      let R :=
        ref_partial Is_causal Is_local Has_alibi (actual_seqlen_q binfo)
          (actual_seqlen_k binfo) (window_size_left params)
          (window_size_right params) (scale_softmax params)
          (head_slope Has_alibi params bidb bidh) (p_d params)
          (m_block * kBlockM kt + r)
          (split_Q Is_causal Is_local Is_even_MN Is_even_K Append_KV kt
             params binfo smem_ bidb bidh m_block r)
          (tile_view kt (fst mem)
             (fun n => split_row_offset_k kt params binfo bidb bidh (n + 1))
             (k_row_stride params))
          (tile_view kt (snd mem)
             (fun n => split_row_offset_v kt params binfo bidb bidh (n + 1))
             (v_row_stride params))
          Split (n_min * kBlockN kt) (n_max * kBlockN kt) c in
      (if Append_KV
       then append_kv Is_even_K kt params binfo bidb bidh n_min n_max
       else [])
      ++ split_result_stores Split kt params binfo bidb bidh m_block
           n_split_idx r c (fst R) (snd R).
Proof.
  intros Hsup Hr Hc Hrow Hidx Hsk Hn n_min n_max mem.
  pose proof (sup_Bc _ _ _ _ _ _ Hsup) as HBc.
  apply (split_block_stores Is_causal Is_local Has_alibi Is_even_MN
           Is_even_K Split Append_KV kt params binfo smem_ bidb bidh
           m_block n_split_idx num_n_splits r c
           (split_Q Is_causal Is_local Is_even_MN Is_even_K Append_KV kt
              params binfo smem_ bidb bidh m_block r)
           (tile_view kt (fst mem)
              (fun n => split_row_offset_k kt params binfo bidb bidh (n + 1))
              (k_row_stride params))
           (tile_view kt (snd mem)
              (fun n => split_row_offset_v kt params binfo bidb bidh (n + 1))
              (v_row_stride params))
           Hsup Hc Hr Hrow Hidx
           (per_split_nonneg kt params num_n_splits HBc Hsk Hn)).
  - intros cc Hcc. apply split_load_q_view;
      [exact (sup_even_K _ _ _ _ _ _ Hsup)|lia|exact Hrow|exact Hcc].
  - intros n j cc _ Hj _ _.
    apply (tile_view_row kt (fst mem)
             (fun n => split_row_offset_k kt params binfo bidb bidh
                         (n + 1))); assumption.
  - intros n j _ Hj _.
    apply (tile_view_row kt (snd mem)
             (fun n => split_row_offset_v kt params binfo bidb bidh
                         (n + 1))); assumption.
Qed.

(** C1: with dropout off, for every mask mode (none, causal, local), with
    or without ALiBi slopes, and for every supported head dimension and
    sequence lengths, the dense kernel [compute_attn_1rowblock] stores to
    the element of O in row [r] and column [c] of its query tile the
    value of the reference [softmax(Q K^T * scale + mask + alibi) V],
    exactly.  The row lies within the queries and has a key that is not
    masked, so that the reference softmax is defined. *)
Theorem dense_output_is_reference
    (Is_causal Is_local Has_alibi Is_even_MN Is_even_K : bool)
    (kt : Kernel_traits) (params : Params) (binfo : BlockInfo)
    (keep : Z -> Z -> bool) (smem_ : Z -> Z -> fp) (blockIdx : Z * Z * Z)
    (tidx bidb bidh m_block r c : Z) :
  supported Is_causal Is_even_MN Is_even_K kt params binfo ->
  0 <= r < kBlockM kt -> 0 <= c < p_d params ->
  m_block * kBlockM kt + r < actual_seqlen_q binfo ->
  has_unmasked_key Is_causal Is_local (actual_seqlen_q binfo)
    (actual_seqlen_k binfo) (window_size_left params)
    (window_size_right params) (m_block * kBlockM kt + r) ->
  exists lse,
    compute_attn_1rowblock false Is_causal Is_local Has_alibi Is_even_MN
      Is_even_K kt params binfo keep smem_ blockIdx tidx bidb bidh
      m_block r c
    = [StoreLSE (dense_LSE_index kt params bidb bidh m_block r) lse;
       StoreO (dense_O_index kt params binfo bidb bidh m_block r c)
         (Fin (ref_output Is_causal Is_local Has_alibi
                 (actual_seqlen_q binfo) (actual_seqlen_k binfo)
                 (window_size_left params) (window_size_right params)
                 (scale_softmax params)
                 (head_slope Has_alibi params bidb bidh) (p_d params)
                 (m_block * kBlockM kt + r)
                 (dense_Q kt params binfo bidb bidh m_block r)
                 (dense_K params binfo bidb bidh)
                 (dense_V params binfo bidb bidh) c))].
Proof.
  intros [H1 H2 H3 H4 H5 H6 H7 H8 H9 H10] Hr Hc Hrow Hkey.
  eexists.
  apply (dense_row_stores Is_causal Is_local Has_alibi Is_even_MN Is_even_K
           kt params binfo keep smem_ blockIdx tidx bidb bidh m_block r c
           H1 H2 H3 H4 Hc Hr Hrow H5 H6 H7 H8 H9 H10 Hkey).
Qed.

Lemma one_key_supported :
  supported false false false one_key_traits two_split_params one_key_binfo.
Proof.
  constructor; cbn; try lia; try discriminate; try reflexivity; lra.
Qed.

Lemma one_key_unmasked : has_unmasked_key false false 1 1 0 0 0.
Proof. exists 0. split; [lia|reflexivity]. Qed.

Lemma dense_output_is_reference_witness :
  exists lse,
    compute_attn_1rowblock false false false false false false
      one_key_traits two_split_params one_key_binfo (fun _ _ => true)
      (fun _ _ => Fin 0%R) (0, 0, 0) 0 0 0 0 0 0
    = [StoreLSE 0 lse;
       StoreO 0
         (Fin (ref_output false false false 1 1 0 0 1 0 1 0
                 (dense_Q one_key_traits two_split_params one_key_binfo
                          0 0 0 0)
                 (dense_K two_split_params one_key_binfo 0 0)
                 (dense_V two_split_params one_key_binfo 0 0) 0))].
Proof.
  apply (dense_output_is_reference false false false false false
           one_key_traits two_split_params one_key_binfo (fun _ _ => true)
           (fun _ _ => Fin 0%R) (0, 0, 0) 0 0 0 0 0 0).
  - exact one_key_supported.
  - cbn. lia.
  - cbn. lia.
  - cbn. lia.
  - exact one_key_unmasked.
Defined.

(** C3: for every row [i < actual_seqlen_q] that has a key which is not
    masked, the LSE that the dense kernel stores is
    [log sum_j exp(scale * (Q K^T)_ij + mask + alibi)]; finalize computes
    it from the online-softmax state as [m * scale + log l]. *)
Theorem dense_lse_is_reference
    (Is_causal Is_local Has_alibi Is_even_MN Is_even_K : bool)
    (kt : Kernel_traits) (params : Params) (binfo : BlockInfo)
    (keep : Z -> Z -> bool) (smem_ : Z -> Z -> fp) (blockIdx : Z * Z * Z)
    (tidx bidb bidh m_block r c : Z) :
  supported Is_causal Is_even_MN Is_even_K kt params binfo ->
  0 <= r < kBlockM kt -> 0 <= c < p_d params ->
  m_block * kBlockM kt + r < actual_seqlen_q binfo ->
  has_unmasked_key Is_causal Is_local (actual_seqlen_q binfo)
    (actual_seqlen_k binfo) (window_size_left params)
    (window_size_right params) (m_block * kBlockM kt + r) ->
  exists o,
    compute_attn_1rowblock false Is_causal Is_local Has_alibi Is_even_MN
      Is_even_K kt params binfo keep smem_ blockIdx tidx bidb bidh
      m_block r c
    = [StoreLSE (dense_LSE_index kt params bidb bidh m_block r)
         (Fin (ref_lse Is_causal Is_local Has_alibi
                 (actual_seqlen_q binfo) (actual_seqlen_k binfo)
                 (window_size_left params) (window_size_right params)
                 (scale_softmax params)
                 (head_slope Has_alibi params bidb bidh) (p_d params)
                 (m_block * kBlockM kt + r)
                 (dense_Q kt params binfo bidb bidh m_block r)
                 (dense_K params binfo bidb bidh)));
       StoreO (dense_O_index kt params binfo bidb bidh m_block r c) o].
Proof.
  intros [H1 H2 H3 H4 H5 H6 H7 H8 H9 H10] Hr Hc Hrow Hkey.
  eexists.
  apply (dense_row_stores Is_causal Is_local Has_alibi Is_even_MN Is_even_K
           kt params binfo keep smem_ blockIdx tidx bidb bidh m_block r c
           H1 H2 H3 H4 Hc Hr Hrow H5 H6 H7 H8 H9 H10 Hkey).
Qed.

Lemma dense_lse_is_reference_witness :
  exists o,
    compute_attn_1rowblock false false false false false false
      one_key_traits two_split_params one_key_binfo (fun _ _ => true)
      (fun _ _ => Fin 0%R) (0, 0, 0) 0 0 0 0 0 0
    = [StoreLSE 0
         (Fin (ref_lse false false false 1 1 0 0 1 0 1 0
                 (dense_Q one_key_traits two_split_params one_key_binfo
                          0 0 0 0)
                 (dense_K two_split_params one_key_binfo 0 0)));
       StoreO 0 o].
Proof.
  apply (dense_lse_is_reference false false false false false
           one_key_traits two_split_params one_key_binfo (fun _ _ => true)
           (fun _ _ => Fin 0%R) (0, 0, 0) 0 0 0 0 0 0).
  - exact one_key_supported.
  - cbn. lia.
  - cbn. lia.
  - cbn. lia.
  - exact one_key_unmasked.
Defined.


Lemma masked_row_supported :
  supported true false false one_key_traits masked_row_params
    masked_row_binfo.
Proof.
  constructor; cbn; try lia; try discriminate; try reflexivity; lra.
Qed.

(** ** Paged K/V cache *)

(** The rows of a tile lie in one page when the tile size divides the
    page size. *)
Lemma tile_in_page (Bc page n j : Z) :
  0 < Bc -> 0 < page -> (Bc | page) -> 0 <= n -> 0 <= j < Bc ->
  (n * Bc + j) / page = (n * Bc) / page
  /\ (n * Bc + j) mod page = (n * Bc) mod page + j.
Proof.
  intros HBc Hpage [k Hk] Hn Hj.
  pose proof (Z.div_mod (n * Bc) page ltac:(lia)) as Hdm.
  pose proof (Z.mod_pos_bound (n * Bc) page Hpage) as Hrem.
  set (q := n * Bc / page) in *. set (rem := (n * Bc) mod page) in *.
  assert (Hmul : rem = (n - k * q) * Bc) by (rewrite Hk in Hdm; lia).
  assert (Hlt : n - k * q < k) by (rewrite Hk in Hrem; nia).
  assert (Hfit : rem + j < page) by (rewrite Hk; nia).
  split.
  - symmetry. apply (Z.div_unique _ _ q (rem + j)); lia.
  - symmetry. apply (Z.mod_unique _ _ q (rem + j)); lia.
Qed.

(** The pointer of a tile in closed form, and the position of its rows
    when the tiles do not straddle pages. *)
Lemma paged_tile_rows (kt : Kernel_traits) (params : Params)
    (binfo : BlockInfo) (bt : Z -> Z)
    (batch_stride row_stride head_stride bidb bidh n j : Z) :
  block_table_of params bidb = Some bt ->
  0 < kBlockN kt -> 0 < page_block_size params ->
  0 <= n -> 0 <= j < kBlockN kt ->
  j = 0 \/ (kBlockN kt | page_block_size params) ->
  split_row_offset kt params binfo batch_stride row_stride head_stride
    bidb bidh (n + 1) + j * row_stride
  = paged_row params bt batch_stride row_stride head_stride bidh
      (n * kBlockN kt + j).
Proof.
  intros Hbt HBc Hpage Hn Hj Hdiv.
  unfold split_row_offset, paged_row, kv_head. rewrite Hbt. cbv zeta.
  replace (n + 1 - 1) with n by lia.
  rewrite cdiv_nonneg by nia.
  assert (E : (n * kBlockN kt + j) / page_block_size params
              = (n * kBlockN kt) / page_block_size params
              /\ (n * kBlockN kt + j) mod page_block_size params
                 = (n * kBlockN kt) mod page_block_size params + j).
  { destruct Hdiv as [->|Hdiv].
    - rewrite Z.add_0_r. lia.
    - apply tile_in_page; assumption. }
  destruct E as [E1 E2]. rewrite E1, E2.
  rewrite (Z.mod_eq (n * kBlockN kt)) by lia. ring.
Qed.

(** Paged and unpaged reads of two key rows that straddle a page
    boundary: the block table swaps two pages of one row each, the tile
    of two rows is read from the first of them and from the row that
    follows it in memory. *)
Lemma paged_straddle_counterexample :
  supported false false false straddle_traits straddle_paged straddle_binfo
  /\ block_table_of straddle_paged 0 = Some swapped_pages
  /\ (forall col cc, 0 <= col < 2 -> 0 <= cc < 1 ->
        cache_K straddle_unpaged straddle_binfo 0 0 col cc
        = paged_K straddle_paged swapped_pages 0 col cc)
  /\ (forall col cc, 0 <= col < 2 -> 0 <= cc < 1 ->
        cache_V straddle_unpaged straddle_binfo 0 0 col cc
        = paged_V straddle_paged swapped_pages 0 col cc)
  /\ compute_attn_1rowblock_splitkv false false false false false true
       false straddle_traits straddle_paged straddle_binfo
       (fun _ _ => Fin 0%R) 0 0 0 0 1 0 0
     <> compute_attn_1rowblock_splitkv false false false false false true
          false straddle_traits straddle_unpaged straddle_binfo
          (fun _ _ => Fin 0%R) 0 0 0 0 1 0 0.
Proof.
  assert (sup1 : supported false false false straddle_traits straddle_paged
                   straddle_binfo)
    by (constructor; cbn; try lia; try discriminate; try reflexivity; lra).
  assert (sup2 : supported false false false straddle_traits
                   straddle_unpaged straddle_binfo)
    by (constructor; cbn; try lia; try discriminate; try reflexivity; lra).
  split; [exact sup1|]. split; [reflexivity|].
  split; [|split].
  - intros col cc Hcol Hcc. reflexivity.
  - intros col cc Hcol Hcc.
    assert (Hc0 : cc = 0) by lia. subst cc.
    assert (Hcases : col = 0 \/ col = 1) by lia.
    destruct Hcases as [->| ->]; reflexivity.
  - rewrite (split_block_stores_view false false false false false true
               false straddle_traits straddle_paged straddle_binfo
               (fun _ _ => Fin 0%R) 0 0 0 0 1 0 0 sup1)
      by (cbn; lia).
    rewrite (split_block_stores_view false false false false false true
               false straddle_traits straddle_unpaged straddle_binfo
               (fun _ _ => Fin 0%R) 0 0 0 0 1 0 0 sup2)
      by (cbn; lia).
    intros H.
    cbv -[Rplus Rmult Rminus Ropp Rdiv Rinv exp ln IZR Req_dec_T Rlt_dec
          Rmax Rlt] in H.
    injection H as H.
    pose proof (exp_pos (1 * (0 * 0 + 0) + 0)) as Hw.
    set (w := exp (1 * (0 * 0 + 0) + 0)) in *.
    assert (E1 : ((w * 0 + (w * 0 + 0)) / (w + (w + 0)) = 0)%R)
      by (unfold Rdiv; ring).
    assert (E2 : ((w * 0 + (w * 1 + 0)) / (w + (w + 0)) = / 2)%R)
      by (field; lra).
    rewrite E1, E2 in H. lra.
Qed.

(** ** The split kernel and the reduction against the dense kernel *)

(** The element of O that the reduction kernel writes for a global row
    index is the element of the row in its batch and head. *)
Lemma combine_o_offset_row (params : Params) (bidb bidh rowq c : Z) :
  0 <= bidb -> 0 <= bidh < p_h params -> 0 <= rowq < p_seqlen_q params ->
  combine_o_offset params
    ((bidb * p_h params + bidh) * p_seqlen_q params + rowq) c
  = bidb * o_batch_stride params + bidh * o_head_stride params
    + rowq * o_row_stride params + c.
Proof.
  intros Hb Hh Hrow. unfold combine_o_offset. cbv zeta.
  set (h := p_h params) in *. set (sq := p_seqlen_q params) in *.
  assert (Hhsq : 0 < h * sq) by nia.
  assert (Hbh : 0 <= bidb * h) by nia.
  assert (Hbhs : 0 <= (bidb * h + bidh) * sq) by nia.
  assert (Hrem : bidh * sq + rowq < h * sq) by nia.
  assert (Hrem0 : 0 <= bidh * sq) by nia.
  assert (E1 : cdiv ((bidb * h + bidh) * sq + rowq) (h * sq) = bidb).
  { rewrite cdiv_nonneg by lia. symmetry.
    apply (Z.div_unique _ _ bidb (bidh * sq + rowq)); [left; lia|ring]. }
  rewrite E1.
  assert (E2 : cdiv ((bidb * h + bidh) * sq + rowq - bidb * (h * sq)) sq
               = bidh).
  { replace ((bidb * h + bidh) * sq + rowq - bidb * (h * sq))
      with (bidh * sq + rowq) by ring.
    rewrite cdiv_nonneg by lia. symmetry.
    apply (Z.div_unique _ _ bidh rowq); [left; lia|ring]. }
  rewrite E2. ring.
Qed.

Section SplitCombine.

Variables Is_causal Is_local Has_alibi Is_even_MN Is_even_K : bool.
Variable kt : Kernel_traits.
Variables combine_kBlockM Log_max_splits : Z.
Variable params : Params.
Variable binfo : BlockInfo.
Variable keep : Z -> Z -> bool.
Variable smem_ : Z -> Z -> fp.
Variable blockIdx : Z * Z * Z.
Variables tidx bidb bidh m_block r c bidx col : Z.
Variable reg : fp.
(** The buffers of the partial results. *)
Variables softmax_lseaccum_ptr oaccum_ptr : Z -> fp.

Let Br := kBlockM kt.
Let Bc := kBlockN kt.
Let sq := actual_seqlen_q binfo.
Let sk := actual_seqlen_k binfo.
Let wl := window_size_left params.
Let wr := window_size_right params.
Let dd := p_d params.
Let row := m_block * Br + r.
Let scale := scale_softmax params.
Let slope := head_slope Has_alibi params bidb bidh.
Let Q := dense_Q kt params binfo bidb bidh m_block r.
Let K := dense_K params binfo bidb bidh.
Let V := dense_V params binfo bidb bidh.
Let n_min := n_block_min Is_local kt params binfo m_block.
Let n_max := n_block_max Is_causal Is_local kt params binfo m_block.
Let per := n_blocks_per_split kt params (num_splits params).
Let refw := ref_weight Is_causal Is_local Has_alibi sq sk wl wr scale slope
              dd row Q K.
(** The block of the split [s] for the query tile. *)
Let split_stores (s : Z) : list store :=
  compute_attn_1rowblock_splitkv Is_causal Is_local Has_alibi Is_even_MN
    Is_even_K true false kt params binfo smem_ bidb bidh m_block s
    (num_splits params) r c.
Let lo (s : Z) : Z := Z.max (s * per) n_min * Bc.
Let hi (s : Z) : Z := Z.min n_max ((s + 1) * per) * Bc.
Let W (s : Z) : R := zsum (lo s) (Z.to_nat (hi s - lo s)) refw.
Let WV (s : Z) : R :=
  zsum (lo s) (Z.to_nat (hi s - lo s)) (fun j => refw j * V j c)%R.

Hypothesis Hsup : supported Is_causal Is_even_MN Is_even_K kt params binfo.
Hypothesis Hr : 0 <= r < Br.
Hypothesis Hc : 0 <= c < dd.
Hypothesis Hrow : row < sq.
(** The dense kernel has its early exit, or the sequence has keys. *)
Hypothesis Hguard :
  Is_causal || Is_local || negb Is_even_MN = true \/ 0 < sk.
(** A launch on a batch of sequences of one length, without a block
    table and without a batch index of the cache. *)
Hypothesis Hm : 0 <= m_block.
Hypothesis Hb : 0 <= bidb < p_b params.
Hypothesis Hh : 0 <= bidh < p_h params.
Hypothesis Hrowq : row < p_seqlen_q params.
Hypothesis Hqoff :
  q_offset binfo (o_batch_stride params) (o_row_stride params) bidb
  = bidb * o_batch_stride params.
Hypothesis Hbt : block_table params = None.
Hypothesis Hcache : cache_batch_idx params = None.
Hypothesis Hpsk : 0 <= p_seqlen_k params.
Hypothesis Hdr : p_d_rounded params = kHeadDim kt.
(** The splits: at most [kMaxSplits], and their ranges reach the end of
    the tile range. *)
Hypothesis Hsplits : 1 <= num_splits params <= kMaxSplits Log_max_splits.
Hypothesis Hcover : n_max <= num_splits params * per.
(** The thread of the reduction kernel that holds the row. *)
Hypothesis HkBlockM :
  combine_kBlockM = 4 \/ combine_kBlockM = 8 \/ combine_kBlockM = 16
  \/ combine_kBlockM = 32.
Hypothesis HLog : 0 <= Log_max_splits <= 7.
Hypothesis Hcol : 0 <= col < combine_kBlockM.
Hypothesis Hthread :
  bidx * combine_kBlockM + col
  = dense_LSE_index kt params bidb bidh m_block r.
(** The buffers hold what the blocks of the splits have stored. *)
Hypothesis Hlsebuf : forall s a v,
  0 <= s < num_splits params ->
  In (StoreLSEaccum a v)
     (compute_attn_1rowblock_splitkv Is_causal Is_local Has_alibi Is_even_MN
        Is_even_K true false kt params binfo smem_ bidb bidh m_block s
        (num_splits params) r c) ->
  softmax_lseaccum_ptr a = v.
Hypothesis Hobuf : forall s a v,
  0 <= s < num_splits params ->
  In (StoreOaccum a v)
     (compute_attn_1rowblock_splitkv Is_causal Is_local Has_alibi Is_even_MN
        Is_even_K true false kt params binfo smem_ bidb bidh m_block s
        (num_splits params) r c) ->
  oaccum_ptr a = v.

Lemma per_nonneg : 0 <= per.
Proof.
  apply per_split_nonneg;
    [exact (sup_Bc _ _ _ _ _ _ Hsup)|exact Hpsk|lia].
Qed.

(** What the block of a split stores for the row. *)
Lemma split_partials (s : Z) :
  0 <= s < num_splits params ->
  In (StoreLSEaccum (split_LSEaccum_index kt params bidb bidh m_block s r)
        (if Req_dec_T (W s) 0 then NInf else Fin (ln (W s))))
     (split_stores s)
  /\ In (StoreOaccum (split_Oaccum_index kt params bidb bidh m_block s r c)
           (Fin (WV s / W s)%R))
        (split_stores s).
Proof.
  intros Hs. pose proof per_nonneg as Hper.
  pose proof (sup_Bc _ _ _ _ _ _ Hsup) as HBc.
  assert (Hsp : 0 <= s * per) by nia.
  destruct (split_range_max_min Is_causal Is_local kt params binfo m_block
              s (num_splits params) Hsp) as [Emin Emax].
  fold per n_min n_max in Emin, Emax.
  unfold split_stores.
  rewrite (split_block_stores Is_causal Is_local Has_alibi Is_even_MN
             Is_even_K true false kt params binfo smem_ bidb bidh m_block
             s (num_splits params) r c Q K V Hsup Hc Hr Hrow
             (proj1 Hs) Hper).
  - rewrite Emin, Emax.
    destruct (Z.min n_max ((s + 1) * per) <=? Z.max (s * per) n_min)
      eqn:Eexit.
    + apply Z.leb_le in Eexit.
      assert (EW : W s = 0%R).
      { unfold W, lo, hi. fold Bc in HBc.
        replace (Z.to_nat (Z.min n_max ((s + 1) * per) * Bc
                           - Z.max (s * per) n_min * Bc)) with 0%nat by nia.
        reflexivity. }
      assert (EWV : WV s = 0%R).
      { unfold WV, lo, hi. fold Bc in HBc.
        replace (Z.to_nat (Z.min n_max ((s + 1) * per) * Bc
                           - Z.max (s * per) n_min * Bc)) with 0%nat by nia.
        reflexivity. }
      rewrite EW, EWV.
      destruct (Req_dec_T 0 0) as [_|Hne]; [|contradiction].
      replace (0 / 0)%R with 0%R by (unfold Rdiv; ring).
      cbn. split; [right; left; reflexivity|left; reflexivity].
    + cbv zeta.
      destruct (ref_partial_sums Is_causal Is_local Has_alibi sq sk wl wr
                  scale slope dd row Q K V c true
                  (Z.max (s * per) n_min * Bc)
                  (Z.min n_max ((s + 1) * per) * Bc)) as [_ [_ ER]].
      match goal with
      | |- context [fst ?p] => set (P := p)
      end.
      assert (EP : P = (if Req_dec_T (W s) 0 then NInf else Fin (ln (W s)),
                        Fin (WV s / W s)%R)) by exact ER.
      rewrite EP. cbn [fst snd app split_result_stores].
      split; [left; reflexivity|right; left; reflexivity].
  - intros cc Hcc. unfold split_load_q. cbn [negb orb].
    apply (dense_sQ Is_causal Is_local Is_even_MN Is_even_K kt params binfo
             smem_ bidb bidh m_block r (sup_even_K _ _ _ _ _ _ Hsup)
             Hrow cc Hcc).
  - intros n j cc _ _ _ _. cbn [split_memory apply_stores fold_left fst].
    unfold K, dense_K, split_row_offset_k, split_row_offset, block_table_of,
      bidb_cache, kv_head.
    rewrite Hbt, Hcache. f_equal. ring.
  - intros n j _ _ _. cbn [split_memory apply_stores fold_left snd].
    unfold V, dense_V, split_row_offset_v, split_row_offset, block_table_of,
      bidb_cache, kv_head.
    rewrite Hbt, Hcache. f_equal. ring.
Qed.

(** The partial sums of the splits add up to the sums over the tile
    range of the dense kernel. *)
Lemma split_sums_total (f : Z -> R) :
  zsum 0 (Z.to_nat (num_splits params))
    (fun s => zsum (lo s) (Z.to_nat (hi s - lo s)) f)
  = zsum (n_min * Bc) (Z.to_nat (n_max * Bc - n_min * Bc)) f.
Proof.
  unfold lo, hi.
  apply split_sums_telescope.
  - exact (sup_Bc _ _ _ _ _ _ Hsup).
  - exact per_nonneg.
  - apply (n_min_nonneg Is_causal Is_local Is_even_MN kt params binfo
             m_block r).
  - rewrite Z2Nat.id by lia. exact Hcover.
Qed.

(** Where the reduction kernel finds the partial results of a split. *)
Lemma lseaccum_address (s : Z) :
  bidx * combine_kBlockM + s * combine_total_rows params + col
  = split_LSEaccum_index kt params bidb bidh m_block s r.
Proof.
  replace (bidx * combine_kBlockM + s * combine_total_rows params + col)
    with (s * combine_total_rows params + (bidx * combine_kBlockM + col))
    by ring.
  rewrite Hthread.
  unfold dense_LSE_index, split_LSEaccum_index, combine_total_rows. ring.
Qed.

Lemma oaccum_address (s : Z) :
  bidx * combine_kBlockM * p_d_rounded params
  + s * (combine_total_rows params * p_d_rounded params)
  + col * kHeadDim kt + c
  = split_Oaccum_index kt params bidb bidh m_block s r c.
Proof.
  rewrite <- Hdr.
  replace (bidx * combine_kBlockM * p_d_rounded params
           + s * (combine_total_rows params * p_d_rounded params)
           + col * p_d_rounded params + c)
    with ((bidx * combine_kBlockM + col) * p_d_rounded params
          + s * (combine_total_rows params * p_d_rounded params) + c)
    by ring.
  rewrite Hthread.
  unfold dense_LSE_index, split_Oaccum_index, combine_total_rows.
  rewrite <- Hdr. ring.
Qed.

Lemma combine_row_in_range :
  bidx * combine_kBlockM + col < combine_total_rows params.
Proof.
  rewrite Hthread. unfold dense_LSE_index, combine_total_rows.
  fold Br. pose proof (proj1 Hr) as Hr0. unfold row in Hrowq.
  assert (H1 : bidb * p_h params + bidh + 1 <= p_b params * p_h params)
    by nia.
  assert (H2 : 0 < p_seqlen_q params) by nia.
  assert (H3 : (bidb * p_h params + bidh + 1) * p_seqlen_q params
               <= p_b params * p_h params * p_seqlen_q params) by nia.
  nia.
Qed.

Lemma combine_o_address :
  combine_o_offset params (bidx * combine_kBlockM + col) c
  = dense_O_index kt params binfo bidb bidh m_block r c.
Proof.
  rewrite Hthread. unfold dense_LSE_index.
  replace ((bidb * p_h params + bidh) * p_seqlen_q params
           + m_block * kBlockM kt + r)
    with ((bidb * p_h params + bidh) * p_seqlen_q params
          + (m_block * kBlockM kt + r)) by ring.
  rewrite combine_o_offset_row.
  - unfold dense_O_index. rewrite Hqoff. ring.
  - lia.
  - exact Hh.
  - pose proof (proj1 Hr) as Hr0. pose proof Hrowq as Hq.
    pose proof (sup_Br _ _ _ _ _ _ Hsup) as HBr.
    unfold row, Br in *. nia.
Qed.

(** C2, amended: for a number of splits whose ranges cover the tile
    range of the dense kernel, the blocks of the split kernel for all the
    splits followed by the reduction kernel on their Oaccum and LSEaccum
    store for a row the same LSE and the same element of O as the dense
    kernel on the same inputs, exactly, when the rows of O are laid out
    batch by batch ([q_offset] of O is [bidb * o_batch_stride]) and not
    packed.  The inputs are those that both kernels accept: no block
    table and no batch index of the cache, sequences of one length,
    [d_rounded = kHeadDim], slopes that are there when [Has_alibi] (the
    split kernel reads them without testing the pointer), and a launch
    that is causal, local, not [Is_even_MN] or has keys: what the dense
    kernel does without its early exit on a sequence without keys is
    left out here. *)
Theorem split_combine_matches_dense :
  (Has_alibi = true -> alibi_slopes_ptr params <> None) ->
  forall st,
    In st (combine_attn_seqk_parallel kt combine_kBlockM Log_max_splits
             Is_even_K params softmax_lseaccum_ptr oaccum_ptr bidx col c
             reg)
    <-> In st (compute_attn_1rowblock false Is_causal Is_local Has_alibi
                 Is_even_MN Is_even_K kt params binfo keep smem_ blockIdx
                 tidx bidb bidh m_block r c).
Proof.
  intros _.
  assert (Hsums : forall s,
            (0 <= W s)%R /\ (W s = 0%R -> WV s = 0%R)).
  { intros s.
    destruct (ref_partial_sums Is_causal Is_local Has_alibi sq sk wl wr
                scale slope dd row Q K V c true (lo s) (hi s))
      as [H1 [H2 _]].
    split; [exact H1|exact H2]. }
  pose proof (combine_of_sums kt combine_kBlockM Log_max_splits Is_even_K
                params softmax_lseaccum_ptr oaccum_ptr bidx col c reg
                (fun s => if Req_dec_T (W s) 0 then None
                          else Some (ln (W s)))
                (fun s => (WV s / W s)%R)
                HkBlockM HLog ltac:(lia) Hcol combine_row_in_range
                (or_intror (proj2 Hc))) as Hcomb.
  cbv beta in Hcomb.
  specialize (Hcomb
    ltac:(intros s Hs; rewrite lseaccum_address;
          rewrite (Hlsebuf s _ _ Hs (proj1 (split_partials s Hs)));
          destruct (Req_dec_T (W s) 0); reflexivity)
    ltac:(intros s Hs; rewrite oaccum_address;
          exact (Hobuf s _ _ Hs (proj2 (split_partials s Hs))))
    W WV
    ltac:(intros s _; exact (proj1 (Hsums s)))
    ltac:(intros s _; exact (proj2 (Hsums s)))
    ltac:(intros s _; reflexivity)
    ltac:(intros s _; reflexivity)).
  cbv zeta in Hcomb.
  assert (EW : zsum 0 (Z.to_nat (num_splits params)) W
               = zsum (n_min * Bc) (Z.to_nat (n_max * Bc - n_min * Bc)) refw)
    by (apply split_sums_total).
  assert (EWV : zsum 0 (Z.to_nat (num_splits params)) WV
                = zsum (n_min * Bc) (Z.to_nat (n_max * Bc - n_min * Bc))
                    (fun j => refw j * V j c)%R)
    by (apply split_sums_total).
  rewrite EW, EWV, combine_o_address, Hthread in Hcomb.
  destruct (ref_partial_sums Is_causal Is_local Has_alibi sq sk wl wr
              scale slope dd row Q K V c false (n_min * Bc) (n_max * Bc))
    as [_ [_ ER]].
  fold refw in ER.
  destruct Hsup as [H1 H2 H3 H4 H5 H6 H7 H8 H9 H10].
  pose proof (dense_stores_partial Is_causal Is_local Has_alibi Is_even_MN
                Is_even_K kt params binfo keep smem_ blockIdx tidx bidb
                bidh m_block r c H1 H2 H3 H4 Hc Hr Hrow H5 H6 H7 H8 H9 H10
                Hguard) as Hdense.
  cbv zeta in Hdense.
  match type of Hdense with
  | context [fst ?p] => set (P := p) in Hdense
  end.
  assert (EP : P = (if Req_dec_T
                         (zsum (n_min * Bc)
                            (Z.to_nat (n_max * Bc - n_min * Bc)) refw) 0
                    then PInf
                    else Fin (ln (zsum (n_min * Bc)
                                    (Z.to_nat (n_max * Bc - n_min * Bc))
                                    refw)),
                    Fin (zsum (n_min * Bc)
                           (Z.to_nat (n_max * Bc - n_min * Bc))
                           (fun j => refw j * V j c)
                         / zsum (n_min * Bc)
                             (Z.to_nat (n_max * Bc - n_min * Bc)) refw)%R))
    by exact ER.
  rewrite EP in Hdense. cbn [fst snd] in Hdense.
  intros st. rewrite Hcomb.
  destruct Hdense as [E|E]; rewrite E; cbn [In]; tauto.
Qed.

End SplitCombine.

Lemma two_key_supported :
  supported false false false unit_traits two_key_params two_key_binfo.
Proof.
  constructor; cbn; try lia; try discriminate; try reflexivity; lra.
Qed.

Lemma two_key_buffers (s a : Z) (v : fp) :
  0 <= s < 2 ->
  (In (StoreLSEaccum a v) (two_key_block s) ->
   stored_lseaccum two_key_stores a = v)
  /\ (In (StoreOaccum a v) (two_key_block s) ->
      stored_oaccum two_key_stores a = v).
Proof.
  intros Hs. assert (Hcases : s = 0 \/ s = 1) by lia.
  destruct Hcases as [-> | ->]; split; intros Hin;
    cbv -[Rplus Rmult Rminus Ropp Rdiv Rinv exp ln IZR Req_dec_T Rlt_dec
          Rmax Rlt] in Hin;
    destruct Hin as [Hin|[Hin|[]]]; try discriminate;
    injection Hin as <- <-;
    cbv -[Rplus Rmult Rminus Ropp Rdiv Rinv exp ln IZR Req_dec_T Rlt_dec
          Rmax Rlt];
    reflexivity.
Qed.

(** One query and two keys with distinct logits and values, each key in
    a split of its own: what the dense kernel stores for the row, the
    reduction kernel stores too. *)
Lemma split_combine_matches_dense_witness :
  exists lse o,
    compute_attn_1rowblock false false false false false false
      unit_traits two_key_params two_key_binfo
      (fun _ _ => true) (fun _ _ => Fin 0%R) (0, 0, 0) 0 0 0 0 0 0
    = [StoreLSE 0 lse; StoreO 0 o]
    /\ In (StoreLSE 0 lse)
         (combine_attn_seqk_parallel unit_traits 4 1 false two_key_params
            (stored_lseaccum two_key_stores)
            (stored_oaccum two_key_stores) 0 0 0 NaN)
    /\ In (StoreO 0 o)
         (combine_attn_seqk_parallel unit_traits 4 1 false two_key_params
            (stored_lseaccum two_key_stores)
            (stored_oaccum two_key_stores) 0 0 0 NaN).
Proof.
  assert (H : forall st,
            In st (combine_attn_seqk_parallel unit_traits 4 1 false
                     two_key_params (stored_lseaccum two_key_stores)
                     (stored_oaccum two_key_stores) 0 0 0 NaN)
            <-> In st (compute_attn_1rowblock false false false false
                         false false unit_traits two_key_params
                         two_key_binfo (fun _ _ => true)
                         (fun _ _ => Fin 0%R) (0, 0, 0) 0 0 0 0 0 0)).
  { apply (split_combine_matches_dense false false false false false
             unit_traits 4 1 two_key_params two_key_binfo
             (fun _ _ => true) (fun _ _ => Fin 0%R) (0, 0, 0)
             0 0 0 0 0 0 0 0 NaN
             (stored_lseaccum two_key_stores)
             (stored_oaccum two_key_stores)).
    - exact two_key_supported.
    - cbn. lia.
    - cbn. lia.
    - cbn. lia.
    - left. reflexivity.
    - lia.
    - cbn. lia.
    - cbn. lia.
    - cbn. lia.
    - reflexivity.
    - reflexivity.
    - reflexivity.
    - cbn. lia.
    - reflexivity.
    - vm_compute. split; discriminate.
    - vm_compute. discriminate.
    - left. reflexivity.
    - lia.
    - lia.
    - reflexivity.
    - intros s a v Hs. apply (two_key_buffers s a v Hs).
    - intros s a v Hs. apply (two_key_buffers s a v Hs).
    - intros E. discriminate E. }
  eexists. eexists. split.
  - cbv -[Rplus Rmult Rminus Ropp Rdiv Rinv exp ln IZR Req_dec_T Rlt_dec
          Rmax Rlt In combine_attn_seqk_parallel stored_lseaccum
          stored_oaccum two_key_stores].
    reflexivity.
  - split; apply H;
      cbv -[Rplus Rmult Rminus Ropp Rdiv Rinv exp ln IZR Req_dec_T Rlt_dec
            Rmax Rlt];
      [left|right; left]; reflexivity.
Defined.

(** C2, as stated, fails for packed query rows: the dense kernel stores
    the row of the third sequence at the row 3 of O, whose offset
    [BlockInfo] gives (line 526), and the reduction kernel, which has
    the batch stride alone to go by (lines 1376-1383), at the row
    [2 * o_batch_stride = 4]; no batch stride puts the second and the
    third sequence at the rows 2 and 3. *)
Lemma split_combine_packed_counterexample :
  let combine :=
    combine_attn_seqk_parallel unit_traits 4 1 false packed_params
      (stored_lseaccum packed_stores) (stored_oaccum packed_stores)
      1 0 0 NaN in
  let dense :=
    compute_attn_1rowblock false false false false false false unit_traits
      packed_params packed_binfo (fun _ _ => true) (fun _ _ => Fin 0%R)
      (0, 2, 0) 0 2 0 0 0 0 in
  supported false false false unit_traits packed_params packed_binfo
  /\ 1 * 4 + 0 = dense_LSE_index unit_traits packed_params 2 0 0 0
  /\ (exists v, In (StoreO 3 v) dense)
  /\ (forall v, ~ In (StoreO 3 v) combine)
  /\ (exists v, In (StoreO 4 v) combine)
  /\ (forall v, ~ In (StoreO 4 v) dense).
Proof.
  cbv zeta. split; [|split; [|split; [|split; [|split]]]].
  - constructor; cbn; try lia; try discriminate; try reflexivity; lra.
  - reflexivity.
  - eexists.
    cbv -[Rplus Rmult Rminus Ropp Rdiv Rinv exp ln IZR Req_dec_T Rlt_dec
          Rmax Rlt].
    right. left. reflexivity.
  - intros v H.
    cbv -[Rplus Rmult Rminus Ropp Rdiv Rinv exp ln IZR Req_dec_T Rlt_dec
          Rmax Rlt] in H.
    destruct H as [H|[H|[]]]; discriminate H.
  - eexists.
    cbv -[Rplus Rmult Rminus Ropp Rdiv Rinv exp ln IZR Req_dec_T Rlt_dec
          Rmax Rlt].
    right. left. reflexivity.
  - intros v H.
    cbv -[Rplus Rmult Rminus Ropp Rdiv Rinv exp ln IZR Req_dec_T Rlt_dec
          Rmax Rlt] in H.
    destruct H as [H|[H|[]]]; discriminate H.
Qed.

(** ** The append phase of the split kernel *)

Lemma rotary_elt_ext (b : bool) (x x' cos cos' sin sin' : Z -> R)
    (rd cc : Z) :
  (forall y, x y = x' y) -> (forall i, cos i = cos' i) ->
  (forall i, sin i = sin' i) ->
  rotary_elt b x cos sin rd cc = rotary_elt b x' cos' sin' rd cc.
Proof.
  intros Hx Hc Hs. unfold rotary_elt.
  rewrite !Hx, !Hc, !Hs. reflexivity.
Qed.

Lemma flat_map_map {A B C : Type} (g : B -> list C) (h : A -> B)
    (l : list A) :
  flat_map g (map h l) = flat_map (fun x => g (h x)) l.
Proof.
  induction l as [|x l IH]; cbn; [reflexivity|rewrite IH; reflexivity].
Qed.

(** The address of the row [j] of the tile [n] in the cache. *)
Lemma tile_row_address (kt : Kernel_traits) (params : Params)
    (binfo : BlockInfo) (batch_stride row_stride head_stride : Z)
    (bidb bidh n j : Z) :
  0 < kBlockN kt -> 0 <= n -> 0 <= j < kBlockN kt ->
  (block_table_of params bidb <> None ->
   0 < page_block_size params /\ (kBlockN kt | page_block_size params)) ->
  split_row_offset kt params binfo batch_stride row_stride head_stride
    bidb bidh (n + 1) + j * row_stride
  = cache_row params binfo batch_stride row_stride head_stride bidb bidh
      (n * kBlockN kt + j).
Proof.
  intros HBc Hn Hj Hpaged. unfold cache_row.
  destruct (block_table_of params bidb) as [bt|] eqn:Ebt.
  - destruct (Hpaged ltac:(discriminate)) as [Hpage Hdiv].
    apply paged_tile_rows; try assumption. right. exact Hdiv.
  - unfold split_row_offset, kv_head. rewrite Ebt. ring.
Qed.

Section AppendFacts.

Variable Is_even_K : bool.
Variable kt : Kernel_traits.
Variable params : Params.
Variable binfo : BlockInfo.
Variables bidb bidh n_block_min n_block_max : Z.

Let Bc := kBlockN kt.
Let cache := seqlen_k_cache binfo.
Let sk := actual_seqlen_k binfo.
Let copy_min := Z.max n_block_min (cdiv cache Bc).
Let state := append_state_at kt params binfo bidb bidh.
Let iter_stores :=
  append_iter_stores Is_even_K kt params binfo.
Let next :=
  append_next kt params (block_table_of params bidb) copy_min.
Let loop :=
  append_loop Is_even_K kt params binfo (block_table_of params bidb)
    copy_min.

Hypothesis HBc : 0 < Bc.
Hypothesis Hrd : rotary_dim params = 0 \/ (2 | rotary_dim params).

Lemma append_next_state (n : Z) :
  copy_min < n -> next (state n) = state (n - 1).
Proof.
  intros Hn. unfold next, append_next, state, append_state_at.
  cbn [a_n_block a_tKgK a_tVgV a_tKgKnew a_tVgVnew a_tRgCos].
  replace (match block_table_of params bidb with
           | Some _ => copy_min <? n
           | None => true
           end) with true.
  2:{ destruct (block_table_of params bidb); [|reflexivity].
      symmetry. apply Z.ltb_lt. exact Hn. }
  replace (n - 1 + 1) with n by lia.
  f_equal.
  - unfold split_row_offset_k.
    rewrite (split_tile_advance kt params binfo bidb bidh _ _ _ n (n - 1))
      by reflexivity.
    f_equal. lia.
  - unfold split_row_offset_v.
    rewrite (split_tile_advance kt params binfo bidb bidh _ _ _ n (n - 1))
      by reflexivity.
    f_equal. lia.
  - unfold row_offset_new. ring.
  - unfold row_offset_new. ring.
  - destruct Hrd as [E|[k Hk]].
    + rewrite E. cbn. ring.
    + destruct (rotary_dim params =? 0) eqn:E0.
      * apply Z.eqb_eq in E0. rewrite E0. cbn. ring.
      * rewrite Hk. unfold cdiv.
        replace (kBlockN kt * (k * 2)) with (kBlockN kt * k * 2) by ring.
        rewrite !Z.quot_mul by lia. ring.
Qed.

(** The loop from the tile [n] visits the tiles [n], [n - 1], ... *)
Lemma append_loop_tiles (steps : nat) :
  forall n, Z.of_nat steps <= n - copy_min + 1 ->
    loop steps (state n)
    = flat_map (fun i => iter_stores (state (n - i)))
               (upto (Z.of_nat steps)).
Proof.
  induction steps as [|k IH]; intros n Hn.
  - reflexivity.
  - unfold loop. cbn [append_loop]. fold loop. fold iter_stores. fold next.
    rewrite upto_cons by lia. cbn [flat_map].
    replace (n - 0) with n by lia. f_equal.
    replace (Z.of_nat (S k) - 1) with (Z.of_nat k) by lia.
    destruct k as [|k].
    + reflexivity.
    + rewrite append_next_state by lia.
      rewrite IH by lia.
      rewrite flat_map_map.
      apply flat_map_ext. intros i. f_equal. f_equal. lia.
Qed.

(** The stores of the append phase, tile by tile. *)
Lemma append_kv_tiles :
  append_kv Is_even_K kt params binfo bidb bidh n_block_min n_block_max
  = flat_map (fun i => iter_stores (state (n_block_max - 1 - i)))
             (upto (n_block_max - copy_min)).
Proof.
  transitivity (loop (Z.to_nat (n_block_max - copy_min))
                     (state (n_block_max - 1))).
  { unfold append_kv, loop, state, append_state_at. cbv zeta.
    replace (n_block_max - 1 + 1) with n_block_max by lia. reflexivity. }
  destruct (Z_le_gt_dec n_block_max copy_min) as [Hle|Hgt].
  - replace (Z.to_nat (n_block_max - copy_min)) with 0%nat by lia.
    rewrite upto_nonpos by lia. reflexivity.
  - rewrite append_loop_tiles by lia.
    rewrite Z2Nat.id by lia. reflexivity.
Qed.

Hypothesis Hcache : 0 <= cache.
Hypothesis Hpaged :
  block_table_of params bidb <> None ->
  0 < page_block_size params /\ (Bc | page_block_size params).

Lemma copy_min_nonneg : 0 <= copy_min.
Proof.
  unfold copy_min. rewrite cdiv_nonneg by lia.
  pose proof (Z.div_pos cache Bc Hcache HBc). lia.
Qed.

(** The value that the loop writes to K for the row [j] of the tile
    [n]. *)
Lemma append_k_value_at (n j cc : Z) :
  append_k_value params (state n) j cc
  = appended_K params binfo bidb bidh (n * Bc + j - cache) cc.
Proof.
  unfold append_k_value, appended_K, state, append_state_at.
  cbn [a_tKgKnew a_tRgCos]. fold cache.
  assert (Hsrc : forall x,
            knew_ptr params
              (row_offset_new kt params binfo (knew_batch_stride params)
                 (knew_row_stride params) (knew_head_stride params) bidb
                 bidh (n + 1) + j * knew_row_stride params + x)
            = Knew params binfo bidb bidh (n * Bc + j - cache) x).
  { intros x. unfold Knew, row_offset_new, kv_head. fold cache Bc.
    f_equal. ring. }
  destruct (rotary_dim params =? 0).
  - apply Hsrc.
  - unfold rotary_at. apply rotary_elt_ext.
    + exact Hsrc.
    + intros i. f_equal. fold Bc. ring.
    + intros i. f_equal. fold Bc. ring.
Qed.

(** The stores of the append phase of a block: for every new row whose
    position [p] lies in the tiles from [n_block_copy_min] up to, not
    including, [n_block_max], and every column of the head dimension,
    the element of Vnew and the element of Knew, rotated when
    [rotary_dim] is not zero, are stored to the row [p] of the cache. *)
Lemma append_kv_stores (s : store) :
  In s (append_kv Is_even_K kt params binfo bidb bidh n_block_min
          n_block_max)
  <-> exists p cc,
        copy_min * Bc <= p < n_block_max * Bc /\ cache <= p < sk
        /\ 0 <= cc < kHeadDim kt /\ (Is_even_K = true \/ cc < p_d params)
        /\ (s = StoreV (cache_row params binfo (v_batch_stride params)
                          (v_row_stride params) (v_head_stride params)
                          bidb bidh p + cc)
                       (Vnew params binfo bidb bidh (p - cache) cc)
            \/ s = StoreK (cache_row params binfo (k_batch_stride params)
                             (k_row_stride params) (k_head_stride params)
                             bidb bidh p + cc)
                          (appended_K params binfo bidb bidh (p - cache)
                             cc)).
Proof.
  pose proof copy_min_nonneg as Hcm.
  assert (Hrow : forall n j cc, 0 <= n -> 0 <= j < Bc ->
            (Is_even_K || (cc <? p_d params) = true
             <-> (Is_even_K = true \/ cc < p_d params))
            /\ a_tVgV (state n) + j * v_row_stride params + cc
               = cache_row params binfo (v_batch_stride params)
                   (v_row_stride params) (v_head_stride params) bidb bidh
                   (n * Bc + j) + cc
            /\ vnew_ptr params
                 (a_tVgVnew (state n) + j * vnew_row_stride params + cc)
               = Vnew params binfo bidb bidh (n * Bc + j - cache) cc
            /\ a_tKgK (state n) + j * k_row_stride params + cc
               = cache_row params binfo (k_batch_stride params)
                   (k_row_stride params) (k_head_stride params) bidb bidh
                   (n * Bc + j) + cc).
  { intros n j cc Hn Hj. split; [|split; [|split]].
    - rewrite orb_true_iff, Z.ltb_lt. reflexivity.
    - unfold state, append_state_at. cbn [a_tVgV].
      unfold split_row_offset_v.
      rewrite (tile_row_address kt params binfo _ _ _ bidb bidh n j HBc Hn
                 Hj Hpaged).
      reflexivity.
    - unfold state, append_state_at. cbn [a_tVgVnew].
      unfold Vnew, row_offset_new, kv_head. fold cache Bc. f_equal. ring.
    - unfold state, append_state_at. cbn [a_tKgK].
      unfold split_row_offset_k.
      rewrite (tile_row_address kt params binfo _ _ _ bidb bidh n j HBc Hn
                 Hj Hpaged).
      reflexivity. }
  rewrite append_kv_tiles. split.
  - intros Hin. apply in_flat_map in Hin as [i [Hi Hin]].
    apply in_upto in Hi.
    set (n := n_block_max - 1 - i) in *.
    unfold iter_stores, append_iter_stores in Hin.
    cbn [a_n_block state append_state_at] in Hin.
    unfold state in Hin. cbn [a_n_block append_state_at] in Hin.
    fold state in Hin. fold Bc sk cache in Hin.
    apply in_flat_map in Hin as [j [Hj Hin]]. apply in_upto in Hj.
    destruct ((cache - n * Bc <=? j) && (j <? sk - n * Bc)) eqn:Er;
      [|destruct Hin].
    apply andb_prop in Er as [Er1 Er2].
    apply Z.leb_le in Er1. apply Z.ltb_lt in Er2.
    apply in_flat_map in Hin as [cc [Hcc Hin]]. apply in_upto in Hcc.
    destruct (Hrow n j cc ltac:(unfold n; lia) Hj) as [Hd [Ev [Evn Ek]]].
    destruct (Is_even_K || (cc <? p_d params)) eqn:Ed; [|destruct Hin].
    exists (n * Bc + j), cc.
    split; [unfold n; nia|]. split; [lia|]. split; [exact Hcc|].
    split; [apply Hd; reflexivity|].
    destruct Hin as [Hs|[Hs|[]]]; subst s.
    + left. rewrite Ev, Evn. reflexivity.
    + right. rewrite Ek, append_k_value_at. reflexivity.
  - intros [p [cc [Hp [Hnew [Hcc [Hd Hs]]]]]].
    set (n := p / Bc). set (j := p mod Bc).
    assert (Hpj : p = n * Bc + j).
    { unfold n, j. rewrite (Z.div_mod p Bc) at 1 by lia. ring. }
    assert (Hj : 0 <= j < Bc) by (apply Z.mod_pos_bound; exact HBc).
    assert (Hn : copy_min <= n < n_block_max) by nia.
    apply in_flat_map. exists (n_block_max - 1 - n).
    split; [apply in_upto; lia|].
    replace (n_block_max - 1 - (n_block_max - 1 - n)) with n by lia.
    unfold iter_stores, append_iter_stores.
    unfold state at 1 2. cbn [a_n_block append_state_at].
    fold state. fold Bc sk cache.
    apply in_flat_map. exists j. split; [apply in_upto; exact Hj|].
    replace ((cache - n * Bc <=? j) && (j <? sk - n * Bc)) with true
      by (symmetry; apply andb_true_iff; split;
          [apply Z.leb_le|apply Z.ltb_lt]; lia).
    apply in_flat_map. exists cc. split; [apply in_upto; exact Hcc|].
    destruct (Hrow n j cc ltac:(lia) Hj) as [Hdd [Ev [Evn Ek]]].
    rewrite (proj2 Hdd Hd).
    rewrite Ev, Evn, Ek, append_k_value_at, <- Hpj.
    destruct Hs as [-> | ->]; [left|right; left]; reflexivity.
Qed.

End AppendFacts.

(** The stores of a block to the K/V cache are those of its append
    phase, which a block that exits early does not reach. *)
Lemma split_kv_stores
    (Is_causal Is_local Has_alibi Is_even_MN Is_even_K Split Append_KV : bool)
    (kt : Kernel_traits) (params : Params) (binfo : BlockInfo)
    (smem_ : Z -> Z -> fp)
    (bidb bidh m_block n_split_idx num_n_splits r c : Z) (s : store) :
  is_kv_store s ->
  let n_min := split_n_block_min Is_local kt params binfo m_block
                 n_split_idx num_n_splits in
  let n_max := split_n_block_max Is_causal Is_local kt params binfo m_block
                 n_split_idx num_n_splits in
  In s (compute_attn_1rowblock_splitkv Is_causal Is_local Has_alibi
          Is_even_MN Is_even_K Split Append_KV kt params binfo smem_
          bidb bidh m_block n_split_idx num_n_splits r c)
  <-> m_block * kBlockM kt < actual_seqlen_q binfo /\ n_min < n_max
      /\ Append_KV = true
      /\ In s (append_kv Is_even_K kt params binfo bidb bidh n_min n_max).
Proof.
  intros Hkv n_min n_max.
  assert (Hres : forall mk row_offset max_MN v,
            (forall a x, s <> mk a x) ->
            ~ In s (store_lse mk row_offset max_MN r v)).
  { intros mk ro mx v Hne Hin. unfold store_lse in Hin.
    destruct (r <? mx); [|exact Hin].
    destruct Hin as [E|[]]. apply (Hne _ _ (eq_sym E)). }
  assert (Hres' : forall e1 e2 mk ro rs mx dd v,
            (forall a x, s <> mk a x) ->
            ~ In s (store_elt e1 e2 mk ro rs mx dd r c v)).
  { intros e1 e2 mk ro rs mx dd v Hne Hin. unfold store_elt in Hin.
    destruct ((e1 || (r <? mx)) && (e2 || (c <? dd))); [|exact Hin].
    destruct Hin as [E|[]]. apply (Hne _ _ (eq_sym E)). }
  assert (HO : forall a x, s <> StoreO a x)
    by (intros a x E; subst s; exact Hkv).
  assert (HL : forall a x, s <> StoreLSE a x)
    by (intros a x E; subst s; exact Hkv).
  assert (HOa : forall a x, s <> StoreOaccum a x)
    by (intros a x E; subst s; exact Hkv).
  assert (HLa : forall a x, s <> StoreLSEaccum a x)
    by (intros a x E; subst s; exact Hkv).
  unfold compute_attn_1rowblock_splitkv. fold n_min n_max.
  destruct (actual_seqlen_q binfo <=? m_block * kBlockM kt) eqn:Eq.
  { apply Z.leb_le in Eq. split; [intros []|intros [H _]; lia]. }
  apply Z.leb_gt in Eq.
  destruct (n_max <=? n_min) eqn:Ex.
  { apply Z.leb_le in Ex. split; [|intros [_ [H _]]; lia].
    intros Hin. exfalso. apply in_app_iff in Hin as [Hin|Hin].
    - destruct Split; [apply (Hres' _ _ _ _ _ _ _ _ HOa Hin)
                      |apply (Hres' _ _ _ _ _ _ _ _ HO Hin)].
    - destruct Split; [apply (Hres _ _ _ _ HLa Hin)
                      |apply (Hres _ _ _ _ HL Hin)]. }
  apply Z.leb_gt in Ex.
  destruct (apply_stores _ _) as [k_mem v_mem].
  match goal with
  | |- context [normalize_softmax_lse ?a ?b ?sm ?acc ?sc ?rp] =>
      destruct (normalize_softmax_lse a b sm acc sc rp) as [lse o]
  end.
  rewrite !in_app_iff. split.
  - intros [Hin|[Hin|Hin]].
    + destruct Append_KV; [|destruct Hin].
      split; [exact Eq|]. split; [exact Ex|]. split; [reflexivity|exact Hin].
    + exfalso. destruct Split; [apply (Hres _ _ _ _ HLa Hin)
                               |apply (Hres _ _ _ _ HL Hin)].
    + exfalso. destruct Split; [apply (Hres' _ _ _ _ _ _ _ _ HOa Hin)
                               |apply (Hres' _ _ _ _ _ _ _ _ HO Hin)].
  - intros [_ [_ [-> Hin]]]. left. exact Hin.
Qed.

(** The Q row in shared memory when the rotary embedding is on. *)
Lemma split_load_q_rotary
    (Is_causal Is_local Is_even_MN Is_even_K : bool)
    (kt : Kernel_traits) (params : Params) (binfo : BlockInfo)
    (smem_ : Z -> Z -> fp) (bidb bidh m_block r cc : Z) :
  rotary_dim params <> 0 -> 0 <= r ->
  m_block * kBlockM kt + r < actual_seqlen_q binfo ->
  Is_even_K = true \/ cc < p_d params ->
  split_load_q Is_causal Is_local Is_even_MN Is_even_K true kt params binfo
    smem_ bidb bidh m_block r cc
  = Fin (rotary_at params (dense_Q kt params binfo bidb bidh m_block r)
           (seqlen_k_cache binfo
            + (if Is_causal || Is_local then m_block * kBlockM kt + r
               else 0))
           cc).
Proof.
  intros Hrd Hr Hrow Hcc. unfold split_load_q. cbn [negb orb].
  replace (rotary_dim params =? 0) with false
    by (symmetry; apply Z.eqb_neq; exact Hrd).
  replace (0 <=? r) with true by (symmetry; apply Z.leb_le; exact Hr).
  replace (r <? actual_seqlen_q binfo - m_block * kBlockM kt) with true
    by (symmetry; apply Z.ltb_lt; lia).
  replace (Is_even_K || (cc <? p_d params)) with true.
  2:{ symmetry. destruct Hcc as [->|Hcc]; [reflexivity|].
      apply orb_true_iff. right. apply Z.ltb_lt. exact Hcc. }
  cbn [andb]. f_equal. unfold rotary_at. apply rotary_elt_ext.
  - intros x. unfold dense_Q. f_equal. ring.
  - intros i. f_equal. unfold q_rotary_row_offset.
    destruct (Is_causal || Is_local); ring.
  - intros i. f_equal. unfold q_rotary_row_offset.
    destruct (Is_causal || Is_local); ring.
Qed.

(** A new key row that no block copies: one query, two new keys and an
    empty cache, a local window of width zero, tiles of one row and a
    single split.  Every block [m_block >= 0] starts at the tile
    [m_block + 1], so that the new row 0, which belongs to the cache
    position [seqlen_k_cache + 0 = 0], is stored by none of them. *)
Lemma append_local_counterexample :
  seqlen_k_cache append_binfo = 0
  /\ actual_seqlen_k append_binfo - seqlen_k_cache append_binfo
     = p_seqlen_knew (append_params 0 0)
  /\ 0 < p_seqlen_knew (append_params 0 0)
  /\ forall m_block r c cc v,
       0 <= m_block -> 0 <= cc < kHeadDim append_traits ->
       ~ In (StoreK (cache_row (append_params 0 0) append_binfo
                       (k_batch_stride (append_params 0 0))
                       (k_row_stride (append_params 0 0))
                       (k_head_stride (append_params 0 0)) 0 0
                       (seqlen_k_cache append_binfo + 0) + cc) v)
            (compute_attn_1rowblock_splitkv false true false false true
               false true append_traits (append_params 0 0) append_binfo
               (fun _ _ => Fin 0%R) 0 0 m_block 0 1 r c).
Proof.
  split; [reflexivity|]. split; [reflexivity|]. split; [reflexivity|].
  intros m_block r c cc v Hm Hc Hin.
  apply split_kv_stores in Hin; [|exact I].
  destruct Hin as [Hq [_ [_ Hin]]].
  apply append_kv_stores in Hin.
  - destruct Hin as [p [cc' [[Hlo _] [_ [Hcc [_ Hs]]]]]].
    cbn in Hq.
    assert (Hm0 : m_block = 0) by lia. subst m_block.
    assert (Hp : 1 <= p) by exact Hlo.
    destruct Hs as [Hs|Hs]; [discriminate Hs|].
    injection Hs as Ha _. cbn in Ha, Hcc, Hc.
    unfold cache_row in Ha. cbn in Ha. lia.
  - cbn. lia.
  - right. exists 1. reflexivity.
  - cbn. lia.
  - intros Hbt. exfalso. apply Hbt. reflexivity.
Qed.

(** C8, per block: with [Append_KV], a block of the split kernel that does
    not exit early stores into the K/V cache, ahead of its attention
    loops, exactly the new rows [j] in [[0, actual_seqlen_k -
    seqlen_k_cache)] whose cache position [seqlen_k_cache + j] lies in the
    tiles [[n_block_min, n_block_max)] of the block: row [j] of [Vnew]
    goes to the row [seqlen_k_cache + j] of the V cache (paged or
    contiguous) and row [j] of [Knew] to the row [seqlen_k_cache + j] of
    the K cache, rotated at the position [seqlen_k_cache + j] when
    [rotary_dim] is not zero.  The row [i] of the Q tile is rotated at the
    position [seqlen_k_cache + m_block * kBlockM + i] when the mask is
    causal or local and at the position [seqlen_k_cache] otherwise. *)
Theorem append_kv_rows
    (Is_causal Is_local Has_alibi Is_even_MN Is_even_K Split : bool)
    (kt : Kernel_traits) (params : Params) (binfo : BlockInfo)
    (smem_ : Z -> Z -> fp)
    (bidb bidh m_block n_split_idx num_n_splits r c : Z) :
  0 < kBlockN kt ->
  rotary_dim params = 0 \/ (2 | rotary_dim params) ->
  0 <= seqlen_k_cache binfo ->
  (block_table_of params bidb <> None ->
   0 < page_block_size params /\ (kBlockN kt | page_block_size params)) ->
  let n_min := split_n_block_min Is_local kt params binfo m_block
                 n_split_idx num_n_splits in
  let n_max := split_n_block_max Is_causal Is_local kt params binfo m_block
                 n_split_idx num_n_splits in
  let cache := seqlen_k_cache binfo in
  (forall s, is_kv_store s ->
     (In s (compute_attn_1rowblock_splitkv Is_causal Is_local Has_alibi
              Is_even_MN Is_even_K Split true kt params binfo smem_
              bidb bidh m_block n_split_idx num_n_splits r c)
      <-> m_block * kBlockM kt < actual_seqlen_q binfo /\ n_min < n_max
          /\ exists j cc,
               0 <= j < actual_seqlen_k binfo - cache
               /\ n_min * kBlockN kt <= cache + j < n_max * kBlockN kt
               /\ 0 <= cc < kHeadDim kt
               /\ (Is_even_K = true \/ cc < p_d params)
               /\ (s = StoreV (cache_row params binfo
                                 (v_batch_stride params)
                                 (v_row_stride params)
                                 (v_head_stride params)
                                 bidb bidh (cache + j) + cc)
                              (Vnew params binfo bidb bidh j cc)
                   \/ s = StoreK (cache_row params binfo
                                    (k_batch_stride params)
                                    (k_row_stride params)
                                    (k_head_stride params)
                                    bidb bidh (cache + j) + cc)
                                 (appended_K params binfo bidb bidh j cc))))
  /\ (forall i cc,
        rotary_dim params <> 0 -> 0 <= i ->
        m_block * kBlockM kt + i < actual_seqlen_q binfo ->
        Is_even_K = true \/ cc < p_d params ->
        split_load_q Is_causal Is_local Is_even_MN Is_even_K true kt params
          binfo smem_ bidb bidh m_block i cc
        = Fin (rotary_at params
                 (dense_Q kt params binfo bidb bidh m_block i)
                 (cache + (if Is_causal || Is_local
                           then m_block * kBlockM kt + i else 0))
                 cc)).
Proof.
  intros HBc Hrd Hcache Hpaged n_min n_max cache. split.
  - intros s Hkv.
    rewrite (split_kv_stores Is_causal Is_local Has_alibi Is_even_MN
               Is_even_K Split true kt params binfo smem_ bidb bidh m_block
               n_split_idx num_n_splits r c s Hkv).
    cbv zeta. fold n_min n_max.
    rewrite (append_kv_stores Is_even_K kt params binfo bidb bidh n_min
               n_max HBc Hrd Hcache Hpaged s).
    fold cache.
    pose proof (cdiv_floor_le cache (kBlockN kt) HBc Hcache) as Hfl.
    split.
    + intros [Hq [Hn [_ [p [cc [[Hlo Hhi] [[Hc1 Hc2] [Hcc [He Hs]]]]]]]]].
      split; [exact Hq|]. split; [exact Hn|].
      exists (p - cache), cc.
      replace (cache + (p - cache)) with p by ring.
      assert (Hmx : n_min * kBlockN kt
                    <= Z.max n_min (cdiv cache (kBlockN kt)) * kBlockN kt)
        by (apply Z.mul_le_mono_nonneg_r; lia).
      repeat split; try lia; try assumption.
    + intros [Hq [Hn [j [cc [[Hj1 Hj2] [[Hlo Hhi] [Hcc [He Hs]]]]]]]].
      split; [exact Hq|]. split; [exact Hn|]. split; [reflexivity|].
      exists (cache + j), cc.
      replace (cache + j - cache) with j by ring.
      assert (Hmx : Z.max n_min (cdiv cache (kBlockN kt)) * kBlockN kt
                    <= cache + j).
      { destruct (Z.max_spec n_min (cdiv cache (kBlockN kt)))
          as [[_ ->]|[_ ->]]; lia. }
      repeat split; try lia; try assumption.
  - intros i cc Hr0 Hi Hrow Hcc. fold cache.
    apply split_load_q_rotary; assumption.
Qed.

(** The theorem on a block that is neither causal nor local: one query,
    an empty cache and two new keys of two columns, tiles of one row.
    The block covers both tiles; it stores the rotated new key row 1 at
    the row 1 of the cache, and its query row is rotated at the position
    [seqlen_k_cache = 0]. *)
Lemma append_kv_rows_witness :
  In (StoreK 2 (appended_K (append_params 0 0) append_binfo 0 0 1 0))
     (compute_attn_1rowblock_splitkv false false false false true false
        true append_traits (append_params 0 0) append_binfo
        (fun _ _ => Fin 0%R) 0 0 0 0 1 0 0)
  /\ split_load_q false false false true true append_traits
       (append_params 0 0) append_binfo (fun _ _ => Fin 0%R) 0 0 0 0 0
     = Fin (rotary_at (append_params 0 0)
              (dense_Q append_traits (append_params 0 0) append_binfo
                 0 0 0 0)
              0 0).
Proof.
  destruct (append_kv_rows false false false false true false append_traits
              (append_params 0 0) append_binfo (fun _ _ => Fin 0%R)
              0 0 0 0 1 0 0) as [Hkv Hq].
  - cbn. lia.
  - right. exists 1. reflexivity.
  - cbn. lia.
  - intros Hbt. exfalso. apply Hbt. reflexivity.
  - split.
    + apply (Hkv (StoreK 2 (appended_K (append_params 0 0) append_binfo
                              0 0 1 0)) I).
      split; [cbn; lia|]. split; [reflexivity|].
      exists 1, 0.
      split; [cbn; lia|].
      split; [split; [intros E; discriminate E|reflexivity]|].
      split; [cbn; lia|].
      split; [left; reflexivity|].
      right. reflexivity.
    + apply (Hq 0 0).
      * discriminate.
      * lia.
      * cbn. lia.
      * left. reflexivity.
Defined.

(** ** The paged cache against the unpaged cache *)

(** The append phase stores to the K/V cache only. *)
Lemma append_loop_kv (Is_even_K : bool) (kt : Kernel_traits)
    (params : Params) (binfo : BlockInfo) (bt : option (Z -> Z))
    (n_block_copy_min : Z) (steps : nat) :
  forall (st : append_state) (s : store),
    In s (append_loop Is_even_K kt params binfo bt n_block_copy_min steps st)
    -> is_kv_store s.
Proof.
  induction steps as [|steps IH]; intros st s Hin; [destruct Hin|].
  cbn [append_loop] in Hin. apply in_app_iff in Hin as [Hin|Hin].
  - unfold append_iter_stores in Hin.
    apply in_flat_map in Hin as [j [_ Hin]].
    destruct (_ && _); [|destruct Hin].
    apply in_flat_map in Hin as [cc [_ Hin]].
    destruct (_ || _); [|destruct Hin].
    destruct Hin as [E|[E|[]]]; subst s; exact I.
  - apply (IH _ _ Hin).
Qed.

(** Reading the K and V memory after a list of stores: an address that
    every store of the list gives one value, and that is stored or holds
    the value already. *)
Lemma apply_stores_K (l : list store) (a : Z) (x : R) :
  forall m : gmem * gmem,
    (forall y, In (StoreK a y) l -> y = x) ->
    In (StoreK a x) l \/ fst m a = x ->
    fst (apply_stores l m) a = x.
Proof.
  unfold apply_stores.
  induction l as [|s l IH]; intros m Hval Hin; cbn [fold_left].
  - destruct Hin as [[]|E]. exact E.
  - apply IH.
    + intros y Hy. apply Hval. right. exact Hy.
    + destruct s as [? ?|? ?|? ?|? ?|? ?|a' y|a' y]; cbn [apply_store fst];
        try (destruct Hin as [[E|Hin]|E];
             [discriminate E|left; exact Hin|right; exact E]).
      destruct (a =? a') eqn:Ea.
      * apply Z.eqb_eq in Ea. subst a'. right.
        apply Hval. left. reflexivity.
      * apply Z.eqb_neq in Ea.
        destruct Hin as [[E|Hin]|E];
          [injection E as E1 E2; congruence|left; exact Hin|right; exact E].
Qed.

Lemma apply_stores_V (l : list store) (a : Z) (x : R) :
  forall m : gmem * gmem,
    (forall y, In (StoreV a y) l -> y = x) ->
    In (StoreV a x) l \/ snd m a = x ->
    snd (apply_stores l m) a = x.
Proof.
  unfold apply_stores.
  induction l as [|s l IH]; intros m Hval Hin; cbn [fold_left].
  - destruct Hin as [[]|E]. exact E.
  - apply IH.
    + intros y Hy. apply Hval. right. exact Hy.
    + destruct s as [? ?|? ?|? ?|? ?|? ?|a' y|a' y]; cbn [apply_store snd];
        try (destruct Hin as [[E|Hin]|E];
             [discriminate E|left; exact Hin|right; exact E]).
      destruct (a =? a') eqn:Ea.
      * apply Z.eqb_eq in Ea. subst a'. right.
        apply Hval. left. reflexivity.
      * apply Z.eqb_neq in Ea.
        destruct Hin as [[E|Hin]|E];
          [injection E as E1 E2; congruence|left; exact Hin|right; exact E].
Qed.

Lemma result_stores_of_kv (l : list store) :
  (forall s, In s l -> is_kv_store s) -> result_stores_of l = [].
Proof.
  induction l as [|s l IH]; intros H; [reflexivity|].
  unfold result_stores_of. cbn [filter].
  pose proof (H s (or_introl eq_refl)) as Hs.
  destruct s; try destruct Hs; apply IH; intros s' Hs'; apply H; right;
    exact Hs'.
Qed.

Lemma result_stores_of_block (app : list store) (Split : bool)
    (kt : Kernel_traits) (params : Params) (binfo : BlockInfo)
    (bidb bidh m_block n_split_idx r c : Z) (lse o : fp) :
  (forall s, In s app -> is_kv_store s) ->
  result_stores_of
    (app ++ split_result_stores Split kt params binfo bidb bidh m_block
              n_split_idx r c lse o)
  = split_result_stores Split kt params binfo bidb bidh m_block
      n_split_idx r c lse o.
Proof.
  intros H. unfold result_stores_of. rewrite filter_app.
  fold (result_stores_of app). rewrite (result_stores_of_kv app H).
  destruct Split; reflexivity.
Qed.

(** The store of the append phase to an element of the cache, when the
    rows of the cache do not overlap: the element of a new row of the
    tiles of the block receives its one value, and no other element is
    stored to. *)
Lemma appended_store_at (Is_even_K : bool) (kt : Kernel_traits)
    (params : Params) (binfo : BlockInfo)
    (bidb bidh n_block_min n_block_max p cc : Z) (x : R) :
  0 < kBlockN kt ->
  rotary_dim params = 0 \/ (2 | rotary_dim params) ->
  0 <= seqlen_k_cache binfo ->
  (block_table_of params bidb <> None ->
   0 < page_block_size params /\ (kBlockN kt | page_block_size params)) ->
  rows_apart kt params binfo bidb bidh ->
  0 <= p < actual_seqlen_k binfo -> 0 <= cc < kHeadDim kt ->
  let stored :=
    Z.max n_block_min (cdiv (seqlen_k_cache binfo) (kBlockN kt)) * kBlockN kt
    <= p < n_block_max * kBlockN kt
    /\ seqlen_k_cache binfo <= p
    /\ (Is_even_K = true \/ cc < p_d params) in
  (In (StoreK (cache_row params binfo (k_batch_stride params)
                 (k_row_stride params) (k_head_stride params) bidb bidh p
               + cc) x)
      (append_kv Is_even_K kt params binfo bidb bidh n_block_min
         n_block_max)
   <-> stored
       /\ x = appended_K params binfo bidb bidh (p - seqlen_k_cache binfo)
                cc)
  /\ (In (StoreV (cache_row params binfo (v_batch_stride params)
                    (v_row_stride params) (v_head_stride params) bidb bidh p
                  + cc) x)
         (append_kv Is_even_K kt params binfo bidb bidh n_block_min
            n_block_max)
      <-> stored
          /\ x = Vnew params binfo bidb bidh (p - seqlen_k_cache binfo) cc).
Proof.
  intros HBc Hrd Hcache Hpaged Hinj Hp Hcc stored. unfold stored.
  split.
  - rewrite (append_kv_stores Is_even_K kt params binfo bidb bidh
               n_block_min n_block_max HBc Hrd Hcache Hpaged).
    split.
    + intros [p' [cc' [Hr [Hn [Hcc' [Hd [E|E]]]]]]]; [discriminate E|].
      injection E as Ea Ex.
      destruct (Hinj p p' cc cc' Hp ltac:(lia) Hcc Hcc') as [HK _].
      destruct (HK Ea) as [Ep Ec]. subst p' cc'.
      split; [split; [exact Hr|split; [lia|exact Hd]]|exact Ex].
    + intros [[Hr [Hn Hd]] Ex].
      exists p, cc. split; [exact Hr|]. split; [lia|].
      split; [exact Hcc|]. split; [exact Hd|]. right. rewrite Ex.
      reflexivity.
  - rewrite (append_kv_stores Is_even_K kt params binfo bidb bidh
               n_block_min n_block_max HBc Hrd Hcache Hpaged).
    split.
    + intros [p' [cc' [Hr [Hn [Hcc' [Hd [E|E]]]]]]]; [|discriminate E].
      injection E as Ea Ex.
      destruct (Hinj p p' cc cc' Hp ltac:(lia) Hcc Hcc') as [_ HV].
      destruct (HV Ea) as [Ep Ec]. subst p' cc'.
      split; [split; [exact Hr|split; [lia|exact Hd]]|exact Ex].
    + intros [[Hr [Hn Hd]] Ex].
      exists p, cc. split; [exact Hr|]. split; [lia|].
      split; [exact Hcc|]. split; [exact Hd|]. left. rewrite Ex.
      reflexivity.
Qed.

(** The memory that the loops of a block read, at an element of a row
    of the tiles of the block: the new row when the block has appended
    it, the element that the cache held otherwise. *)
Lemma split_memory_rows (Is_even_K Append_KV : bool) (kt : Kernel_traits)
    (params : Params) (binfo : BlockInfo)
    (bidb bidh n_block_min n_block_max p cc : Z) :
  0 < kBlockN kt ->
  (block_table_of params bidb <> None ->
   0 < page_block_size params /\ (kBlockN kt | page_block_size params)) ->
  (Append_KV = true ->
   (rotary_dim params = 0 \/ (2 | rotary_dim params))
   /\ 0 <= seqlen_k_cache binfo
   /\ rows_apart kt params binfo bidb bidh) ->
  0 <= n_block_min ->
  n_block_min * kBlockN kt <= p < n_block_max * kBlockN kt ->
  p < actual_seqlen_k binfo ->
  0 <= cc < p_d params -> p_d params <= kHeadDim kt ->
  let mem := split_memory Is_even_K Append_KV kt params binfo bidb bidh
               n_block_min n_block_max in
  let new := Append_KV && (seqlen_k_cache binfo <=? p) in
  fst mem (cache_row params binfo (k_batch_stride params)
             (k_row_stride params) (k_head_stride params) bidb bidh p + cc)
  = (if new
     then appended_K params binfo bidb bidh (p - seqlen_k_cache binfo) cc
     else k_ptr params
            (cache_row params binfo (k_batch_stride params)
               (k_row_stride params) (k_head_stride params) bidb bidh p
             + cc))
  /\ snd mem (cache_row params binfo (v_batch_stride params)
                (v_row_stride params) (v_head_stride params) bidb bidh p
              + cc)
     = (if new
        then Vnew params binfo bidb bidh (p - seqlen_k_cache binfo) cc
        else v_ptr params
               (cache_row params binfo (v_batch_stride params)
                  (v_row_stride params) (v_head_stride params) bidb bidh p
                + cc)).
Proof.
  intros HBc Hpaged Happ Hmin Hp Hsk Hcc Hd mem new.
  unfold mem, new, split_memory.
  destruct Append_KV; [|split; reflexivity].
  destruct (Happ eq_refl) as [Hrd [Hcache Hinj]].
  cbn [andb].
  pose proof (cdiv_floor_le (seqlen_k_cache binfo) (kBlockN kt) HBc Hcache)
    as Hfl.
  assert (Hp0 : 0 <= p < actual_seqlen_k binfo) by nia.
  assert (Hcc' : 0 <= cc < kHeadDim kt) by lia.
  destruct (appended_store_at Is_even_K kt params binfo bidb bidh
              n_block_min n_block_max p cc
              (appended_K params binfo bidb bidh
                 (p - seqlen_k_cache binfo) cc)
              HBc Hrd Hcache Hpaged Hinj Hp0 Hcc') as [HK _].
  destruct (appended_store_at Is_even_K kt params binfo bidb bidh
              n_block_min n_block_max p cc
              (Vnew params binfo bidb bidh (p - seqlen_k_cache binfo) cc)
              HBc Hrd Hcache Hpaged Hinj Hp0 Hcc') as [_ HV].
  destruct (seqlen_k_cache binfo <=? p) eqn:Enew.
  - apply Z.leb_le in Enew.
    assert (Hrange :
      Z.max n_block_min (cdiv (seqlen_k_cache binfo) (kBlockN kt))
      * kBlockN kt <= p < n_block_max * kBlockN kt).
    { destruct (Z.max_spec n_block_min
                  (cdiv (seqlen_k_cache binfo) (kBlockN kt)))
        as [[_ ->]|[_ ->]]; lia. }
    split.
    + apply apply_stores_K.
      * intros y Hy.
        apply (appended_store_at Is_even_K kt params binfo bidb bidh
                 n_block_min n_block_max p cc y HBc Hrd Hcache Hpaged Hinj
                 Hp0 Hcc') in Hy.
        exact (proj2 Hy).
      * left. apply HK. split; [|reflexivity].
        split; [exact Hrange|]. split; [exact Enew|right; lia].
    + apply apply_stores_V.
      * intros y Hy.
        apply (appended_store_at Is_even_K kt params binfo bidb bidh
                 n_block_min n_block_max p cc y HBc Hrd Hcache Hpaged Hinj
                 Hp0 Hcc') in Hy.
        exact (proj2 Hy).
      * left. apply HV. split; [|reflexivity].
        split; [exact Hrange|]. split; [exact Enew|right; lia].
  - apply Z.leb_gt in Enew. split.
    + apply apply_stores_K.
      * intros y Hy. exfalso.
        apply (appended_store_at Is_even_K kt params binfo bidb bidh
                 n_block_min n_block_max p cc y HBc Hrd Hcache Hpaged Hinj
                 Hp0 Hcc') in Hy.
        destruct Hy as [[_ [Hge _]] _]. lia.
      * right. reflexivity.
    + apply apply_stores_V.
      * intros y Hy. exfalso.
        apply (appended_store_at Is_even_K kt params binfo bidb bidh
                 n_block_min n_block_max p cc y HBc Hrd Hcache Hpaged Hinj
                 Hp0 Hcc') in Hy.
        destruct Hy as [[_ [Hge _]] _]. lia.
      * right. reflexivity.
Qed.

(** C7, for tiles that do not straddle pages: with a block table and a
    page size that the tile size [kBlockN] divides, the pointer of the
    tile that starts at the key row [t] is [block_table[t / page_size] *
    batch_stride + (t mod page_size) * row_stride] plus the head offset,
    the pointer updates between tiles compose to it, and the row [j] of
    the tile is the key row [t + j] of the paged cache.  A block stores
    the same results, to O and LSE or to Oaccum and LSEaccum, as for an
    unpaged cache with the same contents, with [Append_KV] or without;
    without it the two blocks store nothing else, and with it (for an
    even [rotary_dim] and caches whose rows do not overlap) whatever one
    block stores to an element of a row of its cache the other stores to
    the same element of the same row of its own. *)
Theorem paged_matches_unpaged
    (Is_causal Is_local Has_alibi Is_even_MN Is_even_K Split Append_KV : bool)
    (kt : Kernel_traits) (params : Params) (binfo : BlockInfo)
    (smem_ : Z -> Z -> fp)
    (bidb bidh m_block n_split_idx num_n_splits r c : Z)
    (bt : Z -> Z) (ku vu : gmem) (kbs krs khs vbs vrs vhs : Z) :
  supported Is_causal Is_even_MN Is_even_K kt params binfo ->
  0 <= r < kBlockM kt -> 0 <= c < p_d params ->
  m_block * kBlockM kt + r < actual_seqlen_q binfo ->
  0 <= n_split_idx -> 0 <= p_seqlen_k params -> 1 <= num_n_splits ->
  block_table_of params bidb = Some bt ->
  0 < page_block_size params ->
  (kBlockN kt | page_block_size params) ->
  let unpaged := unpaged_layout params ku vu kbs krs khs vbs vrs vhs in
  (forall col cc, 0 <= col < actual_seqlen_k binfo -> 0 <= cc < p_d params ->
     cache_K unpaged binfo bidb bidh col cc = paged_K params bt bidh col cc) ->
  (forall col cc, 0 <= col < actual_seqlen_k binfo -> 0 <= cc < p_d params ->
     cache_V unpaged binfo bidb bidh col cc = paged_V params bt bidh col cc) ->
  (Append_KV = true ->
   (rotary_dim params = 0 \/ (2 | rotary_dim params))
   /\ 0 <= seqlen_k_cache binfo
   /\ rows_apart kt params binfo bidb bidh
   /\ rows_apart kt unpaged binfo bidb bidh) ->
  let paged_block :=
    compute_attn_1rowblock_splitkv Is_causal Is_local Has_alibi Is_even_MN
      Is_even_K Split Append_KV kt params binfo smem_ bidb bidh m_block
      n_split_idx num_n_splits r c in
  let unpaged_block :=
    compute_attn_1rowblock_splitkv Is_causal Is_local Has_alibi Is_even_MN
      Is_even_K Split Append_KV kt unpaged binfo smem_ bidb bidh m_block
      n_split_idx num_n_splits r c in
  (forall n j, 0 <= n -> 0 <= j < kBlockN kt ->
     split_row_offset_k kt params binfo bidb bidh (n + 1)
     + j * k_row_stride params
     = paged_row params bt (k_batch_stride params) (k_row_stride params)
         (k_head_stride params) bidh (n * kBlockN kt + j))
  /\ (forall n, 0 < n ->
        advance_tile kt params (Some bt) (k_batch_stride params)
          (k_row_stride params) n (n - 1)
          (paged_row params bt (k_batch_stride params) (k_row_stride params)
             (k_head_stride params) bidh (n * kBlockN kt))
        = paged_row params bt (k_batch_stride params) (k_row_stride params)
            (k_head_stride params) bidh ((n - 1) * kBlockN kt))
  /\ result_stores_of paged_block = result_stores_of unpaged_block
  /\ (Append_KV = false -> paged_block = unpaged_block)
  /\ (forall p cc x,
        0 <= p < actual_seqlen_k binfo -> 0 <= cc < kHeadDim kt ->
        (In (StoreK (cache_row params binfo (k_batch_stride params)
                       (k_row_stride params) (k_head_stride params)
                       bidb bidh p + cc) x) paged_block
         <-> In (StoreK (cache_row unpaged binfo (k_batch_stride unpaged)
                           (k_row_stride unpaged) (k_head_stride unpaged)
                           bidb bidh p + cc) x) unpaged_block)
        /\ (In (StoreV (cache_row params binfo (v_batch_stride params)
                          (v_row_stride params) (v_head_stride params)
                          bidb bidh p + cc) x) paged_block
            <-> In (StoreV (cache_row unpaged binfo (v_batch_stride unpaged)
                              (v_row_stride unpaged) (v_head_stride unpaged)
                              bidb bidh p + cc) x) unpaged_block)).
Proof.
  intros Hsup Hr Hc Hrow Hidx Hsk Hn Hbt Hpage Hdiv unpaged HKeq HVeq Happ
    paged_block unpaged_block.
  pose proof (sup_Bc _ _ _ _ _ _ Hsup) as HBc.
  pose proof (sup_d _ _ _ _ _ _ Hsup) as Hd.
  assert (Hrows : forall bs rs hs n j, 0 <= n -> 0 <= j < kBlockN kt ->
            split_row_offset kt params binfo bs rs hs bidb bidh (n + 1)
            + j * rs
            = paged_row params bt bs rs hs bidh (n * kBlockN kt + j)).
  { intros bs rs hs n j Hn0 Hj.
    apply paged_tile_rows; try assumption. right. exact Hdiv. }
  assert (Hsup' : supported Is_causal Is_even_MN Is_even_K kt unpaged binfo)
    by (destruct Hsup; constructor; assumption).
  assert (Hper := per_split_nonneg kt params num_n_splits HBc Hsk Hn).
  set (n_min := split_n_block_min Is_local kt params binfo m_block
                  n_split_idx num_n_splits).
  set (n_max := split_n_block_max Is_causal Is_local kt params binfo
                  m_block n_split_idx num_n_splits).
  assert (Hmin : 0 <= n_min).
  { unfold n_min, split_n_block_min. destruct (negb Is_local); nia. }
  assert (Hpaged : block_table_of params bidb <> None ->
            0 < page_block_size params
            /\ (kBlockN kt | page_block_size params))
    by (intros _; split; assumption).
  assert (Hbt' : block_table_of unpaged bidb = None) by reflexivity.
  assert (Hpaged' : block_table_of unpaged bidb <> None ->
            0 < page_block_size unpaged
            /\ (kBlockN kt | page_block_size unpaged))
    by (intros H; destruct (H Hbt')).
  assert (HappP : Append_KV = true ->
            (rotary_dim params = 0 \/ (2 | rotary_dim params))
            /\ 0 <= seqlen_k_cache binfo
            /\ rows_apart kt params binfo bidb bidh)
    by (intros E; destruct (Happ E) as [H1 [H2 [H3 _]]]; auto).
  assert (HappU : Append_KV = true ->
            (rotary_dim unpaged = 0 \/ (2 | rotary_dim unpaged))
            /\ 0 <= seqlen_k_cache binfo
            /\ rows_apart kt unpaged binfo bidb bidh)
    by (intros E; destruct (Happ E) as [H1 [H2 [_ H3]]]; auto).
  set (Q := split_Q Is_causal Is_local Is_even_MN Is_even_K Append_KV kt
              params binfo smem_ bidb bidh m_block r).
  set (Klog := fun col cc =>
         if Append_KV && (seqlen_k_cache binfo <=? col)
         then appended_K params binfo bidb bidh
                (col - seqlen_k_cache binfo) cc
         else paged_K params bt bidh col cc).
  set (Vlog := fun col cc =>
         if Append_KV && (seqlen_k_cache binfo <=? col)
         then Vnew params binfo bidb bidh (col - seqlen_k_cache binfo) cc
         else paged_V params bt bidh col cc).
  assert (EP : paged_block
               = if n_max <=? n_min then
                   rev (split_result_stores Split kt params binfo bidb bidh
                          m_block n_split_idx r c
                          (if Split then NInf else PInf) (Fin 0%R))
                 else
                   let R :=
                     ref_partial Is_causal Is_local Has_alibi
                       (actual_seqlen_q binfo) (actual_seqlen_k binfo)
                       (window_size_left params) (window_size_right params)
                       (scale_softmax params)
                       (head_slope Has_alibi params bidb bidh) (p_d params)
                       (m_block * kBlockM kt + r) Q Klog Vlog Split
                       (n_min * kBlockN kt) (n_max * kBlockN kt) c in
                   (if Append_KV
                    then append_kv Is_even_K kt params binfo bidb bidh
                           n_min n_max
                    else [])
                   ++ split_result_stores Split kt params binfo bidb bidh
                        m_block n_split_idx r c (fst R) (snd R)).
  { unfold paged_block.
    apply (split_block_stores Is_causal Is_local Has_alibi Is_even_MN
             Is_even_K Split Append_KV kt params binfo smem_ bidb bidh
             m_block n_split_idx num_n_splits r c Q Klog Vlog
             Hsup Hc Hr Hrow Hidx Hper).
    - intros cc Hcc. apply split_load_q_view;
        [exact (sup_even_K _ _ _ _ _ _ Hsup)|lia|exact Hrow|exact Hcc].
    - intros n j cc Hnr Hj Hcol Hcc. fold n_min n_max in Hnr |- *.
      unfold split_row_offset_k.
      rewrite (tile_row_address kt params binfo (k_batch_stride params)
                 (k_row_stride params) (k_head_stride params) bidb bidh n j
                 HBc ltac:(lia) Hj Hpaged).
      destruct (split_memory_rows Is_even_K Append_KV kt params binfo bidb
                  bidh n_min n_max (n * kBlockN kt + j) cc HBc Hpaged HappP
                  Hmin ltac:(nia) Hcol Hcc (proj2 Hd)) as [E _].
      rewrite E. unfold Klog.
      destruct (Append_KV && (seqlen_k_cache binfo <=? n * kBlockN kt + j));
        [reflexivity|].
      unfold paged_K, cache_row. rewrite Hbt. reflexivity.
    - intros n j Hnr Hj Hcol. fold n_min n_max in Hnr |- *.
      unfold split_row_offset_v.
      rewrite (tile_row_address kt params binfo (v_batch_stride params)
                 (v_row_stride params) (v_head_stride params) bidb bidh n j
                 HBc ltac:(lia) Hj Hpaged).
      destruct (split_memory_rows Is_even_K Append_KV kt params binfo bidb
                  bidh n_min n_max (n * kBlockN kt + j) c HBc Hpaged HappP
                  Hmin ltac:(nia) Hcol Hc (proj2 Hd)) as [_ E].
      rewrite E. unfold Vlog.
      destruct (Append_KV && (seqlen_k_cache binfo <=? n * kBlockN kt + j));
        [reflexivity|].
      unfold paged_V, cache_row. rewrite Hbt. reflexivity. }
  assert (EU : unpaged_block
               = if n_max <=? n_min then
                   rev (split_result_stores Split kt params binfo bidb bidh
                          m_block n_split_idx r c
                          (if Split then NInf else PInf) (Fin 0%R))
                 else
                   let R :=
                     ref_partial Is_causal Is_local Has_alibi
                       (actual_seqlen_q binfo) (actual_seqlen_k binfo)
                       (window_size_left params) (window_size_right params)
                       (scale_softmax params)
                       (head_slope Has_alibi params bidb bidh) (p_d params)
                       (m_block * kBlockM kt + r) Q Klog Vlog Split
                       (n_min * kBlockN kt) (n_max * kBlockN kt) c in
                   (if Append_KV
                    then append_kv Is_even_K kt unpaged binfo bidb bidh
                           n_min n_max
                    else [])
                   ++ split_result_stores Split kt params binfo bidb bidh
                        m_block n_split_idx r c (fst R) (snd R)).
  { unfold unpaged_block.
    apply (split_block_stores Is_causal Is_local Has_alibi Is_even_MN
             Is_even_K Split Append_KV kt unpaged binfo smem_ bidb bidh
             m_block n_split_idx num_n_splits r c Q Klog Vlog
             Hsup' Hc Hr Hrow Hidx Hper).
    - intros cc Hcc.
      apply (split_load_q_view Is_causal Is_local Is_even_MN Is_even_K
               Append_KV kt unpaged binfo smem_ bidb bidh m_block r cc);
        [exact (sup_even_K _ _ _ _ _ _ Hsup)|lia|exact Hrow|exact Hcc].
    - intros n j cc Hnr Hj Hcol Hcc.
      change (split_n_block_min Is_local kt unpaged binfo m_block
                n_split_idx num_n_splits) with n_min in Hnr |- *.
      change (split_n_block_max Is_causal Is_local kt unpaged binfo m_block
                n_split_idx num_n_splits) with n_max in Hnr |- *.
      unfold split_row_offset_k.
      rewrite (tile_row_address kt unpaged binfo (k_batch_stride unpaged)
                 (k_row_stride unpaged) (k_head_stride unpaged) bidb bidh
                 n j HBc ltac:(lia) Hj Hpaged').
      assert (Hcol0 : 0 <= n * kBlockN kt + j) by nia.
      destruct (split_memory_rows Is_even_K Append_KV kt unpaged binfo bidb
                  bidh n_min n_max (n * kBlockN kt + j) cc HBc Hpaged'
                  HappU Hmin ltac:(nia) Hcol Hcc (proj2 Hd)) as [E _].
      rewrite E. unfold Klog.
      destruct (Append_KV && (seqlen_k_cache binfo <=? n * kBlockN kt + j));
        [reflexivity|].
      rewrite <- (HKeq (n * kBlockN kt + j) cc) by (try exact Hcc; lia).
      unfold cache_K, cache_row. rewrite Hbt'. f_equal.
    - intros n j Hnr Hj Hcol.
      change (split_n_block_min Is_local kt unpaged binfo m_block
                n_split_idx num_n_splits) with n_min in Hnr |- *.
      change (split_n_block_max Is_causal Is_local kt unpaged binfo m_block
                n_split_idx num_n_splits) with n_max in Hnr |- *.
      unfold split_row_offset_v.
      rewrite (tile_row_address kt unpaged binfo (v_batch_stride unpaged)
                 (v_row_stride unpaged) (v_head_stride unpaged) bidb bidh
                 n j HBc ltac:(lia) Hj Hpaged').
      assert (Hcol0 : 0 <= n * kBlockN kt + j) by nia.
      destruct (split_memory_rows Is_even_K Append_KV kt unpaged binfo bidb
                  bidh n_min n_max (n * kBlockN kt + j) c HBc Hpaged'
                  HappU Hmin ltac:(nia) Hcol Hc (proj2 Hd)) as [_ E].
      rewrite E. unfold Vlog.
      destruct (Append_KV && (seqlen_k_cache binfo <=? n * kBlockN kt + j));
        [reflexivity|].
      rewrite <- (HVeq (n * kBlockN kt + j) c) by (try exact Hc; lia).
      unfold cache_V, cache_row. rewrite Hbt'. f_equal. }
  assert (Hkv : forall prm s,
            In s (if Append_KV
                  then append_kv Is_even_K kt prm binfo bidb bidh n_min
                         n_max
                  else []) -> is_kv_store s).
  { intros prm s Hin. destruct Append_KV; [|destruct Hin].
    unfold append_kv in Hin. apply (append_loop_kv _ _ _ _ _ _ _ _ _ Hin). }
  split; [|split; [|split; [|split]]].
  - intros n j Hn0 Hj. apply Hrows; assumption.
  - intros n Hn0.
    pose proof (Hrows (k_batch_stride params) (k_row_stride params)
                  (k_head_stride params) n 0 ltac:(lia) ltac:(lia)) as E1.
    pose proof (Hrows (k_batch_stride params) (k_row_stride params)
                  (k_head_stride params) (n - 1) 0 ltac:(lia) ltac:(lia))
      as E2.
    rewrite Z.mul_0_l, !Z.add_0_r in E1, E2.
    rewrite <- E1, <- E2. rewrite <- Hbt.
    apply split_tile_advance. reflexivity.
  - rewrite EP, EU. destruct (n_max <=? n_min); [reflexivity|].
    cbv zeta.
    rewrite !result_stores_of_block by (apply Hkv). reflexivity.
  - intros E. rewrite EP, EU. rewrite E. reflexivity.
  - intros p cc x Hp Hcc.
    assert (HK : forall s, is_kv_store s -> forall s',
               (In s (append_kv Is_even_K kt params binfo bidb bidh n_min
                        n_max)
                <-> In s' (append_kv Is_even_K kt unpaged binfo bidb bidh
                             n_min n_max)) ->
               is_kv_store s' ->
               (In s paged_block <-> In s' unpaged_block)).
    { intros s Hs s' Hiff Hs'. unfold paged_block, unpaged_block.
      rewrite (split_kv_stores Is_causal Is_local Has_alibi Is_even_MN
                 Is_even_K Split Append_KV kt params binfo smem_ bidb bidh
                 m_block n_split_idx num_n_splits r c s Hs).
      rewrite (split_kv_stores Is_causal Is_local Has_alibi Is_even_MN
                 Is_even_K Split Append_KV kt unpaged binfo smem_ bidb bidh
                 m_block n_split_idx num_n_splits r c s' Hs').
      cbv zeta.
      change (split_n_block_min Is_local kt unpaged binfo m_block
                n_split_idx num_n_splits) with n_min.
      change (split_n_block_max Is_causal Is_local kt unpaged binfo m_block
                n_split_idx num_n_splits) with n_max.
      fold n_min n_max. rewrite Hiff. reflexivity. }
    destruct Append_KV.
    + destruct (Happ eq_refl) as [Hrd [Hcache [HinjP HinjU]]].
      split.
      * apply HK; [exact I| |exact I].
        rewrite (proj1 (appended_store_at Is_even_K kt params binfo bidb
                          bidh n_min n_max p cc x HBc Hrd Hcache Hpaged
                          HinjP Hp Hcc)).
        rewrite (proj1 (appended_store_at Is_even_K kt unpaged binfo bidb
                          bidh n_min n_max p cc x HBc Hrd Hcache Hpaged'
                          HinjU Hp Hcc)).
        reflexivity.
      * apply HK; [exact I| |exact I].
        rewrite (proj2 (appended_store_at Is_even_K kt params binfo bidb
                          bidh n_min n_max p cc x HBc Hrd Hcache Hpaged
                          HinjP Hp Hcc)).
        rewrite (proj2 (appended_store_at Is_even_K kt unpaged binfo bidb
                          bidh n_min n_max p cc x HBc Hrd Hcache Hpaged'
                          HinjU Hp Hcc)).
        reflexivity.
    + unfold paged_block, unpaged_block. split.
      * set (s1 := StoreK _ x). set (s2 := StoreK _ x).
        rewrite (split_kv_stores Is_causal Is_local Has_alibi Is_even_MN
                   Is_even_K Split false kt params binfo smem_ bidb bidh
                   m_block n_split_idx num_n_splits r c s1 I).
        rewrite (split_kv_stores Is_causal Is_local Has_alibi Is_even_MN
                   Is_even_K Split false kt unpaged binfo smem_ bidb bidh
                   m_block n_split_idx num_n_splits r c s2 I).
        cbv zeta. split; intros [_ [_ [E _]]]; discriminate E.
      * set (s1 := StoreV _ x). set (s2 := StoreV _ x).
        rewrite (split_kv_stores Is_causal Is_local Has_alibi Is_even_MN
                   Is_even_K Split false kt params binfo smem_ bidb bidh
                   m_block n_split_idx num_n_splits r c s1 I).
        rewrite (split_kv_stores Is_causal Is_local Has_alibi Is_even_MN
                   Is_even_K Split false kt unpaged binfo smem_ bidb bidh
                   m_block n_split_idx num_n_splits r c s2 I).
        cbv zeta. split; intros [_ [_ [E _]]]; discriminate E.
Qed.

Lemma paged_cache_rows_apart (params : Params) :
  (forall p,
     0 <= p < 2 ->
     forall p', 0 <= p' < 2 ->
       (cache_row params paged_cache_binfo (k_batch_stride params)
          (k_row_stride params) (k_head_stride params) 0 0 p
        = cache_row params paged_cache_binfo (k_batch_stride params)
            (k_row_stride params) (k_head_stride params) 0 0 p' -> p = p')
       /\ (cache_row params paged_cache_binfo (v_batch_stride params)
             (v_row_stride params) (v_head_stride params) 0 0 p
           = cache_row params paged_cache_binfo (v_batch_stride params)
               (v_row_stride params) (v_head_stride params) 0 0 p'
           -> p = p')) ->
  rows_apart unit_traits params paged_cache_binfo 0 0.
Proof.
  intros H p p' cc cc' Hp Hp' Hcc Hcc'.
  cbn in Hp, Hp', Hcc, Hcc'.
  assert (Ec : cc = 0) by lia. assert (Ec' : cc' = 0) by lia. subst cc cc'.
  rewrite !Z.add_0_r.
  destruct (H p Hp p' Hp') as [HK HV].
  split; intros E; (split; [|reflexivity]); [apply HK|apply HV]; exact E.
Qed.

(** The theorem on the paged cache whose block table swaps two pages of
    one row: the block appends the second key row to the physical row 0,
    reads the first in the physical row 1, and stores the results that it
    stores for the unpaged cache with the same contents. *)
Lemma paged_matches_unpaged_witness :
  result_stores_of
    (compute_attn_1rowblock_splitkv false false false false false false
       true unit_traits paged_cache_params paged_cache_binfo
       (fun _ _ => Fin 0%R) 0 0 0 0 1 0 0)
  = result_stores_of
      (compute_attn_1rowblock_splitkv false false false false false false
         true unit_traits unpaged_cache_params paged_cache_binfo
         (fun _ _ => Fin 0%R) 0 0 0 0 1 0 0).
Proof.
  destruct (paged_matches_unpaged false false false false false false true
              unit_traits paged_cache_params paged_cache_binfo
              (fun _ _ => Fin 0%R) 0 0 0 0 1 0 0 swapped_pages
              (fun a => if a =? 0 then 2%R else 0%R)
              (fun a => if a =? 0 then 5%R else 0%R) 0 1 0 0 1 0)
    as [_ [_ [H _]]].
  - constructor; cbn; try lia; try discriminate; try reflexivity; lra.
  - cbn. lia.
  - cbn. lia.
  - cbn. lia.
  - lia.
  - cbn. lia.
  - lia.
  - reflexivity.
  - cbn. lia.
  - exists 1. reflexivity.
  - intros col cc Hcol Hcc. cbn in Hcol, Hcc.
    assert (Ec : cc = 0) by lia. subst cc.
    assert (Hcases : col = 0 \/ col = 1) by lia.
    destruct Hcases as [-> | ->]; reflexivity.
  - intros col cc Hcol Hcc. cbn in Hcol, Hcc.
    assert (Ec : cc = 0) by lia. subst cc.
    assert (Hcases : col = 0 \/ col = 1) by lia.
    destruct Hcases as [-> | ->]; reflexivity.
  - intros _. split; [left; reflexivity|]. split; [cbn; lia|].
    split; apply paged_cache_rows_apart; intros p Hp p' Hp';
      assert (Hc1 : p = 0 \/ p = 1) by lia;
      assert (Hc2 : p' = 0 \/ p' = 1) by lia;
      destruct Hc1 as [-> | ->]; destruct Hc2 as [-> | ->];
      cbn; split; intros E; lia.
  - exact H.
Defined.

(** * Further properties of the kernels *)

(** ** The grids of the two attention kernels *)

(** Two-digit numbers in a mixed radix have unique digits. *)
Lemma radix_unique (a b a' b' n : Z) :
  0 <= b < n -> 0 <= b' < n -> a * n + b = a' * n + b' ->
  a = a' /\ b = b'.
Proof.
  intros Hb Hb' E.
  assert (Ea : a = a').
  { destruct (Z_lt_le_dec a a') as [H|H]; [nia|].
    destruct (Z_lt_le_dec a' a) as [H'|H']; [nia|lia]. }
  subst a'. split; [reflexivity|lia].
Qed.

(** The predicated stores of one element and of the LSE of one row. *)
Lemma in_store_elt (e1 e2 : bool) (mk : Z -> fp -> store)
    (ro rs mx d r c : Z) (v : fp) (s : store) :
  In s (store_elt e1 e2 mk ro rs mx d r c v)
  <-> (e1 = true \/ r < mx) /\ (e2 = true \/ c < d)
      /\ s = mk (ro + r * rs + c) v.
Proof.
  unfold store_elt.
  destruct e1, e2; cbn [orb andb];
    destruct (r <? mx) eqn:Er; destruct (c <? d) eqn:Ec; cbn [andb In];
    try apply Z.ltb_lt in Er; try apply Z.ltb_ge in Er;
    try apply Z.ltb_lt in Ec; try apply Z.ltb_ge in Ec;
    split;
    try (intros [E|[]]; repeat split; auto; fail);
    try (intros [_ [_ E]]; left; auto; fail);
    try (intros []; fail);
    try (intros [[E|E] [[E'|E'] _]]; try discriminate; lia).
Qed.

Lemma in_store_lse (mk : Z -> fp -> store) (ro mx r : Z) (v : fp)
    (s : store) :
  In s (store_lse mk ro mx r v) <-> r < mx /\ s = mk (ro + r) v.
Proof.
  unfold store_lse. destruct (r <? mx) eqn:Er; cbn [In].
  - apply Z.ltb_lt in Er. split.
    + intros [E|[]]. split; [exact Er|auto].
    + intros [_ E]. left. auto.
  - apply Z.ltb_ge in Er. split; [intros []|intros [H _]; lia].
Qed.

(** X1: the grid of the split kernel.  With [Split] the block
    [(m_block, n_split_idx, bidb * h + bidh)] of a grid of [gridDim.y]
    splits runs the row-block kernel for the batch [bidb], the head [bidh]
    and the split [n_split_idx] out of [gridDim.y]; every [blockIdx.z]
    below [b * h] is such a block for exactly one batch below [b] and one
    head below [h].  Without [Split] the block [(m_block, bidb, bidh)]
    runs the single split 0 of 1. *)
Theorem splitkv_grid_decode
    (Is_causal Is_local Has_alibi Is_even_MN Is_even_K Append_KV : bool)
    (kt : Kernel_traits) (params : Params) (binfo : Z -> BlockInfo)
    (smem_ : Z -> Z -> fp) (m_block n_split_idx gridDim_y r c : Z) :
  0 < p_h params ->
  (forall bidb bidh, 0 <= bidb -> 0 <= bidh < p_h params ->
     compute_attn_splitkv Is_causal Is_local Has_alibi Is_even_MN Is_even_K
       true Append_KV kt params binfo smem_
       (m_block, n_split_idx, bidb * p_h params + bidh) gridDim_y r c
     = compute_attn_1rowblock_splitkv Is_causal Is_local Has_alibi
         Is_even_MN Is_even_K true Append_KV kt params (binfo bidb) smem_
         bidb bidh m_block n_split_idx gridDim_y r c)
  /\ (forall z, 0 <= z < p_b params * p_h params ->
        exists bidb bidh,
          0 <= bidb < p_b params /\ 0 <= bidh < p_h params
          /\ z = bidb * p_h params + bidh
          /\ (forall bidb' bidh', 0 <= bidh' < p_h params ->
                z = bidb' * p_h params + bidh' ->
                bidb' = bidb /\ bidh' = bidh)
          /\ compute_attn_splitkv Is_causal Is_local Has_alibi Is_even_MN
               Is_even_K true Append_KV kt params binfo smem_
               (m_block, n_split_idx, z) gridDim_y r c
             = compute_attn_1rowblock_splitkv Is_causal Is_local Has_alibi
                 Is_even_MN Is_even_K true Append_KV kt params (binfo bidb)
                 smem_ bidb bidh m_block n_split_idx gridDim_y r c)
  /\ (forall bidb bidh,
        compute_attn_splitkv Is_causal Is_local Has_alibi Is_even_MN
          Is_even_K false Append_KV kt params binfo smem_
          (m_block, bidb, bidh) gridDim_y r c
        = compute_attn_1rowblock_splitkv Is_causal Is_local Has_alibi
            Is_even_MN Is_even_K false Append_KV kt params (binfo bidb)
            smem_ bidb bidh m_block 0 1 r c).
Proof.
  intros Hh.
  assert (Hdec : forall bidb bidh, 0 <= bidb -> 0 <= bidh < p_h params ->
            cdiv (bidb * p_h params + bidh) (p_h params) = bidb).
  { intros bidb bidh Hb Hbh. rewrite cdiv_nonneg by nia.
    symmetry. apply (Z.div_unique _ _ bidb bidh); [left; exact Hbh|ring]. }
  assert (Hrun : forall bidb bidh, 0 <= bidb -> 0 <= bidh < p_h params ->
            compute_attn_splitkv Is_causal Is_local Has_alibi Is_even_MN
              Is_even_K true Append_KV kt params binfo smem_
              (m_block, n_split_idx, bidb * p_h params + bidh) gridDim_y r c
            = compute_attn_1rowblock_splitkv Is_causal Is_local Has_alibi
                Is_even_MN Is_even_K true Append_KV kt params (binfo bidb)
                smem_ bidb bidh m_block n_split_idx gridDim_y r c).
  { intros bidb bidh Hb Hbh. unfold compute_attn_splitkv.
    rewrite (Hdec bidb bidh Hb Hbh).
    replace (bidb * p_h params + bidh - bidb * p_h params) with bidh by ring.
    reflexivity. }
  split; [exact Hrun|]. split.
  - intros z Hz.
    assert (Hb : 0 <= z / p_h params) by (apply Z.div_pos; lia).
    pose proof (Z.mod_pos_bound z (p_h params) Hh) as Hm.
    pose proof (Z.div_mod z (p_h params) ltac:(lia)) as Ez.
    exists (z / p_h params), (z mod p_h params).
    assert (E : z = z / p_h params * p_h params + z mod p_h params) by lia.
    split; [|split; [exact Hm|split; [exact E|split]]].
    + split; [exact Hb|]. apply Z.div_lt_upper_bound; lia.
    + intros bidb' bidh' Hbh' E'.
      apply (radix_unique bidb' bidh' (z / p_h params) (z mod p_h params)
               (p_h params) Hbh' Hm). lia.
    + rewrite E at 1. apply Hrun; assumption.
  - intros bidb bidh. reflexivity.
Qed.

(** The block 13 of a grid of heads of eight: batch 1, head 5. *)
Lemma splitkv_grid_decode_witness :
  compute_attn_splitkv false false false false false true false
    one_key_traits
    (example_params 8 2 1 1 1 0 0 1 (fun _ => 0%R) (fun _ => 0%R)
       (fun _ => 0%R) 1 2)
    (fun _ => one_key_binfo) (fun _ _ => Fin 0%R) (0, 1, 13) 2 0 0
  = compute_attn_1rowblock_splitkv false false false false false true false
      one_key_traits
      (example_params 8 2 1 1 1 0 0 1 (fun _ => 0%R) (fun _ => 0%R)
         (fun _ => 0%R) 1 2)
      one_key_binfo (fun _ _ => Fin 0%R) 1 5 0 1 2 0 0.
Proof.
  destruct (splitkv_grid_decode false false false false false false
              one_key_traits
              (example_params 8 2 1 1 1 0 0 1 (fun _ => 0%R) (fun _ => 0%R)
                 (fun _ => 0%R) 1 2)
              (fun _ => one_key_binfo) (fun _ _ => Fin 0%R) 0 1 2 0 0)
    as [H _].
  - cbn. lia.
  - apply (H 1 5); cbn; lia.
Defined.

(** The stores of the dense kernel, path by path. *)
Lemma dense_stores_cases
    (Is_dropout Is_causal Is_local Has_alibi Is_even_MN Is_even_K : bool)
    (kt : Kernel_traits) (params : Params) (binfo : BlockInfo)
    (keep : Z -> Z -> bool) (smem_ : Z -> Z -> fp) (blockIdx : Z * Z * Z)
    (tidx bidb bidh m_block r c : Z) (s : store) :
  In s (compute_attn_1rowblock Is_dropout Is_causal Is_local Has_alibi
          Is_even_MN Is_even_K kt params binfo keep smem_ blockIdx tidx
          bidb bidh m_block r c) ->
  (s = StoreRngState (philox_seed params) (philox_offset params)
   /\ Is_dropout = true /\ blockIdx = (0, 0, 0) /\ tidx = 0)
  \/ (m_block * kBlockM kt < actual_seqlen_q binfo
      /\ (Is_even_MN = true \/ m_block * kBlockM kt + r < actual_seqlen_q binfo)
      /\ (Is_even_K = true \/ c < p_d params)
      /\ exists v,
           s = StoreO (dense_O_index kt params binfo bidb bidh m_block r c) v)
  \/ (m_block * kBlockM kt < actual_seqlen_q binfo
      /\ m_block * kBlockM kt + r < actual_seqlen_q binfo
      /\ exists v,
           s = StoreLSE (dense_LSE_index kt params bidb bidh m_block r) v).
Proof.
  unfold compute_attn_1rowblock.
  destruct blockIdx as [[bx by_] bz].
  set (rng := if Is_dropout && (bx =? 0) && (by_ =? 0) && (bz =? 0)
                 && (tidx =? 0)
              then [StoreRngState (philox_seed params) (philox_offset params)]
              else []).
  assert (Hrng : In s rng ->
            s = StoreRngState (philox_seed params) (philox_offset params)
            /\ Is_dropout = true /\ (bx, by_, bz) = (0, 0, 0) /\ tidx = 0).
  { unfold rng.
    destruct (Is_dropout && (bx =? 0) && (by_ =? 0) && (bz =? 0)
              && (tidx =? 0)) eqn:E; [|intros []].
    apply andb_prop in E as [E E4]. apply andb_prop in E as [E E3].
    apply andb_prop in E as [E E2]. apply andb_prop in E as [E0 E1].
    apply Z.eqb_eq in E1, E2, E3, E4. subst.
    intros [H|[]]. auto. }
  assert (HO : forall v,
            In s (store_elt Is_even_MN Is_even_K StoreO
                    (q_offset binfo (o_batch_stride params)
                       (o_row_stride params) bidb
                     + m_block * kBlockM kt * o_row_stride params
                     + bidh * o_head_stride params)
                    (o_row_stride params)
                    (actual_seqlen_q binfo - m_block * kBlockM kt)
                    (p_d params) r c v) ->
            (Is_even_MN = true
             \/ m_block * kBlockM kt + r < actual_seqlen_q binfo)
            /\ (Is_even_K = true \/ c < p_d params)
            /\ exists v,
                 s = StoreO (dense_O_index kt params binfo bidb bidh
                               m_block r c) v).
  { intros v Hin. apply in_store_elt in Hin as [H1 [H2 E]].
    split; [destruct H1; [left; assumption|right; lia]|].
    split; [exact H2|]. exists v. rewrite E. unfold dense_O_index.
    f_equal. }
  assert (HL : forall v,
            In s (store_lse StoreLSE
                    ((bidb * p_h params + bidh) * p_seqlen_q params
                     + m_block * kBlockM kt)
                    (actual_seqlen_q binfo - m_block * kBlockM kt) r v) ->
            m_block * kBlockM kt + r < actual_seqlen_q binfo
            /\ exists v,
                 s = StoreLSE (dense_LSE_index kt params bidb bidh m_block r)
                       v).
  { intros v Hin. apply in_store_lse in Hin as [H1 E].
    split; [lia|]. exists v. rewrite E. reflexivity. }
  destruct (actual_seqlen_q binfo <=? m_block * kBlockM kt) eqn:Eq.
  { intros Hin. left. apply Hrng. exact Hin. }
  apply Z.leb_gt in Eq.
  destruct ((Is_causal || Is_local || negb Is_even_MN)
            && (n_block_max Is_causal Is_local kt params binfo m_block
                <=? n_block_min Is_local kt params binfo m_block)).
  - intros Hin. apply in_app_iff in Hin as [Hin|Hin];
      [left; apply Hrng; exact Hin|].
    apply in_app_iff in Hin as [Hin|Hin].
    + right. left. split; [exact Eq|]. apply (HO _ Hin).
    + right. right. split; [exact Eq|]. apply (HL _ Hin).
  - match goal with
    | |- context [let '(lse, o) := ?n in _] => destruct n as [lse out]
    end.
    intros Hin. apply in_app_iff in Hin as [Hin|Hin];
      [left; apply Hrng; exact Hin|].
    apply in_app_iff in Hin as [Hin|Hin].
    + right. right. split; [exact Eq|]. apply (HL _ Hin).
    + right. left. split; [exact Eq|]. apply (HO _ Hin).
Qed.

(** X2: the RNG state has a single writer.  In the grid of the dense
    kernel a store to [rng_state] is issued by thread 0 of block (0,0,0)
    with dropout on, and by no other thread or block; it stores the seed
    and the offset of the parameters. *)
Theorem rng_state_single_writer
    (Is_dropout Is_causal Is_local Has_alibi Is_even_MN Is_even_K : bool)
    (kt : Kernel_traits) (params : Params) (binfo : Z -> BlockInfo)
    (keep : Z -> Z -> bool) (smem_ : Z -> Z -> fp) (blockIdx : Z * Z * Z)
    (tidx r c seed offset : Z) :
  In (StoreRngState seed offset)
     (compute_attn Is_dropout Is_causal Is_local Has_alibi Is_even_MN
        Is_even_K kt params binfo keep smem_ blockIdx tidx r c)
  <-> Is_dropout = true /\ blockIdx = (0, 0, 0) /\ tidx = 0
      /\ seed = philox_seed params /\ offset = philox_offset params.
Proof.
  split.
  - unfold compute_attn. destruct blockIdx as [[bx by_] bz]. intros Hin.
    apply dense_stores_cases in Hin
      as [[E [Hd [Hb Ht]]]|[[_ [_ [_ [v E]]]]|[_ [_ [v E]]]]];
      try discriminate E.
    injection E as E1 E2. auto.
  - intros [-> [-> [-> [-> ->]]]].
    unfold compute_attn, compute_attn_1rowblock. cbn [andb Z.eqb].
    destruct (actual_seqlen_q (binfo 0) <=? 0 * kBlockM kt);
      [left; reflexivity|].
    match goal with
    | |- context [if ?b then _ else _] => destruct b
    end; [left; reflexivity|].
    match goal with
    | |- context [let '(lse, o) := ?n in _] => destruct n as [lse out]
    end.
    left. reflexivity.
Qed.

(** ** Where the dense kernel writes *)

(** X3: the dense kernel writes O and LSE within the output.  For a
    supported launch, a thread that holds the row [r] of the tile and the
    column [c] of the head dimension stores to O and to the LSE only for
    a query row [m_block * kBlockM + r] below [actual_seqlen_q] and, to
    O, only for a column below [d]; the O store goes to the element of
    that row and column and the LSE store to the entry of that row.  A
    block whose query tile starts at or beyond [actual_seqlen_q] stores
    to neither.  (This is about O and LSE: the tile of probabilities
    that the source writes to [p_ptr] under [Return_softmax] is not part
    of the model.) *)
Theorem dense_stores_within_output
    (Is_dropout Is_causal Is_local Has_alibi Is_even_MN Is_even_K : bool)
    (kt : Kernel_traits) (params : Params) (binfo : BlockInfo)
    (keep : Z -> Z -> bool) (smem_ : Z -> Z -> fp) (blockIdx : Z * Z * Z)
    (tidx bidb bidh m_block r c : Z) :
  supported Is_causal Is_even_MN Is_even_K kt params binfo ->
  0 <= r < kBlockM kt -> 0 <= c < kHeadDim kt ->
  forall s,
    In s (compute_attn_1rowblock Is_dropout Is_causal Is_local Has_alibi
            Is_even_MN Is_even_K kt params binfo keep smem_ blockIdx tidx
            bidb bidh m_block r c) ->
    match s with
    | StoreO a _ =>
        m_block * kBlockM kt + r < actual_seqlen_q binfo /\ c < p_d params
        /\ a = dense_O_index kt params binfo bidb bidh m_block r c
    | StoreLSE a _ =>
        m_block * kBlockM kt + r < actual_seqlen_q binfo
        /\ a = dense_LSE_index kt params bidb bidh m_block r
    | _ => True
    end.
Proof.
  intros Hsup Hr Hc s Hin.
  apply dense_stores_cases in Hin
    as [[E _]|[[Hq [Hrow [Hcol [v E]]]]|[_ [Hrow [v E]]]]]; subst s.
  - exact I.
  - split; [|split; [|reflexivity]].
    + destruct Hrow as [He|Hrow]; [|exact Hrow].
      destruct (sup_even_MN _ _ _ _ _ _ Hsup He) as [_ [t Ht]].
      pose proof (sup_Br _ _ _ _ _ _ Hsup) as HBr.
      rewrite Ht in Hq |- *.
      assert (Hlt : m_block < t) by nia.
      nia.
    + destruct Hcol as [He|Hcol]; [|exact Hcol].
      rewrite (sup_even_K _ _ _ _ _ _ Hsup He). lia.
  - split; [exact Hrow|reflexivity].
Qed.

(** The early exit of the block of the masked row: both stores are those
    of the row 0 and the column 0. *)
Lemma dense_stores_within_output_witness :
  0 * kBlockM unit_traits + 0 < actual_seqlen_q masked_row_binfo
  /\ 0 = dense_LSE_index unit_traits masked_row_params 0 0 0 0.
Proof.
  apply (dense_stores_within_output false true false false false false
           unit_traits masked_row_params masked_row_binfo
           (fun _ _ => true) (fun _ _ => Fin 0%R) (0, 0, 0) 0 0 0 0 0 0
           ltac:(constructor; cbn; try lia; try discriminate;
                 try reflexivity; lra)
           ltac:(cbn; lia) ltac:(cbn; lia) (StoreLSE 0 PInf)).
  cbv -[Rplus Rmult Rminus Ropp Rdiv Rinv exp ln IZR Req_dec_T Rlt_dec
        Rmax Rlt].
  right. left. reflexivity.
Defined.

(** X4: every LSE entry has a single writer row.  When the queries of
    every batch element fit the LSE buffer ([actual_seqlen_q <=
    seqlen_q]), two stores of the dense grid to the same LSE entry come
    from the same batch, head, query tile and row: no two rows of the grid
    write the same entry. *)
Theorem dense_lse_single_writer
    (Is_dropout Is_causal Is_local Has_alibi Is_even_MN Is_even_K : bool)
    (kt : Kernel_traits) (params : Params) (binfo : Z -> BlockInfo)
    (keep keep' : Z -> Z -> bool) (smem_ smem_' : Z -> Z -> fp)
    (m_block bidb bidh tidx r c m_block' bidb' bidh' tidx' r' c' a : Z)
    (v v' : fp) :
  0 < kBlockM kt ->
  (forall b, actual_seqlen_q (binfo b) <= p_seqlen_q params) ->
  0 <= m_block -> 0 <= m_block' ->
  0 <= bidh < p_h params -> 0 <= bidh' < p_h params ->
  0 <= r < kBlockM kt -> 0 <= r' < kBlockM kt ->
  In (StoreLSE a v)
     (compute_attn Is_dropout Is_causal Is_local Has_alibi Is_even_MN
        Is_even_K kt params binfo keep smem_ (m_block, bidb, bidh) tidx
        r c) ->
  In (StoreLSE a v')
     (compute_attn Is_dropout Is_causal Is_local Has_alibi Is_even_MN
        Is_even_K kt params binfo keep' smem_' (m_block', bidb', bidh')
        tidx' r' c') ->
  m_block = m_block' /\ bidb = bidb' /\ bidh = bidh' /\ r = r'.
Proof.
  intros HBr Hsq Hm Hm' Hh Hh' Hr Hr' Hin Hin'.
  unfold compute_attn in Hin, Hin'.
  apply dense_stores_cases in Hin
    as [[E _]|[[_ [_ [_ [w E]]]]|[_ [Hrow [w E]]]]]; try discriminate E.
  apply dense_stores_cases in Hin'
    as [[E' _]|[[_ [_ [_ [w' E']]]]|[_ [Hrow' [w' E']]]]];
    try discriminate E'.
  injection E as Ea _. injection E' as Ea' _.
  pose proof (Hsq bidb) as Hq. pose proof (Hsq bidb') as Hq'.
  unfold dense_LSE_index in Ea, Ea'.
  assert (Hrows : 0 <= m_block * kBlockM kt + r < p_seqlen_q params
                  /\ 0 <= m_block' * kBlockM kt + r' < p_seqlen_q params)
    by nia.
  destruct Hrows as [Hg Hg'].
  destruct (radix_unique (bidb * p_h params + bidh)
              (m_block * kBlockM kt + r)
              (bidb' * p_h params + bidh')
              (m_block' * kBlockM kt + r') (p_seqlen_q params) Hg Hg'
              ltac:(lia)) as [E1 E2].
  destruct (radix_unique bidb bidh bidb' bidh' (p_h params) Hh Hh' E1)
    as [E3 E4].
  destruct (radix_unique m_block r m_block' r' (kBlockM kt) Hr Hr' E2)
    as [E5 E6].
  auto.
Qed.

(** Two stores of the LSE of the masked row: the same block and row. *)
Lemma dense_lse_single_writer_witness :
  0 = 0 /\ 0 = 0 /\ 0 = 0 /\ 0 = 0.
Proof.
  apply (dense_lse_single_writer false true false false false false
           unit_traits masked_row_params (fun _ => masked_row_binfo)
           (fun _ _ => true) (fun _ _ => true)
           (fun _ _ => Fin 0%R) (fun _ _ => Fin 0%R)
           0 0 0 0 0 0 0 0 0 0 0 0 0 PInf PInf);
    try (cbn; lia); try (intros b; cbn; lia);
    cbv -[Rplus Rmult Rminus Ropp Rdiv Rinv exp ln IZR Req_dec_T Rlt_dec
          Rmax Rlt];
    right; left; reflexivity.
Defined.

(** ** Where the split kernel writes *)


(** The stores of the split kernel, path by path. *)
Lemma split_stores_cases
    (Is_causal Is_local Has_alibi Is_even_MN Is_even_K Split Append_KV : bool)
    (kt : Kernel_traits) (params : Params) (binfo : BlockInfo)
    (smem_ : Z -> Z -> fp)
    (bidb bidh m_block n_split_idx num_n_splits r c : Z) (s : store) :
  In s (compute_attn_1rowblock_splitkv Is_causal Is_local Has_alibi
          Is_even_MN Is_even_K Split Append_KV kt params binfo smem_
          bidb bidh m_block n_split_idx num_n_splits r c) ->
  (is_kv_store s /\ Append_KV = true)
  \/ (m_block * kBlockM kt < actual_seqlen_q binfo
      /\ (Is_even_MN = true
          \/ m_block * kBlockM kt + r < actual_seqlen_q binfo)
      /\ (Is_even_K = true \/ c < p_d params)
      /\ exists v,
           s = if Split
               then StoreOaccum (split_Oaccum_index kt params bidb bidh
                                   m_block n_split_idx r c) v
               else StoreO (dense_O_index kt params binfo bidb bidh
                              m_block r c) v)
  \/ (m_block * kBlockM kt + r < actual_seqlen_q binfo
      /\ exists v,
           s = if Split
               then StoreLSEaccum (split_LSEaccum_index kt params bidb bidh
                                     m_block n_split_idx r) v
               else StoreLSE (split_LSEaccum_index kt params bidb bidh
                                m_block n_split_idx r) v).
Proof.
  unfold compute_attn_1rowblock_splitkv.
  destruct (actual_seqlen_q binfo <=? m_block * kBlockM kt) eqn:Eq;
    [intros []|].
  apply Z.leb_gt in Eq.
  set (store_o := fun v : fp =>
         if Split
         then store_elt Is_even_MN Is_even_K StoreOaccum
                ((((n_split_idx * p_b params + bidb) * p_h params + bidh)
                  * p_seqlen_q params + m_block * kBlockM kt)
                 * p_d_rounded params)
                (kHeadDim kt) (actual_seqlen_q binfo - m_block * kBlockM kt)
                (p_d params) r c v
         else store_elt Is_even_MN Is_even_K StoreO
                (q_offset binfo (o_batch_stride params) (o_row_stride params)
                   bidb
                 + m_block * kBlockM kt * o_row_stride params
                 + bidh * o_head_stride params)
                (o_row_stride params)
                (actual_seqlen_q binfo - m_block * kBlockM kt)
                (p_d params) r c v).
  set (store_l := fun v : fp =>
         store_lse (if Split then StoreLSEaccum else StoreLSE)
           (((n_split_idx * p_b params + bidb) * p_h params + bidh)
            * p_seqlen_q params + m_block * kBlockM kt)
           (actual_seqlen_q binfo - m_block * kBlockM kt) r v).
  assert (HO : forall v, In s (store_o v) ->
            (Is_even_MN = true
             \/ m_block * kBlockM kt + r < actual_seqlen_q binfo)
            /\ (Is_even_K = true \/ c < p_d params)
            /\ exists v,
                 s = if Split
                     then StoreOaccum (split_Oaccum_index kt params bidb
                                         bidh m_block n_split_idx r c) v
                     else StoreO (dense_O_index kt params binfo bidb bidh
                                    m_block r c) v).
  { intros v Hin. unfold store_o in Hin.
    destruct Split; apply in_store_elt in Hin as [H1 [H2 E]];
      (split; [destruct H1; [left; assumption|right; lia]|]);
      (split; [exact H2|]); exists v; rewrite E;
      unfold split_Oaccum_index, dense_O_index; f_equal. }
  assert (HL : forall v, In s (store_l v) ->
            m_block * kBlockM kt + r < actual_seqlen_q binfo
            /\ exists v,
                 s = if Split
                     then StoreLSEaccum (split_LSEaccum_index kt params bidb
                                           bidh m_block n_split_idx r) v
                     else StoreLSE (split_LSEaccum_index kt params bidb bidh
                                      m_block n_split_idx r) v).
  { intros v Hin. unfold store_l in Hin.
    apply in_store_lse in Hin as [H1 E].
    split; [lia|]. exists v. rewrite E.
    unfold split_LSEaccum_index. destruct Split; reflexivity. }
  destruct (_ <=? _).
  - intros Hin. apply in_app_iff in Hin as [Hin|Hin].
    + right. left. split; [exact Eq|]. apply (HO _ Hin).
    + right. right. apply (HL _ Hin).
  - destruct (apply_stores _ _) as [k_mem v_mem].
    match goal with
    | |- context [normalize_softmax_lse ?a ?b ?sm ?acc ?sc ?rp] =>
        destruct (normalize_softmax_lse a b sm acc sc rp) as [lse o]
    end.
    intros Hin. apply in_app_iff in Hin as [Hin|Hin].
    + left. destruct Append_KV; [|destruct Hin].
      split; [|reflexivity]. unfold append_kv in Hin.
      apply (append_loop_kv _ _ _ _ _ _ _ _ _ Hin).
    + apply in_app_iff in Hin as [Hin|Hin].
      * right. right. apply (HL _ Hin).
      * right. left. split; [exact Eq|]. apply (HO _ Hin).
Qed.

(** X5: every partial result has a single writer.  With [d_rounded]
    equal to the head dimension of the tile and the queries of both batch
    elements within [seqlen_q], two stores of blocks of the split kernel
    to the same entry of LSEaccum come from the same split, batch, head,
    query tile and row, and two stores to the same element of Oaccum from
    the same column as well: the splits never overwrite each other. *)
Theorem split_accum_single_writer
    (Is_causal Is_local Has_alibi Is_even_MN Is_even_K Append_KV : bool)
    (kt : Kernel_traits) (params : Params) (binfo binfo' : BlockInfo)
    (smem_ smem_' : Z -> Z -> fp)
    (bidb bidh m_block n_split_idx num_n_splits r c : Z)
    (bidb' bidh' m_block' n_split_idx' num_n_splits' r' c' : Z) :
  0 < kBlockM kt -> p_d_rounded params = kHeadDim kt ->
  actual_seqlen_q binfo <= p_seqlen_q params ->
  actual_seqlen_q binfo' <= p_seqlen_q params ->
  (Is_even_MN = true ->
   (kBlockM kt | actual_seqlen_q binfo)
   /\ (kBlockM kt | actual_seqlen_q binfo')) ->
  0 <= m_block -> 0 <= m_block' ->
  0 <= bidb < p_b params -> 0 <= bidb' < p_b params ->
  0 <= bidh < p_h params -> 0 <= bidh' < p_h params ->
  0 <= r < kBlockM kt -> 0 <= r' < kBlockM kt ->
  0 <= c < kHeadDim kt -> 0 <= c' < kHeadDim kt ->
  let run :=
    compute_attn_1rowblock_splitkv Is_causal Is_local Has_alibi Is_even_MN
      Is_even_K true Append_KV kt params binfo smem_ bidb bidh m_block
      n_split_idx num_n_splits r c in
  let run' :=
    compute_attn_1rowblock_splitkv Is_causal Is_local Has_alibi Is_even_MN
      Is_even_K true Append_KV kt params binfo' smem_' bidb' bidh' m_block'
      n_split_idx' num_n_splits' r' c' in
  (forall a v v', In (StoreLSEaccum a v) run -> In (StoreLSEaccum a v') run' ->
     n_split_idx = n_split_idx' /\ bidb = bidb' /\ bidh = bidh'
     /\ m_block = m_block' /\ r = r')
  /\ (forall a v v', In (StoreOaccum a v) run -> In (StoreOaccum a v') run' ->
        n_split_idx = n_split_idx' /\ bidb = bidb' /\ bidh = bidh'
        /\ m_block = m_block' /\ r = r' /\ c = c').
Proof.
  intros HBr Hdr Hq Hq' Hev Hm Hm' Hb Hb' Hh Hh' Hr Hr' Hc Hc' run run'.
  assert (Hin_row : forall bi m rr,
            0 <= rr < kBlockM kt ->
            (Is_even_MN = true -> (kBlockM kt | actual_seqlen_q bi)) ->
            m * kBlockM kt < actual_seqlen_q bi ->
            Is_even_MN = true \/ m * kBlockM kt + rr < actual_seqlen_q bi ->
            m * kBlockM kt + rr < actual_seqlen_q bi).
  { intros bi m rr Hrr Hd Ht [He|H]; [|exact H].
    destruct (Hd He) as [t Ht']. rewrite Ht' in Ht |- *.
    assert (m < t) by nia. nia. }
  assert (Hrows : forall g g',
            g = ((n_split_idx * p_b params + bidb) * p_h params + bidh)
                * p_seqlen_q params + (m_block * kBlockM kt + r) ->
            g' = ((n_split_idx' * p_b params + bidb') * p_h params + bidh')
                 * p_seqlen_q params + (m_block' * kBlockM kt + r') ->
            m_block * kBlockM kt + r < p_seqlen_q params ->
            m_block' * kBlockM kt + r' < p_seqlen_q params ->
            g = g' ->
            n_split_idx = n_split_idx' /\ bidb = bidb' /\ bidh = bidh'
            /\ m_block = m_block' /\ r = r').
  { intros g g' Eg Eg' Hg Hg' E. subst g g'.
    assert (Hg0 : 0 <= m_block * kBlockM kt + r) by nia.
    assert (Hg0' : 0 <= m_block' * kBlockM kt + r') by nia.
    destruct (radix_unique _ _ _ _ (p_seqlen_q params)
                (conj Hg0 Hg) (conj Hg0' Hg') E) as [E1 E2].
    destruct (radix_unique _ _ _ _ (p_h params) Hh Hh' E1) as [E3 E4].
    destruct (radix_unique _ _ _ _ (p_b params) Hb Hb' E3) as [E5 E6].
    destruct (radix_unique _ _ _ _ (kBlockM kt) Hr Hr' E2) as [E7 E8].
    auto. }
  split.
  - intros a v v' Hin Hin'.
    apply split_stores_cases in Hin
      as [[Hk _]|[[_ [_ [_ [w E]]]]|[Hrow [w E]]]];
      [destruct Hk|discriminate E|].
    apply split_stores_cases in Hin'
      as [[Hk _]|[[_ [_ [_ [w' E']]]]|[Hrow' [w' E']]]];
      [destruct Hk|discriminate E'|].
    cbn in E, E'. injection E as Ea _. injection E' as Ea' _.
    unfold split_LSEaccum_index in Ea, Ea'.
    eapply Hrows; try reflexivity; lia.
  - intros a v v' Hin Hin'.
    apply split_stores_cases in Hin
      as [[Hk _]|[[Ht [Hrow [_ [w E]]]]|[_ [w E]]]];
      [destruct Hk| |discriminate E].
    apply split_stores_cases in Hin'
      as [[Hk _]|[[Ht' [Hrow' [_ [w' E']]]]|[_ [w' E']]]];
      [destruct Hk| |discriminate E'].
    cbn in E, E'. injection E as Ea _. injection E' as Ea' _.
    unfold split_Oaccum_index in Ea, Ea'. rewrite Hdr in Ea, Ea'.
    pose proof (Hin_row binfo m_block r Hr
                  (fun He => proj1 (Hev He)) Ht Hrow) as Hlt.
    pose proof (Hin_row binfo' m_block' r' Hr'
                  (fun He => proj2 (Hev He)) Ht' Hrow') as Hlt'.
    destruct (radix_unique
                (((n_split_idx * p_b params + bidb) * p_h params + bidh)
                 * p_seqlen_q params + (m_block * kBlockM kt + r)) c
                (((n_split_idx' * p_b params + bidb') * p_h params + bidh')
                 * p_seqlen_q params + (m_block' * kBlockM kt + r')) c'
                (kHeadDim kt) Hc Hc' ltac:(lia)) as [E1 E2].
    destruct (Hrows _ _ eq_refl eq_refl ltac:(lia) ltac:(lia) E1)
      as [H1 [H2 [H3 [H4 H5]]]].
    auto 10.
Qed.

(** Two stores of the partial LSE of the masked row by the split kernel. *)
Lemma split_accum_single_writer_witness :
  0 = 0 /\ 0 = 0 /\ 0 = 0 /\ 0 = 0 /\ 0 = 0.
Proof.
  destruct (split_accum_single_writer true false false false false false
              unit_traits masked_row_params masked_row_binfo
              masked_row_binfo (fun _ _ => Fin 0%R) (fun _ _ => Fin 0%R)
              0 0 0 0 1 0 0 0 0 0 0 1 0 0) as [H _].
  1-15: try (cbn; lia); try reflexivity; try discriminate.
  apply (H 0 NInf NInf);
    cbv -[Rplus Rmult Rminus Ropp Rdiv Rinv exp ln IZR Req_dec_T Rlt_dec
          Rmax Rlt];
    right; left; reflexivity.
Defined.

(** ** The tile ranges *)

(** The splits have room for every tile of the key length they are
    computed from. *)
Lemma per_split_covers (kt : Kernel_traits) (params : Params)
    (num_n_splits : Z) :
  0 < kBlockN kt -> 0 <= p_seqlen_k params -> 1 <= num_n_splits ->
  ceil_div (p_seqlen_k params) (kBlockN kt)
  <= num_n_splits * n_blocks_per_split kt params num_n_splits.
Proof.
  intros HBc Hsk Hn. unfold n_blocks_per_split, ceil_div.
  set (T := cdiv (p_seqlen_k params + kBlockN kt - 1) (kBlockN kt)).
  assert (HT : 0 <= T).
  { unfold T. rewrite cdiv_nonneg by lia. apply Z.div_pos; lia. }
  rewrite (cdiv_nonneg (T + num_n_splits - 1)) by lia.
  pose proof (Z.div_mod (T + num_n_splits - 1) num_n_splits ltac:(lia)).
  pose proof (Z.mod_pos_bound (T + num_n_splits - 1) num_n_splits
                ltac:(lia)).
  lia.
Qed.

Lemma ceil_div_mono (a b n : Z) :
  0 < n -> 0 <= a <= b -> ceil_div a n <= ceil_div b n.
Proof.
  intros Hn Hab. unfold ceil_div. rewrite !cdiv_nonneg by lia.
  apply Z.div_le_mono; lia.
Qed.

(** X6: the splits partition the tile range.  With at least one split
    and a key length within [seqlen_k], a K/V tile belongs to the range
    of the dense kernel for a query tile exactly when it belongs to the
    range of one of the [num_n_splits] splits of the split kernel for that
    query tile, and it belongs to the range of at most one split. *)
Theorem split_ranges_partition
    (Is_causal Is_local : bool) (kt : Kernel_traits) (params : Params)
    (binfo : BlockInfo) (m_block num_n_splits : Z) :
  0 < kBlockN kt -> 1 <= num_n_splits ->
  0 <= actual_seqlen_k binfo <= p_seqlen_k params ->
  let in_split s n :=
    split_n_block_min Is_local kt params binfo m_block s num_n_splits <= n
    < split_n_block_max Is_causal Is_local kt params binfo m_block s
        num_n_splits in
  (forall n,
     n_block_min Is_local kt params binfo m_block <= n
     < n_block_max Is_causal Is_local kt params binfo m_block
     <-> exists s, 0 <= s < num_n_splits /\ in_split s n)
  /\ (forall n s s', 0 <= s -> 0 <= s' ->
        in_split s n -> in_split s' n -> s = s').
Proof.
  intros HBc Hn Hsk in_split.
  set (per := n_blocks_per_split kt params num_n_splits).
  assert (Hper : 0 <= per)
    by (apply per_split_nonneg; lia).
  assert (Hcov : ceil_div (actual_seqlen_k binfo) (kBlockN kt)
                 <= num_n_splits * per).
  { apply Z.le_trans with (ceil_div (p_seqlen_k params) (kBlockN kt)).
    - apply ceil_div_mono; lia.
    - apply per_split_covers; lia. }
  assert (Hmin : 0 <= n_block_min Is_local kt params binfo m_block)
    by (unfold n_block_min; destruct (negb Is_local); lia).
  assert (Hmax : n_block_max Is_causal Is_local kt params binfo m_block
                 <= ceil_div (actual_seqlen_k binfo) (kBlockN kt))
    by (unfold n_block_max; destruct (Is_causal || Is_local); lia).
  assert (Hrange : forall s n, 0 <= s ->
            (in_split s n
             <-> (s * per <= n < (s + 1) * per
                  /\ n_block_min Is_local kt params binfo m_block <= n
                     < n_block_max Is_causal Is_local kt params binfo
                         m_block))).
  { intros s n Hs. unfold in_split.
    destruct (split_range_max_min Is_causal Is_local kt params binfo
                m_block s num_n_splits ltac:(fold per; nia)) as [E1 E2].
    rewrite E1, E2. fold per. lia. }
  split.
  - intros n. split.
    + intros Hin.
      assert (Hpos : 0 < per) by nia.
      exists (n / per).
      assert (H0 : 0 <= n / per) by (apply Z.div_pos; lia).
      split.
      * split; [exact H0|]. apply Z.div_lt_upper_bound; nia.
      * apply Hrange; [exact H0|]. split; [|exact Hin].
        pose proof (Z.div_mod n per ltac:(lia)).
        pose proof (Z.mod_pos_bound n per Hpos). nia.
    + intros [s [Hs Hin]]. apply Hrange in Hin; [|lia]. tauto.
  - intros n s s' Hs Hs' Hin Hin'.
    apply Hrange in Hin; [|exact Hs]. apply Hrange in Hin'; [|exact Hs'].
    destruct Hin as [Hin _]. destruct Hin' as [Hin' _].
    destruct (Z_lt_le_dec s s') as [H|H]; [nia|].
    destruct (Z_lt_le_dec s' s) as [H'|H']; [nia|lia].
Qed.

(** Four tiles in three splits of two: the last tile is in a split. *)
Lemma split_ranges_partition_witness :
  exists s, 0 <= s < 3
    /\ split_n_block_min false one_key_traits four_tile_params
         four_tile_binfo 0 s 3 <= 3
       < split_n_block_max false false one_key_traits four_tile_params
           four_tile_binfo 0 s 3.
Proof.
  destruct (split_ranges_partition false false one_key_traits
              four_tile_params four_tile_binfo 0 3) as [H _].
  1-3: cbn; lia.
  apply (proj1 (H 3)). vm_compute. split; [discriminate|reflexivity].
Defined.

(** X7: the tiles of a range start inside the keys.  Every K/V tile [n]
    of the range of the dense kernel, and of the range of a split of the
    split kernel, has an index that is not negative and a first row
    [n * kBlockN] below [actual_seqlen_k]; when the key length is a
    multiple of the tile size, as [Is_even_MN] requires, the whole tile
    lies inside the keys. *)
Theorem tile_range_within_keys
    (Is_causal Is_local : bool) (kt : Kernel_traits) (params : Params)
    (binfo : BlockInfo) (m_block n_split_idx num_n_splits n : Z) :
  0 < kBlockN kt -> 0 <= p_seqlen_k params -> 1 <= num_n_splits ->
  0 <= n_split_idx ->
  (n_block_min Is_local kt params binfo m_block <= n
   < n_block_max Is_causal Is_local kt params binfo m_block
   \/ split_n_block_min Is_local kt params binfo m_block n_split_idx
        num_n_splits <= n
      < split_n_block_max Is_causal Is_local kt params binfo m_block
          n_split_idx num_n_splits) ->
  0 <= n /\ n * kBlockN kt < actual_seqlen_k binfo
  /\ ((kBlockN kt | actual_seqlen_k binfo) ->
      (n + 1) * kBlockN kt <= actual_seqlen_k binfo).
Proof.
  intros HBc Hsk Hn Hs Hin.
  assert (Hper : 0 <= n_blocks_per_split kt params num_n_splits)
    by (apply per_split_nonneg; lia).
  assert (Hdense : n_block_min Is_local kt params binfo m_block <= n
                   < n_block_max Is_causal Is_local kt params binfo m_block).
  { destruct Hin as [Hin|Hin]; [exact Hin|].
    destruct (split_range_max_min Is_causal Is_local kt params binfo
                m_block n_split_idx num_n_splits ltac:(nia)) as [E1 E2].
    rewrite E1, E2 in Hin. lia. }
  assert (Hmin : 0 <= n_block_min Is_local kt params binfo m_block)
    by (unfold n_block_min; destruct (negb Is_local); lia).
  assert (Hmax : n_block_max Is_causal Is_local kt params binfo m_block
                 <= ceil_div (actual_seqlen_k binfo) (kBlockN kt))
    by (unfold n_block_max; destruct (Is_causal || Is_local); lia).
  assert (Hpos : 0 < actual_seqlen_k binfo).
  { destruct (Z_le_gt_dec (actual_seqlen_k binfo) 0) as [H0|H0]; [|lia].
    pose proof (ceil_div_nonpos _ _ HBc H0). lia. }
  pose proof (ceil_div_tight (actual_seqlen_k binfo) (kBlockN kt) HBc
                ltac:(lia)) as Ht.
  split; [lia|]. split; [nia|].
  intros [t Et]. rewrite Et in *.
  assert (n < t) by nia. nia.
Qed.

(** The last of the four tiles of two hundred keys. *)
Lemma tile_range_within_keys_witness :
  0 <= 3 /\ 3 * kBlockN one_key_traits < actual_seqlen_k four_tile_binfo
  /\ ((kBlockN one_key_traits | actual_seqlen_k four_tile_binfo) ->
      (3 + 1) * kBlockN one_key_traits <= actual_seqlen_k four_tile_binfo).
Proof.
  apply (tile_range_within_keys false false one_key_traits four_tile_params
           four_tile_binfo 0 1 3 3); cbn; lia.
Defined.

(** X8: the masking steps suffice.  For a supported launch of the dense
    kernel or of a split of the split kernel, a tile of the range that is
    more than [n_masking_steps] tiles below its end, the tiles that the
    second loop handles without the causal and the key-length rules, has
    all its keys below [actual_seqlen_k] and, under a causal mask, at or
    below the diagonal [row + actual_seqlen_k - actual_seqlen_q] of every
    row of the query tile. *)
Theorem masking_steps_suffice
    (Is_causal Is_local Is_even_MN Is_even_K : bool) (kt : Kernel_traits)
    (params : Params) (binfo : BlockInfo)
    (m_block n_split_idx num_n_splits r n j : Z) :
  supported Is_causal Is_even_MN Is_even_K kt params binfo ->
  0 <= p_seqlen_k params -> 1 <= num_n_splits -> 0 <= n_split_idx ->
  0 <= r < kBlockM kt -> 0 <= j < kBlockN kt ->
  let nms := n_masking_steps Is_causal Is_local Is_even_MN kt in
  (n_block_min Is_local kt params binfo m_block <= n
   < n_block_max Is_causal Is_local kt params binfo m_block - nms
   \/ split_n_block_min Is_local kt params binfo m_block n_split_idx
        num_n_splits <= n
      < split_n_block_max Is_causal Is_local kt params binfo m_block
          n_split_idx num_n_splits - nms) ->
  n * kBlockN kt + j < actual_seqlen_k binfo
  /\ (Is_causal = true ->
      n * kBlockN kt + j
      <= m_block * kBlockM kt + r + actual_seqlen_k binfo
         - actual_seqlen_q binfo).
Proof.
  intros Hsup Hsk Hn Hs Hr Hj nms Hin.
  pose proof (sup_Bc _ _ _ _ _ _ Hsup) as HBc.
  assert (Hper : 0 <= n_blocks_per_split kt params num_n_splits)
    by (apply per_split_nonneg; lia).
  apply (interior_tiles Is_causal Is_local Is_even_MN kt params binfo
           m_block r HBc (sup_Br _ _ _ _ _ _ Hsup) Hr
           (sup_causal _ _ _ _ _ _ Hsup) (sup_even_MN _ _ _ _ _ _ Hsup)
           (sup_tiles _ _ _ _ _ _ Hsup) n j); [|exact Hj].
  destruct Hin as [Hin|Hin]; [exact Hin|].
  destruct (split_range_max_min Is_causal Is_local kt params binfo
              m_block n_split_idx num_n_splits ltac:(nia)) as [E1 E2].
  rewrite E1, E2 in Hin. fold nms. lia.
Qed.

(** The last query tile of a causal launch of four tiles by four: the
    last key of the second tile lies below the diagonal of its first
    row. *)
Lemma masking_steps_suffice_witness :
  1 * kBlockN one_key_traits + 63 < actual_seqlen_k square_binfo
  /\ (true = true ->
      1 * kBlockN one_key_traits + 63
      <= 3 * kBlockM one_key_traits + 0 + actual_seqlen_k square_binfo
         - actual_seqlen_q square_binfo).
Proof.
  apply (masking_steps_suffice true false false false one_key_traits
           square_params square_binfo 3 0 1 0 1 63);
    try (cbn; lia).
  constructor; cbn; try lia; try discriminate; try reflexivity; lra.
Defined.

(** ** What the LSE of a row depends on *)

(** The softmax state after a tile does not depend on the accumulator. *)
Lemma softmax_rescale_o_state (first ci : bool) (sm : Softmax)
    (s : list fp) (a a' : fp) (sc : R) :
  fst (fst (softmax_rescale_o first ci sm s a sc))
  = fst (fst (softmax_rescale_o first ci sm s a' sc)).
Proof. unfold softmax_rescale_o. destruct first; reflexivity. Qed.

Section RowOfKeys.

Variables Is_causal Is_local Has_alibi Is_even_MN Is_even_K : bool.
Variable kt : Kernel_traits.
Variable binfo : BlockInfo.
Variable bt : option (Z -> Z).
Variable k_mem : gmem.
Variable mask : Mask.
Variable sQ : Z -> fp.
Variable smem_ : Z -> Z -> fp.
Variables m_block r n_block_min : Z.
(** The two runs: dropout, the parameters, the V memory and the column
    of the thread. *)
Variables Is_dropout Is_dropout' : bool.
Variables params params' : Params.
Variables v_mem v_mem' : gmem.
Variables keep keep' : Z -> Z -> bool.
Variables c c' : Z.

Hypothesis Hkb : k_batch_stride params' = k_batch_stride params.
Hypothesis Hkr : k_row_stride params' = k_row_stride params.
Hypothesis Hpage : page_block_size params' = page_block_size params.
Hypothesis Hd : p_d params' = p_d params.
Hypothesis Hscale : scale_softmax_log2 params' = scale_softmax_log2 params.

Let step :=
  attn_iter Is_dropout Is_causal Is_local Has_alibi Is_even_MN Is_even_K kt
    params binfo bt k_mem v_mem mask sQ smem_ keep m_block r c n_block_min.
Let step' :=
  attn_iter Is_dropout' Is_causal Is_local Has_alibi Is_even_MN Is_even_K kt
    params' binfo bt k_mem v_mem' mask sQ smem_ keep' m_block r c'
    n_block_min.

Lemma attn_iter_same_row (masking first ci : bool) (st st' : attn_state) :
  same_row st st' ->
  same_row (step masking first ci st) (step' masking first ci st').
Proof.
  intros [Hn [Hk Hs]].
  assert (Eacc :
            iter_acc_s Is_causal Is_local Has_alibi Is_even_MN Is_even_K kt
              params' binfo k_mem mask sQ smem_ m_block r masking first st'
            = iter_acc_s Is_causal Is_local Has_alibi Is_even_MN Is_even_K
                kt params binfo k_mem mask sQ smem_ m_block r masking first
                st).
  { unfold iter_acc_s, iter_sK. rewrite Hkr, Hd, <- Hn, <- Hk.
    reflexivity. }
  unfold step, step', attn_iter. rewrite Eacc, Hscale, <- Hs.
  pose proof (softmax_rescale_o_state first ci (softmax st)
                (iter_acc_s Is_causal Is_local Has_alibi Is_even_MN
                   Is_even_K kt params binfo k_mem mask sQ smem_ m_block r
                   masking first st)
                (acc_o st) (acc_o st') (scale_softmax_log2 params)) as E.
  destruct (softmax_rescale_o first ci (softmax st) _ (acc_o st) _)
    as [[sm P] a1].
  destruct (softmax_rescale_o first ci (softmax st) _ (acc_o st') _)
    as [[sm' P'] a1'].
  cbn [fst] in E. subst sm'.
  unfold same_row. cbn [n_block tKgK softmax].
  split; [exact Hn|]. split; [|reflexivity].
  unfold iter_tKgK, advance_tile. rewrite Hkb, Hkr, Hpage, <- Hn, <- Hk.
  reflexivity.
Qed.

Lemma dec_n_block_same_row (st st' : attn_state) :
  same_row st st' -> same_row (dec_n_block st) (dec_n_block st').
Proof.
  intros [Hn [Hk Hs]]. unfold same_row, dec_n_block.
  cbn [n_block tKgK softmax]. rewrite Hn. auto.
Qed.

Lemma masking_loop_same_row (ci : bool) (steps : nat) :
  forall (first : bool) (st st' : attn_state),
    same_row st st' ->
    same_row
      (masking_loop Is_dropout Is_causal Is_local Has_alibi Is_even_MN
         Is_even_K kt params binfo bt k_mem v_mem mask sQ smem_ keep m_block
         r c n_block_min ci steps first st)
      (masking_loop Is_dropout' Is_causal Is_local Has_alibi Is_even_MN
         Is_even_K kt params' binfo bt k_mem v_mem' mask sQ smem_ keep'
         m_block r c' n_block_min ci steps first st').
Proof.
  induction steps as [|steps IH]; intros first st st' Hst; [exact Hst|].
  cbn [masking_loop]. fold (step true first ci st) (step' true first ci st').
  pose proof (attn_iter_same_row true first ci st st' Hst) as H1.
  destruct H1 as [Hn1 H1'].
  rewrite <- Hn1.
  destruct ((1 <? n_masking_steps Is_causal Is_local Is_even_MN kt)
            && (n_block (step true first ci st) <=? n_block_min)).
  - apply dec_n_block_same_row. split; assumption.
  - apply IH. apply dec_n_block_same_row. split; assumption.
Qed.

Lemma interior_loop_same_row (ci : bool) (steps : nat) :
  forall (st st' : attn_state),
    same_row st st' ->
    same_row
      (interior_loop Is_dropout Is_causal Is_local Has_alibi Is_even_MN
         Is_even_K kt params binfo bt k_mem v_mem mask sQ smem_ keep m_block
         r c n_block_min ci steps st)
      (interior_loop Is_dropout' Is_causal Is_local Has_alibi Is_even_MN
         Is_even_K kt params' binfo bt k_mem v_mem' mask sQ smem_ keep'
         m_block r c' n_block_min ci steps st').
Proof.
  induction steps as [|steps IH]; intros st st' Hst; [exact Hst|].
  cbn [interior_loop]. apply IH. apply dec_n_block_same_row.
  apply attn_iter_same_row. exact Hst.
Qed.

Lemma attn_loops_same_row (ci1 ci2 : bool) (st st' : attn_state) :
  same_row st st' ->
  same_row
    (attn_loops Is_dropout Is_causal Is_local Has_alibi Is_even_MN
       Is_even_K kt params binfo bt k_mem v_mem mask sQ smem_ keep m_block
       r c n_block_min ci1 ci2 st)
    (attn_loops Is_dropout' Is_causal Is_local Has_alibi Is_even_MN
       Is_even_K kt params' binfo bt k_mem v_mem' mask sQ smem_ keep'
       m_block r c' n_block_min ci1 ci2 st').
Proof.
  intros Hst. unfold attn_loops.
  pose proof (masking_loop_same_row ci1
                (Z.to_nat (n_masking_steps Is_causal Is_local Is_even_MN kt))
                true st st' Hst) as H1.
  destruct H1 as [Hn H1']. rewrite <- Hn.
  apply interior_loop_same_row. split; assumption.
Qed.

End RowOfKeys.

(** The LSE of finalize is that of the softmax state. *)
Lemma normalize_lse_state (d d' S : bool) (sm : Softmax) (a a' : fp)
    (sc rp rp' : R) :
  fst (normalize_softmax_lse d S sm a sc rp)
  = fst (normalize_softmax_lse d' S sm a' sc rp').
Proof. reflexivity. Qed.

(** The LSE stores of the dense kernel. *)
Lemma dense_lse_stores
    (Is_dropout Is_causal Is_local Has_alibi Is_even_MN Is_even_K : bool)
    (kt : Kernel_traits) (params : Params) (binfo : BlockInfo)
    (keep : Z -> Z -> bool) (smem_ : Z -> Z -> fp) (blockIdx : Z * Z * Z)
    (tidx bidb bidh m_block r c a : Z) (x : fp) :
  In (StoreLSE a x)
     (compute_attn_1rowblock Is_dropout Is_causal Is_local Has_alibi
        Is_even_MN Is_even_K kt params binfo keep smem_ blockIdx tidx
        bidb bidh m_block r c)
  <-> m_block * kBlockM kt + r < actual_seqlen_q binfo
      /\ m_block * kBlockM kt < actual_seqlen_q binfo
      /\ a = dense_LSE_index kt params bidb bidh m_block r
      /\ x = dense_row_lse Is_dropout Is_causal Is_local Has_alibi
               Is_even_MN Is_even_K kt params binfo keep smem_ bidb bidh
               m_block r c.
Proof.
  unfold compute_attn_1rowblock, dense_row_lse.
  destruct blockIdx as [[bx by_] bz].
  set (rng := if Is_dropout && (bx =? 0) && (by_ =? 0) && (bz =? 0)
                 && (tidx =? 0)
              then [StoreRngState (philox_seed params) (philox_offset params)]
              else []).
  assert (Hrng : ~ In (StoreLSE a x) rng).
  { unfold rng. destruct (_ && _); [|intros []].
    intros [E|[]]. discriminate E. }
  assert (HO : forall ro rs mx d v,
            ~ In (StoreLSE a x)
                 (store_elt Is_even_MN Is_even_K StoreO ro rs mx d r c v)).
  { intros ro rs mx d v Hin. apply in_store_elt in Hin as [_ [_ E]].
    discriminate E. }
  assert (HL : forall v,
            In (StoreLSE a x)
               (store_lse StoreLSE
                  ((bidb * p_h params + bidh) * p_seqlen_q params
                   + m_block * kBlockM kt)
                  (actual_seqlen_q binfo - m_block * kBlockM kt) r v)
            <-> m_block * kBlockM kt + r < actual_seqlen_q binfo
                /\ a = dense_LSE_index kt params bidb bidh m_block r
                /\ x = v).
  { intros v. rewrite in_store_lse. unfold dense_LSE_index. split.
    - intros [H E]. injection E as -> ->. repeat split; lia.
    - intros [H [-> ->]]. split; [lia|reflexivity]. }
  destruct (actual_seqlen_q binfo <=? m_block * kBlockM kt) eqn:Eq.
  { apply Z.leb_le in Eq. split; [intros H; destruct (Hrng H)|].
    intros [_ [H _]]. lia. }
  apply Z.leb_gt in Eq.
  destruct ((Is_causal || Is_local || negb Is_even_MN)
            && (n_block_max Is_causal Is_local kt params binfo m_block
                <=? n_block_min Is_local kt params binfo m_block)).
  - rewrite !in_app_iff, HL. split.
    + intros [H|[H|H]]; [destruct (Hrng H)|destruct (HO _ _ _ _ _ H)|].
      tauto.
    + intros [H1 [_ [H2 H3]]]. right. right. auto.
  - match goal with
    | |- context [normalize_softmax_lse ?d ?S ?sm ?acc ?sc ?rp] =>
        destruct (normalize_softmax_lse d S sm acc sc rp) as [lse o]
    end.
    cbn [fst]. rewrite !in_app_iff, HL. split.
    + intros [H|[H|H]]; [destruct (Hrng H)| |destruct (HO _ _ _ _ _ H)].
      tauto.
    + intros [H1 [_ [H2 H3]]]. right. left. auto.
Qed.

(** X9: the LSE of a row depends on the keys alone.  The LSE that the
    dense kernel stores for a row is the same whatever the V tensor and
    its strides, with dropout on or off and whatever the dropout pattern,
    and for every column of the head dimension and every thread index:
    the runs store to the same LSE entry the same value. *)
Theorem dense_lse_depends_on_keys
    (Is_dropout Is_dropout' Is_causal Is_local Has_alibi Is_even_MN
       Is_even_K : bool)
    (kt : Kernel_traits) (params : Params) (binfo : BlockInfo)
    (keep keep' : Z -> Z -> bool) (smem_ : Z -> Z -> fp)
    (blockIdx blockIdx' : Z * Z * Z)
    (tidx tidx' bidb bidh m_block r c c' : Z)
    (v' : gmem) (vbs vrs vhs : Z) (a : Z) (x : fp) :
  In (StoreLSE a x)
     (compute_attn_1rowblock Is_dropout Is_causal Is_local Has_alibi
        Is_even_MN Is_even_K kt params binfo keep smem_ blockIdx tidx
        bidb bidh m_block r c)
  <-> In (StoreLSE a x)
         (compute_attn_1rowblock Is_dropout' Is_causal Is_local Has_alibi
            Is_even_MN Is_even_K kt (with_values params v' vbs vrs vhs)
            binfo keep' smem_ blockIdx' tidx' bidb bidh m_block r c').
Proof.
  rewrite !dense_lse_stores.
  assert (E : dense_row_lse Is_dropout' Is_causal Is_local Has_alibi
                Is_even_MN Is_even_K kt (with_values params v' vbs vrs vhs)
                binfo keep' smem_ bidb bidh m_block r c'
              = dense_row_lse Is_dropout Is_causal Is_local Has_alibi
                  Is_even_MN Is_even_K kt params binfo keep smem_ bidb bidh
                  m_block r c).
  { unfold dense_row_lse.
    change (n_block_min Is_local kt (with_values params v' vbs vrs vhs)
              binfo m_block)
      with (n_block_min Is_local kt params binfo m_block).
    change (n_block_max Is_causal Is_local kt
              (with_values params v' vbs vrs vhs) binfo m_block)
      with (n_block_max Is_causal Is_local kt params binfo m_block).
    destruct (_ && _); [reflexivity|].
    cbv zeta.
    rewrite (normalize_lse_state Is_dropout' Is_dropout false _ _
               (acc_o
                  (attn_loops Is_dropout Is_causal Is_local Has_alibi
                     Is_even_MN Is_even_K kt params binfo None
                     (k_ptr params) (v_ptr params)
                     {| max_seqlen_k := actual_seqlen_k binfo;
                        max_seqlen_q := actual_seqlen_q binfo;
                        mask_window_size_left := window_size_left params;
                        mask_window_size_right := window_size_right params;
                        alibi_slope :=
                          dense_alibi_slope Has_alibi params bidb bidh |}
                     (fun cc =>
                        copy_elt Is_even_MN Is_even_K false (q_ptr params)
                          (q_offset binfo (q_batch_stride params)
                             (q_row_stride params) bidb
                           + m_block * kBlockM kt * q_row_stride params
                           + bidh * q_head_stride params)
                          (q_row_stride params)
                          (actual_seqlen_q binfo - m_block * kBlockM kt)
                          (p_d params) (smem_ r cc) r cc)
                     smem_ keep m_block r c
                     (n_block_min Is_local kt params binfo m_block)
                     (Is_causal || Is_local) Is_local
                     {| n_block :=
                          n_block_max Is_causal Is_local kt params binfo
                            m_block - 1;
                        tKgK := dense_row_offset_k kt params binfo bidb bidh
                                  (n_block_max Is_causal Is_local kt params
                                     binfo m_block);
                        tVgV := dense_row_offset_v kt params binfo bidb bidh
                                  (n_block_max Is_causal Is_local kt params
                                     binfo m_block);
                        softmax := softmax_unset;
                        acc_o := Fin 0%R |}))
               _ _ (rp_dropout params)).
    f_equal. f_equal.
    symmetry.
    refine (proj2 (proj2 (attn_loops_same_row Is_causal Is_local Has_alibi
                            Is_even_MN Is_even_K kt binfo None (k_ptr params)
                            _ _ smem_ m_block r _ Is_dropout Is_dropout'
                            params (with_values params v' vbs vrs vhs)
                            (v_ptr params) v' keep keep' c c'
                            eq_refl eq_refl eq_refl eq_refl eq_refl
                            _ _ _ _ _))).
    repeat split. }
  rewrite E.
  change (dense_LSE_index kt (with_values params v' vbs vrs vhs) bidb bidh
            m_block r)
    with (dense_LSE_index kt params bidb bidh m_block r).
  reflexivity.
Qed.

(** ** The split kernel without a split *)

(** The first store of a thread of the dense kernel without dropout that
    holds an element of the output: the O element on the early exit, the
    LSE of the row otherwise. *)
Lemma dense_first_store
    (Is_causal Is_local Has_alibi Is_even_MN Is_even_K : bool)
    (kt : Kernel_traits) (params : Params) (binfo : BlockInfo)
    (keep : Z -> Z -> bool) (smem_ : Z -> Z -> fp) (blockIdx : Z * Z * Z)
    (tidx bidb bidh m_block r c : Z) :
  m_block * kBlockM kt + r < actual_seqlen_q binfo -> 0 <= r ->
  c < p_d params ->
  exists a v rest,
    compute_attn_1rowblock false Is_causal Is_local Has_alibi Is_even_MN
      Is_even_K kt params binfo keep smem_ blockIdx tidx bidb bidh m_block
      r c
    = (if (Is_causal || Is_local || negb Is_even_MN)
          && (n_block_max Is_causal Is_local kt params binfo m_block
              <=? n_block_min Is_local kt params binfo m_block)
       then StoreO a v else StoreLSE a v) :: rest.
Proof.
  intros Hrow Hr Hc. unfold compute_attn_1rowblock.
  destruct blockIdx as [[bx by_] bz]. cbn [andb app].
  replace (actual_seqlen_q binfo <=? m_block * kBlockM kt) with false
    by (symmetry; apply Z.leb_gt; lia).
  assert (Hrv : (r <? actual_seqlen_q binfo - m_block * kBlockM kt) = true)
    by (apply Z.ltb_lt; lia).
  assert (Hcv : (c <? p_d params) = true) by (apply Z.ltb_lt; lia).
  destruct (_ && _).
  - unfold store_elt. rewrite Hrv, Hcv, !orb_true_r. cbn [andb app].
    eexists _, _, _. reflexivity.
  - match goal with
    | |- context [normalize_softmax_lse ?d ?S ?sm ?acc ?sc ?rp] =>
        destruct (normalize_softmax_lse d S sm acc sc rp) as [lse o]
    end.
    unfold store_lse. rewrite Hrv. cbn [app].
    eexists _, _, _. reflexivity.
Qed.

(** X10: without a split, the split kernel is the dense kernel.  For a
    supported launch with a contiguous cache read at the batch's own
    entry, a key length within [seqlen_k], slopes that are there when
    [Has_alibi] (the split kernel reads them without testing the
    pointer, the dense kernel tests it) and, unless the instantiation is
    causal, local or not [Is_even_MN], at least one key, the block of
    the split kernel with [Split] and [Append_KV] off, run as split 0 of
    1, issues for every row of the queries and every column of the head
    dimension exactly the stores of the dense kernel without dropout:
    the same values to the same elements of O and LSE, in the same
    order. *)
Theorem unsplit_matches_dense
    (Is_causal Is_local Has_alibi Is_even_MN Is_even_K : bool)
    (kt : Kernel_traits) (params : Params) (binfo : BlockInfo)
    (keep : Z -> Z -> bool) (smem_ : Z -> Z -> fp) (blockIdx : Z * Z * Z)
    (tidx bidb bidh m_block r c : Z) :
  supported Is_causal Is_even_MN Is_even_K kt params binfo ->
  0 <= r < kBlockM kt -> 0 <= c < p_d params ->
  m_block * kBlockM kt + r < actual_seqlen_q binfo ->
  actual_seqlen_k binfo <= p_seqlen_k params ->
  block_table params = None -> cache_batch_idx params = None ->
  (Has_alibi = true -> alibi_slopes_ptr params <> None) ->
  Is_causal || Is_local || negb Is_even_MN = true
  \/ 0 < actual_seqlen_k binfo ->
  compute_attn_1rowblock_splitkv Is_causal Is_local Has_alibi Is_even_MN
    Is_even_K false false kt params binfo smem_ bidb bidh m_block 0 1 r c
  = compute_attn_1rowblock false Is_causal Is_local Has_alibi Is_even_MN
      Is_even_K kt params binfo keep smem_ blockIdx tidx bidb bidh m_block
      r c.
Proof.
  intros Hsup Hr Hc Hrow Hsk Hbt Hcb _ Hguard.
  pose proof (sup_Bc _ _ _ _ _ _ Hsup) as HBc.
  pose proof (sup_sk _ _ _ _ _ _ Hsup) as Hsk0.
  assert (Hper : 0 <= n_blocks_per_split kt params 1)
    by (apply per_split_nonneg; lia).
  pose proof (per_split_covers kt params 1 HBc ltac:(lia) ltac:(lia))
    as Hcov.
  assert (Hmin : 0 <= n_block_min Is_local kt params binfo m_block)
    by (unfold n_block_min; destruct (negb Is_local); lia).
  assert (Hmax : n_block_max Is_causal Is_local kt params binfo m_block
                 <= ceil_div (actual_seqlen_k binfo) (kBlockN kt))
    by (unfold n_block_max; destruct (Is_causal || Is_local); lia).
  pose proof (ceil_div_mono (actual_seqlen_k binfo) (p_seqlen_k params)
                (kBlockN kt) HBc ltac:(lia)) as Hmono.
  destruct (split_range_max_min Is_causal Is_local kt params binfo m_block
              0 1 ltac:(lia)) as [Emin Emax].
  assert (Emin' : split_n_block_min Is_local kt params binfo m_block 0 1
                  = n_block_min Is_local kt params binfo m_block) by lia.
  assert (Emax' : split_n_block_max Is_causal Is_local kt params binfo
                    m_block 0 1
                  = n_block_max Is_causal Is_local kt params binfo m_block)
    by lia.
  assert (Hbt' : block_table_of params bidb = None)
    by (unfold block_table_of; rewrite Hbt; reflexivity).
  rewrite (split_block_stores Is_causal Is_local Has_alibi Is_even_MN
             Is_even_K false false kt params binfo smem_ bidb bidh m_block
             0 1 r c (dense_Q kt params binfo bidb bidh m_block r)
             (dense_K params binfo bidb bidh)
             (dense_V params binfo bidb bidh)
             Hsup Hc Hr Hrow ltac:(lia) Hper).
  - rewrite Emin', Emax'. cbn [app].
    destruct (dense_first_store Is_causal Is_local Has_alibi Is_even_MN
                Is_even_K kt params binfo keep smem_ blockIdx tidx bidb bidh
                m_block r c Hrow ltac:(lia) ltac:(lia))
      as [a0 [v0 [rest Hfirst]]].
    destruct Hsup as [H1 H2 H3 H4 H5 H6 H7 H8 H9 H10].
    pose proof (dense_stores_partial Is_causal Is_local Has_alibi Is_even_MN
                  Is_even_K kt params binfo keep smem_ blockIdx tidx bidb
                  bidh m_block r c H1 H2 H3 H4 Hc Hr Hrow H5 H6 H7 H8 H9
                  H10 Hguard) as Hdense.
    cbv zeta in Hdense.
    assert (Eidx : split_LSEaccum_index kt params bidb bidh m_block 0 r
                   = dense_LSE_index kt params bidb bidh m_block r)
      by (unfold split_LSEaccum_index, dense_LSE_index; ring).
    unfold split_result_stores. rewrite Eidx.
    destruct (n_block_max Is_causal Is_local kt params binfo m_block
              <=? n_block_min Is_local kt params binfo m_block) eqn:Ee.
    + assert (Eg : Is_causal || Is_local || negb Is_even_MN = true).
      { destruct Hguard as [Hg|Hpos]; [exact Hg|].
        destruct (Is_causal || Is_local || negb Is_even_MN) eqn:Eg;
          [reflexivity|exfalso].
        apply orb_false_iff in Eg as [Eg _].
        apply orb_false_iff in Eg as [Ec El].
        apply Z.leb_le in Ee.
        unfold n_block_min, n_block_max in Ee. rewrite Ec, El in Ee.
        cbn [negb orb] in Ee.
        pose proof (ceil_div_covers (actual_seqlen_k binfo) (kBlockN kt)
                      H1).
        nia. }
      rewrite Eg in Hfirst. cbn [andb] in Hfirst.
      assert (ER : ref_partial Is_causal Is_local Has_alibi
                     (actual_seqlen_q binfo) (actual_seqlen_k binfo)
                     (window_size_left params) (window_size_right params)
                     (scale_softmax params)
                     (head_slope Has_alibi params bidb bidh) (p_d params)
                     (m_block * kBlockM kt + r)
                     (dense_Q kt params binfo bidb bidh m_block r)
                     (dense_K params binfo bidb bidh)
                     (dense_V params binfo bidb bidh) false
                     (n_block_min Is_local kt params binfo m_block
                      * kBlockN kt)
                     (n_block_max Is_causal Is_local kt params binfo m_block
                      * kBlockN kt) c
                   = (PInf, Fin 0%R)).
      { apply Z.leb_le in Ee. unfold ref_partial, interval_masked.
        rewrite upto_nonpos by nia. reflexivity. }
      rewrite ER in Hdense. cbn [fst snd] in Hdense. cbn [rev app].
      destruct Hdense as [Hd|Hd]; [symmetry; exact Hd|].
      rewrite Hd in Hfirst. discriminate Hfirst.
    + replace ((Is_causal || Is_local || negb Is_even_MN) && false)
        with false in Hfirst by (symmetry; apply andb_false_r).
      destruct Hdense as [Hd|Hd]; [|symmetry; exact Hd].
      rewrite Hd in Hfirst. discriminate Hfirst.
  - intros cc Hcc. unfold split_load_q. cbn [negb orb].
    apply (dense_sQ Is_causal Is_local Is_even_MN Is_even_K kt params binfo
             smem_ bidb bidh m_block r (sup_even_K _ _ _ _ _ _ Hsup) Hrow
             cc Hcc).
  - intros n j cc Hn Hj Hcol Hcc. cbn [split_memory apply_stores fold_left
      fst].
    unfold dense_K, split_row_offset_k, split_row_offset, bidb_cache.
    rewrite Hbt', Hcb. unfold kv_head. f_equal. ring.
  - intros n j Hn Hj Hcol. cbn [split_memory apply_stores fold_left snd].
    unfold dense_V, split_row_offset_v, split_row_offset, bidb_cache.
    rewrite Hbt', Hcb. unfold kv_head. f_equal. ring.
Qed.

(** One query and one key: both kernels store the same LSE and output. *)
Lemma unsplit_matches_dense_witness :
  compute_attn_1rowblock_splitkv false false false false false false false
    one_key_traits two_split_params one_key_binfo (fun _ _ => Fin 0%R)
    0 0 0 0 1 0 0
  = compute_attn_1rowblock false false false false false false
      one_key_traits two_split_params one_key_binfo (fun _ _ => true)
      (fun _ _ => Fin 0%R) (0, 0, 0) 0 0 0 0 0 0.
Proof.
  apply (unsplit_matches_dense false false false false false one_key_traits
           two_split_params one_key_binfo (fun _ _ => true)
           (fun _ _ => Fin 0%R) (0, 0, 0) 0 0 0 0 0 0 one_key_supported).
  - cbn. lia.
  - cbn. lia.
  - cbn. lia.
  - cbn. lia.
  - reflexivity.
  - reflexivity.
  - intros E. discriminate E.
  - left. reflexivity.
Defined.

(** ** The reduction kernel at the end of the rows *)

Lemma fold_fmax_ninf (A : Type) (l : list A) :
  fold_left fmax (map (fun _ => NInf) l) NInf = NInf.
Proof. induction l as [|x l IH]; [reflexivity|exact IH]. Qed.

Lemma fold_fadd_zero (A : Type) (l : list A) :
  fold_left fadd (map (fun _ => Fin 0%R) l) (Fin 0%R) = Fin 0%R.
Proof.
  induction l as [|x l IH]; [reflexivity|].
  cbn [map fold_left fadd]. replace (0 + 0)%R with 0%R by lra. exact IH.
Qed.

(** The rows per load of the transpose: at least one. *)
Lemma kRowsPerLoadTranspose_pos (combine_kBlockM Log_max_splits : Z) :
  combine_kBlockM = 4 \/ combine_kBlockM = 8 \/ combine_kBlockM = 16
  \/ combine_kBlockM = 32 ->
  0 <= Log_max_splits ->
  0 < kRowsPerLoadTranspose combine_kBlockM Log_max_splits.
Proof.
  intros HkB HLog.
  unfold kRowsPerLoadTranspose, kRowsPerLoadLSE, kMaxSplits, kNThreads.
  pose proof (Z.pow_pos_nonneg 2 Log_max_splits ltac:(lia) HLog).
  destruct HkB as [-> | [-> | [-> | ->]]]; cbn; lia.
Qed.

(** X11: the reduction kernel on a row beyond the last row.  A thread
    group of the reduction kernel that holds a row of its block whose
    global index is at or beyond [b * h * seqlen_q] loads no partial LSE
    and no partial output: it stores plus infinity to the LSE entry of
    that index, the store being predicated on the row within the block
    alone, and it stores no element of O. *)
Theorem combine_row_beyond_end
    (kt : Kernel_traits) (combine_kBlockM Log_max_splits : Z)
    (Is_even_K : bool) (params : Params)
    (softmax_lseaccum_ptr oaccum_ptr : Z -> fp) (bidx col c : Z)
    (reg : fp) :
  combine_kBlockM = 4 \/ combine_kBlockM = 8 \/ combine_kBlockM = 16
  \/ combine_kBlockM = 32 ->
  0 <= Log_max_splits ->
  0 <= col < combine_kBlockM ->
  combine_total_rows params <= bidx * combine_kBlockM + col ->
  combine_attn_seqk_parallel kt combine_kBlockM Log_max_splits Is_even_K
    params softmax_lseaccum_ptr oaccum_ptr bidx col c reg
  = [StoreLSE (bidx * combine_kBlockM + col) PInf].
Proof.
  intros HkB HLog Hcol Hend.
  pose proof (kRowsPerLoadTranspose_pos combine_kBlockM Log_max_splits HkB
                HLog) as HkR.
  assert (Hload : forall row,
            sLSE_loaded combine_kBlockM params softmax_lseaccum_ptr bidx
              row col = NInf).
  { intros row. unfold sLSE_loaded.
    replace (col <? combine_total_rows params - bidx * combine_kBlockM)
      with false by (symmetry; apply Z.ltb_ge; lia).
    rewrite andb_false_r. reflexivity. }
  assert (Haccum : forall lane l,
            lse_accum combine_kBlockM Log_max_splits params
              softmax_lseaccum_ptr bidx col lane l = NInf).
  { intros lane l. unfold lse_accum. rewrite Hload.
    destruct (_ && _); reflexivity. }
  assert (Hmax : lse_max combine_kBlockM Log_max_splits params
                   softmax_lseaccum_ptr bidx col = Fin 0%R).
  { unfold lse_max.
    rewrite (map_ext _ (fun _ => NInf)).
    2:{ intros lane. rewrite Haccum.
        rewrite (map_ext _ (fun _ => NInf)) by (intros l; apply Haccum).
        apply fold_fmax_ninf. }
    rewrite upto_cons by exact HkR. cbn [map Allreduce].
    rewrite map_map, fold_fmax_ninf. reflexivity. }
  assert (Hsum : lse_sum combine_kBlockM Log_max_splits params
                   softmax_lseaccum_ptr bidx col = Fin 0%R).
  { unfold lse_sum. rewrite Hmax.
    rewrite (map_ext _ (fun _ => Fin 0%R)).
    2:{ intros lane. rewrite Haccum.
        rewrite (map_ext _ (fun _ => Fin 0%R))
          by (intros l; rewrite Haccum; reflexivity).
        apply fold_fadd_zero. }
    rewrite upto_cons by exact HkR. cbn [map Allreduce].
    rewrite map_map. apply fold_fadd_zero. }
  assert (Hlog : lse_logsum combine_kBlockM Log_max_splits params
                   softmax_lseaccum_ptr bidx col = PInf).
  { unfold lse_logsum. rewrite Hsum, is_zero_fin_zero. reflexivity. }
  unfold combine_attn_seqk_parallel. rewrite Hlog.
  replace (col <? combine_kBlockM) with true
    by (symmetry; apply Z.ltb_lt; lia).
  replace (bidx * combine_kBlockM + col <? combine_total_rows params)
    with false by (symmetry; apply Z.ltb_ge; lia).
  reflexivity.
Qed.

(** Five rows in blocks of four: the last row of the second block. *)
Lemma combine_row_beyond_end_witness :
  combine_attn_seqk_parallel unit_traits 4 1 false
    (example_params 1 1 5 1 1 0 0 1 (fun _ => 0%R) (fun _ => 0%R)
       (fun _ => 0%R) 1 2)
    (fun _ => Fin 0%R) (fun _ => Fin 0%R) 1 3 0 (Fin 0%R)
  = [StoreLSE (1 * 4 + 3) PInf].
Proof.
  apply combine_row_beyond_end; cbn; lia.
Defined.

(** ** The layouts that the kernels share *)

(** The pointer into Oaccum after a number of splits. *)
Lemma combine_pointer (kt : Kernel_traits) (combine_kBlockM Log_max_splits : Z)
    (Is_even_K : bool) (params : Params)
    (softmax_lseaccum_ptr oaccum_ptr : Z -> fp) (bidx col c : Z) (n : nat) :
  forall st,
    tOgOaccum
      (fold_left
         (combine_iter kt combine_kBlockM Log_max_splits Is_even_K params
            softmax_lseaccum_ptr oaccum_ptr bidx col c)
         (upto (Z.of_nat n)) st)
    = tOgOaccum st
      + Z.of_nat n * (combine_total_rows params * p_d_rounded params).
Proof.
  induction n as [|n IH]; intros st.
  - cbn. lia.
  - replace (Z.of_nat (S n)) with (Z.of_nat n + 1) by lia.
    rewrite upto_succ by lia. rewrite fold_left_app. cbn [fold_left].
    unfold combine_iter at 1. cbn [tOgOaccum]. rewrite IH. lia.
Qed.

(** X12: the reduction kernel reads what the split kernel writes, and
    writes where the dense kernel writes.  For the thread group of the
    reduction kernel whose global row index is the LSE index of the row
    [r] of the query tile [m_block] of batch [bidb] and head [bidh], in a
    batch of sequences of one length with [d_rounded] equal to the head
    dimension of the tile: the entry of LSEaccum that it loads for the
    split [s] is the entry the block of split [s] stores for that row;
    the element of Oaccum that it loads in iteration [s] of its loop is
    the element that block stores for the row and the column; and the
    element of O that it stores is the element the dense kernel stores
    for the row and the column. *)
Theorem kernels_share_layout
    (kt : Kernel_traits) (combine_kBlockM Log_max_splits : Z)
    (Is_even_K : bool) (params : Params) (binfo : BlockInfo)
    (softmax_lseaccum_ptr oaccum_ptr : Z -> fp)
    (bidb bidh m_block r c bidx col : Z) (reg : fp) :
  0 < kBlockM kt -> 0 <= m_block -> 0 <= r < kBlockM kt ->
  0 <= bidb < p_b params -> 0 <= bidh < p_h params ->
  m_block * kBlockM kt + r < p_seqlen_q params ->
  p_d_rounded params = kHeadDim kt ->
  q_offset binfo (o_batch_stride params) (o_row_stride params) bidb
  = bidb * o_batch_stride params ->
  bidx * combine_kBlockM + col
  = dense_LSE_index kt params bidb bidh m_block r ->
  (forall s, 0 <= s < num_splits params ->
     sLSE_loaded combine_kBlockM params softmax_lseaccum_ptr bidx s col
     = softmax_lseaccum_ptr
         (split_LSEaccum_index kt params bidb bidh m_block s r))
  /\ (forall s, 0 <= s ->
        tOgOaccum
          (fold_left
             (combine_iter kt combine_kBlockM Log_max_splits Is_even_K
                params softmax_lseaccum_ptr oaccum_ptr bidx col c)
             (upto s)
             {| tOgOaccum := bidx * combine_kBlockM * p_d_rounded params;
                tOrO := Fin 0%R; tOrOaccum := reg |})
        + col * kHeadDim kt + c
        = split_Oaccum_index kt params bidb bidh m_block s r c)
  /\ combine_o_offset params (bidx * combine_kBlockM + col) c
     = dense_O_index kt params binfo bidb bidh m_block r c.
Proof.
  intros HBr Hm Hr Hb Hh Hrow Hdr Hqoff Hthread.
  assert (Hrow0 : 0 <= m_block * kBlockM kt + r) by nia.
  assert (Hidx : bidx * combine_kBlockM + col < combine_total_rows params).
  { rewrite Hthread. unfold dense_LSE_index, combine_total_rows.
    assert (H1 : bidb * p_h params + bidh + 1 <= p_b params * p_h params)
      by nia.
    assert (H3 : (bidb * p_h params + bidh + 1) * p_seqlen_q params
                 <= p_b params * p_h params * p_seqlen_q params) by nia.
    nia. }
  split; [|split].
  - intros s Hs. unfold sLSE_loaded.
    replace (s <? num_splits params) with true
      by (symmetry; apply Z.ltb_lt; lia).
    replace (col <? combine_total_rows params - bidx * combine_kBlockM)
      with true by (symmetry; apply Z.ltb_lt; lia).
    cbn [andb]. f_equal.
    replace (bidx * combine_kBlockM + s * combine_total_rows params + col)
      with (s * combine_total_rows params + (bidx * combine_kBlockM + col))
      by ring.
    rewrite Hthread.
    unfold dense_LSE_index, split_LSEaccum_index, combine_total_rows. ring.
  - intros s Hs.
    rewrite <- (Z2Nat.id s) at 1 by exact Hs.
    rewrite combine_pointer. cbn [tOgOaccum]. rewrite Z2Nat.id by exact Hs.
    rewrite <- Hdr.
    replace (bidx * combine_kBlockM * p_d_rounded params
             + s * (combine_total_rows params * p_d_rounded params)
             + col * p_d_rounded params + c)
      with ((bidx * combine_kBlockM + col) * p_d_rounded params
            + s * (combine_total_rows params * p_d_rounded params) + c)
      by ring.
    rewrite Hthread.
    unfold dense_LSE_index, split_Oaccum_index, combine_total_rows.
    rewrite <- Hdr. ring.
  - rewrite Hthread. unfold dense_LSE_index.
    replace ((bidb * p_h params + bidh) * p_seqlen_q params
             + m_block * kBlockM kt + r)
      with ((bidb * p_h params + bidh) * p_seqlen_q params
            + (m_block * kBlockM kt + r)) by ring.
    rewrite combine_o_offset_row by lia.
    unfold dense_O_index. rewrite Hqoff. ring.
Qed.

(** The single row of a launch of one query: split 1 of 2. *)
Lemma kernels_share_layout_witness :
  sLSE_loaded 4 two_split_params two_split_lseaccum 0 1 0
  = two_split_lseaccum
      (split_LSEaccum_index unit_traits two_split_params 0 0 0 1 0).
Proof.
  destruct (kernels_share_layout unit_traits 4 1 false two_split_params
              one_key_binfo two_split_lseaccum two_split_oaccum
              0 0 0 0 0 0 0 (Fin 0%R)) as [H _].
  1-9: try (cbn; lia); reflexivity.
  apply (H 1). cbn. lia.
Defined.

(** ** The thread layout of the reduction kernel *)

(** The constants of the layout, for the tile heights and the numbers of
    splits that the kernel asserts. *)
Lemma combine_constants (combine_kBlockM Log_max_splits : Z) :
  combine_kBlockM = 4 \/ combine_kBlockM = 8 \/ combine_kBlockM = 16
  \/ combine_kBlockM = 32 ->
  0 <= Log_max_splits <= 7 ->
  let kB := combine_kBlockM in
  let kRL := kRowsPerLoadLSE combine_kBlockM in
  let kR := kRowsPerLoadTranspose combine_kBlockM Log_max_splits in
  let kN := kNLsePerThread combine_kBlockM Log_max_splits in
  let kMax := kMaxSplits Log_max_splits in
  0 < kB /\ kRL * kB = kNThreads /\ 0 < kR /\ kR <= kRL
  /\ kN * kR = kMax /\ kMax <= kN * kRL /\ kMax <= 128 /\ kR <= 32.
Proof.
  intros HkB HLog.
  assert (HL : Log_max_splits = 0 \/ Log_max_splits = 1
               \/ Log_max_splits = 2 \/ Log_max_splits = 3
               \/ Log_max_splits = 4 \/ Log_max_splits = 5
               \/ Log_max_splits = 6 \/ Log_max_splits = 7) by lia.
  destruct HkB as [-> | [-> | [-> | ->]]];
    destruct HL as [-> | [-> | [-> | [-> | [-> | [-> | [-> | ->]]]]]]];
    vm_compute; repeat split; intros; discriminate.
Qed.

(** A thread index is the pair of its quotient and remainder. *)
Lemma quot_rem_pair (t t' n : Z) :
  0 < n -> 0 <= t -> 0 <= t' ->
  cdiv t n = cdiv t' n -> Z.rem t n = Z.rem t' n -> t = t'.
Proof.
  intros Hn Ht Ht' Eq Er. unfold cdiv in Eq.
  pose proof (Z.quot_rem' t n). pose proof (Z.quot_rem' t' n). nia.
Qed.

Lemma quot_rem_of (q m n : Z) :
  0 < n -> 0 <= q -> 0 <= m < n ->
  cdiv (q * n + m) n = q /\ Z.rem (q * n + m) n = m.
Proof.
  intros Hn Hq Hm. unfold cdiv.
  rewrite Z.quot_div_nonneg, Z.rem_mod_nonneg by nia.
  split.
  - symmetry. apply (Z.div_unique _ _ q m); [left; exact Hm|ring].
  - symmetry. apply (Z.mod_unique _ _ q m); [left; exact Hm|ring].
Qed.

(** X13: the thread layout of the reduction kernel.  For the tile
    heights 4, 8, 16 and 32 and at most 128 splits, the static assertions
    of the kernel hold; every entry of [sLSE] below [kMaxSplits] rows and
    [kBlockM] columns is filled by exactly one thread in one iteration of
    the first loop, and taken into [lse_accum] by exactly one thread in
    one iteration of the second; and the LSE of every row of the block is
    stored by exactly one thread. *)
Theorem combine_thread_layout (combine_kBlockM Log_max_splits : Z) :
  combine_kBlockM = 4 \/ combine_kBlockM = 8 \/ combine_kBlockM = 16
  \/ combine_kBlockM = 32 ->
  0 <= Log_max_splits <= 7 ->
  let kR := kRowsPerLoadTranspose combine_kBlockM Log_max_splits in
  let kN := kNLsePerThread combine_kBlockM Log_max_splits in
  let kMax := kMaxSplits Log_max_splits in
  let thread l tidx := 0 <= l < kN /\ 0 <= tidx < kNThreads in
  (kMax <= 128 /\ kR <= 32 /\ kN * kR <= kMax)
  /\ (forall row col, 0 <= row < kMax -> 0 <= col < combine_kBlockM ->
        exists l tidx,
          thread l tidx
          /\ load_lse_entry combine_kBlockM l tidx = (row, col))
  /\ (forall l tidx l' tidx', thread l tidx -> thread l' tidx' ->
        load_lse_entry combine_kBlockM l tidx
        = load_lse_entry combine_kBlockM l' tidx' ->
        l = l' /\ tidx = tidx')
  /\ (forall row col, 0 <= row < kMax -> 0 <= col < combine_kBlockM ->
        exists l tidx,
          thread l tidx
          /\ transpose_entry combine_kBlockM Log_max_splits l tidx
             = (row, col))
  /\ (forall l tidx l' tidx', thread l tidx -> thread l' tidx' ->
        transpose_entry combine_kBlockM Log_max_splits l tidx
        = transpose_entry combine_kBlockM Log_max_splits l' tidx' ->
        l = l' /\ tidx = tidx')
  /\ (forall col, 0 <= col < combine_kBlockM ->
        exists tidx,
          0 <= tidx < kNThreads
          /\ writes_lse combine_kBlockM Log_max_splits tidx = true
          /\ cdiv tidx kR = col
          /\ forall tidx', 0 <= tidx' < kNThreads ->
               writes_lse combine_kBlockM Log_max_splits tidx' = true ->
               cdiv tidx' kR = col -> tidx' = tidx).
Proof.
  intros HkB HLog kR kN kMax thread.
  destruct (combine_constants combine_kBlockM Log_max_splits HkB HLog)
    as [HB [HRL [HR [HRle [HN [Hcov [Hmax HR32]]]]]]].
  fold kR kN kMax in HR, HRle, HN, Hcov, Hmax, HR32.
  set (kRL := kRowsPerLoadLSE combine_kBlockM) in *.
  assert (HRL0 : 0 < kRL) by lia.
  assert (Hthreads : kNThreads = 128) by reflexivity.
  split; [lia|]. split; [|split; [|split; [|split]]].
  - intros row col Hrow Hcol.
    pose proof (Z.div_mod row kRL ltac:(lia)) as Ed.
    pose proof (Z.mod_pos_bound row kRL HRL0) as Hm.
    assert (Hq : 0 <= row / kRL) by (apply Z.div_pos; lia).
    exists (row / kRL), ((row mod kRL) * combine_kBlockM + col).
    split.
    + split.
      * split; [exact Hq|]. apply Z.div_lt_upper_bound; nia.
      * nia.
    + unfold load_lse_entry. fold kRL.
      destruct (quot_rem_of (row mod kRL) col combine_kBlockM HB
                  ltac:(lia) Hcol) as [E1 E2].
      rewrite E1, E2. f_equal. lia.
  - intros l tidx l' tidx' [Hl Ht] [Hl' Ht'] E.
    unfold load_lse_entry in E. fold kRL in E. injection E as E1 E2.
    assert (Hq : forall t, 0 <= t < kNThreads ->
              0 <= cdiv t combine_kBlockM < kRL).
    { intros t Htt. rewrite cdiv_nonneg by lia. split.
      - apply Z.div_pos; lia.
      - apply Z.div_lt_upper_bound; lia. }
    destruct (radix_unique l (cdiv tidx combine_kBlockM) l'
                (cdiv tidx' combine_kBlockM) kRL (Hq _ Ht) (Hq _ Ht') E1)
      as [El Eq].
    split; [exact El|].
    apply (quot_rem_pair tidx tidx' combine_kBlockM); lia.
  - intros row col Hrow Hcol.
    pose proof (Z.div_mod row kR ltac:(lia)) as Ed.
    pose proof (Z.mod_pos_bound row kR HR) as Hm.
    assert (Hq : 0 <= row / kR) by (apply Z.div_pos; lia).
    exists (row / kR), (col * kR + row mod kR).
    split.
    + split.
      * split; [exact Hq|]. apply Z.div_lt_upper_bound; nia.
      * nia.
    + unfold transpose_entry. fold kR.
      destruct (quot_rem_of col (row mod kR) kR HR ltac:(lia) Hm)
        as [E1 E2].
      rewrite E1, E2. f_equal. lia.
  - intros l tidx l' tidx' [Hl Ht] [Hl' Ht'] E.
    unfold transpose_entry in E. fold kR in E. injection E as E1 E2.
    assert (Hrem : forall t, 0 <= t < kNThreads -> 0 <= Z.rem t kR < kR).
    { intros t Htt. rewrite Z.rem_mod_nonneg by lia.
      apply Z.mod_pos_bound. exact HR. }
    destruct (radix_unique l (Z.rem tidx kR) l' (Z.rem tidx' kR) kR
                (Hrem _ Ht) (Hrem _ Ht') E1) as [El Er].
    split; [exact El|].
    apply (quot_rem_pair tidx tidx' kR); lia.
  - intros col Hcol.
    destruct (quot_rem_of col 0 kR HR ltac:(lia) ltac:(lia)) as [E1 E2].
    exists (col * kR + 0).
    split; [nia|]. split; [|split; [exact E1|]].
    + unfold writes_lse. fold kR. rewrite E1, E2.
      apply andb_true_iff. split; [reflexivity|apply Z.ltb_lt; lia].
    + intros tidx' Ht' Hw Ec. unfold writes_lse in Hw. fold kR in Hw.
      apply andb_true_iff in Hw as [Hw _]. apply Z.eqb_eq in Hw.
      apply (quot_rem_pair tidx' (col * kR + 0) kR); lia.
Qed.

(** Sixteen splits in blocks of eight rows: the entry of split 13 and
    row 5 is filled and taken by a thread. *)
Lemma combine_thread_layout_witness :
  exists l tidx,
    (0 <= l < kNLsePerThread 8 4 /\ 0 <= tidx < kNThreads)
    /\ load_lse_entry 8 l tidx = (13, 5).
Proof.
  destruct (combine_thread_layout 8 4) as [_ [H _]].
  - lia.
  - lia.
  - apply (H 13 5); cbn; lia.
Defined.

(** ** A split without tiles *)

(** X14: a split beyond the last tile.  A block of the split kernel whose
    split starts at or beyond the last K/V tile, as the last splits do
    when the number of tiles is not a multiple of the tiles per split,
    stores for a row of the queries a partial output of 0 and a partial
    LSE of minus infinity (an output of 0 and an LSE of plus infinity
    without [Split]), and it appends nothing to the K/V cache, also with
    [Append_KV]. *)
Theorem split_beyond_tiles
    (Is_causal Is_local Has_alibi Is_even_MN Is_even_K Split Append_KV : bool)
    (kt : Kernel_traits) (params : Params) (binfo : BlockInfo)
    (smem_ : Z -> Z -> fp)
    (bidb bidh m_block n_split_idx num_n_splits r c : Z) :
  0 < kBlockN kt -> 0 <= p_seqlen_k params -> 1 <= num_n_splits ->
  0 <= n_split_idx ->
  ceil_div (actual_seqlen_k binfo) (kBlockN kt)
  <= n_split_idx * n_blocks_per_split kt params num_n_splits ->
  m_block * kBlockM kt + r < actual_seqlen_q binfo -> 0 <= r ->
  Is_even_K = true \/ c < p_d params ->
  compute_attn_1rowblock_splitkv Is_causal Is_local Has_alibi Is_even_MN
    Is_even_K Split Append_KV kt params binfo smem_ bidb bidh m_block
    n_split_idx num_n_splits r c
  = if Split
    then [StoreOaccum (split_Oaccum_index kt params bidb bidh m_block
                         n_split_idx r c) (Fin 0%R);
          StoreLSEaccum (split_LSEaccum_index kt params bidb bidh m_block
                           n_split_idx r) NInf]
    else [StoreO (dense_O_index kt params binfo bidb bidh m_block r c)
            (Fin 0%R);
          StoreLSE (split_LSEaccum_index kt params bidb bidh m_block
                      n_split_idx r) PInf].
Proof.
  intros HBc Hsk Hn Hs Hbeyond Hrow Hr Hc.
  assert (Hper : 0 <= n_blocks_per_split kt params num_n_splits)
    by (apply per_split_nonneg; lia).
  destruct (split_range_max_min Is_causal Is_local kt params binfo m_block
              n_split_idx num_n_splits ltac:(nia)) as [Emin Emax].
  assert (Hmax : n_block_max Is_causal Is_local kt params binfo m_block
                 <= ceil_div (actual_seqlen_k binfo) (kBlockN kt))
    by (unfold n_block_max; destruct (Is_causal || Is_local); lia).
  unfold compute_attn_1rowblock_splitkv.
  replace (actual_seqlen_q binfo <=? m_block * kBlockM kt) with false
    by (symmetry; apply Z.leb_gt; lia).
  replace (split_n_block_max Is_causal Is_local kt params binfo m_block
             n_split_idx num_n_splits
           <=? split_n_block_min Is_local kt params binfo m_block
                 n_split_idx num_n_splits) with true
    by (symmetry; apply Z.leb_le; lia).
  unfold store_elt, store_lse.
  replace (r <? actual_seqlen_q binfo - m_block * kBlockM kt) with true
    by (symmetry; apply Z.ltb_lt; lia).
  replace (Is_even_K || (c <? p_d params)) with true.
  2:{ symmetry. destruct Hc as [->|Hc]; [reflexivity|].
      apply orb_true_iff. right. apply Z.ltb_lt. exact Hc. }
  rewrite orb_true_r. cbn [andb].
  unfold split_Oaccum_index, split_LSEaccum_index, dense_O_index.
  destruct Split; cbn [app]; repeat f_equal; ring.
Qed.

(** Four tiles in three splits of two: the third split has no tile. *)
Lemma split_beyond_tiles_witness :
  compute_attn_1rowblock_splitkv false false false false false true false
    one_key_traits four_tile_params four_tile_binfo (fun _ _ => Fin 0%R)
    0 0 0 2 3 0 0
  = [StoreOaccum
       (split_Oaccum_index one_key_traits four_tile_params 0 0 0 2 0 0)
       (Fin 0%R);
     StoreLSEaccum
       (split_LSEaccum_index one_key_traits four_tile_params 0 0 0 2 0)
       NInf].
Proof.
  apply (split_beyond_tiles false false false false false true false
           one_key_traits four_tile_params four_tile_binfo
           (fun _ _ => Fin 0%R) 0 0 0 2 3 0 0); cbn; lia.
Defined.

(** ** Attention over the appended cache *)



(** The elements of the rows of an unpaged cache are distinct when a row
    holds the columns of the tile. *)
Lemma cache_row_inj (params : Params) (binfo : BlockInfo)
    (bs rs hs bidb bidh p cc p' cc' : Z) :
  block_table_of params bidb = None ->
  0 <= cc < rs -> 0 <= cc' < rs ->
  cache_row params binfo bs rs hs bidb bidh p + cc
  = cache_row params binfo bs rs hs bidb bidh p' + cc' ->
  p = p' /\ cc = cc'.
Proof.
  intros Hbt Hcc Hcc' E. unfold cache_row in E. rewrite Hbt in E.
  apply (radix_unique p cc p' cc' rs Hcc Hcc'). lia.
Qed.

(** X15: a block attends to the keys it has just appended.  For a
    supported launch of the split kernel with [Append_KV] on an unpaged
    cache whose rows hold the columns of the tile, a block whose tile
    range is not empty stores its new K/V rows and then, for a row of the
    queries, the LSE and the output of attention over the keys of its
    tiles in the cache as it is after the append: a key below
    [seqlen_k_cache] is the row of the cache, a key from there on is the
    new row, the key rotated at its position when the rotary embedding is
    on; the query row is the one in shared memory, rotated likewise. *)
Theorem appended_keys_attended
    (Is_causal Is_local Has_alibi Is_even_MN Is_even_K Split : bool)
    (kt : Kernel_traits) (params : Params) (binfo : BlockInfo)
    (smem_ : Z -> Z -> fp)
    (bidb bidh m_block n_split_idx num_n_splits r c : Z) :
  supported Is_causal Is_even_MN Is_even_K kt params binfo ->
  0 <= r < kBlockM kt -> 0 <= c < p_d params ->
  m_block * kBlockM kt + r < actual_seqlen_q binfo ->
  0 <= n_split_idx -> 0 <= p_seqlen_k params -> 1 <= num_n_splits ->
  block_table params = None ->
  rotary_dim params = 0 \/ (2 | rotary_dim params) ->
  0 <= seqlen_k_cache binfo ->
  kHeadDim kt <= k_row_stride params ->
  kHeadDim kt <= v_row_stride params ->
  let n_min := split_n_block_min Is_local kt params binfo m_block
                 n_split_idx num_n_splits in
  let n_max := split_n_block_max Is_causal Is_local kt params binfo m_block
                 n_split_idx num_n_splits in
  n_min < n_max ->
  let R :=
    ref_partial Is_causal Is_local Has_alibi (actual_seqlen_q binfo)
      (actual_seqlen_k binfo) (window_size_left params)
      (window_size_right params) (scale_softmax params)
      (head_slope Has_alibi params bidb bidh) (p_d params)
      (m_block * kBlockM kt + r)
      (split_Q Is_causal Is_local Is_even_MN Is_even_K true kt params binfo
         smem_ bidb bidh m_block r)
      (appended_cache_K params binfo bidb bidh)
      (appended_cache_V params binfo bidb bidh)
      Split (n_min * kBlockN kt) (n_max * kBlockN kt) c in
  compute_attn_1rowblock_splitkv Is_causal Is_local Has_alibi Is_even_MN
    Is_even_K Split true kt params binfo smem_ bidb bidh m_block
    n_split_idx num_n_splits r c
  = append_kv Is_even_K kt params binfo bidb bidh n_min n_max
    ++ split_result_stores Split kt params binfo bidb bidh m_block
         n_split_idx r c (fst R) (snd R).
Proof.
  intros Hsup Hr Hc Hrow Hidx Hsk Hn Hbt Hrd Hcache Hkrs Hvrs n_min n_max
    Hne R.
  pose proof (sup_Bc _ _ _ _ _ _ Hsup) as HBc.
  pose proof (sup_d _ _ _ _ _ _ Hsup) as Hd.
  assert (Hper : 0 <= n_blocks_per_split kt params num_n_splits)
    by (apply per_split_nonneg; lia).
  assert (Hbt' : block_table_of params bidb = None)
    by (unfold block_table_of; rewrite Hbt; reflexivity).
  assert (Hpaged : block_table_of params bidb <> None ->
            0 < page_block_size params
            /\ (kBlockN kt | page_block_size params))
    by (intros H; destruct (H Hbt')).
  assert (Hmin : 0 <= n_min).
  { unfold n_min, split_n_block_min. destruct (negb Is_local); nia. }
  pose proof (cdiv_floor_le (seqlen_k_cache binfo) (kBlockN kt) HBc Hcache)
    as Hfl.
  (* the rows of the block that the append phase stores *)
  assert (Hstored : forall n j, n_min <= n < n_max -> 0 <= j < kBlockN kt ->
            n * kBlockN kt + j < actual_seqlen_k binfo ->
            seqlen_k_cache binfo <= n * kBlockN kt + j ->
            (Z.max n_min (cdiv (seqlen_k_cache binfo) (kBlockN kt))
             * kBlockN kt <= n * kBlockN kt + j < n_max * kBlockN kt)
            /\ seqlen_k_cache binfo <= n * kBlockN kt + j
               < actual_seqlen_k binfo).
  { intros n j Hnr Hj Hcol Hnew.
    assert (Hlo : Z.max n_min (cdiv (seqlen_k_cache binfo) (kBlockN kt))
                  * kBlockN kt <= n * kBlockN kt + j).
    { destruct (Z.max_spec n_min (cdiv (seqlen_k_cache binfo) (kBlockN kt)))
        as [[_ ->]|[_ ->]]; nia. }
    split; [split; [exact Hlo|nia]|lia]. }
  rewrite (split_block_stores Is_causal Is_local Has_alibi Is_even_MN
             Is_even_K Split true kt params binfo smem_ bidb bidh m_block
             n_split_idx num_n_splits r c
             (split_Q Is_causal Is_local Is_even_MN Is_even_K true kt params
                binfo smem_ bidb bidh m_block r)
             (appended_cache_K params binfo bidb bidh)
             (appended_cache_V params binfo bidb bidh)
             Hsup Hc Hr Hrow Hidx Hper).
  - fold n_min n_max.
    replace (n_max <=? n_min) with false
      by (symmetry; apply Z.leb_gt; exact Hne).
    reflexivity.
  - intros cc Hcc. apply split_load_q_view;
      [exact (sup_even_K _ _ _ _ _ _ Hsup)|lia|exact Hrow|exact Hcc].
  - intros n j cc Hnr Hj Hcol Hcc. fold n_min n_max in Hnr |- *.
    unfold split_memory, split_row_offset_k.
    rewrite (tile_row_address kt params binfo (k_batch_stride params)
               (k_row_stride params) (k_head_stride params) bidb bidh n j
               HBc ltac:(lia) Hj Hpaged).
    unfold appended_cache_K.
    destruct (n * kBlockN kt + j <? seqlen_k_cache binfo) eqn:Eold.
    + apply Z.ltb_lt in Eold. apply apply_stores_K.
      * intros y Hy. exfalso.
        apply (append_kv_stores Is_even_K kt params binfo bidb bidh n_min
                 n_max HBc Hrd Hcache Hpaged) in Hy
          as [p [cc' [_ [Hp [Hcc' [_ [E|E]]]]]]]; [discriminate E|].
        injection E as Ea _.
        assert (Hb1 : 0 <= cc < k_row_stride params) by lia.
        assert (Hb2 : 0 <= cc' < k_row_stride params) by lia.
        destruct (cache_row_inj params binfo _ _ _ bidb bidh _ cc _ cc' Hbt'
                    Hb1 Hb2 Ea) as [Ep _].
        lia.
      * right. cbn [fst]. unfold cache_K, cache_row. rewrite Hbt'.
        f_equal; ring.
    + apply Z.ltb_ge in Eold.
      destruct (Hstored n j Hnr Hj Hcol Eold) as [Hr1 Hr2].
      apply apply_stores_K.
      * intros y Hy.
        apply (append_kv_stores Is_even_K kt params binfo bidb bidh n_min
                 n_max HBc Hrd Hcache Hpaged) in Hy
          as [p [cc' [_ [Hp [Hcc' [_ [E|E]]]]]]]; [discriminate E|].
        injection E as Ea Ey.
        assert (Hb1 : 0 <= cc < k_row_stride params) by lia.
        assert (Hb2 : 0 <= cc' < k_row_stride params) by lia.
        destruct (cache_row_inj params binfo _ _ _ bidb bidh _ cc _ cc' Hbt'
                    Hb1 Hb2 Ea) as [Ep Ec].
        subst p cc'. exact Ey.
      * left.
        apply (append_kv_stores Is_even_K kt params binfo bidb bidh n_min
                 n_max HBc Hrd Hcache Hpaged).
        exists (n * kBlockN kt + j), cc.
        split; [exact Hr1|]. split; [exact Hr2|]. split; [lia|].
        split; [right; lia|]. right. reflexivity.
  - intros n j Hnr Hj Hcol. fold n_min n_max in Hnr |- *.
    unfold split_memory, split_row_offset_v.
    rewrite (tile_row_address kt params binfo (v_batch_stride params)
               (v_row_stride params) (v_head_stride params) bidb bidh n j
               HBc ltac:(lia) Hj Hpaged).
    unfold appended_cache_V.
    destruct (n * kBlockN kt + j <? seqlen_k_cache binfo) eqn:Eold.
    + apply Z.ltb_lt in Eold. apply apply_stores_V.
      * intros y Hy. exfalso.
        apply (append_kv_stores Is_even_K kt params binfo bidb bidh n_min
                 n_max HBc Hrd Hcache Hpaged) in Hy
          as [p [cc' [_ [Hp [Hcc' [_ [E|E]]]]]]]; [|discriminate E].
        injection E as Ea _.
        assert (Hb1 : 0 <= c < v_row_stride params) by lia.
        assert (Hb2 : 0 <= cc' < v_row_stride params) by lia.
        destruct (cache_row_inj params binfo _ _ _ bidb bidh _ c _ cc' Hbt'
                    Hb1 Hb2 Ea) as [Ep _].
        lia.
      * right. cbn [snd]. unfold cache_V, cache_row. rewrite Hbt'.
        f_equal; ring.
    + apply Z.ltb_ge in Eold.
      destruct (Hstored n j Hnr Hj Hcol Eold) as [Hr1 Hr2].
      apply apply_stores_V.
      * intros y Hy.
        apply (append_kv_stores Is_even_K kt params binfo bidb bidh n_min
                 n_max HBc Hrd Hcache Hpaged) in Hy
          as [p [cc' [_ [Hp [Hcc' [_ [E|E]]]]]]]; [|discriminate E].
        injection E as Ea Ey.
        assert (Hb1 : 0 <= c < v_row_stride params) by lia.
        assert (Hb2 : 0 <= cc' < v_row_stride params) by lia.
        destruct (cache_row_inj params binfo _ _ _ bidb bidh _ c _ cc' Hbt'
                    Hb1 Hb2 Ea) as [Ep Ec].
        subst p cc'. exact Ey.
      * left.
        apply (append_kv_stores Is_even_K kt params binfo bidb bidh n_min
                 n_max HBc Hrd Hcache Hpaged).
        exists (n * kBlockN kt + j), c.
        split; [exact Hr1|]. split; [exact Hr2|]. split; [lia|].
        split; [right; lia|]. left. reflexivity.
Qed.

(** One query, an empty cache and two new keys of two columns, rotary
    embedding on: the block appends both rows and attends to them. *)
Lemma appended_keys_attended_witness :
  let n_min := split_n_block_min false append_traits (append_params 0 0)
                 append_binfo 0 0 1 in
  let n_max := split_n_block_max false false append_traits
                 (append_params 0 0) append_binfo 0 0 1 in
  let R :=
    ref_partial false false false 1 2 0 0 1
      (head_slope false (append_params 0 0) 0 0) 2 (0 * 1 + 0)
      (split_Q false false false false true append_traits
         (append_params 0 0) append_binfo (fun _ _ => Fin 0%R) 0 0 0 0)
      (appended_cache_K (append_params 0 0) append_binfo 0 0)
      (appended_cache_V (append_params 0 0) append_binfo 0 0)
      false (n_min * 1) (n_max * 1) 0 in
  compute_attn_1rowblock_splitkv false false false false false false true
    append_traits (append_params 0 0) append_binfo (fun _ _ => Fin 0%R)
    0 0 0 0 1 0 0
  = append_kv false append_traits (append_params 0 0) append_binfo 0 0
      n_min n_max
    ++ split_result_stores false append_traits (append_params 0 0)
         append_binfo 0 0 0 0 0 0 (fst R) (snd R).
Proof.
  apply (appended_keys_attended false false false false false false
           append_traits (append_params 0 0) append_binfo
           (fun _ _ => Fin 0%R) 0 0 0 0 1 0 0).
  1: constructor; cbn; try lia; try discriminate; try reflexivity; lra.
  1-6: cbn; lia.
  - reflexivity.
  - right. exists 1. reflexivity.
  - cbn. lia.
  - cbn. lia.
  - cbn. lia.
  - vm_compute. reflexivity.
Defined.

(** ** The control of the two loops *)

Section LoopControl.

Variables Is_dropout Is_causal Is_local Has_alibi Is_even_MN Is_even_K : bool.
Variable kt : Kernel_traits.
Variable params : Params.
Variable binfo : BlockInfo.
Variable bt : option (Z -> Z).
Variables k_mem v_mem : gmem.
Variable mask : Mask.
Variable sQ : Z -> fp.
Variable smem_ : Z -> Z -> fp.
Variable keep : Z -> Z -> bool.
Variables m_block r c : Z.
Variable n_block_min : Z.
(** The pointers of the K and V tiles in closed form. *)
Variables kptr vptr : Z -> Z.

Hypothesis HBr : 0 < kBlockM kt.
Hypothesis HBc : 0 < kBlockN kt.
Hypothesis HadvK : forall n,
  advance_tile kt params bt (k_batch_stride params) (k_row_stride params)
    n (n - 1) (kptr n) = kptr (n - 1).
Hypothesis HadvV : forall n,
  advance_tile kt params bt (v_batch_stride params) (v_row_stride params)
    (n + 1) n (vptr (n + 1)) = vptr n.

Let nms := n_masking_steps Is_causal Is_local Is_even_MN kt.
Let iter :=
  attn_iter Is_dropout Is_causal Is_local Has_alibi Is_even_MN Is_even_K kt
    params binfo bt k_mem v_mem mask sQ smem_ keep m_block r c n_block_min.

(** The state between two iterations: the tile index has been
    decremented, the K pointer is that of the next tile unless the range
    is finished, the V pointer is that of the tile just handled. *)
Let between (st : attn_state) : Prop :=
  n_block_min - 1 <= n_block st
  /\ tKgK st = kptr (Z.max (n_block st) n_block_min)
  /\ tVgV st = vptr (n_block st + 1).

Lemma control_nms_pos : 1 <= nms.
Proof.
  unfold nms, n_masking_steps.
  assert (1 <= ceil_div (kBlockM kt) (kBlockN kt)).
  { unfold ceil_div. rewrite cdiv_nonneg by lia.
    apply Z.div_le_lower_bound; lia. }
  destruct (negb Is_causal && negb Is_local); [lia|].
  destruct (Is_even_MN && Is_causal); lia.
Qed.

Lemma attn_iter_control (masking first ci : bool) (st : attn_state) :
  n_block_min <= n_block st ->
  tKgK st = kptr (n_block st) ->
  tVgV st = (if first then vptr (n_block st) else vptr (n_block st + 1)) ->
  between (dec_n_block (iter masking first ci st)).
Proof.
  intros Hn HK HV. unfold iter, attn_iter.
  destruct (softmax_rescale_o first ci (softmax st) _ (acc_o st) _)
    as [[sm P] a1].
  unfold between, dec_n_block. cbn [n_block tKgK tVgV].
  split; [lia|]. split.
  - unfold iter_tKgK. destruct (n_block_min <? n_block st) eqn:E.
    + apply Z.ltb_lt in E. rewrite HK, HadvK. f_equal. lia.
    + apply Z.ltb_ge in E. rewrite HK. f_equal. lia.
  - unfold iter_tVgV. destruct first.
    + rewrite HV. f_equal. lia.
    + rewrite HV, HadvV. f_equal. lia.
Qed.

Lemma masking_loop_control (ci : bool) (steps : nat) :
  forall (first : bool) (st : attn_state),
    (1 <= steps)%nat -> 1 < nms \/ steps = 1%nat ->
    n_block_min <= n_block st ->
    tKgK st = kptr (n_block st) ->
    tVgV st = (if first then vptr (n_block st) else vptr (n_block st + 1)) ->
    between
      (masking_loop Is_dropout Is_causal Is_local Has_alibi Is_even_MN
         Is_even_K kt params binfo bt k_mem v_mem mask sQ smem_ keep m_block
         r c n_block_min ci steps first st).
Proof.
  induction steps as [|k IH]; intros first st Hs Hnms Hn HK HV; [lia|].
  cbn [masking_loop]. fold nms. fold (iter true first ci st).
  pose proof (attn_iter_control true first ci st Hn HK HV) as Hb.
  destruct ((1 <? nms) && (n_block (iter true first ci st) <=? n_block_min))
    eqn:Ebreak; [exact Hb|].
  destruct k as [|k']; [exact Hb|].
  destruct Hb as [Hb1 [Hb2 Hb3]].
  assert (Hmore : n_block_min <= n_block (dec_n_block (iter true first ci st))).
  { destruct Hnms as [Hnms|Hone]; [|lia].
    apply andb_false_iff in Ebreak as [E|E].
    - apply Z.ltb_ge in E. lia.
    - apply Z.leb_gt in E. cbn [dec_n_block n_block] in Hb1 |- *.
      unfold iter, attn_iter in E |- *.
      destruct (softmax_rescale_o first ci (softmax st) _ (acc_o st) _)
        as [[sm P] a1].
      cbn [n_block] in E |- *. lia. }
  apply IH.
  - lia.
  - destruct Hnms as [Hnms|Hone]; [left; exact Hnms|lia].
  - exact Hmore.
  - rewrite Hb2. f_equal. lia.
  - exact Hb3.
Qed.

Lemma interior_loop_control (ci : bool) (steps : nat) :
  forall (st : attn_state),
    n_block st = n_block_min - 1 + Z.of_nat steps ->
    between st ->
    let st' :=
      interior_loop Is_dropout Is_causal Is_local Has_alibi Is_even_MN
        Is_even_K kt params binfo bt k_mem v_mem mask sQ smem_ keep m_block
        r c n_block_min ci steps st in
    n_block st' = n_block_min - 1 /\ tKgK st' = kptr n_block_min
    /\ tVgV st' = vptr n_block_min.
Proof.
  induction steps as [|k IH]; intros st En [Hb1 [Hb2 Hb3]]; cbn zeta.
  - cbn [interior_loop]. split; [lia|].
    rewrite Hb2, Hb3. split; f_equal; lia.
  - cbn [interior_loop]. fold (iter false false ci st).
    assert (Hn : n_block_min <= n_block st) by lia.
    pose proof (attn_iter_control false false ci st Hn
                  ltac:(rewrite Hb2; f_equal; lia) Hb3) as Hb.
    apply IH; [|exact Hb].
    unfold iter, attn_iter.
    destruct (softmax_rescale_o false ci (softmax st) _ (acc_o st) _)
      as [[sm P] a1].
    cbn [dec_n_block n_block]. lia.
Qed.

Lemma attn_loops_control (ci1 ci2 : bool) (st : attn_state) :
  n_block_min <= n_block st ->
  tKgK st = kptr (n_block st) -> tVgV st = vptr (n_block st) ->
  let st' :=
    attn_loops Is_dropout Is_causal Is_local Has_alibi Is_even_MN Is_even_K
      kt params binfo bt k_mem v_mem mask sQ smem_ keep m_block r c
      n_block_min ci1 ci2 st in
  n_block st' = n_block_min - 1 /\ tKgK st' = kptr n_block_min
  /\ tVgV st' = vptr n_block_min.
Proof.
  intros Hn HK HV. cbn zeta. unfold attn_loops. fold nms.
  pose proof control_nms_pos as Hnms.
  pose proof (masking_loop_control ci1 (Z.to_nat nms) true st ltac:(lia)
                ltac:(destruct (Z.eq_dec nms 1) as [E|E];
                      [right; rewrite E; reflexivity|left; lia])
                Hn HK HV) as Hb.
  apply interior_loop_control; [|exact Hb].
  destruct Hb as [Hb1 _]. lia.
Qed.

End LoopControl.

(** X16: the loops visit the tiles of the range, and only them.  From
    a state at the last tile of a range that is not empty, the two loops
    over the K/V tiles end with the tile index at [n_block_min - 1] and
    with the K and V tile pointers at the first tile of the range: every
    tile of the range is passed once, and no pointer is moved below the
    first tile.  This holds for the loops of the dense kernel, and for
    those of the split kernel with or without a block table, whatever the
    memory, the mask, the query row and the dropout pattern. *)
Theorem loops_visit_range
    (Is_dropout Is_causal Is_local Has_alibi Is_even_MN Is_even_K : bool)
    (kt : Kernel_traits) (params : Params) (binfo : BlockInfo)
    (k_mem v_mem : gmem) (mask : Mask) (sQ : Z -> fp)
    (smem_ : Z -> Z -> fp) (keep : Z -> Z -> bool)
    (bidb bidh m_block r c n_min n_max : Z) (ci1 ci2 : bool)
    (sm : Softmax) (acc : fp) :
  0 < kBlockM kt -> 0 < kBlockN kt -> n_min < n_max ->
  (let st :=
     attn_loops Is_dropout Is_causal Is_local Has_alibi Is_even_MN Is_even_K
       kt params binfo None k_mem v_mem mask sQ smem_ keep m_block r c
       n_min ci1 ci2
       {| n_block := n_max - 1;
          tKgK := dense_row_offset_k kt params binfo bidb bidh n_max;
          tVgV := dense_row_offset_v kt params binfo bidb bidh n_max;
          softmax := sm; acc_o := acc |} in
   n_block st = n_min - 1
   /\ tKgK st = dense_row_offset_k kt params binfo bidb bidh (n_min + 1)
   /\ tVgV st = dense_row_offset_v kt params binfo bidb bidh (n_min + 1))
  /\ (let st :=
        attn_loops Is_dropout Is_causal Is_local Has_alibi Is_even_MN
          Is_even_K kt params binfo (block_table_of params bidb) k_mem v_mem
          mask sQ smem_ keep m_block r c n_min ci1 ci2
          {| n_block := n_max - 1;
             tKgK := split_row_offset_k kt params binfo bidb bidh n_max;
             tVgV := split_row_offset_v kt params binfo bidb bidh n_max;
             softmax := sm; acc_o := acc |} in
      n_block st = n_min - 1
      /\ tKgK st = split_row_offset_k kt params binfo bidb bidh (n_min + 1)
      /\ tVgV st = split_row_offset_v kt params binfo bidb bidh (n_min + 1)).
Proof.
  intros HBr HBc Hne. split.
  - apply (attn_loops_control Is_dropout Is_causal Is_local Has_alibi
             Is_even_MN Is_even_K kt params binfo None k_mem v_mem mask sQ
             smem_ keep m_block r c n_min
             (fun n => dense_row_offset_k kt params binfo bidb bidh (n + 1))
             (fun n => dense_row_offset_v kt params binfo bidb bidh (n + 1))
             HBr HBc).
    + intros n. unfold advance_tile, dense_row_offset_k. ring.
    + intros n. unfold advance_tile, dense_row_offset_v. ring.
    + cbn [n_block]. lia.
    + cbn [n_block tKgK]. f_equal. lia.
    + cbn [n_block tVgV]. f_equal. lia.
  - apply (attn_loops_control Is_dropout Is_causal Is_local Has_alibi
             Is_even_MN Is_even_K kt params binfo
             (block_table_of params bidb) k_mem v_mem mask sQ smem_ keep
             m_block r c n_min
             (fun n => split_row_offset_k kt params binfo bidb bidh (n + 1))
             (fun n => split_row_offset_v kt params binfo bidb bidh (n + 1))
             HBr HBc).
    + intros n. unfold split_row_offset_k.
      apply split_tile_advance. reflexivity.
    + intros n. unfold split_row_offset_v.
      replace (n + 1 + 1) with ((n + 1) + 1) by ring.
      apply split_tile_advance. lia.
    + cbn [n_block]. lia.
    + cbn [n_block tKgK]. f_equal. lia.
    + cbn [n_block tVgV]. f_equal. lia.
Qed.

(** The four tiles of two hundred keys: the loops end below tile 0. *)
Lemma loops_visit_range_witness :
  n_block
    (attn_loops false false false false false false one_key_traits
       four_tile_params four_tile_binfo None (fun _ => 0%R) (fun _ => 0%R)
       {| max_seqlen_k := 200; max_seqlen_q := 1;
          mask_window_size_left := 0; mask_window_size_right := 0;
          alibi_slope := 0%R |}
       (fun _ => Fin 0%R) (fun _ _ => Fin 0%R) (fun _ _ => true) 0 0 0 0
       false false
       {| n_block := 4 - 1;
          tKgK := dense_row_offset_k one_key_traits four_tile_params
                    four_tile_binfo 0 0 4;
          tVgV := dense_row_offset_v one_key_traits four_tile_params
                    four_tile_binfo 0 0 4;
          softmax := softmax_unset; acc_o := Fin 0%R |})
  = 0 - 1.
Proof.
  destruct (loops_visit_range false false false false false false
              one_key_traits four_tile_params four_tile_binfo
              (fun _ => 0%R) (fun _ => 0%R)
              {| max_seqlen_k := 200; max_seqlen_q := 1;
                 mask_window_size_left := 0; mask_window_size_right := 0;
                 alibi_slope := 0%R |}
              (fun _ => Fin 0%R) (fun _ _ => Fin 0%R) (fun _ _ => true)
              0 0 0 0 0 0 4 false false softmax_unset (Fin 0%R))
    as [H _].
  1-3: cbn; lia.
  exact (proj1 H).
Defined.

(** ** Bounds on what the dense kernel stores *)

Lemma zsum_le (lo : Z) (n : nat) (f g : Z -> R) :
  (forall i, lo <= i < lo + Z.of_nat n -> (f i <= g i)%R) ->
  (zsum lo n f <= zsum lo n g)%R.
Proof.
  revert lo. induction n as [|n IH]; intros lo H; cbn [zsum]; [lra|].
  pose proof (H lo ltac:(lia)).
  assert (zsum (lo + 1) n f <= zsum (lo + 1) n g)%R
    by (apply IH; intros i Hi; apply H; lia).
  lra.
Qed.

Lemma zsum_ge_term (lo : Z) (n : nat) (f : Z -> R) (j : Z) :
  (forall i, lo <= i < lo + Z.of_nat n -> (0 <= f i)%R) ->
  lo <= j < lo + Z.of_nat n -> (f j <= zsum lo n f)%R.
Proof.
  revert lo. induction n as [|n IH]; intros lo H Hj; [lia|].
  cbn [zsum]. pose proof (H lo ltac:(lia)).
  assert (0 <= zsum (lo + 1) n f)%R
    by (apply zsum_nonneg; intros i Hi; apply H; lia).
  destruct (Z.eq_dec j lo) as [->|Hne]; [lra|].
  assert (f j <= zsum (lo + 1) n f)%R
    by (apply IH; [intros i Hi; apply H; lia|lia]).
  lra.
Qed.

Lemma ref_weight_nonneg (Is_causal Is_local Has_alibi : bool)
    (sq sk wl wr : Z) (scale slope : R) (d row : Z) (Q : Z -> R)
    (K : Z -> Z -> R) (col : Z) :
  (0 <= ref_weight Is_causal Is_local Has_alibi sq sk wl wr scale slope d
          row Q K col)%R.
Proof.
  unfold ref_weight. destruct (ref_masked _ _ _ _ _ _ _ _); [lra|].
  left. apply exp_pos.
Qed.

(** X17: the output is an average of the values.  For a supported
    launch without dropout and a row of the queries that has a key that
    is not masked, the element of O that the dense kernel stores in the
    column [c] lies between any two bounds of the column [c] of the value
    rows of the keys below [actual_seqlen_k], which are the rows that the
    kernel may load and does not clear. *)
Theorem dense_output_within_values
    (Is_causal Is_local Has_alibi Is_even_MN Is_even_K : bool)
    (kt : Kernel_traits) (params : Params) (binfo : BlockInfo)
    (keep : Z -> Z -> bool) (smem_ : Z -> Z -> fp) (blockIdx : Z * Z * Z)
    (tidx bidb bidh m_block r c : Z) (lower upper : R) :
  supported Is_causal Is_even_MN Is_even_K kt params binfo ->
  0 <= r < kBlockM kt -> 0 <= c < p_d params ->
  m_block * kBlockM kt + r < actual_seqlen_q binfo ->
  has_unmasked_key Is_causal Is_local (actual_seqlen_q binfo)
    (actual_seqlen_k binfo) (window_size_left params)
    (window_size_right params) (m_block * kBlockM kt + r) ->
  (forall col, 0 <= col < actual_seqlen_k binfo ->
     (lower <= dense_V params binfo bidb bidh col c <= upper)%R) ->
  exists lse o,
    compute_attn_1rowblock false Is_causal Is_local Has_alibi Is_even_MN
      Is_even_K kt params binfo keep smem_ blockIdx tidx bidb bidh
      m_block r c
    = [StoreLSE (dense_LSE_index kt params bidb bidh m_block r) lse;
       StoreO (dense_O_index kt params binfo bidb bidh m_block r c)
         (Fin o)]
    /\ (lower <= o <= upper)%R.
Proof.
  intros [H1 H2 H3 H4 H5 H6 H7 H8 H9 H10] Hr Hc Hrow Hkey Hbounds.
  eexists _, _. split.
  - apply (dense_row_stores Is_causal Is_local Has_alibi Is_even_MN
             Is_even_K kt params binfo keep smem_ blockIdx tidx bidb bidh
             m_block r c H1 H2 H3 H4 Hc Hr Hrow H5 H6 H7 H8 H9 H10 Hkey).
  - unfold ref_output, ref_denominator.
    set (w := ref_weight Is_causal Is_local Has_alibi
                (actual_seqlen_q binfo) (actual_seqlen_k binfo)
                (window_size_left params) (window_size_right params)
                (scale_softmax params)
                (head_slope Has_alibi params bidb bidh) (p_d params)
                (m_block * kBlockM kt + r)
                (dense_Q kt params binfo bidb bidh m_block r)
                (dense_K params binfo bidb bidh)).
    set (n := Z.to_nat (actual_seqlen_k binfo)).
    assert (Hw : forall col, (0 <= w col)%R)
      by (intros col; apply ref_weight_nonneg).
    assert (HW : (0 < zsum 0 n w)%R).
    { destruct Hkey as [col0 [Hcol0 Hun]].
      apply (zsum_pos 0 n w col0).
      - intros i _. apply Hw.
      - unfold n. lia.
      - unfold w, ref_weight. rewrite Hun. apply exp_pos. }
    assert (Hterm : forall col, 0 <= col < 0 + Z.of_nat n ->
              (lower * w col
               <= w col * dense_V params binfo bidb bidh col c
               <= upper * w col)%R).
    { intros col Hcol.
      destruct (ref_masked Is_causal Is_local (actual_seqlen_q binfo)
                  (actual_seqlen_k binfo) (window_size_left params)
                  (window_size_right params) (m_block * kBlockM kt + r) col)
        eqn:Em.
      - assert (E : w col = 0%R)
          by (unfold w, ref_weight; rewrite Em; reflexivity).
        rewrite E. lra.
      - pose proof (Hbounds col ltac:(unfold n in Hcol; lia)) as Hb.
        pose proof (Hw col) as Hwc.
        split.
        * rewrite (Rmult_comm lower). apply Rmult_le_compat_l; lra.
        * rewrite (Rmult_comm upper). apply Rmult_le_compat_l; lra. }
    assert (Hlo : (lower * zsum 0 n w
                   <= zsum 0 n (fun col => w col
                                  * dense_V params binfo bidb bidh col c))%R).
    { rewrite <- zsum_scale. apply zsum_le. intros i Hi.
      apply (Hterm i Hi). }
    assert (Hhi : (zsum 0 n (fun col => w col
                               * dense_V params binfo bidb bidh col c)
                   <= upper * zsum 0 n w)%R).
    { rewrite <- zsum_scale. apply zsum_le. intros i Hi.
      apply (Hterm i Hi). }
    split.
    + apply Rmult_le_reg_r with (zsum 0 n w); [exact HW|].
      unfold Rdiv. rewrite Rmult_assoc, Rinv_l by lra. lra.
    + apply Rmult_le_reg_r with (zsum 0 n w); [exact HW|].
      unfold Rdiv. rewrite Rmult_assoc, Rinv_l by lra. lra.
Qed.

(** One query and one key whose value is 0: the output is 0. *)
Lemma dense_output_within_values_witness :
  exists lse o,
    compute_attn_1rowblock false false false false false false
      one_key_traits two_split_params one_key_binfo (fun _ _ => true)
      (fun _ _ => Fin 0%R) (0, 0, 0) 0 0 0 0 0 0
    = [StoreLSE (dense_LSE_index one_key_traits two_split_params 0 0 0 0)
         lse;
       StoreO (dense_O_index one_key_traits two_split_params one_key_binfo
                 0 0 0 0 0) (Fin o)]
    /\ (0 <= o <= 0)%R.
Proof.
  apply (dense_output_within_values false false false false false
           one_key_traits two_split_params one_key_binfo (fun _ _ => true)
           (fun _ _ => Fin 0%R) (0, 0, 0) 0 0 0 0 0 0 0%R 0%R
           one_key_supported).
  - cbn. lia.
  - cbn. lia.
  - cbn. lia.
  - exact one_key_unmasked.
  - intros col _. cbn. lra.
Defined.

Lemma zsum_const (lo : Z) (n : nat) (x : R) :
  zsum lo n (fun _ => x) = (INR n * x)%R.
Proof.
  revert lo. induction n as [|k IH]; intros lo.
  - cbn. lra.
  - cbn [zsum]. rewrite IH, S_INR. lra.
Qed.

(** X18: the LSE bounds the logits.  For a supported launch without
    dropout and a row of the queries that has a key that is not masked,
    the LSE that the dense kernel stores for the row is at least the
    scaled logit, with its ALiBi bias, of every key that is not masked
    for the row, and at most the largest of them plus the logarithm of
    the number of keys. *)
Theorem dense_lse_bounds_logits
    (Is_causal Is_local Has_alibi Is_even_MN Is_even_K : bool)
    (kt : Kernel_traits) (params : Params) (binfo : BlockInfo)
    (keep : Z -> Z -> bool) (smem_ : Z -> Z -> fp) (blockIdx : Z * Z * Z)
    (tidx bidb bidh m_block r c : Z) :
  supported Is_causal Is_even_MN Is_even_K kt params binfo ->
  0 <= r < kBlockM kt -> 0 <= c < p_d params ->
  m_block * kBlockM kt + r < actual_seqlen_q binfo ->
  has_unmasked_key Is_causal Is_local (actual_seqlen_q binfo)
    (actual_seqlen_k binfo) (window_size_left params)
    (window_size_right params) (m_block * kBlockM kt + r) ->
  let masked :=
    ref_masked Is_causal Is_local (actual_seqlen_q binfo)
      (actual_seqlen_k binfo) (window_size_left params)
      (window_size_right params) (m_block * kBlockM kt + r) in
  let logit :=
    ref_logit Has_alibi (actual_seqlen_q binfo) (actual_seqlen_k binfo)
      (scale_softmax params) (head_slope Has_alibi params bidb bidh)
      (p_d params) (m_block * kBlockM kt + r)
      (dense_Q kt params binfo bidb bidh m_block r)
      (dense_K params binfo bidb bidh) in
  exists lse o,
    compute_attn_1rowblock false Is_causal Is_local Has_alibi Is_even_MN
      Is_even_K kt params binfo keep smem_ blockIdx tidx bidb bidh
      m_block r c
    = [StoreLSE (dense_LSE_index kt params bidb bidh m_block r) (Fin lse);
       StoreO (dense_O_index kt params binfo bidb bidh m_block r c) o]
    /\ (forall col, 0 <= col < actual_seqlen_k binfo ->
          masked col = false -> (logit col <= lse)%R)
    /\ (forall bound,
          (forall col, 0 <= col < actual_seqlen_k binfo ->
             masked col = false -> (logit col <= bound)%R) ->
          (lse <= bound + ln (IZR (actual_seqlen_k binfo)))%R).
Proof.
  intros [H1 H2 H3 H4 H5 H6 H7 H8 H9 H10] Hr Hc Hrow Hkey masked logit.
  eexists _, _. split.
  - apply (dense_row_stores Is_causal Is_local Has_alibi Is_even_MN
             Is_even_K kt params binfo keep smem_ blockIdx tidx bidb bidh
             m_block r c H1 H2 H3 H4 Hc Hr Hrow H5 H6 H7 H8 H9 H10 Hkey).
  - unfold ref_lse, ref_denominator.
    set (w := ref_weight Is_causal Is_local Has_alibi
                (actual_seqlen_q binfo) (actual_seqlen_k binfo)
                (window_size_left params) (window_size_right params)
                (scale_softmax params)
                (head_slope Has_alibi params bidb bidh) (p_d params)
                (m_block * kBlockM kt + r)
                (dense_Q kt params binfo bidb bidh m_block r)
                (dense_K params binfo bidb bidh)).
    set (n := Z.to_nat (actual_seqlen_k binfo)).
    assert (Hw : forall col, (0 <= w col)%R)
      by (intros col; apply ref_weight_nonneg).
    assert (Hwu : forall col, masked col = false ->
              w col = exp (logit col)).
    { intros col Hm. unfold w, ref_weight. fold masked. rewrite Hm.
      reflexivity. }
    assert (Hwm : forall col, masked col = true -> w col = 0%R).
    { intros col Hm. unfold w, ref_weight. fold masked. rewrite Hm.
      reflexivity. }
    assert (HW : (0 < zsum 0 n w)%R).
    { destruct Hkey as [col0 [Hcol0 Hun]].
      apply (zsum_pos 0 n w col0).
      - intros i _. apply Hw.
      - unfold n. lia.
      - rewrite (Hwu col0 Hun). apply exp_pos. }
    split.
    + intros col Hcol Hm.
      assert (Hle : (w col <= zsum 0 n w)%R).
      { apply zsum_ge_term; [intros i _; apply Hw|unfold n; lia]. }
      rewrite (Hwu col Hm) in Hle.
      rewrite <- (ln_exp (logit col)).
      destruct (Rle_lt_or_eq_dec _ _ Hle) as [Hlt|Heq].
      * left. apply ln_increasing; [apply exp_pos|exact Hlt].
      * right. rewrite Heq. reflexivity.
    + intros bound Hb.
      assert (Hn : (0 < IZR (actual_seqlen_k binfo))%R).
      { destruct Hkey as [col0 [Hcol0 _]]. apply IZR_lt. lia. }
      assert (Hsum : (zsum 0 n w
                      <= zsum 0 n (fun _ => exp bound))%R).
      { apply zsum_le. intros i Hi.
        destruct (masked i) eqn:Em.
        - rewrite (Hwm i Em). left. apply exp_pos.
        - rewrite (Hwu i Em).
          pose proof (Hb i ltac:(unfold n in Hi; lia) Em) as Hbi.
          destruct (Rle_lt_or_eq_dec _ _ Hbi) as [Hlt|Heq].
          + left. apply exp_increasing. exact Hlt.
          + right. rewrite Heq. reflexivity. }
      assert (Hconst : zsum 0 n (fun _ => exp bound)
                       = (IZR (actual_seqlen_k binfo) * exp bound)%R).
      { replace (IZR (actual_seqlen_k binfo)) with (INR n)
          by (unfold n; rewrite INR_IZR_INZ, Z2Nat.id by lia; reflexivity).
        apply zsum_const. }
      rewrite Hconst in Hsum.
      assert (Hpos : (0 < IZR (actual_seqlen_k binfo) * exp bound)%R)
        by (apply Rmult_lt_0_compat; [exact Hn|apply exp_pos]).
      replace (bound + ln (IZR (actual_seqlen_k binfo)))%R
        with (ln (IZR (actual_seqlen_k binfo) * exp bound)).
      2:{ rewrite ln_mult by (try exact Hn; apply exp_pos).
          rewrite ln_exp. lra. }
      destruct (Rle_lt_or_eq_dec _ _ Hsum) as [Hlt|Heq].
      * left. apply ln_increasing; [exact HW|exact Hlt].
      * right. rewrite Heq. reflexivity.
Qed.

(** The LSE of the single key is its logit. *)
Lemma dense_lse_bounds_logits_witness :
  exists lse o,
    compute_attn_1rowblock false false false false false false
      one_key_traits two_split_params one_key_binfo (fun _ _ => true)
      (fun _ _ => Fin 0%R) (0, 0, 0) 0 0 0 0 0 0
    = [StoreLSE (dense_LSE_index one_key_traits two_split_params 0 0 0 0)
         (Fin lse);
       StoreO (dense_O_index one_key_traits two_split_params one_key_binfo
                 0 0 0 0 0) o]
    /\ (forall col, 0 <= col < actual_seqlen_k one_key_binfo ->
          ref_masked false false 1 1 0 0 (0 * 64 + 0) col = false ->
          (ref_logit false 1 1 1 (head_slope false two_split_params 0 0) 1
             (0 * 64 + 0)
             (dense_Q one_key_traits two_split_params one_key_binfo 0 0 0 0)
             (dense_K two_split_params one_key_binfo 0 0) col <= lse)%R)
    /\ (forall bound,
          (forall col, 0 <= col < actual_seqlen_k one_key_binfo ->
             ref_masked false false 1 1 0 0 (0 * 64 + 0) col = false ->
             (ref_logit false 1 1 1 (head_slope false two_split_params 0 0)
                1 (0 * 64 + 0)
                (dense_Q one_key_traits two_split_params one_key_binfo
                   0 0 0 0)
                (dense_K two_split_params one_key_binfo 0 0) col
              <= bound)%R) ->
          (lse <= bound + ln (IZR (actual_seqlen_k one_key_binfo)))%R).
Proof.
  apply (dense_lse_bounds_logits false false false false false
           one_key_traits two_split_params one_key_binfo (fun _ _ => true)
           (fun _ _ => Fin 0%R) (0, 0, 0) 0 0 0 0 0 0 one_key_supported).
  - cbn. lia.
  - cbn. lia.
  - cbn. lia.
  - exact one_key_unmasked.
Defined.

(** ** Keys that a row does not see *)

(** Attention over an interval depends on the keys and values that are
    not masked alone. *)
Lemma ref_partial_ext (Is_causal Is_local Has_alibi : bool)
    (sq sk wl wr : Z) (scale slope : R) (d row : Z) (Q : Z -> R)
    (K V K' V' : Z -> Z -> R) (Split : bool) (lo hi c : Z) :
  (forall col, lo <= col < hi ->
     ref_masked Is_causal Is_local sq sk wl wr row col = false ->
     (forall cc, 0 <= cc < d -> K col cc = K' col cc)
     /\ V col c = V' col c) ->
  ref_partial Is_causal Is_local Has_alibi sq sk wl wr scale slope d row Q
    K V Split lo hi c
  = ref_partial Is_causal Is_local Has_alibi sq sk wl wr scale slope d row
      Q K' V' Split lo hi c.
Proof.
  intros Hext.
  assert (Hw : forall col, lo <= col < hi ->
            ref_weight Is_causal Is_local Has_alibi sq sk wl wr scale slope
              d row Q K col
            = ref_weight Is_causal Is_local Has_alibi sq sk wl wr scale
                slope d row Q K' col).
  { intros col Hcol. unfold ref_weight.
    destruct (ref_masked Is_causal Is_local sq sk wl wr row col) eqn:Em;
      [reflexivity|].
    destruct (Hext col Hcol Em) as [HK _].
    unfold ref_logit. do 3 f_equal.
    apply zsum_ext. intros cc Hcc. rewrite HK by lia. reflexivity. }
  unfold ref_partial.
  destruct (interval_masked Is_causal Is_local sq sk wl wr row lo hi);
    [reflexivity|].
  assert (EW : zsum lo (Z.to_nat (hi - lo))
                 (ref_weight Is_causal Is_local Has_alibi sq sk wl wr scale
                    slope d row Q K)
               = zsum lo (Z.to_nat (hi - lo))
                   (ref_weight Is_causal Is_local Has_alibi sq sk wl wr
                      scale slope d row Q K')).
  { apply zsum_ext. intros col Hcol. apply Hw. lia. }
  rewrite EW. do 3 f_equal.
  apply zsum_ext. intros col Hcol. rewrite Hw by lia.
  destruct (ref_masked Is_causal Is_local sq sk wl wr row col) eqn:Em.
  - unfold ref_weight. rewrite Em. lra.
  - destruct (Hext col ltac:(lia) Em) as [_ HV]. rewrite HV. reflexivity.
Qed.

(** The stores of the dense kernel for any row of the queries, in their
    order. *)
Lemma dense_stores_closed
    (Is_causal Is_local Has_alibi Is_even_MN Is_even_K : bool)
    (kt : Kernel_traits) (params : Params) (binfo : BlockInfo)
    (keep : Z -> Z -> bool) (smem_ : Z -> Z -> fp) (blockIdx : Z * Z * Z)
    (tidx bidb bidh m_block r c : Z) :
  supported Is_causal Is_even_MN Is_even_K kt params binfo ->
  0 <= r < kBlockM kt -> 0 <= c < p_d params ->
  m_block * kBlockM kt + r < actual_seqlen_q binfo ->
  Is_causal || Is_local || negb Is_even_MN = true
  \/ 0 < actual_seqlen_k binfo ->
  compute_attn_1rowblock false Is_causal Is_local Has_alibi Is_even_MN
    Is_even_K kt params binfo keep smem_ blockIdx tidx bidb bidh m_block
    r c
  = let R :=
      ref_partial Is_causal Is_local Has_alibi (actual_seqlen_q binfo)
        (actual_seqlen_k binfo) (window_size_left params)
        (window_size_right params) (scale_softmax params)
        (head_slope Has_alibi params bidb bidh) (p_d params)
        (m_block * kBlockM kt + r)
        (dense_Q kt params binfo bidb bidh m_block r)
        (dense_K params binfo bidb bidh) (dense_V params binfo bidb bidh)
        false
        (n_block_min Is_local kt params binfo m_block * kBlockN kt)
        (n_block_max Is_causal Is_local kt params binfo m_block
         * kBlockN kt) c in
    if (Is_causal || Is_local || negb Is_even_MN)
       && (n_block_max Is_causal Is_local kt params binfo m_block
           <=? n_block_min Is_local kt params binfo m_block)
    then [StoreO (dense_O_index kt params binfo bidb bidh m_block r c)
            (snd R);
          StoreLSE (dense_LSE_index kt params bidb bidh m_block r) (fst R)]
    else [StoreLSE (dense_LSE_index kt params bidb bidh m_block r) (fst R);
          StoreO (dense_O_index kt params binfo bidb bidh m_block r c)
            (snd R)].
Proof.
  intros Hsup Hr Hc Hrow Hguard.
  destruct (dense_first_store Is_causal Is_local Has_alibi Is_even_MN
              Is_even_K kt params binfo keep smem_ blockIdx tidx bidb bidh
              m_block r c Hrow ltac:(lia) ltac:(lia))
    as [a0 [v0 [rest Hfirst]]].
  destruct Hsup as [H1 H2 H3 H4 H5 H6 H7 H8 H9 H10].
  pose proof (dense_stores_partial Is_causal Is_local Has_alibi Is_even_MN
                Is_even_K kt params binfo keep smem_ blockIdx tidx bidb
                bidh m_block r c H1 H2 H3 H4 Hc Hr Hrow H5 H6 H7 H8 H9
                H10 Hguard) as Hdense.
  cbv zeta in Hdense |- *.
  destruct ((Is_causal || Is_local || negb Is_even_MN)
            && (n_block_max Is_causal Is_local kt params binfo m_block
                <=? n_block_min Is_local kt params binfo m_block)).
  - destruct Hdense as [Hd|Hd]; [exact Hd|].
    rewrite Hd in Hfirst. discriminate Hfirst.
  - destruct Hdense as [Hd|Hd]; [|exact Hd].
    rewrite Hd in Hfirst. discriminate Hfirst.
Qed.

(** X19: a row does not depend on the keys it does not see.  For a
    supported launch without dropout, with a mask or with at least one
    key, the stores of the dense kernel for a row of the queries are the
    same for any two K memories that hold the same rows at the keys that
    are not masked for the row, and any two V memories that hold the
    same rows below [actual_seqlen_k]: the K rows of the keys after the
    diagonal of a causal mask or outside a local window, and the K and V
    rows at or beyond [actual_seqlen_k], have no influence on the LSE
    and on the output of the row.  (The V rows of masked keys below
    [actual_seqlen_k] are loaded and weighted by a zero probability.) *)
Theorem masked_keys_do_not_matter
    (Is_causal Is_local Has_alibi Is_even_MN Is_even_K : bool)
    (kt : Kernel_traits) (params : Params) (binfo : BlockInfo)
    (keep : Z -> Z -> bool) (smem_ : Z -> Z -> fp) (blockIdx : Z * Z * Z)
    (tidx bidb bidh m_block r c : Z) (k' v' : gmem) :
  supported Is_causal Is_even_MN Is_even_K kt params binfo ->
  0 <= r < kBlockM kt -> 0 <= c < p_d params ->
  m_block * kBlockM kt + r < actual_seqlen_q binfo ->
  Is_causal || Is_local || negb Is_even_MN = true
  \/ 0 < actual_seqlen_k binfo ->
  (forall col, 0 <= col < actual_seqlen_k binfo ->
     ref_masked Is_causal Is_local (actual_seqlen_q binfo)
       (actual_seqlen_k binfo) (window_size_left params)
       (window_size_right params) (m_block * kBlockM kt + r) col = false ->
     forall cc, 0 <= cc < p_d params ->
       dense_K (with_kv params k' v') binfo bidb bidh col cc
       = dense_K params binfo bidb bidh col cc) ->
  (forall col, 0 <= col < actual_seqlen_k binfo ->
     dense_V (with_kv params k' v') binfo bidb bidh col c
     = dense_V params binfo bidb bidh col c) ->
  compute_attn_1rowblock false Is_causal Is_local Has_alibi Is_even_MN
    Is_even_K kt (with_kv params k' v') binfo keep smem_ blockIdx tidx
    bidb bidh m_block r c
  = compute_attn_1rowblock false Is_causal Is_local Has_alibi Is_even_MN
      Is_even_K kt params binfo keep smem_ blockIdx tidx bidb bidh m_block
      r c.
Proof.
  intros Hsup Hr Hc Hrow Hguard HsameK HsameV.
  assert (Hsup' : supported Is_causal Is_even_MN Is_even_K kt
                    (with_kv params k' v') binfo)
    by (destruct Hsup; constructor; assumption).
  pose proof (sup_Bc _ _ _ _ _ _ Hsup) as HBc.
  assert (Hmin : 0 <= n_block_min Is_local kt params binfo m_block)
    by (unfold n_block_min; destruct (negb Is_local); lia).
  rewrite (dense_stores_closed Is_causal Is_local Has_alibi Is_even_MN
             Is_even_K kt (with_kv params k' v') binfo keep smem_ blockIdx
             tidx bidb bidh m_block r c Hsup' Hr Hc Hrow Hguard).
  rewrite (dense_stores_closed Is_causal Is_local Has_alibi Is_even_MN
             Is_even_K kt params binfo keep smem_ blockIdx tidx bidb bidh
             m_block r c Hsup Hr Hc Hrow Hguard).
  cbv zeta.
  assert (ER :
    ref_partial Is_causal Is_local Has_alibi (actual_seqlen_q binfo)
      (actual_seqlen_k binfo) (window_size_left (with_kv params k' v'))
      (window_size_right (with_kv params k' v'))
      (scale_softmax (with_kv params k' v'))
      (head_slope Has_alibi (with_kv params k' v') bidb bidh)
      (p_d (with_kv params k' v')) (m_block * kBlockM kt + r)
      (dense_Q kt (with_kv params k' v') binfo bidb bidh m_block r)
      (dense_K (with_kv params k' v') binfo bidb bidh)
      (dense_V (with_kv params k' v') binfo bidb bidh) false
      (n_block_min Is_local kt (with_kv params k' v') binfo m_block
       * kBlockN kt)
      (n_block_max Is_causal Is_local kt (with_kv params k' v') binfo
         m_block * kBlockN kt) c
    = ref_partial Is_causal Is_local Has_alibi (actual_seqlen_q binfo)
        (actual_seqlen_k binfo) (window_size_left params)
        (window_size_right params) (scale_softmax params)
        (head_slope Has_alibi params bidb bidh) (p_d params)
        (m_block * kBlockM kt + r)
        (dense_Q kt params binfo bidb bidh m_block r)
        (dense_K params binfo bidb bidh) (dense_V params binfo bidb bidh)
        false
        (n_block_min Is_local kt params binfo m_block * kBlockN kt)
        (n_block_max Is_causal Is_local kt params binfo m_block
         * kBlockN kt) c).
  { refine (ref_partial_ext Is_causal Is_local Has_alibi
              (actual_seqlen_q binfo) (actual_seqlen_k binfo)
              (window_size_left params) (window_size_right params)
              (scale_softmax params)
              (head_slope Has_alibi params bidb bidh) (p_d params)
              (m_block * kBlockM kt + r)
              (dense_Q kt params binfo bidb bidh m_block r)
              (dense_K (with_kv params k' v') binfo bidb bidh)
              (dense_V (with_kv params k' v') binfo bidb bidh)
              (dense_K params binfo bidb bidh)
              (dense_V params binfo bidb bidh) false
              (n_block_min Is_local kt params binfo m_block * kBlockN kt)
              (n_block_max Is_causal Is_local kt params binfo m_block
               * kBlockN kt) c _).
    intros col Hcol Hm.
    assert (Hin : 0 <= col < actual_seqlen_k binfo).
    { split; [nia|].
      unfold ref_masked in Hm.
      destruct (actual_seqlen_k binfo <=? col) eqn:E;
        [discriminate Hm|apply Z.leb_gt in E; exact E]. }
    split; [exact (HsameK col Hin Hm)|exact (HsameV col Hin)]. }
  rewrite ER. reflexivity.
Qed.

(** The first query of a causal pair: another second key leaves its
    stores as they are. *)
Lemma masked_keys_do_not_matter_witness :
  compute_attn_1rowblock false true false false false false unit_traits
    (with_kv causal_pair_params second_row_only (fun _ => 0%R))
    causal_pair_binfo (fun _ _ => true) (fun _ _ => Fin 0%R) (0, 0, 0) 0
    0 0 0 0 0
  = compute_attn_1rowblock false true false false false false unit_traits
      causal_pair_params causal_pair_binfo (fun _ _ => true)
      (fun _ _ => Fin 0%R) (0, 0, 0) 0 0 0 0 0 0.
Proof.
  apply (masked_keys_do_not_matter true false false false false unit_traits
           causal_pair_params causal_pair_binfo (fun _ _ => true)
           (fun _ _ => Fin 0%R) (0, 0, 0) 0 0 0 0 0 0 second_row_only
           (fun _ => 0%R)).
  - constructor; cbn; try lia; try discriminate; try reflexivity; lra.
  - cbn. lia.
  - cbn. lia.
  - cbn. lia.
  - left. reflexivity.
  - intros col Hcol Hm. cbn in Hcol.
    assert (Hcases : col = 0 \/ col = 1) by lia.
    destruct Hcases as [-> | ->]; [|discriminate Hm].
    intros cc Hcc. cbn in Hcc. assert (cc = 0) by lia. subst cc.
    reflexivity.
  - intros col Hcol. reflexivity.
Defined.

(** ** The reduction over a single split that saw keys *)

Lemma zsum_single (lo : Z) (n : nat) (f : Z -> R) (j : Z) :
  lo <= j < lo + Z.of_nat n ->
  (forall i, lo <= i < lo + Z.of_nat n -> i <> j -> f i = 0%R) ->
  zsum lo n f = f j.
Proof.
  revert lo. induction n as [|n IH]; intros lo Hj Hz; [lia|].
  cbn [zsum]. destruct (Z.eq_dec j lo) as [->|Hne].
  - rewrite zsum_zero; [lra|].
    intros i Hi. apply Hz; lia.
  - rewrite (Hz lo) by lia. rewrite IH; [lra|lia|].
    intros i Hi Hij. apply Hz; lia.
Qed.

(** X20: the reduction passes a single partial result through.  When
    one split alone holds a finite partial LSE for a row, every other
    split holding minus infinity, as the splits without keys store it,
    and the partial outputs are finite, the reduction kernel stores for
    the row the partial LSE and the partial output of that split, as they
    are. *)
Theorem combine_single_split
    (kt : Kernel_traits) (combine_kBlockM Log_max_splits : Z)
    (Is_even_K : bool) (params : Params)
    (softmax_lseaccum_ptr oaccum_ptr : Z -> fp) (bidx col c : Z)
    (reg : fp) (s0 : Z) (M : R) (o_split : Z -> R) :
  combine_kBlockM = 4 \/ combine_kBlockM = 8 \/ combine_kBlockM = 16
  \/ combine_kBlockM = 32 ->
  0 <= Log_max_splits <= 7 ->
  0 <= num_splits params <= kMaxSplits Log_max_splits ->
  0 <= col < combine_kBlockM ->
  bidx * combine_kBlockM + col < combine_total_rows params ->
  Is_even_K = true \/ c < p_d params ->
  0 <= s0 < num_splits params ->
  softmax_lseaccum_ptr
    (bidx * combine_kBlockM + s0 * combine_total_rows params + col)
  = Fin M ->
  (forall s, 0 <= s < num_splits params -> s <> s0 ->
     softmax_lseaccum_ptr
       (bidx * combine_kBlockM + s * combine_total_rows params + col)
     = NInf) ->
  (forall s, 0 <= s < num_splits params ->
     oaccum_ptr (bidx * combine_kBlockM * p_d_rounded params
                 + s * (combine_total_rows params * p_d_rounded params)
                 + col * kHeadDim kt + c)
     = Fin (o_split s)) ->
  combine_attn_seqk_parallel kt combine_kBlockM Log_max_splits Is_even_K
    params softmax_lseaccum_ptr oaccum_ptr bidx col c reg
  = [StoreLSE (bidx * combine_kBlockM + col) (Fin M);
     StoreO (combine_o_offset params (bidx * combine_kBlockM + col) c)
       (Fin (o_split s0))].
Proof.
  intros HkB HLog Hsplits Hcol Hidx Hc Hs0 Hone Hothers Ho.
  set (lse_split := fun s : Z => if s =? s0 then Some M else None).
  assert (Hlse : forall s, 0 <= s < num_splits params ->
            softmax_lseaccum_ptr
              (bidx * combine_kBlockM + s * combine_total_rows params + col)
            = fin_or_ninf (lse_split s)).
  { intros s Hs. unfold lse_split. destruct (s =? s0) eqn:E.
    - apply Z.eqb_eq in E. subst s. exact Hone.
    - apply Z.eqb_neq in E. apply Hothers; assumption. }
  assert (HM : is_max_lse (num_splits params) lse_split M).
  { split.
    - exists s0. split; [exact Hs0|]. unfold lse_split.
      rewrite Z.eqb_refl. reflexivity.
    - intros s x _ E. unfold lse_split in E.
      destruct (s =? s0); [|discriminate E].
      injection E as <-. lra. }
  assert (Hsum : forall ref g,
            zsum 0 (Z.to_nat (num_splits params))
              (fun s => lse_weight (lse_split s) ref * g s)%R
            = (exp (M - ref) * g s0)%R).
  { intros ref g.
    rewrite (zsum_single 0 _ _ s0).
    - unfold lse_split. rewrite Z.eqb_refl. reflexivity.
    - lia.
    - intros i Hi Hne. unfold lse_split.
      replace (i =? s0) with false by (symmetry; apply Z.eqb_neq; exact Hne).
      cbn [lse_weight]. lra. }
  assert (Hw : zsum 0 (Z.to_nat (num_splits params))
                 (fun s => lse_weight (lse_split s) M) = 1%R).
  { rewrite (zsum_ext _ _ _
               (fun s => lse_weight (lse_split s) M * (fun _ => 1) s)%R)
      by (intros i _; lra).
    rewrite Hsum. replace (M - M)%R with 0%R by lra. rewrite exp_0. lra. }
  pose proof (lse_logsum_max kt combine_kBlockM Log_max_splits params
                softmax_lseaccum_ptr oaccum_ptr bidx col c lse_split o_split
                HkB HLog Hsplits Hcol Hidx Hlse Ho M HM) as Hlog.
  rewrite Hw, ln_1 in Hlog.
  replace (M + 0)%R with M in Hlog by lra.
  rewrite (combine_shape kt combine_kBlockM Log_max_splits Is_even_K params
             softmax_lseaccum_ptr oaccum_ptr bidx col c reg lse_split
             o_split HkB HLog Hsplits Hcol Hidx Hc Hlse Ho (Fin M)
             (fun s => lse_weight (lse_split s) M) Hlog).
  - rewrite Hsum. replace (M - M)%R with 0%R by lra. rewrite exp_0.
    rewrite Rmult_1_l. reflexivity.
  - intros s _. apply fexp_fsub_weight.
Qed.

(** Two splits of one row: the first holds the partial LSE 0 and the
    partial output 1, the second saw no key. *)
Lemma combine_single_split_witness :
  combine_attn_seqk_parallel unit_traits 4 1 false two_split_params
    two_split_lseaccum two_split_oaccum 0 0 0 (Fin 0%R)
  = [StoreLSE (0 * 4 + 0) (Fin 0%R);
     StoreO (combine_o_offset two_split_params (0 * 4 + 0) 0)
       (Fin ((fun s : Z => if s =? 0 then 1%R else 0%R) 0))].
Proof.
  apply (combine_single_split unit_traits 4 1 false two_split_params
           two_split_lseaccum two_split_oaccum 0 0 0 (Fin 0%R) 0 0%R
           (fun s => if s =? 0 then 1%R else 0%R)).
  1-7: try (cbn; lia).
  - reflexivity.
  - intros s Hs Hne. cbn in Hs. assert (s = 1) by lia. subst s.
    reflexivity.
  - intros s Hs. cbn in Hs.
    assert (Hcases : s = 0 \/ s = 1) by lia.
    destruct Hcases as [-> | ->]; reflexivity.
Defined.

(** ** Rows whose keys are all masked *)

(** X21: the sentinel of a row without keys.  For a supported launch and
    a row of the queries whose keys are all masked, the tile range being
    empty or not, the dense kernel without dropout stores plus infinity
    as the LSE of the row, provided that the instantiation is causal,
    local or not [Is_even_MN], or that the sequence has keys; a block of
    the split kernel, with [Append_KV] or without (its slopes being
    there when [Has_alibi]), stores minus infinity as the partial LSE of
    the row. *)
Theorem masked_rows_lse_sentinel
    (Is_causal Is_local Has_alibi Is_even_MN Is_even_K Append_KV : bool)
    (kt : Kernel_traits) (params : Params) (binfo : BlockInfo)
    (keep : Z -> Z -> bool) (smem_ : Z -> Z -> fp) (blockIdx : Z * Z * Z)
    (tidx bidb bidh m_block n_split_idx num_n_splits r c : Z) :
  supported Is_causal Is_even_MN Is_even_K kt params binfo ->
  0 <= r < kBlockM kt -> 0 <= c < p_d params ->
  m_block * kBlockM kt + r < actual_seqlen_q binfo ->
  (forall col, 0 <= col < actual_seqlen_k binfo ->
     ref_masked Is_causal Is_local (actual_seqlen_q binfo)
       (actual_seqlen_k binfo) (window_size_left params)
       (window_size_right params) (m_block * kBlockM kt + r) col = true) ->
  (Is_causal || Is_local || negb Is_even_MN = true
   \/ 0 < actual_seqlen_k binfo ->
   In (StoreLSE (dense_LSE_index kt params bidb bidh m_block r) PInf)
      (compute_attn_1rowblock false Is_causal Is_local Has_alibi
         Is_even_MN Is_even_K kt params binfo keep smem_ blockIdx tidx
         bidb bidh m_block r c))
  /\ ((Has_alibi = true -> alibi_slopes_ptr params <> None) ->
      0 <= n_split_idx -> 0 <= p_seqlen_k params -> 1 <= num_n_splits ->
      In (StoreLSEaccum
            (split_LSEaccum_index kt params bidb bidh m_block n_split_idx r)
            NInf)
         (compute_attn_1rowblock_splitkv Is_causal Is_local Has_alibi
            Is_even_MN Is_even_K true Append_KV kt params binfo smem_
            bidb bidh m_block n_split_idx num_n_splits r c)).
Proof.
  intros Hsup Hr Hc Hrow Hall. split.
  - intros Hguard. destruct Hsup as [H1 H2 H3 H4 H5 H6 H7 H8 H9 H10].
    destruct (dense_masked_row_stores Is_causal Is_local Has_alibi
                Is_even_MN Is_even_K kt params binfo keep smem_ blockIdx
                tidx bidb bidh m_block r c H1 H2 H3 H4 Hc Hr Hrow H5 H6 H7
                H8 H9 H10 Hall Hguard) as [E|E]; rewrite E.
    + right. left. reflexivity.
    + left. reflexivity.
  - intros _ Hidx Hsk Hn.
    pose proof (sup_Bc _ _ _ _ _ _ Hsup) as HBc.
    set (n_min := split_n_block_min Is_local kt params binfo m_block
                    n_split_idx num_n_splits).
    set (n_max := split_n_block_max Is_causal Is_local kt params binfo
                    m_block n_split_idx num_n_splits).
    set (mem := split_memory Is_even_K Append_KV kt params binfo bidb bidh
                  n_min n_max).
    assert (Hmin : 0 <= n_min).
    { pose proof (per_split_nonneg kt params num_n_splits HBc Hsk Hn).
      unfold n_min, split_n_block_min.
      destruct (negb Is_local); nia. }
    destruct (split_masked_row_stores Is_causal Is_local Has_alibi
                Is_even_MN Is_even_K true Append_KV kt params binfo smem_
                bidb bidh m_block n_split_idx num_n_splits r c
                (split_Q Is_causal Is_local Is_even_MN Is_even_K Append_KV
                   kt params binfo smem_ bidb bidh m_block r)
                (tile_view kt (fst mem)
                   (fun n => split_row_offset_k kt params binfo bidb bidh
                               (n + 1))
                   (k_row_stride params))
                (fun col _ =>
                   tile_view kt (snd mem)
                     (fun n => split_row_offset_v kt params binfo bidb bidh
                                 (n + 1))
                     (v_row_stride params) col c)
                Hsup Hc Hr Hrow Hidx
                (per_split_nonneg kt params num_n_splits HBc Hsk Hn))
      as [E|E].
    + intros cc Hcc. apply split_load_q_view;
        [exact (sup_even_K _ _ _ _ _ _ Hsup)|lia|exact Hrow|exact Hcc].
    + intros n j cc _ Hj _ _.
      apply (tile_view_row kt (fst mem)
               (fun n => split_row_offset_k kt params binfo bidb bidh
                           (n + 1))); assumption.
    + intros n j _ Hj _.
      apply (tile_view_row kt (snd mem)
               (fun n => split_row_offset_v kt params binfo bidb bidh
                           (n + 1))); assumption.
    + intros col Hcol Hlt. apply Hall. fold n_min in Hcol. nia.
    + rewrite E. cbn [split_result_stores rev app]. right. left.
      reflexivity.
    + rewrite E. apply in_or_app. right. left. reflexivity.
Qed.

(** Two queries and one key under a causal mask, in tiles of 64: the
    first query sees no key, the second does, so that the block runs its
    loops. *)
Lemma masked_rows_lse_sentinel_witness :
  In (StoreLSE 0 PInf)
     (compute_attn_1rowblock false true false false false false
        one_key_traits masked_row_params masked_row_binfo (fun _ _ => true)
        (fun _ _ => Fin 0%R) (0, 0, 0) 0 0 0 0 0 0)
  /\ In (StoreLSEaccum 0 NInf)
        (compute_attn_1rowblock_splitkv true false false false false true
           false one_key_traits masked_row_params masked_row_binfo
           (fun _ _ => Fin 0%R) 0 0 0 0 1 0 0).
Proof.
  destruct (masked_rows_lse_sentinel true false false false false false
              one_key_traits masked_row_params masked_row_binfo
              (fun _ _ => true) (fun _ _ => Fin 0%R) (0, 0, 0)
              0 0 0 0 0 1 0 0 masked_row_supported)
    as [Hdense Hsplit].
  - cbn. lia.
  - cbn. lia.
  - cbn. lia.
  - intros col Hcol. cbn in Hcol. assert (col = 0) by lia. subst col.
    reflexivity.
  - split.
    + apply Hdense. left. reflexivity.
    + apply Hsplit; [intros E; discriminate E|cbn; lia|cbn; lia|lia].
Defined.

(** X22: the output of a row without keys.  For a supported launch on
    tensors of finite numbers (the memory of this development holds
    nothing else) and a row of the queries whose keys are all masked,
    the dense kernel without dropout stores 0 to the elements of O of
    the row, under the condition of X21 on its early exit, and a block
    of the split kernel stores 0 to the elements of Oaccum of the row:
    on the early exit the zero is stored as it is, after the loops it is
    the sum of the loaded values weighted by zero probabilities. *)
Theorem masked_rows_zero_output
    (Is_causal Is_local Has_alibi Is_even_MN Is_even_K Append_KV : bool)
    (kt : Kernel_traits) (params : Params) (binfo : BlockInfo)
    (keep : Z -> Z -> bool) (smem_ : Z -> Z -> fp) (blockIdx : Z * Z * Z)
    (tidx bidb bidh m_block n_split_idx num_n_splits r c : Z) :
  supported Is_causal Is_even_MN Is_even_K kt params binfo ->
  0 <= r < kBlockM kt -> 0 <= c < p_d params ->
  m_block * kBlockM kt + r < actual_seqlen_q binfo ->
  (forall col, 0 <= col < actual_seqlen_k binfo ->
     ref_masked Is_causal Is_local (actual_seqlen_q binfo)
       (actual_seqlen_k binfo) (window_size_left params)
       (window_size_right params) (m_block * kBlockM kt + r) col = true) ->
  (Is_causal || Is_local || negb Is_even_MN = true
   \/ 0 < actual_seqlen_k binfo ->
   In (StoreO (dense_O_index kt params binfo bidb bidh m_block r c)
         (Fin 0%R))
      (compute_attn_1rowblock false Is_causal Is_local Has_alibi
         Is_even_MN Is_even_K kt params binfo keep smem_ blockIdx tidx
         bidb bidh m_block r c))
  /\ ((Has_alibi = true -> alibi_slopes_ptr params <> None) ->
      0 <= n_split_idx -> 0 <= p_seqlen_k params -> 1 <= num_n_splits ->
      In (StoreOaccum
            (split_Oaccum_index kt params bidb bidh m_block n_split_idx r c)
            (Fin 0%R))
         (compute_attn_1rowblock_splitkv Is_causal Is_local Has_alibi
            Is_even_MN Is_even_K true Append_KV kt params binfo smem_
            bidb bidh m_block n_split_idx num_n_splits r c)).
Proof.
  intros Hsup Hr Hc Hrow Hall. split.
  - intros Hguard. destruct Hsup as [H1 H2 H3 H4 H5 H6 H7 H8 H9 H10].
    destruct (dense_masked_row_stores Is_causal Is_local Has_alibi
                Is_even_MN Is_even_K kt params binfo keep smem_ blockIdx
                tidx bidb bidh m_block r c H1 H2 H3 H4 Hc Hr Hrow H5 H6 H7
                H8 H9 H10 Hall Hguard) as [E|E]; rewrite E.
    + left. reflexivity.
    + right. left. reflexivity.
  - intros _ Hidx Hsk Hn.
    pose proof (sup_Bc _ _ _ _ _ _ Hsup) as HBc.
    set (n_min := split_n_block_min Is_local kt params binfo m_block
                    n_split_idx num_n_splits).
    set (n_max := split_n_block_max Is_causal Is_local kt params binfo
                    m_block n_split_idx num_n_splits).
    set (mem := split_memory Is_even_K Append_KV kt params binfo bidb bidh
                  n_min n_max).
    assert (Hmin : 0 <= n_min).
    { pose proof (per_split_nonneg kt params num_n_splits HBc Hsk Hn).
      unfold n_min, split_n_block_min.
      destruct (negb Is_local); nia. }
    destruct (split_masked_row_stores Is_causal Is_local Has_alibi
                Is_even_MN Is_even_K true Append_KV kt params binfo smem_
                bidb bidh m_block n_split_idx num_n_splits r c
                (split_Q Is_causal Is_local Is_even_MN Is_even_K Append_KV
                   kt params binfo smem_ bidb bidh m_block r)
                (tile_view kt (fst mem)
                   (fun n => split_row_offset_k kt params binfo bidb bidh
                               (n + 1))
                   (k_row_stride params))
                (fun col _ =>
                   tile_view kt (snd mem)
                     (fun n => split_row_offset_v kt params binfo bidb bidh
                                 (n + 1))
                     (v_row_stride params) col c)
                Hsup Hc Hr Hrow Hidx
                (per_split_nonneg kt params num_n_splits HBc Hsk Hn))
      as [E|E].
    + intros cc Hcc. apply split_load_q_view;
        [exact (sup_even_K _ _ _ _ _ _ Hsup)|lia|exact Hrow|exact Hcc].
    + intros n j cc _ Hj _ _.
      apply (tile_view_row kt (fst mem)
               (fun n => split_row_offset_k kt params binfo bidb bidh
                           (n + 1))); assumption.
    + intros n j _ Hj _.
      apply (tile_view_row kt (snd mem)
               (fun n => split_row_offset_v kt params binfo bidb bidh
                           (n + 1))); assumption.
    + intros col Hcol Hlt. apply Hall. fold n_min in Hcol. nia.
    + rewrite E. cbn [split_result_stores rev app]. left. reflexivity.
    + rewrite E. apply in_or_app. right. right. left. reflexivity.
Qed.

Lemma masked_rows_zero_output_witness :
  In (StoreO 0 (Fin 0%R))
     (compute_attn_1rowblock false true false false false false
        one_key_traits masked_row_params masked_row_binfo (fun _ _ => true)
        (fun _ _ => Fin 0%R) (0, 0, 0) 0 0 0 0 0 0)
  /\ In (StoreOaccum 0 (Fin 0%R))
        (compute_attn_1rowblock_splitkv true false false false false true
           false one_key_traits masked_row_params masked_row_binfo
           (fun _ _ => Fin 0%R) 0 0 0 0 1 0 0).
Proof.
  destruct (masked_rows_zero_output true false false false false false
              one_key_traits masked_row_params masked_row_binfo
              (fun _ _ => true) (fun _ _ => Fin 0%R) (0, 0, 0)
              0 0 0 0 0 1 0 0 masked_row_supported)
    as [Hdense Hsplit].
  - cbn. lia.
  - cbn. lia.
  - cbn. lia.
  - intros col Hcol. cbn in Hcol. assert (col = 0) by lia. subst col.
    reflexivity.
  - split.
    + apply Hdense. left. reflexivity.
    + apply Hsplit; [intros E; discriminate E|cbn; lia|cbn; lia|lia].
Defined.
